(** * DAV persistent heap: a shallow embedding of [src/common/dav/heap.c]

    The functions of [heap.c] are translated one by one.  Integers are [Z]
    with the wrap-around of their C type written out.  The modules that
    [heap.c] calls but that are not part of this development ([bucket],
    [recycler], [memblock], [alloc_class], the persistence operations and the
    statistics) are operations of an interface: the embedding performs them
    through a handler and records each call in a log. *)

From stdpp Require Import base numbers option list gmap.
From Equations Require Import Equations.
From Stdlib Require Import ZArith Lia.

#[local] Open Scope Z_scope.

(** ** Machine integers and error numbers *)

Definition wrap16 (x : Z) : Z := x mod 2 ^ 16.
Definition wrap32 (x : Z) : Z := x mod 2 ^ 32.
Definition wrap64 (x : Z) : Z := x mod 2 ^ 64.

Definition UINT32_MAX : Z := 2 ^ 32 - 1.

(** [<errno.h>] *)
Definition ENOENT : Z := 2.
Definition ENOMEM : Z := 12.
Definition EINVAL : Z := 22.

(** ** Constants of [heap_layout.h] and [alloc_class.h]

    The two headers are not part of the sources at hand; their constants are
    the fields of a class, and every property that needs a relation between
    them states it. *)

Class HeapLayout := {
  sizeof_heap_header : Z;
  sizeof_zone_header : Z;
  sizeof_chunk_header : Z;
  CHUNKSIZE : Z;
  MAX_CHUNK : Z;
  ZONE_HEADER_MAGIC : Z;
  ZONE_MIN_SIZE : Z;
  ZONE_MAX_SIZE : Z;
  HEAP_MIN_SIZE : Z;
  HEAP_SIGNATURE : list Z;
  HEAP_SIGNATURE_LEN : nat;
  CHUNK_TYPE_UNKNOWN : Z;
  CHUNK_TYPE_FREE : Z;
  CHUNK_TYPE_USED : Z;
  CHUNK_TYPE_RUN : Z;
  MAX_CHUNK_TYPE : Z;
  CHUNK_FLAGS_ALL_VALID : Z;
  MAX_ALLOCATION_CLASSES : Z;
  DEFAULT_ALLOC_CLASS_ID : Z
}.

(** ** Persistent layout *)

(** [struct heap_header] *)
Record heap_header := {
  signature : list Z;
  major : Z;
  minor : Z;
  chunksize : Z;
  chunks_per_zone : Z;
  checksum : Z
}.

(** [struct zone_header]: [uint32_t magic], [uint32_t size_idx]. *)
Record zone_header := {
  magic : Z;
  zh_size_idx : Z
}.

(** [struct chunk_header]: [uint16_t type], [uint16_t flags],
    [uint32_t size_idx]. *)
Record chunk_header := {
  hdr_type : Z;
  hdr_flags : Z;
  hdr_size_idx : Z
}.

(** [struct chunk_run_header] and the view of a chunk as a [struct chunk_run];
    only the header of the run is read by [heap.c]. *)
Record chunk_run_header := {
  block_size : Z;
  alignment : Z
}.

Record chunk_run := {
  run_hdr : chunk_run_header
}.

(** [struct zone].  The arrays [chunk_headers] and [chunks] are read by
    index without a bounds check in C; the model gives the element at every
    index, as the mapped memory does. *)
Record zone := {
  header : zone_header;
  chunk_headers : Z -> chunk_header;
  chunks : Z -> chunk_run
}.

(** [struct heap_layout]: the header followed by the zones. *)
Record heap_layout := {
  hl_header : heap_header;
  zone0 : Z -> zone
}.

(** [ZID_TO_ZONE(layoutp, zone_id)], as a value *)
Definition ZID_TO_ZONE (l : heap_layout) (zone_id : Z) : zone := zone0 l zone_id.

(** ** Allocation classes and memory blocks *)

Inductive alloc_class_type := CLASS_HUGE | CLASS_RUN.

(** [struct run_descriptor] *)
Record run_descriptor := {
  rdsc_flags : Z;
  rdsc_unit_size : Z;
  rdsc_size_idx : Z;
  rdsc_alignment : Z;
  rdsc_nallocs : Z
}.

(** [struct alloc_class] *)
Record alloc_class := {
  ac_id : Z;
  ac_type : alloc_class_type;
  ac_header_type : Z;
  ac_unit_size : Z;
  rdsc : run_descriptor
}.

Inductive memory_block_type := MEMORY_BLOCK_HUGE | MEMORY_BLOCK_RUN.

Inductive memblock_state := MEMBLOCK_STATE_UNKNOWN | MEMBLOCK_ALLOCATED | MEMBLOCK_FREE.

(** [struct memory_block].  [m_ops] is the pointer to the operation table of
    the block: [None] is NULL, [Some t] the table of block type [t].  The
    [heap] back pointer is the heap at hand. *)
Record memory_block := {
  chunk_id : Z;
  zone_id : Z;
  size_idx : Z;
  block_off : Z;
  m_ops : option memory_block_type;
  header_type : Z;
  type : memory_block_type
}.

(** [MEMORY_BLOCK_NONE] *)
Definition MEMORY_BLOCK_NONE : memory_block :=
  {| chunk_id := 0; zone_id := 0; size_idx := 0; block_off := 0;
     m_ops := None; header_type := 0; type := MEMORY_BLOCK_HUGE |}.

Definition set_chunk_id (v : Z) (m : memory_block) : memory_block :=
  {| chunk_id := v; zone_id := zone_id m; size_idx := size_idx m;
     block_off := block_off m; m_ops := m_ops m;
     header_type := header_type m; type := type m |}.

Definition set_zone_id (v : Z) (m : memory_block) : memory_block :=
  {| chunk_id := chunk_id m; zone_id := v; size_idx := size_idx m;
     block_off := block_off m; m_ops := m_ops m;
     header_type := header_type m; type := type m |}.

Definition set_size_idx (v : Z) (m : memory_block) : memory_block :=
  {| chunk_id := chunk_id m; zone_id := zone_id m; size_idx := v;
     block_off := block_off m; m_ops := m_ops m;
     header_type := header_type m; type := type m |}.

Definition set_block_off (v : Z) (m : memory_block) : memory_block :=
  {| chunk_id := chunk_id m; zone_id := zone_id m; size_idx := size_idx m;
     block_off := v; m_ops := m_ops m;
     header_type := header_type m; type := type m |}.

Definition set_header_type (v : Z) (m : memory_block) : memory_block :=
  {| chunk_id := chunk_id m; zone_id := zone_id m; size_idx := size_idx m;
     block_off := block_off m; m_ops := m_ops m;
     header_type := v; type := type m |}.

(** What [memblock_rebuild_state] reconstructs from the persistent headers:
    the operation table and the classification of the block. *)
Record block_class := {
  bc_type : memory_block_type;
  bc_header_type : Z
}.

Definition set_class (c : block_class) (m : memory_block) : memory_block :=
  {| chunk_id := chunk_id m; zone_id := zone_id m; size_idx := size_idx m;
     block_off := block_off m; m_ops := Some (bc_type c);
     header_type := bc_header_type c; type := bc_type c |}.

(** [struct run_bitmap]; [heap.c] reads [nbits] only. *)
Record run_bitmap := {
  nbits : Z
}.

(** [struct recycler_element] *)
Record recycler_element := {
  max_free_block : Z;
  free_space : Z;
  re_chunk_id : Z;
  re_zone_id : Z
}.

(** A bucket handle: the identity of the bucket and the allocation class it
    was created for ([bucket_alloc_class]).  A [struct bucket_locked] and the
    [struct bucket] obtained from it by [bucket_acquire] are the same handle:
    the model is sequential. *)
Record bucket := {
  bucket_id : Z;
  aclass : alloc_class
}.

Definition bucket_alloc_class (b : bucket) : alloc_class := aclass b.

(** A [struct recycler *] that is not NULL. *)
Definition recycler := Z.

(** ** The modules behind [heap.c]

    Every function of [bucket.h], [recycler.h], [memblock.h], the persistence
    operations, the locks and the statistics that [heap.c] calls is an
    operation; [reply] is the type of what the call gives back (its return
    value and the values written through its out parameters). *)

Inductive stat_name := heap_run_active | heap_run_allocated.

Inductive ext_op :=
| BucketAllocBlock (b : bucket) (m : memory_block)
| BucketInsertBlock (b : bucket) (m : memory_block)
| BucketRemoveBlock (b : bucket) (m : memory_block)
| BucketAttachRun (b : bucket) (m : memory_block)
| BucketDetachRun (b : bucket)
| RecyclerNew (nallocs : Z)
| RecyclerPut (r : recycler) (e : recycler_element)
| RecyclerGet (r : recycler) (m : memory_block)
| RecyclerRecalc (r : recycler) (force : Z)
| RecyclerIncUnaccounted (r : recycler) (m : memory_block)
| RecyclerElementNew (m : memory_block)
| MemblockRebuildState (m : memory_block)
| MemblockHugeInit (chunk_id zone_id size_idx : Z)
| MemblockRunInit (chunk_id zone_id : Z) (rd : run_descriptor)
| PrepHdr (ops : option memory_block_type) (m : memory_block) (s : memblock_state)
| GetLock (ops : option memory_block_type) (m : memory_block)
| GetBitmap (ops : option memory_block_type) (m : memory_block)
| ReinitChunk (ops : option memory_block_type) (m : memory_block)
| EnsureHeaderType (ops : option memory_block_type) (m : memory_block) (t : Z)
| MutexLock (lock : Z)
| MutexUnlock (lock : Z)
| WalPersistZoneHeader (zone_id : Z)
| StatsInc (n : stat_name) (v : Z)
| StatsSub (n : stat_name) (v : Z).

Definition reply (op : ext_op) : Type :=
  match op with
  | BucketAllocBlock _ _ => (Z * memory_block)%type
  | BucketInsertBlock _ _ => Z
  | BucketRemoveBlock _ _ => Z
  | BucketAttachRun _ _ => Z
  | BucketDetachRun _ => (Z * memory_block * Z)%type
  | RecyclerNew _ => option recycler
  | RecyclerPut _ _ => Z
  | RecyclerGet _ _ => (Z * memory_block)%type
  | RecyclerRecalc _ _ => list memory_block
  | RecyclerIncUnaccounted _ _ => unit
  | RecyclerElementNew _ => recycler_element
  | MemblockRebuildState _ => block_class
  | MemblockHugeInit _ _ _ => memory_block
  | MemblockRunInit _ _ _ => memory_block
  | PrepHdr _ _ _ => unit
  | GetLock _ _ => Z
  | GetBitmap _ _ => run_bitmap
  | ReinitChunk _ _ => unit
  | EnsureHeaderType _ _ _ => unit
  | MutexLock _ => unit
  | MutexUnlock _ => unit
  | WalPersistZoneHeader _ => unit
  | StatsInc _ _ => unit
  | StatsSub _ _ => unit
  end.

(** Messages of [ERR] and [D_CRIT]. *)
Inductive log_message :=
| lost_runtime_tracking_info (class_id : Z)
| failed_to_allocate_tracking_info.

(** An entry of the call log: a call with what it gave back, or a message. *)
Inductive event :=
| Call (op : ext_op) (r : reply op)
| Logged (msg : log_message).

(** The modules' side of the interface.  [volatile] is their state (the
    containers of the buckets, the active runs, the recyclers, the
    statistics); an operation reads and writes the persistent layout and that
    state.  [struct heap_rt] and [struct zone_set] are declared in [heap.c]
    itself, so no operation reaches them.  [alloc_class_by_run] and
    [util_checksum] are lookups without effect. *)
Class Externals := {
  volatile : Type;
  handle : forall op : ext_op, heap_layout -> volatile -> heap_layout * volatile * reply op;
  alloc_class_collection : Type;
  alloc_class_by_run : alloc_class_collection -> Z -> Z -> Z -> option alloc_class;
  util_checksum : heap_header -> bool
}.

(** ** Runtime state of the heap *)

Section Heap.
Context `{HeapLayout} `{Externals}.

(** [struct zone_set]: the arrays [buckets] and [recyclers] are indexed by
    class id; an absent key is a NULL entry. *)
Record zone_set := {
  zset_id : Z;
  default_bucket : bucket;
  buckets : gmap Z bucket;
  recyclers : gmap Z recycler
}.

(** [struct heap_rt] *)
Record heap_rt := {
  alloc_classes : alloc_class_collection;
  default_zset : zone_set;
  nlocks : Z;
  nzones : Z;
  zones_exhausted : Z
}.

(** [struct palloc_heap] together with the memory it points to: [layout] is
    the pointer [heap->layout], [mem] the persistent region at that address,
    [sizep] the value of [*heap->sizep], [vol] the state of the other
    modules and [calls] the log of what was called so far. *)
Record palloc_heap := {
  layout : Z;
  mem : heap_layout;
  rt : heap_rt;
  sizep : Z;
  vol : volatile;
  calls : list event
}.

Definition set_rt (r : heap_rt) (h : palloc_heap) : palloc_heap :=
  {| layout := layout h; mem := mem h; rt := r; sizep := sizep h;
     vol := vol h; calls := calls h |}.

Definition set_mem (l : heap_layout) (h : palloc_heap) : palloc_heap :=
  {| layout := layout h; mem := l; rt := rt h; sizep := sizep h;
     vol := vol h; calls := calls h |}.

Definition set_zones_exhausted (v : Z) (r : heap_rt) : heap_rt :=
  {| alloc_classes := alloc_classes r; default_zset := default_zset r;
     nlocks := nlocks r; nzones := nzones r; zones_exhausted := v |}.

Definition set_recycler (id : Z) (r : recycler) (t : heap_rt) : heap_rt :=
  {| alloc_classes := alloc_classes t;
     default_zset :=
       {| zset_id := zset_id (default_zset t);
          default_bucket := default_bucket (default_zset t);
          buckets := buckets (default_zset t);
          recyclers := <[id := r]> (recyclers (default_zset t)) |};
     nlocks := nlocks t; nzones := nzones t;
     zones_exhausted := zones_exhausted t |}.

Definition set_zone_header (zid : Z) (nhdr : zone_header) (l : heap_layout) : heap_layout :=
  {| hl_header := hl_header l;
     zone0 := fun z =>
       let zn := zone0 l z in
       if z =? zid
       then {| header := nhdr;
               chunk_headers := chunk_headers zn;
               chunks := chunks zn |}
       else zn |}.

(** ** The monad of [heap.c]

    A function takes the heap and gives back its result and the heap after
    it.  [None] is the absence of a result: a loop that is still running when
    the fuel is spent, or a NULL pointer dereferenced. *)

Definition M (A : Type) : Type := palloc_heap -> option (A * palloc_heap).

#[global] Instance M_ret : MRet M := fun A a h => Some (a, h).
#[global] Instance M_bind : MBind M := fun A B f m h =>
  match m h with
  | Some (a, h') => f a h'
  | None => None
  end.

Definition get_heap : M palloc_heap := fun h => Some (h, h).
Definition modify_heap (f : palloc_heap -> palloc_heap) : M unit :=
  fun h => Some (tt, f h).
Definition no_result {A} : M A := fun _ => None.

(** A call into another module: the handler runs on the layout and the
    volatile state, and the call is logged. *)
Definition perform (op : ext_op) : M (reply op) := fun h =>
  let '(l, v, r) := handle op (mem h) (vol h) in
  Some (r, {| layout := layout h; mem := l; rt := rt h; sizep := sizep h;
              vol := v; calls := calls h ++ [Call op r] |}).

Definition log_msg (msg : log_message) : M unit := fun h =>
  Some (tt, {| layout := layout h; mem := mem h; rt := rt h; sizep := sizep h;
               vol := vol h; calls := calls h ++ [Logged msg] |}).

Definition ERR := log_msg.
Definition D_CRIT := log_msg.

Definition bucket_alloc_block b m : M (Z * memory_block) := perform (BucketAllocBlock b m).
Definition bucket_insert_block b m : M Z := perform (BucketInsertBlock b m).
Definition bucket_remove_block b m : M Z := perform (BucketRemoveBlock b m).
Definition bucket_attach_run b m : M Z := perform (BucketAttachRun b m).
Definition bucket_detach_run b : M (Z * memory_block * Z) := perform (BucketDetachRun b).
Definition recycler_new nallocs : M (option recycler) := perform (RecyclerNew nallocs).
Definition recycler_put r e : M Z := perform (RecyclerPut r e).
Definition recycler_get r m : M (Z * memory_block) := perform (RecyclerGet r m).
Definition recycler_recalc r force : M (list memory_block) := perform (RecyclerRecalc r force).
Definition recycler_inc_unaccounted r m : M unit := perform (RecyclerIncUnaccounted r m).
Definition recycler_element_new m : M recycler_element := perform (RecyclerElementNew m).
Definition memblock_huge_init cid zid sidx : M memory_block := perform (MemblockHugeInit cid zid sidx).
Definition memblock_run_init cid zid rd : M memory_block := perform (MemblockRunInit cid zid rd).
Definition prep_hdr ops m s : M unit := perform (PrepHdr ops m s).
Definition get_lock ops m : M Z := perform (GetLock ops m).
Definition get_bitmap ops m : M run_bitmap := perform (GetBitmap ops m).
Definition reinit_chunk ops m : M unit := perform (ReinitChunk ops m).
Definition ensure_header_type ops m t : M unit := perform (EnsureHeaderType ops m t).
Definition util_mutex_lock l : M unit := perform (MutexLock l).
Definition util_mutex_unlock l : M unit := perform (MutexUnlock l).
Definition mo_wal_persist_zone_header zid : M unit := perform (WalPersistZoneHeader zid).
Definition STATS_INC n v : M unit := perform (StatsInc n v).
Definition STATS_SUB n v : M unit := perform (StatsSub n v).

(** Modelled from the spec: [memblock_rebuild_state] is not in the sources
    at hand; it "reconstructs the vtable and classification from the
    persistent headers" of the block it is given, and leaves the position and
    the size of the block as they are. *)
Definition memblock_rebuild_state (m : memory_block) : M memory_block :=
  c ← perform (MemblockRebuildState m); mret (set_class c m).

(** Modelled from the spec: [heap_get_chunk_hdr] and [heap_get_chunk_run]
    are not in the sources at hand; a block is identified by (zone, chunk),
    and its chunk header and its run are the elements at index [chunk_id] of
    the arrays of zone [zone_id]. *)
Definition heap_get_chunk_hdr (l : heap_layout) (m : memory_block) : chunk_header :=
  chunk_headers (ZID_TO_ZONE l (zone_id m)) (chunk_id m).

Definition heap_get_chunk_run (l : heap_layout) (m : memory_block) : chunk_run :=
  chunks (ZID_TO_ZONE l (zone_id m)) (chunk_id m).


(** ** [heap.c] *)

(** [heap_get_zoneset]: evictable zone sets are not implemented, the zone
    set of every zone is the default one.  A [struct zone_set *] in the
    source is therefore always [heap->rt->default_zset]; the functions below
    read it from the runtime state instead of taking it as an argument, and
    [bucket_get_zoneset] and [recycler_get_zoneset] give it as well. *)
Definition heap_get_zoneset (h : palloc_heap) (zone_id : Z) : zone_set :=
  default_zset (rt h).

(** [heap_get_recycler]: the slot is read; when it is NULL a recycler is
    created and stored.  The compare-and-swap fails only when another thread
    fills the slot in between, which the sequential model does not have. *)
Definition heap_get_recycler (id nallocs : Z) : M (option recycler) :=
  h ← get_heap;
  match recyclers (default_zset (rt h)) !! id with
  | Some r => mret (Some r)
  | None =>
      r ← recycler_new nallocs;
      match r with
      | Some r' =>
          modify_heap (fun h' => set_rt (set_recycler id r' (rt h')) h');;
          mret (Some r')
      | None => mret None
      end
  end.

(** [zoneset_bucket_acquire]; a NULL entry of [buckets] is [None]. *)
Definition zoneset_bucket_acquire (zset : zone_set) (class_id : Z) : option bucket :=
  if class_id =? DEFAULT_ALLOC_CLASS_ID
  then Some (default_bucket zset)
  else buckets zset !! class_id.

(** [heap_max_zone]: [size] is a [size_t], [max_zone] an [unsigned].
    [heap_max_zone_step] is what one iteration subtracts,
    [size <= ZONE_MAX_SIZE ? size : ZONE_MAX_SIZE].  The loop is defined by
    recursion on [size]; when the amount subtracted is 0 the C loop runs for
    ever with the same [size], which is [None]. *)
Definition heap_max_zone_step (size : Z) : Z :=
  if size <=? ZONE_MAX_SIZE then size else ZONE_MAX_SIZE.

Equations? heap_max_zone_loop (size max_zone : Z) : option Z by wf (Z.to_nat size) lt :=
  heap_max_zone_loop size max_zone with Z_ge_lt_dec size ZONE_MIN_SIZE => {
    | right _ := Some max_zone
    | left _ with Z_lt_le_dec 0 (heap_max_zone_step size) => {
      | left _ :=
          heap_max_zone_loop (size - heap_max_zone_step size) (wrap32 (max_zone + 1))
      | right _ := None } }.
Proof.
  unfold heap_max_zone_step in *.
  destruct (Z.leb_spec size ZONE_MAX_SIZE); lia.
Qed.

Definition heap_max_zone (size : Z) : option Z :=
  heap_max_zone_loop (wrap64 (size - sizeof_heap_header)) 0.

(** [zone_calc_size_idx]; the assertions are compiled out. *)
Definition zone_calc_size_idx (zone_id max_zone heap_size : Z) : Z :=
  if zone_id <? wrap32 (max_zone - 1) then MAX_CHUNK
  else
    let zone_raw_size := wrap64 (heap_size - wrap64 (zone_id * ZONE_MAX_SIZE)) in
    let zone_raw_size :=
      wrap64 (zone_raw_size -
              wrap64 (sizeof_zone_header + sizeof_chunk_header * MAX_CHUNK +
                      sizeof_heap_header)) in
    let zone_size_idx := zone_raw_size / CHUNKSIZE in
    wrap32 zone_size_idx.

(** [heap_zone_init] *)
Definition heap_zone_init (zone_id first_chunk_id : Z) : M unit :=
  h ← get_heap;
  let size_idx := zone_calc_size_idx zone_id (nzones (rt h)) (sizep h) in
  _ ← memblock_huge_init first_chunk_id zone_id (wrap32 (size_idx - first_chunk_id));
  let nhdr := {| magic := ZONE_HEADER_MAGIC; zh_size_idx := size_idx |} in
  modify_heap (fun h' => set_mem (set_zone_header zone_id nhdr (mem h')) h');;
  mo_wal_persist_zone_header zone_id.

(** [heap_get_adjacent_free_block]: the result is the return value and the
    block written through [out]. *)
Definition heap_get_adjacent_free_block (in_ out : memory_block) (prev : Z)
  : M (Z * memory_block) :=
  h ← get_heap;
  let z := ZID_TO_ZONE (mem h) (zone_id in_) in
  let hdr := chunk_headers z (chunk_id in_) in
  let out := set_zone_id (zone_id in_) out in
  if prev =? 0 then
    if wrap32 (chunk_id in_ + hdr_size_idx hdr) =? zh_size_idx (header z)
    then mret (ENOENT, out)
    else
      let out := set_chunk_id (wrap32 (chunk_id in_ + hdr_size_idx hdr)) out in
      if hdr_type (chunk_headers z (chunk_id out)) =? CHUNK_TYPE_FREE then
        let out := set_size_idx (hdr_size_idx (chunk_headers z (chunk_id out))) out in
        out ← memblock_rebuild_state out;
        mret (0, out)
      else mret (ENOENT, out)
  else
    if chunk_id in_ =? 0 then mret (ENOENT, out)
    else
      let prev_hdr := chunk_headers z (chunk_id in_ - 1) in
      let out := set_chunk_id (wrap32 (chunk_id in_ - hdr_size_idx prev_hdr)) out in
      if hdr_type (chunk_headers z (chunk_id out)) =? CHUNK_TYPE_FREE then
        let out := set_size_idx (hdr_size_idx (chunk_headers z (chunk_id out))) out in
        out ← memblock_rebuild_state out;
        mret (0, out)
      else mret (ENOENT, out).

(** The loop of [heap_coalesce]: [b] is the first block that is not NULL,
    the sizes are added in a [uint32_t]. *)
Fixpoint heap_coalesce_loop (blocks : list (option memory_block))
    (b : option memory_block) (sz : Z) : option memory_block * Z :=
  match blocks with
  | [] => (b, sz)
  | None :: blocks' => heap_coalesce_loop blocks' b sz
  | Some x :: blocks' =>
      heap_coalesce_loop blocks'
        (match b with Some _ => b | None => Some x end)
        (wrap32 (sz + size_idx x))
  end.

(** [heap_coalesce]; with no block at all [b] is NULL and is dereferenced. *)
Definition heap_coalesce (blocks : list (option memory_block)) : M memory_block :=
  let '(b, sz) := heap_coalesce_loop blocks None 0 in
  match b with
  | None => no_result
  | Some b =>
      let ret := set_size_idx sz MEMORY_BLOCK_NONE in
      let ret := set_chunk_id (chunk_id b) ret in
      let ret := set_zone_id (zone_id b) ret in
      let ret := set_block_off (block_off b) ret in
      memblock_rebuild_state ret
  end.

(** The two tests of [heap_coalesce_huge],
    [heap_get_adjacent_free_block(heap, m, &x, prev) == 0 &&
     bucket_remove_block(b, &x) == 0]: the neighbour when both calls return
    0, and NULL otherwise; [bucket_remove_block] is not called when the
    first test fails. *)
Definition removed_neighbour (b : bucket) (m : memory_block) (prev : Z)
  : M (option memory_block) :=
  '(r, x) ← heap_get_adjacent_free_block m MEMORY_BLOCK_NONE prev;
  if r =? 0 then
    r' ← bucket_remove_block b x;
    mret (if r' =? 0 then Some x else None)
  else mret None.

(** [heap_coalesce_huge] *)
Definition heap_coalesce_huge (b : bucket) (m : memory_block) : M memory_block :=
  blocks0 ← removed_neighbour b m 1;
  blocks2 ← removed_neighbour b m 0;
  heap_coalesce [blocks0; Some m; blocks2].

(** [heap_free_chunk_reuse]: the result is the return value and the block
    left in [*m]. *)
Definition heap_free_chunk_reuse (bucket : bucket) (m : memory_block)
  : M (Z * memory_block) :=
  nm ← heap_coalesce_huge bucket m;
  (if size_idx nm =? size_idx m then mret tt
   else prep_hdr (m_ops m) nm MEMBLOCK_FREE);;
  r ← bucket_insert_block bucket nm;
  mret (r, nm).

(** [heap_run_into_free_chunk]; the result is the block left in [*m]. *)
Definition heap_run_into_free_chunk (bucket : bucket) (m : memory_block)
  : M memory_block :=
  h ← get_heap;
  let hdr := heap_get_chunk_hdr (mem h) m in
  let m := set_block_off 0 m in
  let m := set_size_idx (hdr_size_idx hdr) m in
  STATS_SUB heap_run_active (wrap64 (size_idx m * CHUNKSIZE));;
  lock ← get_lock (m_ops m) m;
  util_mutex_lock lock;;
  m ← memblock_huge_init (chunk_id m) (zone_id m) (size_idx m);
  '(_, m) ← heap_free_chunk_reuse bucket m;
  util_mutex_unlock lock;;
  mret m.

(** [heap_reclaim_run] *)
Definition heap_reclaim_run (m : memory_block) (startup : Z) : M Z :=
  h ← get_heap;
  let run := heap_get_chunk_run (mem h) m in
  let hdr := heap_get_chunk_hdr (mem h) m in
  let c := alloc_class_by_run (alloc_classes (rt h))
             (block_size (run_hdr run)) (hdr_flags hdr) (size_idx m) in
  e ← recycler_element_new m;
  match c with
  | None =>
      b ← get_bitmap (m_ops m) m;
      mret (if free_space e =? nbits b then 1 else 0)
  | Some c =>
      if free_space e =? rdsc_nallocs (rdsc c) then mret 1
      else
        (if startup =? 0 then mret tt
         else
           STATS_INC heap_run_active (wrap64 (size_idx m * CHUNKSIZE));;
           h' ← get_heap;
           STATS_INC heap_run_allocated
             (wrap64 (wrap32 (rdsc_nallocs (rdsc c) - free_space e) *
                      block_size (run_hdr (heap_get_chunk_run (mem h') m)))));;
        recycler ← heap_get_recycler (ac_id c) (rdsc_nallocs (rdsc c));
        match recycler with
        | None => ERR (lost_runtime_tracking_info (ac_id c))
        | Some r =>
            ret ← recycler_put r e;
            if ret <? 0 then ERR (lost_runtime_tracking_info (ac_id c))
            else mret tt
        end;;
        mret 0
  end.

(** [heap_reclaim_zone_garbage]: the [for] loop, one iteration per unit of
    fuel.  [ASSERT(0)] of the [default] case is compiled out. *)
Fixpoint heap_reclaim_zone_garbage_loop (fuel : nat) (bucket : bucket)
    (zone_id i : Z) : M unit :=
  match fuel with
  | O => no_result
  | S fuel' =>
      h ← get_heap;
      if i <? zh_size_idx (header (ZID_TO_ZONE (mem h) zone_id)) then
        let hdr := chunk_headers (ZID_TO_ZONE (mem h) zone_id) i in
        let m := set_zone_id zone_id MEMORY_BLOCK_NONE in
        let m := set_chunk_id i m in
        let m := set_size_idx (hdr_size_idx hdr) m in
        m ← memblock_rebuild_state m;
        reinit_chunk (m_ops m) m;;
        h' ← get_heap;
        let ty := hdr_type (chunk_headers (ZID_TO_ZONE (mem h') zone_id) i) in
        m ← (if ty =? CHUNK_TYPE_RUN then
               r ← heap_reclaim_run m 1;
               if r =? 0 then mret m else heap_run_into_free_chunk bucket m
             else if ty =? CHUNK_TYPE_FREE then
               '(_, m') ← heap_free_chunk_reuse bucket m; mret m'
             else mret m);
        heap_reclaim_zone_garbage_loop fuel' bucket zone_id
          (wrap32 (chunk_id m + size_idx m))
      else mret tt
  end.

Definition heap_reclaim_zone_garbage (fuel : nat) (bucket : bucket) (zone_id : Z)
  : M unit :=
  heap_reclaim_zone_garbage_loop fuel bucket zone_id 0.

(** [heap_populate_bucket] *)
Definition heap_populate_bucket (fuel : nat) (bucket : bucket) : M Z :=
  h ← get_heap;
  if zones_exhausted (rt h) =? nzones (rt h) then mret ENOMEM
  else
    let zone_id := zones_exhausted (rt h) in
    modify_heap (fun h' =>
      set_rt (set_zones_exhausted (wrap32 (zone_id + 1)) (rt h')) h');;
    (if magic (header (ZID_TO_ZONE (mem h) zone_id)) =? ZONE_HEADER_MAGIC
     then mret tt
     else heap_zone_init zone_id 0);;
    heap_reclaim_zone_garbage fuel bucket zone_id;;
    mret 0.

(** [VEC_FOREACH_BY_PTR(nm, &r) heap_run_into_free_chunk(heap, b, nm)] *)
Fixpoint foreach_run_into_free_chunk (b : bucket) (r : list memory_block) : M unit :=
  match r with
  | [] => mret tt
  | nm :: r' =>
      _ ← heap_run_into_free_chunk b nm;
      foreach_run_into_free_chunk b r'
  end.

(** [heap_recycle_unused]; [defb] is [None] for a NULL bucket. *)
Definition heap_recycle_unused (recycler : recycler) (defb : option bucket)
    (force : Z) : M Z :=
  r ← recycler_recalc recycler force;
  if bool_decide (r = []) then mret ENOMEM
  else
    h ← get_heap;
    let zset := default_zset (rt h) in
    let nb := match defb with
              | None => zoneset_bucket_acquire zset DEFAULT_ALLOC_CLASS_ID
              | Some _ => None
              end in
    match (match defb with Some d => Some d | None => nb end) with
    | None => no_result
    | Some b => foreach_run_into_free_chunk b r;; mret 0
    end.

(** The loop of [heap_reclaim_garbage] over the class ids. *)
Fixpoint heap_reclaim_garbage_loop (ids : list Z) (bucket : bucket) (ret : Z) : M Z :=
  match ids with
  | [] => mret ret
  | i :: ids' =>
      h ← get_heap;
      match recyclers (default_zset (rt h)) !! i with
      | None => heap_reclaim_garbage_loop ids' bucket ret
      | Some r =>
          x ← heap_recycle_unused r (Some bucket) 1;
          heap_reclaim_garbage_loop ids' bucket (if x =? 0 then 0 else ret)
      end
  end.

(** [heap_reclaim_garbage] *)
Definition heap_reclaim_garbage (bucket : bucket) : M Z :=
  heap_reclaim_garbage_loop (seqZ 0 MAX_ALLOCATION_CLASSES) bucket ENOMEM.

(** [heap_ensure_huge_bucket_filled]; the call of [heap_extend] is disabled
    by [#if 0]. *)
Definition heap_ensure_huge_bucket_filled (fuel : nat) (bucket : bucket) : M Z :=
  r ← heap_reclaim_garbage bucket;
  if r =? 0 then mret 0
  else
    r ← heap_populate_bucket fuel bucket;
    if r =? 0 then mret 0
    else
      r ← heap_populate_bucket fuel bucket;
      if r =? 0 then mret 0 else mret ENOMEM.

(** [heap_discard_run]; the result is the block left in [*m]. *)
Definition heap_discard_run (m : memory_block) : M memory_block :=
  h ← get_heap;
  let zset := heap_get_zoneset h (zone_id m) in
  r ← heap_reclaim_run m 0;
  if r =? 0 then mret m
  else
    match zoneset_bucket_acquire zset DEFAULT_ALLOC_CLASS_ID with
    | None => no_result
    | Some b => heap_run_into_free_chunk b m
    end.

(** [heap_detach_and_try_discard_run] *)
Definition heap_detach_and_try_discard_run (b : bucket) : M Z :=
  '(r, m, empty) ← bucket_detach_run b;
  if r =? 0 then
    (if empty =? 0 then mret tt else _ ← heap_discard_run m; mret tt);;
    mret 0
  else mret (-1).

(** [heap_reuse_from_recycler] *)
Definition heap_reuse_from_recycler (b : bucket) (units force : Z) : M Z :=
  let m := set_size_idx units MEMORY_BLOCK_NONE in
  let aclass := bucket_alloc_class b in
  recycler ← heap_get_recycler (ac_id aclass) (rdsc_nallocs (rdsc aclass));
  match recycler with
  | None => ERR (lost_runtime_tracking_info (ac_id aclass));; mret 0
  | Some recycler =>
      '(got, m) ← (if force =? 0
                   then '(r, m') ← recycler_get recycler m; mret (r =? 0, m')
                   else mret (false, m));
      if got : bool then bucket_attach_run b m
      else
        _ ← heap_recycle_unused recycler None force;
        '(r, m) ← recycler_get recycler m;
        if r =? 0 then bucket_attach_run b m else mret ENOMEM
  end.

(** [heap_run_create]: the result of [bucket_attach_run] is dropped. *)
Definition heap_run_create (b : bucket) (m : memory_block) : M (Z * memory_block) :=
  let aclass := bucket_alloc_class b in
  m ← memblock_run_init (chunk_id m) (zone_id m) (rdsc aclass);
  _ ← bucket_attach_run b m;
  STATS_INC heap_run_active (wrap64 (size_idx m * CHUNKSIZE));;
  mret (0, m).

(** [heap_ensure_run_bucket_filled].  It calls [heap_get_bestfit_block] on
    the default bucket, and is called by it: [bestfit] is that function with
    the fuel left. *)
Definition heap_ensure_run_bucket_filled_with
    (bestfit : bucket -> memory_block -> M (Z * memory_block))
    (fuel : nat) (b : bucket) (units : Z) : M Z :=
  let aclass := bucket_alloc_class b in
  r ← heap_detach_and_try_discard_run b;
  if r =? 0 then
    r ← heap_reuse_from_recycler b units 0;
    if r =? 0 then mret 0
    else
      h ← get_heap;
      match zoneset_bucket_acquire (default_zset (rt h)) DEFAULT_ALLOC_CLASS_ID with
      | None => no_result
      | Some defb =>
          _ ← heap_populate_bucket fuel defb;
          r ← heap_reuse_from_recycler b units 0;
          if r =? 0 then mret 0
          else
            let m := set_size_idx (rdsc_size_idx (rdsc aclass)) MEMORY_BLOCK_NONE in
            h ← get_heap;
            match zoneset_bucket_acquire (default_zset (rt h)) DEFAULT_ALLOC_CLASS_ID with
            | None => no_result
            | Some defb =>
                '(r, m) ← bestfit defb m;
                if r =? 0 then
                  '(r, _) ← heap_run_create b m;
                  if r =? 0 then mret 0 else mret ENOMEM
                else
                  r ← heap_reuse_from_recycler b units 0;
                  if r =? 0 then mret 0 else mret ENOMEM
            end
      end
  else mret ENOMEM.

(** [heap_memblock_on_free] *)
Definition heap_memblock_on_free (m : memory_block) : M unit :=
  match type m with
  | MEMORY_BLOCK_HUGE => mret tt
  | MEMORY_BLOCK_RUN =>
      h ← get_heap;
      let hdr := heap_get_chunk_hdr (mem h) m in
      let run := heap_get_chunk_run (mem h) m in
      match alloc_class_by_run (alloc_classes (rt h))
              (block_size (run_hdr run)) (hdr_flags hdr) (hdr_size_idx hdr) with
      | None => mret tt
      | Some c =>
          recycler ← heap_get_recycler (ac_id c) (rdsc_nallocs (rdsc c));
          match recycler with
          | None => ERR (lost_runtime_tracking_info (ac_id c))
          | Some r => recycler_inc_unaccounted r m
          end
      end
  end.

(** [heap_split_block]; the result is the block left in [*m]. *)
Definition heap_split_block (b : bucket) (m : memory_block) (units : Z)
  : M memory_block :=
  let aclass := bucket_alloc_class b in
  m ← match ac_type aclass with
      | CLASS_RUN =>
          let r := {| chunk_id := chunk_id m; zone_id := zone_id m;
                      size_idx := wrap32 (size_idx m - units);
                      block_off := wrap32 (block_off m + units);
                      m_ops := None; header_type := 0;
                      type := MEMORY_BLOCK_HUGE |} in
          r ← memblock_rebuild_state r;
          x ← bucket_insert_block b r;
          (if x =? 0 then mret tt else D_CRIT failed_to_allocate_tracking_info);;
          mret m
      | CLASS_HUGE =>
          let new_chunk_id := wrap32 (chunk_id m + units) in
          let new_size_idx := wrap32 (size_idx m - units) in
          n ← memblock_huge_init new_chunk_id (zone_id m) new_size_idx;
          m' ← memblock_huge_init (chunk_id m) (zone_id m) units;
          x ← bucket_insert_block b n;
          (if x =? 0 then mret tt else D_CRIT failed_to_allocate_tracking_info);;
          mret m'
      end;
  mret (set_size_idx units m).

(** [heap_get_bestfit_block]: the [while] loop, one iteration per unit of
    fuel, followed by the split and the header type.  [units] is
    [m->size_idx] at entry.  The result is the return value and the block
    left in [*m]. *)
Fixpoint heap_get_bestfit_block_loop (fuel : nat) (b : bucket) (units : Z)
    (m : memory_block) : M (Z * memory_block) :=
  match fuel with
  | O => no_result
  | S fuel' =>
      let aclass := bucket_alloc_class b in
      '(r, m) ← bucket_alloc_block b m;
      if r =? 0 then
        m ← (if units =? size_idx m then mret m else heap_split_block b m units);
        ensure_header_type (m_ops m) m (ac_header_type aclass);;
        mret (0, set_header_type (ac_header_type aclass) m)
      else
        x ← match ac_type aclass with
            | CLASS_HUGE => heap_ensure_huge_bucket_filled fuel' b
            | CLASS_RUN =>
                heap_ensure_run_bucket_filled_with
                  (fun defb dm =>
                     heap_get_bestfit_block_loop fuel' defb (size_idx dm) dm)
                  fuel' b units
            end;
        if x =? 0 then heap_get_bestfit_block_loop fuel' b units m
        else mret (ENOMEM, m)
  end.

Definition heap_get_bestfit_block (fuel : nat) (b : bucket) (m : memory_block)
  : M (Z * memory_block) :=
  heap_get_bestfit_block_loop fuel b (size_idx m) m.

Definition heap_ensure_run_bucket_filled (fuel : nat) (b : bucket) (units : Z) : M Z :=
  heap_ensure_run_bucket_filled_with (heap_get_bestfit_block fuel) fuel b units.

(** Modelled from the spec: the macro [ZID_TO_ZONE] and [struct zone] are
    not in the sources at hand.  The heap header is at offset 0 of the
    layout and the zones follow it, [ZONE_MAX_SIZE] bytes apart; a zone is
    its header, [MAX_CHUNK] chunk headers and the chunks.  Addresses are
    64-bit. *)
Definition ZID_TO_ZONE_ptr (layoutp zone_id : Z) : Z :=
  wrap64 (layoutp + sizeof_heap_header + ZONE_MAX_SIZE * zone_id).

Definition chunks_ptr (zonep i : Z) : Z :=
  wrap64 (zonep + sizeof_zone_header + sizeof_chunk_header * MAX_CHUNK +
          CHUNKSIZE * i).

(** [heap_end] *)
Definition heap_end (h : palloc_heap) : Z :=
  let last := wrap32 (nzones (rt h) - 1) in
  let last_zone := ZID_TO_ZONE (mem h) last in
  chunks_ptr (ZID_TO_ZONE_ptr (layout h) last) (zh_size_idx (header last_zone)).

(** [heap_verify_header] *)
Definition heap_verify_header (hdr : heap_header) : Z :=
  if negb (util_checksum hdr) then -1
  else if bool_decide (take HEAP_SIGNATURE_LEN (signature hdr) =
                       take HEAP_SIGNATURE_LEN HEAP_SIGNATURE)
  then 0 else -1.

(** [heap_verify_zone_header] *)
Definition heap_verify_zone_header (hdr : zone_header) : Z :=
  if magic hdr =? ZONE_HEADER_MAGIC then
    if zh_size_idx hdr =? 0 then -1 else 0
  else 0.

(** [heap_verify_chunk_header] *)
Definition heap_verify_chunk_header (hdr : chunk_header) : Z :=
  if hdr_type hdr =? CHUNK_TYPE_UNKNOWN then -1
  else if MAX_CHUNK_TYPE <=? hdr_type hdr then -1
  else if Z.land (hdr_flags hdr) (Z.lnot CHUNK_FLAGS_ALL_VALID) =? 0 then 0
  else -1.

(** The [for] loop of [heap_verify_zone], one iteration per unit of fuel;
    [None] when the fuel is spent. *)
Fixpoint heap_verify_zone_loop (fuel : nat) (zone : zone) (i : Z) : option Z :=
  match fuel with
  | O => None
  | S fuel' =>
      if i <? zh_size_idx (header zone) then
        if heap_verify_chunk_header (chunk_headers zone i) =? 0
        then heap_verify_zone_loop fuel' zone
               (wrap32 (i + hdr_size_idx (chunk_headers zone i)))
        else Some (-1)
      else if i =? zh_size_idx (header zone) then Some 0 else Some (-1)
  end.

(** [heap_verify_zone] *)
Definition heap_verify_zone (fuel : nat) (zone : zone) : option Z :=
  if magic (header zone) =? 0 then Some 0
  else if magic (header zone) =? ZONE_HEADER_MAGIC then
    if heap_verify_zone_header (header zone) =? 0
    then heap_verify_zone_loop fuel zone 0
    else Some (-1)
  else Some (-1).

(** The loop of [heap_check] over the zones. *)
Fixpoint heap_check_loop (fuel : nat) (l : heap_layout) (ids : list Z) : option Z :=
  match ids with
  | [] => Some 0
  | i :: ids' =>
      match heap_verify_zone fuel (ZID_TO_ZONE l i) with
      | None => None
      | Some r => if r =? 0 then heap_check_loop fuel l ids' else Some (-1)
      end
  end.

(** [heap_check]: [l] is the region at [heap_start]. *)
Definition heap_check (fuel : nat) (l : heap_layout) (heap_size : Z) : option Z :=
  if heap_size <? HEAP_MIN_SIZE then Some (-1)
  else if heap_verify_header (hl_header l) =? 0 then
    match heap_max_zone heap_size with
    | None => None
    | Some n => heap_check_loop fuel l (seqZ 0 n)
    end
  else Some (-1).

End Heap.


(** ** More of [heap.c] *)

Section HeapMore.
Context `{HeapLayout} `{Externals}.

(** [heap_zone_update_if_needed]: the [for] loop over the zone ids.  Its
    bound [heap->rt->nzones] is a field of the runtime state, which the body
    does not write; the ids are those below it. *)
Fixpoint heap_zone_update_loop (ids : list Z) : M unit :=
  match ids with
  | [] => mret tt
  | i :: ids' =>
      h ← get_heap;
      let z := ZID_TO_ZONE (mem h) i in
      (if magic (header z) =? ZONE_HEADER_MAGIC then
         let size_idx := zone_calc_size_idx i (nzones (rt h)) (sizep h) in
         if size_idx =? zh_size_idx (header z) then mret tt
         else heap_zone_init i (zh_size_idx (header z))
       else mret tt);;
      heap_zone_update_loop ids'
  end.

Definition heap_zone_update_if_needed : M unit :=
  h ← get_heap;
  heap_zone_update_loop (seqZ 0 (nzones (rt h))).

End HeapMore.

(** [struct remote_ops], as [heap_check_remote] uses it: [ops->read] copies a
    part of the remote region into a buffer and returns nonzero when it
    fails.  [read_header] is the read of the heap header and [read_zone i]
    the read of the zone [i]; [None] is a failure. *)
Record remote_ops := {
  read_header : option heap_header;
  read_zone : Z -> option zone
}.

Section HeapCheckRemote.
Context `{HeapLayout} `{Externals}.

(** The loop of [heap_check_remote] over the zones. *)
Fixpoint heap_check_remote_loop (fuel : nat) (ops : remote_ops) (ids : list Z)
  : option Z :=
  match ids with
  | [] => Some 0
  | i :: ids' =>
      match read_zone ops i with
      | None => Some (-1)
      | Some zone_buff =>
          match heap_verify_zone fuel zone_buff with
          | None => None
          | Some r =>
              if r =? 0 then heap_check_remote_loop fuel ops ids' else Some (-1)
          end
      end
  end.

(** [heap_check_remote]; [zone_buff] says whether the allocation of the
    buffer of a zone succeeds. *)
Definition heap_check_remote (fuel : nat) (heap_size : Z) (ops : remote_ops)
    (zone_buff : bool) : option Z :=
  if heap_size <? HEAP_MIN_SIZE then Some (-1)
  else
    match read_header ops with
    | None => Some (-1)
    | Some header =>
        if heap_verify_header header =? 0 then
          if zone_buff then
            match heap_max_zone heap_size with
            | None => None
            | Some n => heap_check_remote_loop fuel ops (seqZ 0 n)
            end
          else Some (-1)
        else Some (-1)
    end.

End HeapCheckRemote.

(** ** [heap_init]

    [heap_init] runs on the bare region, before the heap is booted.  The
    version constants of [heap_layout.h] are the fields of a class, as the
    other constants are.  [util_checksum] called with [insert = 1] computes
    the checksum of the header and stores it; [util_checksum_insert] is the
    value it stores.  The persistence operations [p_ops] are function
    pointers given by the caller: [mo_wal_persist] and [mo_wal_memset] are
    the fields of a record, one for each place [heap_init] applies them to,
    as functions on the region ([persist_sizep] on the value of [*sizep]). *)

Class HeaderFormat := {
  HEAP_MAJOR : Z;
  HEAP_MINOR : Z;
  util_checksum_insert : heap_header -> Z
}.

Record mo_ops := {
  persist_header : heap_layout -> heap_layout;
  memset_zone_header : Z -> heap_layout -> heap_layout;
  memset_chunk_header : Z -> heap_layout -> heap_layout;
  persist_sizep : Z -> Z
}.

Section HeapInit.
Context `{HeapLayout} `{HeaderFormat}.

(** [heap_write_header]: the header written to [*hdr]. *)
Definition heap_write_header : heap_header :=
  let newhdr := {| signature := HEAP_SIGNATURE; major := HEAP_MAJOR;
                   minor := HEAP_MINOR; chunksize := CHUNKSIZE;
                   chunks_per_zone := MAX_CHUNK; checksum := 0 |} in
  {| signature := signature newhdr; major := major newhdr; minor := minor newhdr;
     chunksize := chunksize newhdr; chunks_per_zone := chunks_per_zone newhdr;
     checksum := util_checksum_insert newhdr |}.

Definition set_hl_header (hdr : heap_header) (l : heap_layout) : heap_layout :=
  {| hl_header := hdr; zone0 := zone0 l |}.

(** The loop of [heap_init] over the zones. *)
Fixpoint heap_init_loop (p_ops : mo_ops) (ids : list Z) (l : heap_layout)
  : heap_layout :=
  match ids with
  | [] => l
  | i :: ids' =>
      let l := memset_zone_header p_ops i l in
      let l := memset_chunk_header p_ops i l in
      heap_init_loop p_ops ids' l
  end.

(** [heap_init]: [l] is the region at [heap_start] and [sizep] the value of
    [*sizep]; the result is the return value, the region and [*sizep]. *)
Definition heap_init (l : heap_layout) (heap_size sizep : Z) (p_ops : mo_ops)
  : option (Z * heap_layout * Z) :=
  if heap_size <? HEAP_MIN_SIZE then Some (EINVAL, l, sizep)
  else
    let l := set_hl_header heap_write_header l in
    let l := persist_header p_ops l in
    match heap_max_zone heap_size with
    | None => None
    | Some zones =>
        let l := heap_init_loop p_ops (seqZ 0 zones) l in
        Some (0, l, persist_sizep p_ops heap_size)
    end.

End HeapInit.

(** ** [heap_create_alloc_class_buckets] *)

Section AllocClassBuckets.
Context `{HeapLayout} `{Externals}.

Definition set_bucket (id : Z) (b : bucket) (t : heap_rt) : heap_rt :=
  {| alloc_classes := alloc_classes t;
     default_zset :=
       {| zset_id := zset_id (default_zset t);
          default_bucket := default_bucket (default_zset t);
          buckets := <[id := b]> (buckets (default_zset t));
          recyclers := recyclers (default_zset t) |};
     nlocks := nlocks t; nzones := nzones t;
     zones_exhausted := zones_exhausted t |}.

(** [heap_create_alloc_class_buckets].  [bucket_locked_new c] is the call
    [bucket_locked_new(container_new_seglists(heap), c, default_zset)] into
    the bucket and container modules; it gives NULL, [None], when an
    allocation fails. *)
Definition heap_create_alloc_class_buckets
    (bucket_locked_new : alloc_class -> M (option bucket)) (c : alloc_class) : M Z :=
  h ← get_heap;
  match buckets (default_zset (rt h)) !! ac_id c with
  | Some _ => mret 0
  | None =>
      b ← bucket_locked_new c;
      match b with
      | Some b =>
          modify_heap (fun h' => set_rt (set_bucket (ac_id c) b (rt h')) h');;
          mret 0
      | None => mret (-1)
      end
  end.

End AllocClassBuckets.
(** ** The zone count in the words of the specification

    "Zone count = floor((heap_size - header) / ZONE_MAX_SIZE) +
    (remainder >= ZONE_MIN_SIZE)". *)
Definition zone_count_spec `{HeapLayout} (heap_size : Z) : Z :=
  (heap_size - sizeof_heap_header) / ZONE_MAX_SIZE +
  (if ZONE_MIN_SIZE <=? (heap_size - sizeof_heap_header) mod ZONE_MAX_SIZE
   then 1 else 0).

(** ** Vocabulary of the properties *)

Section Vocabulary.
Context `{HeapLayout} `{Externals}.

(** The heap after a call into another module. *)
Definition after_call (op : ext_op) (h : palloc_heap) : palloc_heap :=
  {| layout := layout h; mem := (handle op (mem h) (vol h)).1.1; rt := rt h;
     sizep := sizep h; vol := (handle op (mem h) (vol h)).1.2;
     calls := calls h ++ [Call op (handle op (mem h) (vol h)).2] |}.

Definition result_of (op : ext_op) (h : palloc_heap) : reply op :=
  (handle op (mem h) (vol h)).2.

Definition after_log (msg : log_message) (h : palloc_heap) : palloc_heap :=
  {| layout := layout h; mem := mem h; rt := rt h; sizep := sizep h;
     vol := vol h; calls := calls h ++ [Logged msg] |}.

(** The run [x] has a result, which passes the test [P]. *)
Definition run_passes {A} (x : option (A * palloc_heap))
    (P : A -> palloc_heap -> bool) : bool :=
  match x with
  | Some (a, h') => P a h'
  | None => false
  end.

(** The function returns from every heap. *)
Definition total {A} (f : M A) : Prop := forall h, is_Some (f h).

(** Every run of [f] from a heap [h] to a heap [h'] satisfies [R h h']. *)
Definition keeps (R : palloc_heap -> palloc_heap -> Prop) {A} (f : M A) : Prop :=
  forall h a h', f h = Some (a, h') -> R h h'.

(** The log only grows. *)
Definition log_extends (h h' : palloc_heap) : Prop :=
  exists evs, calls h' = calls h ++ evs.

(** The log only grows, and the number of zones and the count of the zones
    consumed stay as they are. *)
Definition same_zones (h h' : palloc_heap) : Prop :=
  nzones (rt h') = nzones (rt h) /\
  zones_exhausted (rt h') = zones_exhausted (rt h) /\
  default_bucket (default_zset (rt h')) = default_bucket (default_zset (rt h)) /\
  log_extends h h'.

(** A relation that every message and every call of an operation allowed
    by [P] preserves. *)
Class Frame (P : ext_op -> Prop) (R : palloc_heap -> palloc_heap -> Prop) := {
  frame_refl : forall h, R h h;
  frame_trans : forall h1 h2 h3, R h1 h2 -> R h2 h3 -> R h1 h3;
  frame_call : forall op h, P op -> R h (after_call op h);
  frame_log : forall msg h, R h (after_log msg h)
}.

(** The log grows by events that are all [good]. *)
Definition log_only (good : event -> Prop) (h h' : palloc_heap) : Prop :=
  exists evs, calls h' = calls h ++ evs /\ Forall good evs.

(** An event that is not a call of [recycler_recalc], of [bucket_attach_run]. *)
Definition not_recalc (e : event) : Prop :=
  match e with Call (RecyclerRecalc _ _) _ => False | _ => True end.

Definition not_attach (e : event) : Prop :=
  match e with Call (BucketAttachRun _ _) _ => False | _ => True end.

(** The events logged between two heaps. *)
Definition new_calls (h h' : palloc_heap) : list event :=
  drop (length (calls h)) (calls h').

(** An operation that leaves the persistent layout as it is. *)
Definition volatile_only (op : ext_op) : Prop :=
  forall l v, (handle op l v).1.1 = l.

(** The calls of [bucket_remove_block] in a log, with their results, and
    those that returned 0. *)
Definition removal (e : event) : option (bucket * memory_block * Z) :=
  match e with
  | Call (BucketRemoveBlock b x) r => Some (b, x, r)
  | _ => None
  end.

Definition removals (evs : list event) : list (bucket * memory_block * Z) :=
  omap removal evs.

Definition removed (evs : list event) : list (bucket * memory_block) :=
  omap (fun a : bucket * memory_block * Z =>
          if a.2 =? 0 then Some a.1 else None) (removals evs).

(** A call made while looking for neighbours: [memblock_rebuild_state] or
    [bucket_remove_block]. *)
Definition coalescing_call (e : event) : Prop :=
  match e with
  | Call (MemblockRebuildState _) _ => True
  | Call (BucketRemoveBlock _ _) _ => True
  | _ => False
  end.

(** A NULL entry of [blocks] stands for no block. *)
Definition block_list (o : option memory_block) : list memory_block :=
  match o with Some x => [x] | None => [] end.

(** [x] is the neighbour that [heap_get_adjacent_free_block] finds for [m]
    in the layout [l], before it ([prev] not 0) or after it ([prev] 0): a
    chunk of the same zone whose header is of type FREE, at the index that
    the chunk headers give, with the size of its header. *)
Definition free_neighbour (l : heap_layout) (m : memory_block) (prev : Z)
    (x : memory_block) : Prop :=
  let z := ZID_TO_ZONE l (zone_id m) in
  let cid :=
    if prev =? 0
    then wrap32 (chunk_id m + hdr_size_idx (chunk_headers z (chunk_id m)))
    else wrap32 (chunk_id m - hdr_size_idx (chunk_headers z (chunk_id m - 1))) in
  (if prev =? 0 then cid <> zh_size_idx (header z) else chunk_id m <> 0) /\
  hdr_type (chunk_headers z cid) = CHUNK_TYPE_FREE /\
  zone_id x = zone_id m /\
  chunk_id x = cid /\
  size_idx x = hdr_size_idx (chunk_headers z cid).

(** What happens on one side of [m]: either the chunk headers give no free
    neighbour, nothing is removed and no block is merged; or they give the
    free neighbour [x], [bucket_remove_block] is called once, on [x] in the
    bucket [b], and [x] is merged exactly when the call returns 0.  [rs] is
    the list of the calls of [bucket_remove_block] with their results. *)
Definition neighbour_outcome (l : heap_layout) (b : bucket) (m : memory_block)
    (prev : Z) (o : option memory_block) (rs : list (bucket * memory_block * Z))
  : Prop :=
  (rs = [] /\ o = None /\ forall x, ~ free_neighbour l m prev x) \/
  (exists x r, rs = [(b, x, r)] /\ free_neighbour l m prev x /\
     o = if r =? 0 then Some x else None).

Definition sum_size_idx (l : list memory_block) : Z :=
  foldr (fun x acc => size_idx x + acc) 0 l.

(** The top-level chunks of a zone: the chunk of index 0, and the chunk that
    follows a top-level chunk. *)
Inductive top_level (z : zone) : Z -> Prop :=
| top_level_first : 0 < zh_size_idx (header z) -> top_level z 0
| top_level_next i :
    top_level z i ->
    i + hdr_size_idx (chunk_headers z i) < zh_size_idx (header z) ->
    top_level z (i + hdr_size_idx (chunk_headers z i)).

(** Modelled from the spec: invariant 1 of the data model, "chunk headers
    within a zone are contiguous: for any initialized chunk at index [i],
    [i + size_idx] is either [zone.size_idx] or the index of another valid
    header".  The last chunk header of a chunk repeats its size; it is what
    [heap_get_adjacent_free_block] reads at [chunk_id - 1] to find the chunk
    before. *)
Definition zone_consistent (z : zone) : Prop :=
  0 <= zh_size_idx (header z) < 2 ^ 32 /\
  forall i, top_level z i ->
    0 < hdr_size_idx (chunk_headers z i) /\
    i + hdr_size_idx (chunk_headers z i) <= zh_size_idx (header z) /\
    hdr_size_idx (chunk_headers z (i + hdr_size_idx (chunk_headers z i) - 1)) =
      hdr_size_idx (chunk_headers z i).

(** What [heap_free_chunk_reuse] does with [m] in the bucket [bucket], from
    the heap [h] to the heap [h'], with the result [r] and the block [nm]
    left in [*m]: neighbours are looked for on both sides, then the header of
    the coalesced block is prepared when its size is not the size of [m],
    then the block is inserted.  The coalesced block starts at the leftmost
    merged block and its size is the sum of their sizes, in a [uint32_t]. *)
Definition coalesced_insert (bucket : bucket) (m : memory_block)
    (h : palloc_heap) (r : Z) (nm : memory_block) (h' : palloc_heap) : Prop :=
  exists prev next rs1 rs2 evs,
    new_calls h h' =
      evs ++
      (if size_idx nm =? size_idx m then []
       else [Call (PrepHdr (m_ops m) nm MEMBLOCK_FREE) tt]) ++
      [Call (BucketInsertBlock bucket nm) r] /\
    Forall coalescing_call evs /\
    removals evs = rs1 ++ rs2 /\
    neighbour_outcome (mem h) bucket m 1 prev rs1 /\
    neighbour_outcome (mem h) bucket m 0 next rs2 /\
    let merged := block_list prev ++ [m] ++ block_list next in
    size_idx nm = wrap32 (sum_size_idx merged) /\
    chunk_id nm = chunk_id (hd m merged) /\
    zone_id nm = zone_id m.

(** The calls of [recycler_inc_unaccounted] in a log, with their
    arguments. *)
Definition inc_unaccounted_calls (evs : list event) : list (recycler * memory_block) :=
  omap (fun e => match e with
                 | Call (RecyclerIncUnaccounted r m) _ => Some (r, m)
                 | _ => None
                 end) evs.

(** The class that [alloc_class_by_run] gives for the run of block [m]:
    from the block size of the run, the flags of its chunk header and the
    size index [sidx]. *)
Definition class_of_run (h : palloc_heap) (m : memory_block) (sidx : Z)
  : option alloc_class :=
  alloc_class_by_run (alloc_classes (rt h))
    (block_size (run_hdr (heap_get_chunk_run (mem h) m)))
    (hdr_flags (heap_get_chunk_hdr (mem h) m)) sidx.

(** A failed [recycler_new] has no effect. *)
Definition recycler_new_failure_pure : Prop :=
  forall n l v, (handle (RecyclerNew n) l v).2 = None ->
                (handle (RecyclerNew n) l v).1 = (l, v).

(** What [heap_memblock_on_free] does for the block [m], from [h] to [h'].
    For a run block whose class [c] resolves: when the recycler of the class
    is there, or can be created, [recycler_inc_unaccounted] is called once,
    on that recycler and [m]; when it cannot be obtained, the loss is logged
    and neither the layout, the state of the other modules nor the runtime
    state of the heap changes.  For any other block nothing happens. *)
Definition on_free_bookkeeping (m : memory_block) (h h' : palloc_heap) : Prop :=
  match type m, class_of_run h m (hdr_size_idx (heap_get_chunk_hdr (mem h) m)) with
  | MEMORY_BLOCK_RUN, Some c =>
      match recyclers (default_zset (rt h')) !! ac_id c with
      | Some r => inc_unaccounted_calls (new_calls h h') = [(r, m)]
      | None =>
          inc_unaccounted_calls (new_calls h h') = [] /\
          In (Logged (lost_runtime_tracking_info (ac_id c))) (new_calls h h') /\
          mem h' = mem h /\ vol h' = vol h /\ rt h' = rt h
      end
  | _, _ => h' = h
  end.

(** The calls of [recycler_put] in a log, with their arguments and what
    they returned. *)
Definition put_result (e : event) : option (recycler * recycler_element * Z) :=
  match e with
  | Call (RecyclerPut r x) ret => Some (r, x, ret)
  | _ => None
  end.

Definition put_results (evs : list event) : list (recycler * recycler_element * Z) :=
  omap put_result evs.

(** The run of the block [m] is fully empty in the heap [h]: the free space
    that [recycler_element_new] finds in it is the [nallocs] of the class
    that matches the run or, when no class matches, the number of bits of
    the bitmap that [get_bitmap] gives for it. *)
Definition fully_empty (m : memory_block) (h : palloc_heap) : Prop :=
  let e := result_of (RecyclerElementNew m) h in
  match class_of_run h m (size_idx m) with
  | Some c => free_space e = rdsc_nallocs (rdsc c)
  | None =>
      free_space e =
      nbits (result_of (GetBitmap (m_ops m) m) (after_call (RecyclerElementNew m) h))
  end.

(** What [heap_reclaim_run] does with the run [m], from the heap [h] to the
    heap [h'] with the result [r].  It returns 1 for a run that is fully
    empty, and 0 otherwise; nothing is put into a recycler for a run that is
    fully empty or of no class.  For a run of the class [cl] that is not
    empty, [recycler_put] is called once, with the element of the run, on
    the recycler of the class, when that recycler is there or was created;
    the loss is logged exactly when that call returns a negative value.
    When the recycler cannot be obtained nothing is put, and the loss is
    logged. *)
Definition reclaim_run_outcome (m : memory_block) (h : palloc_heap) (r : Z)
    (h' : palloc_heap) : Prop :=
  let e := result_of (RecyclerElementNew m) h in
  let evs := new_calls h h' in
  let lost cl := In (Logged (lost_runtime_tracking_info (ac_id cl))) evs in
  (r = 1 \/ r = 0) /\
  (r = 1 <-> fully_empty m h) /\
  (r = 1 -> put_results evs = []) /\
  (r = 0 ->
   match class_of_run h m (size_idx m) with
   | None => put_results evs = []
   | Some cl =>
       match recyclers (default_zset (rt h')) !! ac_id cl with
       | Some rc =>
           exists ret, put_results evs = [(rc, e, ret)] /\ (ret < 0 <-> lost cl)
       | None => put_results evs = [] /\ lost cl
       end
   end).

(** The vectors of empty runs that the calls of [recycler_recalc] in a log
    gave back. *)
Definition recalc_results (evs : list event) : list (list memory_block) :=
  omap (fun e => match e with
                 | Call (RecyclerRecalc _ _) l => Some l
                 | _ => None
                 end) evs.

(** What [heap_populate_bucket] does from the heap [h].  With all the zones
    consumed it returns ENOMEM and leaves the heap as it is.  Otherwise the
    count of the zones consumed is incremented, which gives [h0]; the zone is
    initialized when its magic is not [ZONE_HEADER_MAGIC], which gives [h1];
    and the zone is scanned: the function returns 0 when the scan does, with
    the count one above what it was, and has no result when the scan has
    none. *)
Definition populate_outcome (fuel : nat) (bucket : bucket) (h : palloc_heap) : Prop :=
  let zid := zones_exhausted (rt h) in
  if zid =? nzones (rt h) then
    heap_populate_bucket fuel bucket h = Some (ENOMEM, h)
  else
    let h0 := set_rt (set_zones_exhausted (wrap32 (zid + 1)) (rt h)) h in
    exists h1,
      (if magic (header (ZID_TO_ZONE (mem h) zid)) =? ZONE_HEADER_MAGIC
       then h1 = h0
       else heap_zone_init zid 0 h0 = Some (tt, h1)) /\
      match heap_reclaim_zone_garbage fuel bucket zid h1 with
      | Some (_, h') =>
          heap_populate_bucket fuel bucket h = Some (0, h') /\
          nzones (rt h') = nzones (rt h) /\
          zones_exhausted (rt h') = wrap32 (zid + 1)
      | None => heap_populate_bucket fuel bucket h = None
      end.

(** What a run of [heap_ensure_huge_bucket_filled] from [h], with the result
    [r] and the heap [h'], went through: the garbage of the recyclers is
    reclaimed, which succeeds exactly when some call of [recycler_recalc]
    gave empty runs; failing that a zone is populated; failing that once
    more. *)
Definition huge_refill_outcome (fuel : nat) (b : bucket) (h : palloc_heap)
    (r : Z) (h' : palloc_heap) : Prop :=
  exists g h1,
    heap_reclaim_garbage b h = Some (g, h1) /\
    (g = 0 <-> exists l, In l (recalc_results (new_calls h h1)) /\ l <> []) /\
    if g =? 0 then r = 0 /\ h' = h1
    else
      exists p1 h2,
        heap_populate_bucket fuel b h1 = Some (p1, h2) /\
        if p1 =? 0 then r = 0 /\ h' = h2
        else
          exists p2,
            heap_populate_bucket fuel b h2 = Some (p2, h') /\
            r = if p2 =? 0 then 0 else ENOMEM.

(** The calls of [bucket_attach_run] in a log, with their results. *)
Definition attach_call (e : event) : option (bucket * memory_block * Z) :=
  match e with
  | Call (BucketAttachRun b x) r => Some (b, x, r)
  | _ => None
  end.

Definition attach_calls (evs : list event) : list (bucket * memory_block * Z) :=
  omap attach_call evs.

(** What a run of [heap_ensure_run_bucket_filled] from [h], with the result
    [ret] and the heap [h'], went through.  [d] is the result of the detach,
    [r1], [r2] and [r3] the results of the three attempts to reuse a run of
    the recycler, [g] the result of the best fit in the default bucket. *)
Definition run_refill_outcome (fuel : nat) (b : bucket) (units : Z)
    (h : palloc_heap) (ret : Z) (h' : palloc_heap) : Prop :=
  exists d h1,
    heap_detach_and_try_discard_run b h = Some (d, h1) /\
    if d =? 0 then
      exists r1 h2,
        heap_reuse_from_recycler b units 0 h1 = Some (r1, h2) /\
        if r1 =? 0 then ret = 0 /\ h' = h2
        else
          exists p h3 r2 h4,
            heap_populate_bucket fuel (default_bucket (default_zset (rt h2))) h2 =
              Some (p, h3) /\
            heap_reuse_from_recycler b units 0 h3 = Some (r2, h4) /\
            if r2 =? 0 then ret = 0 /\ h' = h4
            else
              exists g m h5,
                heap_get_bestfit_block fuel (default_bucket (default_zset (rt h4)))
                  (set_size_idx (rdsc_size_idx (rdsc (aclass b))) MEMORY_BLOCK_NONE)
                  h4 = Some (g, m, h5) /\
                if g =? 0 then
                  exists m', heap_run_create b m h5 = Some (0, m', h') /\ ret = 0
                else
                  exists r3,
                    heap_reuse_from_recycler b units 0 h5 = Some (r3, h') /\
                    ret = if r3 =? 0 then 0 else ENOMEM
    else ret = ENOMEM /\ h' = h1.

(** What [heap_detach_and_try_discard_run] does: the active run is detached
    from the bucket; when that fails the function returns -1; otherwise the
    run is discarded when the bucket reports that it is empty, and the
    function returns 0. *)
Definition detach_outcome (b : bucket) (h : palloc_heap) (d : Z)
    (h1 : palloc_heap) : Prop :=
  let '(r, m, empty) := result_of (BucketDetachRun b) h in
  let h0 := after_call (BucketDetachRun b) h in
  if r =? 0 then
    d = 0 /\
    if empty =? 0 then h1 = h0
    else exists m', heap_discard_run m h0 = Some (m', h1)
  else d = -1 /\ h1 = h0.

(** The refill of the bucket [b], by the kind of its class: for a huge
    class [heap_ensure_huge_bucket_filled], for a run class
    [heap_ensure_run_bucket_filled]. *)
Definition refill (fuel : nat) (b : bucket) (units : Z) : M Z :=
  match ac_type (bucket_alloc_class b) with
  | CLASS_HUGE => heap_ensure_huge_bucket_filled fuel b
  | CLASS_RUN => heap_ensure_run_bucket_filled fuel b units
  end.

(** The refill fails in the loop of [heap_get_bestfit_block] entered with
    the block [m] in the heap [h]: the bucket gives no block and the refill
    is run; it returns nonzero, or it returns 0 and the refill fails in the
    rest of the loop. *)
Fixpoint refill_fails (fuel : nat) (b : bucket) (units : Z) (m : memory_block)
    (h : palloc_heap) : Prop :=
  match fuel with
  | O => False
  | S fuel' =>
      (result_of (BucketAllocBlock b m) h).1 <> 0 /\
      exists x h2,
        refill fuel' b units (after_call (BucketAllocBlock b m) h) = Some (x, h2) /\
        (x = 0 ->
         refill_fails fuel' b units (result_of (BucketAllocBlock b m) h).2 h2)
  end.

(** The remainder [rem] of the block [m] split at [units] in the heap [h].
    In a run it is the block of the same chunk that starts [units] units
    further and is [units] units shorter.  A huge block is split at the chunk
    [chunk_id + units], and the remainder is what [memblock_huge_init]
    gives there for the [size_idx - units] chunks left. *)
Definition split_remainder (b : bucket) (m : memory_block) (units : Z)
    (h : palloc_heap) (rem : memory_block) : Prop :=
  match ac_type (bucket_alloc_class b) with
  | CLASS_RUN =>
      chunk_id rem = chunk_id m /\ zone_id rem = zone_id m /\
      size_idx rem = wrap32 (size_idx m - units) /\
      block_off rem = wrap32 (block_off m + units)
  | CLASS_HUGE =>
      rem = result_of (MemblockHugeInit (wrap32 (chunk_id m + units)) (zone_id m)
                         (wrap32 (size_idx m - units))) h
  end.

(** What [heap_split_block] does with the block [m]: the caller keeps
    [units], and the remainder is inserted into the bucket [b]; a failure of
    the insert is logged. *)
Definition split_outcome (b : bucket) (m : memory_block) (units : Z)
    (h : palloc_heap) (m2 : memory_block) (h2 : palloc_heap) : Prop :=
  size_idx m2 = units /\
  exists rem x,
    In (Call (BucketInsertBlock b rem) x) (new_calls h h2) /\
    split_remainder b m units h rem /\
    (x <> 0 -> In (Logged failed_to_allocate_tracking_info) (new_calls h h2)).

(** The end of a call of [heap_get_bestfit_block] that returns 0 with the
    block [m'] in the heap [h']: in a heap [h0] reached from [h] the bucket
    gave the block [m1]; it was split when its size was not [units]; and the
    header type of the class was ensured and stored in the block. *)
Definition bestfit_success (b : bucket) (units : Z) (h : palloc_heap)
    (m' : memory_block) (h' : palloc_heap) : Prop :=
  let t := ac_header_type (bucket_alloc_class b) in
  exists h0 m0 m1 m2 h2,
    log_extends h h0 /\
    result_of (BucketAllocBlock b m0) h0 = (0, m1) /\
    (if units =? size_idx m1
     then m2 = m1 /\ h2 = after_call (BucketAllocBlock b m0) h0
     else heap_split_block b m1 units (after_call (BucketAllocBlock b m0) h0) =
            Some (m2, h2) /\
          split_outcome b m1 units (after_call (BucketAllocBlock b m0) h0) m2 h2) /\
    h' = after_call (EnsureHeaderType (m_ops m2) m2 t) h2 /\
    m' = set_header_type t m2.

End Vocabulary.

(** ** Vocabulary of the consistency checks *)

Section Consistency.
Context `{HeapLayout}.

(** Every flag set in [flags] is one of [CHUNK_FLAGS_ALL_VALID]. *)
Definition valid_flags (flags : Z) : Prop :=
  forall n, 0 <= n ->
    Z.testbit flags n = true -> Z.testbit CHUNK_FLAGS_ALL_VALID n = true.

(** A chunk header of a known type whose flags are valid. *)
Definition valid_chunk_header (hdr : chunk_header) : Prop :=
  hdr_type hdr <> CHUNK_TYPE_UNKNOWN /\
  hdr_type hdr < MAX_CHUNK_TYPE /\
  valid_flags (hdr_flags hdr).

(** The index of the loops over the chunk headers of a zone is a
    [uint32_t]: no top-level chunk of the zone has a size that makes it
    wrap. *)
Definition chunk_sizes_in_range (z : zone) : Prop :=
  forall i, top_level z i ->
    0 <= hdr_size_idx (chunk_headers z i) /\
    i + hdr_size_idx (chunk_headers z i) < 2 ^ 32.

(** The top-level chunks of the zone have valid headers and tile it: each
    has a size, and ends within the zone. *)
Definition zone_tiled (z : zone) : Prop :=
  forall i, top_level z i ->
    valid_chunk_header (chunk_headers z i) /\
    0 < hdr_size_idx (chunk_headers z i) /\
    i + hdr_size_idx (chunk_headers z i) <= zh_size_idx (header z).

(** Two zones with the same header and the same chunk headers. *)
Definition same_headers (z z' : zone) : Prop :=
  header z = header z' /\ forall i, chunk_headers z i = chunk_headers z' i.

(** The bytes of a zone before its chunks: the zone header and the
    [MAX_CHUNK] chunk headers. *)
Definition zone_metadata_size : Z :=
  sizeof_zone_header + sizeof_chunk_header * MAX_CHUNK.

(** Modelled from the spec: "a zone header, followed by a fixed array of
    [MAX_CHUNK] chunk headers, followed by the chunk payload bytes".
    [ZONE_MAX_SIZE] is the size of a zone of [MAX_CHUNK] chunks, and a zone
    of [ZONE_MIN_SIZE] bytes has room for one chunk at least. *)
Definition zone_layout : Prop :=
  0 <= sizeof_heap_header /\
  0 <= zone_metadata_size /\
  0 < CHUNKSIZE /\
  0 < MAX_CHUNK < 2 ^ 32 /\
  ZONE_MAX_SIZE = zone_metadata_size + CHUNKSIZE * MAX_CHUNK /\
  zone_metadata_size + CHUNKSIZE <= ZONE_MIN_SIZE <= ZONE_MAX_SIZE.

(** The offset, from the start of the region, of the first byte after the
    chunk of index [size_idx - 1] of the zone [zone_id]. *)
Definition zone_end_offset (zone_id size_idx : Z) : Z :=
  sizeof_heap_header + ZONE_MAX_SIZE * zone_id + zone_metadata_size +
  CHUNKSIZE * size_idx.

End Consistency.

(** ** Vocabulary of the properties of the runtime state *)

Section Runtime.
Context `{HeapLayout} `{Externals}.

(** The number of zones stays as it is and, when the count of the zones
    consumed is within it at [h], that count only grows from [h] to [h'],
    within the number of zones. *)
Definition zones_advance (h h' : palloc_heap) : Prop :=
  nzones (rt h') = nzones (rt h) /\
  (0 <= zones_exhausted (rt h) <= nzones (rt h) ->
   nzones (rt h) < 2 ^ 32 ->
   zones_exhausted (rt h) <= zones_exhausted (rt h') <= nzones (rt h)).

(** An event that is not a call of [util_mutex_lock] or of
    [util_mutex_unlock]. *)
Definition not_mutex (e : event) : Prop :=
  match e with
  | Call (MutexLock _) _ => False
  | Call (MutexUnlock _) _ => False
  | _ => True
  end.

(** The calls of [util_mutex_lock] ([true]) and of [util_mutex_unlock]
    ([false]) in a log, with the lock. *)
Definition mutex_event (e : event) : option (bool * Z) :=
  match e with
  | Call (MutexLock l) _ => Some (true, l)
  | Call (MutexUnlock l) _ => Some (false, l)
  | _ => None
  end.

Definition mutex_events (evs : list event) : list (bool * Z) :=
  omap mutex_event evs.

(** The locks [ls], each taken and released before the next one is taken. *)
Definition lock_pairs (ls : list Z) : list (bool * Z) :=
  flat_map (fun l => [(true, l); (false, l)]) ls.

(** From [h] to [h'] the log grows by events among which every lock taken
    is released before another one is taken, and none is left taken. *)
Definition locks_paired (h h' : palloc_heap) : Prop :=
  exists evs ls, calls h' = calls h ++ evs /\ mutex_events evs = lock_pairs ls.

(** The calls of [recycler_recalc] in a log, with the recycler and the
    [force] argument. *)
Definition recalc_calls (evs : list event) : list (recycler * Z) :=
  omap (fun e => match e with
                 | Call (RecyclerRecalc r f) _ => Some (r, f)
                 | _ => None
                 end) evs.

(** The runtime state stays as it is, and the log only grows. *)
Definition same_rt (h h' : palloc_heap) : Prop :=
  rt h' = rt h /\ log_extends h h'.

(** The default bucket of the zone set stays the same, and the log only
    grows. *)
Definition same_default_bucket (h h' : palloc_heap) : Prop :=
  default_bucket (default_zset (rt h')) = default_bucket (default_zset (rt h)) /\
  log_extends h h'.

(** A call of [bucket_detach_run] on the bucket [b] that failed is in the
    log. *)
Definition detach_failed (b : bucket) (evs : list event) : Prop :=
  exists x : Z * memory_block * Z,
    In (Call (BucketDetachRun b) x) evs /\ x.1.1 <> 0.

(** The calls of [recycler_new] in a log. *)
Definition recycler_new_calls (evs : list event) : list Z :=
  omap (fun e => match e with
                 | Call (RecyclerNew n) _ => Some n
                 | _ => None
                 end) evs.

(** An operation that leaves the zone headers of the region as they are. *)
Definition keeps_zone_headers (op : ext_op) : Prop :=
  forall l v zid,
    header (ZID_TO_ZONE (handle op l v).1.1 zid) = header (ZID_TO_ZONE l zid).

(** The zone [i] of the heap [h] is initialized with a size that is not the
    one [zone_calc_size_idx] gives for the heap. *)
Definition stale_zone (h : palloc_heap) (i : Z) : bool :=
  (magic (header (ZID_TO_ZONE (mem h) i)) =? ZONE_HEADER_MAGIC) &&
  negb (zone_calc_size_idx i (nzones (rt h)) (sizep h) =?
        zh_size_idx (header (ZID_TO_ZONE (mem h) i))).

(** The calls of [memblock_huge_init] in a log, with their arguments
    [(chunk_id, zone_id, size_idx)]. *)
Definition huge_init_calls (evs : list event) : list (Z * Z * Z) :=
  omap (fun e => match e with
                 | Call (MemblockHugeInit c z s) _ => Some (c, z, s)
                 | _ => None
                 end) evs.

(** What [heap_zone_update_if_needed] has to initialize in the zone [i]: the
    chunks from the size of the zone on, up to the size that
    [zone_calc_size_idx] gives. *)
Definition zone_growth (h : palloc_heap) (i : Z) : option (Z * Z * Z) :=
  if stale_zone h i then
    let old := zh_size_idx (header (ZID_TO_ZONE (mem h) i)) in
    Some (old, i, wrap32 (zone_calc_size_idx i (nzones (rt h)) (sizep h) - old))
  else None.

End Runtime.

(** ** Vocabulary of [heap_init] *)

Section InitVocabulary.
Context `{HeapLayout} `{Externals} `{HeaderFormat}.

(** Two regions with the same heap header and the same zone headers. *)
Definition same_heap_headers (l l' : heap_layout) : Prop :=
  hl_header l' = hl_header l /\
  forall z, header (ZID_TO_ZONE l' z) = header (ZID_TO_ZONE l z).

(** Persistence operations that do what their names say: persisting leaves
    the memory as it is, and the [memset] of a zone header with 0 sets it to
    0 and leaves the heap header and the other zone headers. *)
Definition plain_ops (p_ops : mo_ops) : Prop :=
  (forall l, same_heap_headers l (persist_header p_ops l)) /\
  (forall i l, same_heap_headers l (memset_chunk_header p_ops i l)) /\
  (forall i l,
     hl_header (memset_zone_header p_ops i l) = hl_header l /\
     forall z, header (ZID_TO_ZONE (memset_zone_header p_ops i l) z) =
               if z =? i then {| magic := 0; zh_size_idx := 0 |}
               else header (ZID_TO_ZONE l z)) /\
  (forall s, persist_sizep p_ops s = s).

(** [util_checksum] accepts a header that holds the checksum it inserts. *)
Definition checksum_round_trip : Prop :=
  forall hdr,
    util_checksum
      {| signature := signature hdr; major := major hdr; minor := minor hdr;
         chunksize := chunksize hdr; chunks_per_zone := chunks_per_zone hdr;
         checksum := util_checksum_insert hdr |} = true.

End InitVocabulary.

(** ** Vocabulary of the scan of a zone and of the refills *)

Section ScanVocabulary.
Context `{HeapLayout} `{Externals}.

(** *** What the other modules are assumed to do with the chunk headers *)

(** The operations of [memblock] that write chunk headers. *)
Definition writes_chunk_headers (op : ext_op) : bool :=
  match op with
  | MemblockHugeInit _ _ _ => true
  | MemblockRunInit _ _ _ => true
  | PrepHdr _ _ _ => true
  | ReinitChunk _ _ => true
  | EnsureHeaderType _ _ _ => true
  | _ => false
  end.

(** [z'] is the zone [z] after the headers of a block of [s] chunks were
    written at the chunk [c]: the first and the last chunk header of the
    block hold its size, and the zone header and the size of every chunk
    header outside the block are as they were. *)
Definition zone_block_written (z z' : zone) (c s : Z) : Prop :=
  header z' = header z /\
  (forall k, k < c \/ c + s <= k ->
     hdr_size_idx (chunk_headers z' k) = hdr_size_idx (chunk_headers z k)) /\
  hdr_size_idx (chunk_headers z' c) = s /\
  hdr_size_idx (chunk_headers z' (c + s - 1)) = s.

(** [z'] is the zone [z] after the footer of the chunk [c] was written
    again: the last chunk header of the chunk, as the size in its first
    header gives it, may now repeat that size; no other size changed, and
    the zone header did not. *)
Definition zone_footer_written (z z' : zone) (c : Z) : Prop :=
  header z' = header z /\
  forall k,
    hdr_size_idx (chunk_headers z' k) = hdr_size_idx (chunk_headers z k) \/
    (k = c + hdr_size_idx (chunk_headers z c) - 1 /\
     hdr_size_idx (chunk_headers z' k) = hdr_size_idx (chunk_headers z c)).

(** Two zones with the same header and the same sizes in their chunk
    headers. *)
Definition same_chunk_sizes (z z' : zone) : Prop :=
  header z' = header z /\
  forall k, hdr_size_idx (chunk_headers z' k) = hdr_size_idx (chunk_headers z k).

(** The same, of the zone [zid] of two layouts. *)
Definition block_written (l l' : heap_layout) (zid c s : Z) : Prop :=
  zone_block_written (ZID_TO_ZONE l zid) (ZID_TO_ZONE l' zid) c s.

Definition footer_written (l l' : heap_layout) (zid c : Z) : Prop :=
  zone_footer_written (ZID_TO_ZONE l zid) (ZID_TO_ZONE l' zid) c.

(** Modelled from the spec: [memblock] is not in the sources at hand.  The
    header of a free chunk "is then written through" [prep_hdr], and
    [reinit_chunk] is an "idempotent hook".  [memblock_huge_init] and
    [prep_hdr] write the size of the block they are given into its first
    chunk header and into its last one, the one that
    [heap_get_adjacent_free_block] reads at [chunk_id - 1];
    [memblock_huge_init] gives back the block it was asked for;
    [reinit_chunk] at most writes the last header of its chunk again; and
    the operations that write no chunk header leave the persistent layout as
    it is. *)
Definition memblock_contract : Prop :=
  (forall op, writes_chunk_headers op = false -> volatile_only op) /\
  (forall o m l v,
     footer_written l (handle (ReinitChunk o m) l v).1.1 (zone_id m) (chunk_id m)) /\
  (forall o m st l v, 0 < size_idx m ->
     block_written l (handle (PrepHdr o m st) l v).1.1
       (zone_id m) (chunk_id m) (size_idx m)) /\
  (forall c z s l v, 0 < s ->
     block_written l (handle (MemblockHugeInit c z s) l v).1.1 z c s /\
     chunk_id (handle (MemblockHugeInit c z s) l v).2 = c /\
     zone_id (handle (MemblockHugeInit c z s) l v).2 = z /\
     size_idx (handle (MemblockHugeInit c z s) l v).2 = s).

(** The scan of a zone is at the chunk [i]: a top-level chunk, or the end
    of the zone. *)
Definition scan_position (z : zone) (i : Z) : Prop :=
  i = zh_size_idx (header z) \/ top_level z i.

(** The persistent layout, the size of the heap and the zones stay as they
    are. *)
Definition same_layout (h h' : palloc_heap) : Prop :=
  mem h' = mem h /\ sizep h' = sizep h /\ same_zones h h'.

(** *** One chunk of the scan *)

(** The block that [heap_reclaim_zone_garbage] makes for the chunk [i] of
    the zone [zid]: its size is read from the chunk header, and its state is
    rebuilt. *)
Definition scan_block0 (zid i : Z) (h : palloc_heap) : memory_block :=
  set_size_idx (hdr_size_idx (chunk_headers (ZID_TO_ZONE (mem h) zid) i))
    (set_chunk_id i (set_zone_id zid MEMORY_BLOCK_NONE)).

Definition scan_block (zid i : Z) (h : palloc_heap) : memory_block :=
  set_class (result_of (MemblockRebuildState (scan_block0 zid i h)) h)
    (scan_block0 zid i h).

(** The heap once the state of that block is rebuilt and its chunk
    reinitialized. *)
Definition scan_visit (zid i : Z) (h : palloc_heap) : palloc_heap :=
  after_call (ReinitChunk (m_ops (scan_block zid i h)) (scan_block zid i h))
    (after_call (MemblockRebuildState (scan_block0 zid i h)) h).

(** The run [m] as a huge block: at the start of its chunk, with the size of
    its chunk header. *)
Definition run_as_chunk (m : memory_block) (h : palloc_heap) : memory_block :=
  set_size_idx (hdr_size_idx (heap_get_chunk_hdr (mem h) m)) (set_block_off 0 m).

(** The run [m] is demoted to a free chunk, from the heap [h] to the heap
    [h'] with the block [m'] left in [*m]: the statistics are updated, the
    lock of the run is taken, [memblock_huge_init] makes a free chunk of the
    chunks of the run, that chunk is coalesced with its free neighbours and
    inserted into the bucket, and the lock is released. *)
Definition run_demoted (bucket : bucket) (m : memory_block) (h : palloc_heap)
    (m' : memory_block) (h' : palloc_heap) : Prop :=
  let m0 := run_as_chunk m h in
  let h1 := after_call (StatsSub heap_run_active (wrap64 (size_idx m0 * CHUNKSIZE))) h in
  let lock := result_of (GetLock (m_ops m0) m0) h1 in
  let h2 := after_call (MutexLock lock) (after_call (GetLock (m_ops m0) m0) h1) in
  let init := MemblockHugeInit (chunk_id m0) (zone_id m0) (size_idx m0) in
  exists r h3,
    coalesced_insert bucket (result_of init h2) (after_call init h2) r m' h3 /\
    h' = after_call (MutexUnlock lock) h3.

(** What the scan does with the chunk [i] of the zone [zid], from the heap
    [h] to the heap [h'] with the block [m'] it goes on from, by the type of
    the chunk header once the chunk is reinitialized.  A run is reclaimed:
    when [heap_reclaim_run] returns 0 the run stays (its element was put
    into the recycler of its class), otherwise it is demoted to a free chunk
    in the bucket.  A free chunk is coalesced and inserted into the bucket.
    Any other chunk is left as it is. *)
Definition chunk_reclaimed (bucket : bucket) (zid i : Z) (h : palloc_heap)
    (m' : memory_block) (h' : palloc_heap) : Prop :=
  let m := scan_block zid i h in
  let h1 := scan_visit zid i h in
  let ty := hdr_type (chunk_headers (ZID_TO_ZONE (mem h1) zid) i) in
  if ty =? CHUNK_TYPE_RUN then
    exists r hr,
      reclaim_run_outcome m h1 r hr /\
      if r =? 0 then m' = m /\ h' = hr
      else run_demoted bucket m hr m' h'
  else if ty =? CHUNK_TYPE_FREE then
    exists r, coalesced_insert bucket m h1 r m' h'
  else m' = m /\ h' = h1.

(** The scan of the zone [zid] from the chunk [i] in the heap [h] visits
    [n] chunks and ends in the heap [h']: each chunk is reclaimed, and the
    scan goes on from the end of the block that is left of it, until the
    size of the zone is reached. *)
Inductive zone_scan (bucket : bucket) (zid : Z)
  : nat -> Z -> palloc_heap -> palloc_heap -> Prop :=
| zone_scan_end i h :
    zh_size_idx (header (ZID_TO_ZONE (mem h) zid)) <= i ->
    zone_scan bucket zid 0 i h h
| zone_scan_chunk n i h m' h1 h' :
    i < zh_size_idx (header (ZID_TO_ZONE (mem h) zid)) ->
    chunk_reclaimed bucket zid i h m' h1 ->
    zone_scan bucket zid n (wrap32 (chunk_id m' + size_idx m')) h1 h' ->
    zone_scan bucket zid (S n) i h h'.

(** *** Populating a zone *)

(** The number of chunks of the zone that [heap_populate_bucket] consumes
    next: the size in its header or, when the zone is not initialized, the
    size that [zone_calc_size_idx] gives it. *)
Definition zone_chunks (h : palloc_heap) : Z :=
  let zid := zones_exhausted (rt h) in
  let z := ZID_TO_ZONE (mem h) zid in
  if magic (header z) =? ZONE_HEADER_MAGIC then zh_size_idx (header z)
  else zone_calc_size_idx zid (nzones (rt h)) (sizep h).

(** The zone that [heap_populate_bucket] consumes next can be scanned: it is
    consistent or, when it is not initialized, the size it gets is that of a
    chunk header. *)
Definition zone_ready (h : palloc_heap) : Prop :=
  let zid := zones_exhausted (rt h) in
  let z := ZID_TO_ZONE (mem h) zid in
  if magic (header z) =? ZONE_HEADER_MAGIC then zone_consistent z
  else 0 < zone_calc_size_idx zid (nzones (rt h)) (sizep h) < 2 ^ 32.

(** The heap at the start of the scan: the count of the zones consumed is
    incremented and, when the magic of the zone is not set, the zone is
    initialized: [memblock_huge_init] makes one free chunk of it, and its
    header is written and persisted. *)
Definition zone_initialized (h : palloc_heap) : palloc_heap :=
  let zid := zones_exhausted (rt h) in
  let h0 := set_rt (set_zones_exhausted (wrap32 (zid + 1)) (rt h)) h in
  if magic (header (ZID_TO_ZONE (mem h) zid)) =? ZONE_HEADER_MAGIC then h0
  else
    let n := zone_calc_size_idx zid (nzones (rt h)) (sizep h) in
    let hi := after_call (MemblockHugeInit 0 zid (wrap32 (n - 0))) h0 in
    after_call (WalPersistZoneHeader zid)
      (set_mem (set_zone_header zid
                  {| magic := ZONE_HEADER_MAGIC; zh_size_idx := n |} (mem hi)) hi).

(** What [heap_populate_bucket] does from the heap [h], with the result [r]
    and the heap [h'].  With all the zones consumed it returns ENOMEM and
    leaves the heap as it is.  Otherwise it returns 0: one more zone is
    consumed, its header is initialized, and its chunks were scanned from
    the first one to the size of the zone. *)
Definition populated (bucket : bucket) (h : palloc_heap) (r : Z)
    (h' : palloc_heap) : Prop :=
  let zid := zones_exhausted (rt h) in
  if zid =? nzones (rt h) then r = ENOMEM /\ h' = h
  else
    r = 0 /\
    nzones (rt h') = nzones (rt h) /\
    zones_exhausted (rt h') = zid + 1 /\
    header (ZID_TO_ZONE (mem h') zid) =
      {| magic := ZONE_HEADER_MAGIC; zh_size_idx := zone_chunks h |} /\
    exists n, zone_scan bucket zid n 0 (zone_initialized h) h'.

(** What [heap_reclaim_garbage] returns from the heap [h]: 0 exactly when
    some call of [recycler_recalc] gave empty runs; the zones stay as they
    are. *)
Definition garbage_reclaimed (h : palloc_heap) (g : Z) (h1 : palloc_heap) : Prop :=
  (g = 0 \/ g = ENOMEM) /\
  (g = 0 <-> exists l, In l (recalc_results (new_calls h h1)) /\ l <> []) /\
  same_zones h h1.

(** What [heap_ensure_huge_bucket_filled] does, with the result [r] and the
    heap [h']: it returns 0 when the garbage of some recycler is reclaimed;
    failing that when a zone is populated; failing that when a zone is
    populated at the second attempt; and ENOMEM otherwise. *)
Definition huge_refilled (bucket : bucket) (h : palloc_heap) (r : Z)
    (h' : palloc_heap) : Prop :=
  exists g h1,
    garbage_reclaimed h g h1 /\
    if g =? 0 then r = 0 /\ h' = h1
    else
      exists p1 h2,
        populated bucket h1 p1 h2 /\
        if p1 =? 0 then r = 0 /\ h' = h2
        else
          exists p2,
            populated bucket h2 p2 h' /\
            r = if p2 =? 0 then 0 else ENOMEM.

(** *** Refilling the bucket of a run class *)

(** The calls of [recycler_get] in a log, with their arguments and what
    they gave back. *)
Definition get_call (e : event)
  : option (recycler * memory_block * (Z * memory_block)) :=
  match e with
  | Call (RecyclerGet r m) x => Some (r, m, x)
  | _ => None
  end.

Definition get_calls (evs : list event)
  : list (recycler * memory_block * (Z * memory_block)) :=
  omap get_call evs.

(** An event that is not a call of [recycler_get]. *)
Definition not_get (e : event) : Prop :=
  match e with Call (RecyclerGet _ _) _ => False | _ => True end.

(** What [heap_discard_run] does with the run [m]: the run is reclaimed,
    and demoted to a free chunk of the default bucket when it is fully
    empty. *)
Definition run_discarded (m : memory_block) (h h' : palloc_heap) : Prop :=
  exists r hr,
    reclaim_run_outcome m h r hr /\
    if r =? 0 then h' = hr
    else exists m', run_demoted (default_bucket (default_zset (rt h))) m hr m' h'.

(** What [heap_detach_and_try_discard_run] does, with the result [d]: the
    active run is detached from the bucket; when that fails the result is
    -1; otherwise the result is 0, and the run is discarded when the bucket
    reports it empty. *)
Definition run_detached (b : bucket) (h : palloc_heap) (d : Z)
    (h' : palloc_heap) : Prop :=
  let '(r, m, empty) := result_of (BucketDetachRun b) h in
  let h0 := after_call (BucketDetachRun b) h in
  if r =? 0 then
    d = 0 /\ (if empty =? 0 then h' = h0 else run_discarded m h0 h')
  else d = -1 /\ h' = h0.

(** What an attempt to reuse a run of the recycler does, with the result
    [r].  When the recycler of the class cannot be obtained the loss is
    logged and the result is 0, with no run attached.  Otherwise a run of
    [units] units is asked from the recycler; when there is none the
    recycler is recalculated, without [force], and asked again.  A run that
    the recycler gives is attached to the bucket, and the result is that of
    [bucket_attach_run]; when it gives none the result is ENOMEM. *)
Definition run_reused (b : bucket) (units : Z) (h : palloc_heap) (r : Z)
    (h' : palloc_heap) : Prop :=
  let evs := new_calls h h' in
  let m := set_size_idx units MEMORY_BLOCK_NONE in
  match recyclers (default_zset (rt h')) !! ac_id (aclass b) with
  | None =>
      r = 0 /\
      In (Logged (lost_runtime_tracking_info (ac_id (aclass b)))) evs /\
      get_calls evs = [] /\ attach_calls evs = []
  | Some rc =>
      exists g1 m1,
        if g1 =? 0 then
          get_calls evs = [(rc, m, (g1, m1))] /\
          recalc_calls evs = [] /\
          attach_calls evs = [(b, m1, r)]
        else
          exists g2 m2,
            get_calls evs = [(rc, m, (g1, m1)); (rc, m1, (g2, m2))] /\
            recalc_calls evs = [(rc, 0)] /\
            if g2 =? 0 then attach_calls evs = [(b, m2, r)]
            else attach_calls evs = [] /\ r = ENOMEM
  end.

(** What [heap_run_create] does on the block [m]: [memblock_run_init] makes
    a run of the class of the bucket at the chunk of [m], the run is
    attached to the bucket, and the statistics are updated. *)
Definition run_created (b : bucket) (m : memory_block) (h : palloc_heap)
    (m' : memory_block) (h' : palloc_heap) : Prop :=
  let init := MemblockRunInit (chunk_id m) (zone_id m) (rdsc (aclass b)) in
  m' = result_of init h /\
  h' = after_call (StatsInc heap_run_active (wrap64 (size_idx m' * CHUNKSIZE)))
         (after_call (BucketAttachRun b m') (after_call init h)).

(** What the population of one more zone does on the way, with the result
    [p] and the heap [h'].  With all the zones consumed the result is ENOMEM
    and the heap stays as it is.  Otherwise the result is 0, the count of the
    zones consumed is incremented, and the chunks of the zone were scanned
    into the bucket from the first one. *)
Definition zone_populated (bucket : bucket) (h : palloc_heap) (p : Z)
    (h' : palloc_heap) : Prop :=
  let zid := zones_exhausted (rt h) in
  nzones (rt h') = nzones (rt h) /\
  if zid =? nzones (rt h) then p = ENOMEM /\ h' = h
  else
    p = 0 /\
    zones_exhausted (rt h') = wrap32 (zid + 1) /\
    exists n, zone_scan bucket zid n 0 (zone_initialized h) h'.

(** What [heap_ensure_run_bucket_filled] does from the heap [h]; [res] is
    its result with the heap it leaves, if it returns.  The active run is
    detached; when that fails the result is ENOMEM.  Then, until one of them
    gives 0, which is then the result: a run of the recycler is reused; one
    more zone is populated into the default bucket and a run of the recycler
    is reused; a run is created on a block of [rdsc.size_idx] chunks that
    the best fit in the default bucket gives; failing that block, a run of
    the recycler is reused once more.  When all have failed the result is
    ENOMEM.  There is no result exactly when the population of the zone, or
    the best fit, has none. *)
Definition run_refilled (fuel : nat) (b : bucket) (units : Z) (h : palloc_heap)
    (res : option (Z * palloc_heap)) : Prop :=
  let sz := rdsc_size_idx (rdsc (aclass b)) in
  exists d h1,
    run_detached b h d h1 /\
    if d =? 0 then
      exists r1 h2,
        run_reused b units h1 r1 h2 /\
        if r1 =? 0 then res = Some (0, h2)
        else
          match heap_populate_bucket fuel (default_bucket (default_zset (rt h2))) h2 with
          | None => res = None
          | Some (p, h3) =>
              zone_populated (default_bucket (default_zset (rt h2))) h2 p h3 /\
              exists r2 h4,
                run_reused b units h3 r2 h4 /\
                if r2 =? 0 then res = Some (0, h4)
                else
                  let defb := default_bucket (default_zset (rt h4)) in
                  let m0 := set_size_idx sz MEMORY_BLOCK_NONE in
                  match heap_get_bestfit_block fuel defb m0 h4 with
                  | None => res = None
                  | Some (g, m, h5) =>
                      if g =? 0 then
                        size_idx m = sz /\
                        bestfit_success defb sz h4 m h5 /\
                        exists m' h',
                          run_created b m h5 m' h' /\ res = Some (0, h')
                      else
                        refill_fails fuel defb sz m0 h4 /\
                        exists r3 h',
                          run_reused b units h5 r3 h' /\
                          res = Some (if r3 =? 0 then 0 else ENOMEM, h')
                  end
          end
    else res = Some (ENOMEM, h1).

End ScanVocabulary.
(** * Sample heaps *)

(** A layout with sizes of the order of the real ones: chunks of 256 KiB,
    65528 chunks in a zone, a heap header of 1 KiB. *)
Definition sample_layout : HeapLayout := {|
  sizeof_heap_header := 1024;
  sizeof_zone_header := 64;
  sizeof_chunk_header := 8;
  CHUNKSIZE := 262144;
  MAX_CHUNK := 65528;
  ZONE_HEADER_MAGIC := 3287327442;
  ZONE_MIN_SIZE := 786432;
  ZONE_MAX_SIZE := 17178296320;
  HEAP_MIN_SIZE := 787456;
  HEAP_SIGNATURE := [77; 69; 77; 79; 82; 89; 95; 72; 69; 65; 80; 95; 72; 68; 82; 0];
  HEAP_SIGNATURE_LEN := 16;
  CHUNK_TYPE_UNKNOWN := 0;
  CHUNK_TYPE_FREE := 2;
  CHUNK_TYPE_USED := 3;
  CHUNK_TYPE_RUN := 4;
  MAX_CHUNK_TYPE := 6;
  CHUNK_FLAGS_ALL_VALID := 7;
  MAX_ALLOCATION_CLASSES := 255;
  DEFAULT_ALLOC_CLASS_ID := 0
|}.

(** A small implementation of the other modules, to run the functions on.
    A container is a list of blocks tagged with the id of their bucket, the
    ledger of the recyclers a list of elements; [out_of_memory] makes
    [recycler_new] fail; [free_cells] is the free space that
    [recycler_element_new] finds in a run. *)
Record sample_vol := {
  container : list (Z * memory_block);
  active_runs : list (Z * memory_block);
  ledger : list (recycler * recycler_element);
  unaccounted : list (recycler * memory_block);
  out_of_memory : bool;
  free_cells : Z
}.

Definition set_container (c : list (Z * memory_block)) (v : sample_vol) : sample_vol :=
  {| container := c; active_runs := active_runs v; ledger := ledger v;
     unaccounted := unaccounted v; out_of_memory := out_of_memory v;
     free_cells := free_cells v |}.

Definition set_active_runs (a : list (Z * memory_block)) (v : sample_vol) : sample_vol :=
  {| container := container v; active_runs := a; ledger := ledger v;
     unaccounted := unaccounted v; out_of_memory := out_of_memory v;
     free_cells := free_cells v |}.

Definition set_ledger (g : list (recycler * recycler_element)) (v : sample_vol) : sample_vol :=
  {| container := container v; active_runs := active_runs v; ledger := g;
     unaccounted := unaccounted v; out_of_memory := out_of_memory v;
     free_cells := free_cells v |}.

Definition set_unaccounted (u : list (recycler * memory_block)) (v : sample_vol) : sample_vol :=
  {| container := container v; active_runs := active_runs v; ledger := ledger v;
     unaccounted := u; out_of_memory := out_of_memory v;
     free_cells := free_cells v |}.

Definition set_chunk_header (zid cid : Z) (hdr : chunk_header) (l : heap_layout) : heap_layout :=
  {| hl_header := hl_header l;
     zone0 := fun z =>
       let zn := zone0 l z in
       if z =? zid
       then {| header := header zn;
               chunk_headers := fun c => if c =? cid then hdr else chunk_headers zn c;
               chunks := chunks zn |}
       else zn |}.

(** The headers of a block of [sidx] chunks at the chunk [cid]: [hdr] in
    the first chunk header and, for a block of more than one chunk, a footer
    that repeats the size in the last one. *)
Definition set_block_headers (zid cid sidx : Z) (hdr : chunk_header) (l : heap_layout)
  : heap_layout :=
  set_chunk_header zid cid hdr
    (if 1 <? sidx
     then set_chunk_header zid (cid + sidx - 1)
            {| hdr_type := 1; hdr_flags := 0; hdr_size_idx := sidx |} l
     else l).

(** The block is at the same place as the entry. *)
Definition same_place (b : Z) (m : memory_block) (e : Z * memory_block) : bool :=
  (fst e =? b) && (zone_id (snd e) =? zone_id m) && (chunk_id (snd e) =? chunk_id m)
  && (block_off (snd e) =? block_off m).

(** The entry of bucket [b] is large enough for [m]. *)
Definition fits (b : Z) (m : memory_block) (e : Z * memory_block) : bool :=
  (fst e =? b) && (size_idx m <=? size_idx (snd e)).

Fixpoint take_first {A} (p : A -> bool) (l : list A) : option (A * list A) :=
  match l with
  | [] => None
  | x :: l' =>
      if p x then Some (x, l')
      else match take_first p l' with
           | Some (y, r) => Some (y, x :: r)
           | None => None
           end
  end.

Definition sample_handle `{HeapLayout} (op : ext_op) (l : heap_layout) (v : sample_vol)
  : heap_layout * sample_vol * reply op :=
  match op return heap_layout * sample_vol * reply op with
  | BucketAllocBlock b m =>
      match take_first (fits (bucket_id b) m) (container v) with
      | Some (e, rest) => (l, set_container rest v, (0, snd e))
      | None => (l, v, (ENOMEM, m))
      end
  | BucketInsertBlock b m => (l, set_container ((bucket_id b, m) :: container v) v, 0)
  | BucketRemoveBlock b m =>
      match take_first (same_place (bucket_id b) m) (container v) with
      | Some (_, rest) => (l, set_container rest v, 0)
      | None => (l, v, ENOENT)
      end
  | BucketAttachRun b m => (l, set_active_runs ((bucket_id b, m) :: active_runs v) v, 0)
  | BucketDetachRun b =>
      match take_first (fun e => fst e =? bucket_id b) (active_runs v) with
      | Some (e, rest) => (l, set_active_runs rest v, (0, snd e, 0))
      | None => (l, v, (0, MEMORY_BLOCK_NONE, 0))
      end
  | RecyclerNew nallocs =>
      (l, v, if out_of_memory v then None else Some (1000 + nallocs))
  | RecyclerPut r e => (l, set_ledger ((r, e) :: ledger v) v, 0)
  | RecyclerGet r m =>
      match take_first (fun e => (fst e =? r) && (size_idx m <=? free_space (snd e)))
              (ledger v) with
      | Some (e, rest) =>
          (l, set_ledger rest v,
           (0, {| chunk_id := re_chunk_id (snd e); zone_id := re_zone_id (snd e);
                  size_idx := size_idx m; block_off := 0;
                  m_ops := Some MEMORY_BLOCK_RUN; header_type := 0;
                  type := MEMORY_BLOCK_RUN |}))
      | None => (l, v, (ENOMEM, m))
      end
  | RecyclerRecalc r force => (l, v, [])
  | RecyclerIncUnaccounted r m => (l, set_unaccounted ((r, m) :: unaccounted v) v, tt)
  | RecyclerElementNew m =>
      (l, v, {| max_free_block := free_cells v; free_space := free_cells v;
                re_chunk_id := chunk_id m; re_zone_id := zone_id m |})
  | MemblockRebuildState m =>
      (l, v,
       if hdr_type (chunk_headers (ZID_TO_ZONE l (zone_id m)) (chunk_id m)) =? CHUNK_TYPE_RUN
       then {| bc_type := MEMORY_BLOCK_RUN; bc_header_type := 0 |}
       else {| bc_type := MEMORY_BLOCK_HUGE; bc_header_type := 0 |})
  | MemblockHugeInit cid zid sidx =>
      (set_block_headers zid cid sidx
         {| hdr_type := CHUNK_TYPE_FREE; hdr_flags := 0; hdr_size_idx := sidx |} l,
       v,
       {| chunk_id := cid; zone_id := zid; size_idx := sidx; block_off := 0;
          m_ops := Some MEMORY_BLOCK_HUGE; header_type := 0;
          type := MEMORY_BLOCK_HUGE |})
  | MemblockRunInit cid zid rd =>
      (set_chunk_header zid cid
         {| hdr_type := CHUNK_TYPE_RUN; hdr_flags := rdsc_flags rd;
            hdr_size_idx := rdsc_size_idx rd |} l,
       v,
       {| chunk_id := cid; zone_id := zid; size_idx := rdsc_size_idx rd;
          block_off := 0; m_ops := Some MEMORY_BLOCK_RUN; header_type := 0;
          type := MEMORY_BLOCK_RUN |})
  | PrepHdr ops m st =>
      (set_block_headers (zone_id m) (chunk_id m) (size_idx m)
         {| hdr_type := match st with
                        | MEMBLOCK_FREE => CHUNK_TYPE_FREE
                        | _ => CHUNK_TYPE_USED
                        end;
            hdr_flags := 0; hdr_size_idx := size_idx m |} l,
       v, tt)
  | GetLock ops m => (l, v, chunk_id m)
  | GetBitmap ops m => (l, v, {| nbits := 8 |})
  | ReinitChunk ops m => (l, v, tt)
  | EnsureHeaderType ops m t => (l, v, tt)
  | MutexLock lock => (l, v, tt)
  | MutexUnlock lock => (l, v, tt)
  | WalPersistZoneHeader zid => (l, v, tt)
  | StatsInc n x => (l, v, tt)
  | StatsSub n x => (l, v, tt)
  end.

(** The registry of the sample has one run class, of id 1, for runs of one
    chunk with 8 cells of 64 bytes, besides the huge class of id 0. *)
Definition sample_huge_class : alloc_class :=
  {| ac_id := 0; ac_type := CLASS_HUGE; ac_header_type := 1; ac_unit_size := 262144;
     rdsc := {| rdsc_flags := 0; rdsc_unit_size := 0; rdsc_size_idx := 0;
                rdsc_alignment := 0; rdsc_nallocs := 0 |} |}.

Definition sample_run_class : alloc_class :=
  {| ac_id := 1; ac_type := CLASS_RUN; ac_header_type := 2; ac_unit_size := 64;
     rdsc := {| rdsc_flags := 0; rdsc_unit_size := 64; rdsc_size_idx := 1;
                rdsc_alignment := 0; rdsc_nallocs := 8 |} |}.

Definition sample_class_by_run (_ : unit) (block_size flags size_idx : Z)
  : option alloc_class :=
  if (block_size =? 64) && (flags =? 0) && (size_idx =? 1)
  then Some sample_run_class else None.

Definition sample_externals : @Externals := {|
  volatile := sample_vol;
  handle := @sample_handle sample_layout;
  alloc_class_collection := unit;
  alloc_class_by_run := sample_class_by_run;
  util_checksum := fun hdr => checksum hdr =? 0
|}.

Definition sample_default_bucket : bucket :=
  {| bucket_id := 0; aclass := sample_huge_class |}.

Definition sample_run_bucket : bucket :=
  {| bucket_id := 1; aclass := sample_run_class |}.

Definition sample_zset : zone_set :=
  {| zset_id := 0; default_bucket := sample_default_bucket;
     buckets := {[ 1 := sample_run_bucket ]}; recyclers := ∅ |}.

Definition sample_heap_header : heap_header :=
  {| signature := [77; 69; 77; 79; 82; 89; 95; 72; 69; 65; 80; 95; 72; 68; 82; 0];
     major := 1; minor := 0; chunksize := 262144; chunks_per_zone := 65528;
     checksum := 0 |}.

Definition sample_run : chunk_run :=
  {| run_hdr := {| block_size := 64; alignment := 0 |} |}.

Definition zero_chunk_header : chunk_header :=
  {| hdr_type := 0; hdr_flags := 0; hdr_size_idx := 0 |}.

(** A zone of [n] chunks with the chunk headers [hdrs] at the indices given;
    the other headers are zero. *)
Definition sample_zone (n : Z) (hdrs : list (Z * chunk_header)) : zone :=
  {| header := {| magic := 3287327442; zh_size_idx := n |};
     chunk_headers := fun c =>
       match take_first (fun e : Z * chunk_header => fst e =? c) hdrs with
       | Some (e, _) => snd e
       | None => zero_chunk_header
       end;
     chunks := fun _ => sample_run |}.

Definition empty_zone : zone :=
  {| header := {| magic := 0; zh_size_idx := 0 |};
     chunk_headers := fun _ => zero_chunk_header;
     chunks := fun _ => sample_run |}.

(** A region whose zone 0 is [z]; the other zones are not initialized. *)
Definition sample_mem (z : zone) : heap_layout :=
  {| hl_header := sample_heap_header;
     zone0 := fun i => if i =? 0 then z else empty_zone |}.

Definition sample_vol0 : sample_vol :=
  {| container := []; active_runs := []; ledger := []; unaccounted := [];
     out_of_memory := false; free_cells := 3 |}.

(** A booted heap of [nz] zones, of which [ze] have been populated. *)
Definition sample_heap (z : zone) (v : sample_vol) (nz ze : Z)
  : @palloc_heap sample_externals :=
  {| layout := 4096; mem := sample_mem z;
     rt := @Build_heap_rt sample_externals tt sample_zset 1024 nz ze;
     sizep := 1024 + 786432 + 10 * 262144;
     vol := v; calls := [] |}.

Definition footer_hdr (n : Z) : chunk_header :=
  {| hdr_type := 1; hdr_flags := 0; hdr_size_idx := n |}.
Definition free_hdr (n : Z) : chunk_header :=
  {| hdr_type := 2; hdr_flags := 0; hdr_size_idx := n |}.
Definition used_hdr (n : Z) : chunk_header :=
  {| hdr_type := 3; hdr_flags := 0; hdr_size_idx := n |}.
Definition run_hdr_of (n : Z) : chunk_header :=
  {| hdr_type := 4; hdr_flags := 0; hdr_size_idx := n |}.

Definition huge_block (zid cid n : Z) : memory_block :=
  {| chunk_id := cid; zone_id := zid; size_idx := n; block_off := 0;
     m_ops := Some MEMORY_BLOCK_HUGE; header_type := 0; type := MEMORY_BLOCK_HUGE |}.

Definition run_block (zid cid off n : Z) : memory_block :=
  {| chunk_id := cid; zone_id := zid; size_idx := n; block_off := off;
     m_ops := Some MEMORY_BLOCK_RUN; header_type := 0; type := MEMORY_BLOCK_RUN |}.

(** A zone of one chunk whose only chunk header is FREE with a [size_idx]
    of 0, in a region with a valid heap header. *)
Definition stuck_zone : zone := sample_zone 1 [(0, free_hdr 0)].

(** A zone of ten chunks: a used chunk of 2, free chunks of 3 and 1, a used
    chunk of 4.  The last chunk header of a chunk repeats its size. *)
Definition ten_zone : zone :=
  sample_zone 10 [(0, used_hdr 2); (1, footer_hdr 2); (2, free_hdr 3);
                  (4, footer_hdr 3); (5, free_hdr 1); (6, used_hdr 4);
                  (9, footer_hdr 4)].

(** The heap of one zone, [ten_zone], whose default bucket holds the free
    chunk of index 2. *)
Definition ten_vol : sample_vol :=
  set_container [(0, huge_block 0 2 3)] sample_vol0.

Definition ten_heap : @palloc_heap sample_externals :=
  sample_heap ten_zone ten_vol 1 1.

(** A heap of one zone whose only chunk is a run of the sample run class,
    with 3 free cells out of 8; in [oom_run_heap] no recycler can be
    created. *)
Definition run_zone : zone := sample_zone 1 [(0, run_hdr_of 1)].

Definition run_heap : @palloc_heap sample_externals :=
  sample_heap run_zone sample_vol0 1 1.

Definition oom_vol : sample_vol :=
  {| container := []; active_runs := []; ledger := []; unaccounted := [];
     out_of_memory := true; free_cells := 3 |}.

Definition oom_run_heap : @palloc_heap sample_externals :=
  sample_heap run_zone oom_vol 1 1.

(** The heap of [ten_zone] before any zone is populated, and a heap whose
    only zone is not initialized. *)
Definition fresh_ten_heap : @palloc_heap sample_externals :=
  sample_heap ten_zone sample_vol0 1 0.

Definition blank_heap : @palloc_heap sample_externals :=
  sample_heap empty_zone sample_vol0 1 0.


(** ** Sample regions for the consistency checks *)

(** A zone of four chunks whose second chunk, of three chunks, ends past the
    end of the zone. *)
Definition over_zone : zone := sample_zone 4 [(0, used_hdr 2); (2, free_hdr 3)].

(** A region of three zones: [ten_zone], [over_zone], then [stuck_zone]. *)
Definition three_zone_mem : heap_layout :=
  {| hl_header := sample_heap_header;
     zone0 := fun i => if i =? 0 then ten_zone
                       else if i =? 1 then over_zone
                       else if i =? 2 then stuck_zone else empty_zone |}.

(** The size of a heap of two full zones and one zone of the minimal size. *)
Definition three_zone_size : Z := 1024 + 2 * 17178296320 + 786432.

(** A region with the headers of [sample_mem ten_zone] in zone 0, other
    chunks there, and [stuck_zone] as every other zone. *)
Definition other_mem : heap_layout :=
  {| hl_header := sample_heap_header;
     zone0 := fun i =>
       if i =? 0
       then {| header := header ten_zone;
               chunk_headers := chunk_headers ten_zone;
               chunks := fun _ => {| run_hdr := {| block_size := 128; alignment := 64 |} |} |}
       else stuck_zone |}.

(** ** Sample persistence operations *)

Definition set_zone_header_sample (i : Z) (l : heap_layout) : heap_layout :=
  {| hl_header := hl_header l;
     zone0 := fun z =>
       let zn := zone0 l z in
       if z =? i
       then {| header := {| magic := 0; zh_size_idx := 0 |};
               chunk_headers := chunk_headers zn; chunks := chunks zn |}
       else zn |}.

Definition sample_format : HeaderFormat :=
  {| HEAP_MAJOR := 1; HEAP_MINOR := 0; util_checksum_insert := fun _ => 0 |}.

(** Persisting does nothing; the [memset] of a zone header, of a chunk
    header, writes zeros. *)
Definition sample_ops : mo_ops :=
  {| persist_header := fun l => l;
     memset_zone_header := set_zone_header_sample;
     memset_chunk_header := fun i l => set_chunk_header i 0 zero_chunk_header l;
     persist_sizep := fun s => s |}.

(** ** A heap with an empty run *)

(** A heap of one zone, not yet populated, whose only chunk is a run of the
    sample run class with all its 8 cells free. *)
Definition empty_run_vol : sample_vol :=
  {| container := []; active_runs := []; ledger := []; unaccounted := [];
     out_of_memory := false; free_cells := 8 |}.

Definition empty_run_heap : @palloc_heap sample_externals :=
  sample_heap run_zone empty_run_vol 1 0.

(** ** A sample constructor of buckets *)

(** A run class of id 2, which has no bucket in [sample_zset]. *)
Definition sample_run_class_2 : alloc_class :=
  {| ac_id := 2; ac_type := CLASS_RUN; ac_header_type := 2; ac_unit_size := 128;
     rdsc := {| rdsc_flags := 0; rdsc_unit_size := 128; rdsc_size_idx := 1;
                rdsc_alignment := 0; rdsc_nallocs := 4 |} |}.

(** The bucket of a class takes the id of the class. *)
Definition sample_bucket_locked_new (c : alloc_class)
  : @M sample_externals (option bucket) :=
  mret (Some {| bucket_id := ac_id c; aclass := c |}).

(** ** A heap with two recyclers *)

(** The heap of [run_zone] with a recycler for the class 1 and one for the
    class 2. *)
Definition two_recycler_heap : @palloc_heap sample_externals :=
  {| layout := 4096; mem := sample_mem run_zone;
     rt := @Build_heap_rt sample_externals tt
             {| zset_id := 0; default_bucket := sample_default_bucket;
                buckets := {[ 1 := sample_run_bucket ]};
                recyclers := {[ 1 := 1008; 2 := 1004 ]} |}
             1024 1 1;
     sizep := 1024 + 786432 + 10 * 262144;
     vol := sample_vol0; calls := [] |}.

(** ** A zone with a chunk of no size *)

(** A zone of one chunk whose only chunk header is USED with a [size_idx]
    of 0, in a heap of one zone that is not consumed yet. *)
Definition zero_used_zone : zone := sample_zone 1 [(0, used_hdr 0)].

Definition zero_used_heap : @palloc_heap sample_externals :=
  sample_heap zero_used_zone sample_vol0 1 0.
(** * Properties *)

Section HeapMaxZone.
Context `{HeapLayout}.
Hypothesis min_pos : 0 < ZONE_MIN_SIZE.
Hypothesis min_le_max : ZONE_MIN_SIZE <= ZONE_MAX_SIZE.

Lemma wrap32_small x : 0 <= x < 2 ^ 32 -> wrap32 x = x.
Proof. intros ?. unfold wrap32. apply Z.mod_small. lia. Qed.

Lemma wrap64_small x : 0 <= x < 2 ^ 64 -> wrap64 x = x.
Proof. intros ?. unfold wrap64. apply Z.mod_small. lia. Qed.

Lemma heap_max_zone_loop_count size :
  0 <= size ->
  forall max_zone,
  0 <= max_zone ->
  max_zone + size / ZONE_MAX_SIZE + 1 < 2 ^ 32 ->
  heap_max_zone_loop size max_zone =
  Some (max_zone + size / ZONE_MAX_SIZE +
        (if ZONE_MIN_SIZE <=? size mod ZONE_MAX_SIZE then 1 else 0)).
Proof.
  intros Hsize. generalize Hsize. pattern size.
  apply Z_lt_induction; [|exact Hsize].
  clear size Hsize. intros size IH Hsize max_zone Hmz Hfit.
  rewrite heap_max_zone_loop_equation_1.
  destruct (Z_ge_lt_dec size ZONE_MIN_SIZE) as [Hge|Hlt]; simpl.
  - assert (Hstep : heap_max_zone_step size = Z.min size ZONE_MAX_SIZE).
    { unfold heap_max_zone_step. destruct (Z.leb_spec size ZONE_MAX_SIZE); lia. }
    destruct (Z_lt_le_dec 0 (heap_max_zone_step size)) as [Hpos|]; [simpl|lia].
    rewrite Hstep.
    pose proof (Z.div_pos size ZONE_MAX_SIZE).
    rewrite wrap32_small by lia.
    destruct (Z_le_gt_dec size ZONE_MAX_SIZE) as [Hle|Hgt].
    + rewrite Z.min_l, Z.sub_diag by lia.
      rewrite heap_max_zone_loop_equation_1.
      destruct (Z_ge_lt_dec 0 ZONE_MIN_SIZE); [lia|simpl].
      f_equal.
      destruct (Z.eq_dec size ZONE_MAX_SIZE) as [->|Hne].
      * rewrite Z.div_same, Z.mod_same by lia.
        destruct (Z.leb_spec ZONE_MIN_SIZE 0); lia.
      * rewrite Z.div_small, Z.mod_small by lia.
        destruct (Z.leb_spec ZONE_MIN_SIZE size); lia.
    + rewrite Z.min_r by lia.
      assert (Hdiv : size / ZONE_MAX_SIZE = (size - ZONE_MAX_SIZE) / ZONE_MAX_SIZE + 1).
      { replace size with ((size - ZONE_MAX_SIZE) + 1 * ZONE_MAX_SIZE) at 1 by lia.
        rewrite Z.div_add by lia. reflexivity. }
      assert (Hmod : size mod ZONE_MAX_SIZE = (size - ZONE_MAX_SIZE) mod ZONE_MAX_SIZE).
      { replace size with ((size - ZONE_MAX_SIZE) + 1 * ZONE_MAX_SIZE) at 1 by lia.
        rewrite Z.mod_add by lia. reflexivity. }
      pose proof (Z.div_pos (size - ZONE_MAX_SIZE) ZONE_MAX_SIZE).
      rewrite IH by lia.
      rewrite Hdiv, Hmod. f_equal. lia.
  - f_equal. rewrite Z.div_small, Z.mod_small by lia.
    destruct (Z.leb_spec ZONE_MIN_SIZE size); lia.
Qed.

(** C7: for a heap size of at least the size of the heap header,
    [heap_max_zone] returns the quotient of the size less the header by
    [ZONE_MAX_SIZE], plus one exactly when the remainder is at least
    [ZONE_MIN_SIZE]; the count is assumed to fit the [unsigned] result. *)
Theorem heap_max_zone_count (size : Z) :
  0 <= sizeof_heap_header <= size ->
  size < 2 ^ 64 ->
  (size - sizeof_heap_header) / ZONE_MAX_SIZE + 1 < 2 ^ 32 ->
  heap_max_zone size = Some (zone_count_spec size).
Proof.
  intros Hhdr Hsize Hfit. unfold heap_max_zone, zone_count_spec.
  rewrite wrap64_small by lia.
  rewrite heap_max_zone_loop_count by lia.
  f_equal.
Qed.

End HeapMaxZone.

(** At the sample layout, a heap of two full zones and one partial zone of
    1 MiB has three zones. *)
Lemma heap_max_zone_count_witness :
  @heap_max_zone sample_layout (1024 + 2 * 17178296320 + 1048576) =
  Some (@zone_count_spec sample_layout (1024 + 2 * 17178296320 + 1048576)).
Proof.
  apply (@heap_max_zone_count sample_layout); simpl; try lia.
  vm_compute. reflexivity.
Defined.

(** ** Reasoning about the monad *)

Section Monad.
Context `{HeapLayout} `{Externals}.

Lemma bind_Some {A B} (f : M A) (k : A -> M B) h b h' :
  (f ≫= k) h = Some (b, h') <->
  exists a h1, f h = Some (a, h1) /\ k a h1 = Some (b, h').
Proof.
  unfold mbind, M_bind. split.
  - destruct (f h) as [[a h1]|]; [|discriminate]. eauto.
  - intros (a & h1 & -> & ?). assumption.
Qed.

Lemma ret_Some {A} (a b : A) h h' :
  (mret a : M A) h = Some (b, h') <-> b = a /\ h' = h.
Proof. unfold mret, M_ret. split; [intros [= -> ->]|intros [-> ->]]; auto. Qed.

Lemma get_heap_Some h a h' : get_heap h = Some (a, h') <-> a = h /\ h' = h.
Proof. unfold get_heap. split; [intros [= -> ->]|intros [-> ->]]; auto. Qed.

Lemma modify_heap_Some f h a h' : modify_heap f h = Some (a, h') <-> h' = f h.
Proof.
  unfold modify_heap. destruct a.
  split; [intros [= ->]|intros ->]; auto.
Qed.

Lemma no_result_Some {A} h (r : A * palloc_heap) : no_result h = Some r <-> False.
Proof. unfold no_result. split; [discriminate|tauto]. Qed.


Lemma perform_Some op h r h' :
  perform op h = Some (r, h') <-> r = result_of op h /\ h' = after_call op h.
Proof.
  unfold perform, result_of, after_call.
  destruct (handle op (mem h) (vol h)) as [[l v] r0]; simpl.
  split; [intros [= <- <-]|intros [-> ->]]; auto.
Qed.


Lemma log_msg_Some msg h a h' : log_msg msg h = Some (a, h') <-> h' = after_log msg h.
Proof.
  unfold log_msg, after_log. destruct a.
  split; [intros [= <-]|intros ->]; auto.
Qed.

Lemma total_ret {A} (a : A) : total (mret a : M A).
Proof. intros h. eexists. reflexivity. Qed.

Lemma total_bind {A B} (f : M A) (k : A -> M B) :
  total f -> (forall a, total (k a)) -> total (f ≫= k).
Proof.
  intros Hf Hk h. unfold mbind, M_bind.
  destruct (Hf h) as [[a h1] ->]. apply Hk.
Qed.

Lemma total_get_heap : total get_heap.
Proof. intros h. eexists. reflexivity. Qed.

Lemma total_modify_heap f : total (modify_heap f).
Proof. intros h. eexists. reflexivity. Qed.

Lemma total_perform op : total (perform op).
Proof.
  intros h. unfold perform.
  destruct (handle op (mem h) (vol h)) as [[l v] r]. eexists. reflexivity.
Qed.

Lemma total_log_msg msg : total (log_msg msg).
Proof. intros h. eexists. reflexivity. Qed.

Lemma run_passes_Some {A} (x : option (A * palloc_heap)) P :
  run_passes x P = true ->
  exists a h', x = Some (a, h') /\ P a h' = true.
Proof. destruct x as [[a h']|]; [eauto|discriminate]. Qed.

End Monad.

(** A function without loops returns. *)
Ltac total_step :=
  match goal with
  | |- total (mbind _ _) => apply total_bind; [|intros]
  | |- total (mret _) => apply total_ret
  | |- total get_heap => apply total_get_heap
  | |- total (modify_heap _) => apply total_modify_heap
  | |- total (perform ?op) => exact (total_perform op)
  | |- total (log_msg _) => apply total_log_msg
  | |- total (if ?c then _ else _) => destruct c
  | |- total (match ?c with Some _ => _ | None => _ end) => destruct c
  | |- total (match ?c with CLASS_HUGE => _ | CLASS_RUN => _ end) => destruct c
  | |- total (match ?c with MEMORY_BLOCK_HUGE => _ | MEMORY_BLOCK_RUN => _ end) =>
      destruct c
  | |- total (let '(_, _) := ?c in _) => destruct c
  end.

Ltac total_tac := repeat total_step.

(** One step of inversion of a run of monadic code. *)
Ltac subst_eq H :=
  match type of H with
  | ?x = ?y => first [is_var x; subst x | is_var y; subst y | idtac]
  end.

Ltac split_eqs H :=
  let H1 := fresh "Heq" in
  let H2 := fresh "Heq" in
  destruct H as [H1 H2]; subst_eq H1; subst_eq H2.

Ltac minv_step :=
  match goal with
  | H : mbind _ _ _ = Some _ |- _ =>
      apply bind_Some in H; destruct H as (? & ? & ? & H)
  | H : mret _ _ = Some _ |- _ => apply ret_Some in H; split_eqs H
  | H : get_heap _ = Some _ |- _ => apply get_heap_Some in H; split_eqs H
  | H : modify_heap _ _ = Some _ |- _ => apply modify_heap_Some in H; subst_eq H
  | H : no_result _ = Some _ |- _ => apply no_result_Some in H; destruct H
  | H : perform ?op ?h = Some (?r, ?h') |- _ =>
      apply (proj1 (perform_Some op h r h')) in H; split_eqs H
  | H : log_msg _ _ = Some _ |- _ => apply log_msg_Some in H; subst_eq H
  | H : (_, _) = (_, _) |- _ =>
      let H1 := fresh "Heq" in
      let H2 := fresh "Heq" in
      injection H as H1 H2; subst_eq H1; subst_eq H2
  | H : (if true then _ else _) _ = Some _ |- _ => cbv iota in H
  | H : (if false then _ else _) _ = Some _ |- _ => cbv iota in H
  | H : _ = Some (?a, _) |- _ =>
      is_var a; match type of a with (_ * _)%type => destruct a end
  | H : _ = Some (?a, _, _) |- _ =>
      is_var a; match type of a with (_ * _)%type => destruct a end
  end.

Ltac minv := repeat minv_step.

(** Case analysis on the test a run goes through. *)
Ltac mcase :=
  match goal with
  | H : (if ?c then _ else _) _ = Some _ |- _ => destruct c eqn:?
  | H : (match ?c with Some _ => _ | None => _ end) _ = Some _ |- _ => destruct c eqn:?
  end.

(** Boolean comparisons of [Z] in the hypotheses, as propositions. *)
Ltac zb :=
  repeat match goal with
  | H : (_ =? _) = true |- _ => apply Z.eqb_eq in H
  | H : (_ =? _) = false |- _ => apply Z.eqb_neq in H
  | H : (_ <? _) = true |- _ => apply Z.ltb_lt in H
  | H : (_ <? _) = false |- _ => apply Z.ltb_ge in H
  | H : (_ <=? _) = true |- _ => apply Z.leb_le in H
  | H : (_ <=? _) = false |- _ => apply Z.leb_gt in H
  end.

(** ** [heap_check] on a chunk header of size 0 *)

Lemma stuck_zone_loop fuel :
  @heap_verify_zone_loop sample_layout fuel stuck_zone 0 = None.
Proof.
  induction fuel as [|fuel IH]; [reflexivity|].
  change (@heap_verify_zone_loop sample_layout (S fuel) stuck_zone 0)
    with (@heap_verify_zone_loop sample_layout fuel stuck_zone 0).
  exact IH.
Qed.

Lemma stuck_zone_verify fuel :
  @heap_verify_zone sample_layout fuel stuck_zone = None.
Proof.
  change (@heap_verify_zone sample_layout fuel stuck_zone)
    with (@heap_verify_zone_loop sample_layout fuel stuck_zone 0).
  apply stuck_zone_loop.
Qed.

Lemma sample_max_zone_min :
  @heap_max_zone sample_layout (@HEAP_MIN_SIZE sample_layout) = Some 1.
Proof.
  unfold heap_max_zone.
  change (wrap64 (@HEAP_MIN_SIZE sample_layout - @sizeof_heap_header sample_layout))
    with 786432.
  rewrite (@heap_max_zone_loop_count sample_layout); simpl; try lia; reflexivity.
Qed.

(** C5: the region has a valid header and one zone, whose only chunk header
    is of a known type with valid flags and a [size_idx] of 0.  The sizes of
    the chunks do not sum to the size of the zone, yet [heap_check] does not
    return -1: the loop of [heap_verify_zone] stays at the same chunk header
    whatever the number of iterations, and [heap_check] has no result. *)
Theorem heap_check_zero_size_chunk_hangs (fuel : nat) :
  @heap_check sample_layout sample_externals fuel (sample_mem stuck_zone)
    (@HEAP_MIN_SIZE sample_layout) = None.
Proof.
  unfold heap_check.
  rewrite sample_max_zone_min.
  change (@HEAP_MIN_SIZE sample_layout <? @HEAP_MIN_SIZE sample_layout) with false.
  change (@heap_verify_header sample_layout sample_externals
            (hl_header (sample_mem stuck_zone)) =? 0) with true.
  cbv iota.
  change (seqZ 0 1) with [0].
  unfold heap_check_loop.
  change (ZID_TO_ZONE (sample_mem stuck_zone) 0) with stuck_zone.
  rewrite stuck_zone_verify. reflexivity.
Qed.

(** ** [heap_end] *)

Section HeapEnd.
Context `{HeapLayout} `{Externals}.

Lemma wrap64_add_l a b : wrap64 (wrap64 a + b) = wrap64 (a + b).
Proof. unfold wrap64. apply Zplus_mod_idemp_l. Qed.

(** C9, amended: for a heap with [nzones > 0], [heap_end] is the address of
    the element of index [size_idx] of the chunk array of zone [nzones - 1],
    with [size_idx] read from the header of that zone; that address is one
    chunk past the one of the element of index [size_idx - 1], the last chunk
    of the zone. *)
Theorem heap_end_address (h : palloc_heap) :
  0 < nzones (rt h) < 2 ^ 32 ->
  let last := nzones (rt h) - 1 in
  let size_idx := zh_size_idx (header (ZID_TO_ZONE (mem h) last)) in
  heap_end h = chunks_ptr (ZID_TO_ZONE_ptr (layout h) last) size_idx /\
  heap_end h =
    wrap64 (chunks_ptr (ZID_TO_ZONE_ptr (layout h) last) (size_idx - 1) + CHUNKSIZE).
Proof.
  intros Hnz last size_idx. unfold heap_end.
  rewrite wrap32_small by lia. fold last. fold size_idx.
  split; [reflexivity|].
  unfold chunks_ptr. rewrite wrap64_add_l. f_equal. lia.
Qed.

End HeapEnd.

(** In a heap of one zone of ten chunks at address 4096, [heap_end] is the
    address of the chunk of index 10. *)
Lemma heap_end_address_witness :
  let h := sample_heap ten_zone sample_vol0 1 1 in
  @heap_end sample_layout sample_externals h =
    @chunks_ptr sample_layout (@ZID_TO_ZONE_ptr sample_layout 4096 0) 10 /\
  @heap_end sample_layout sample_externals h =
    wrap64 (@chunks_ptr sample_layout (@ZID_TO_ZONE_ptr sample_layout 4096 0) 9 +
            @CHUNKSIZE sample_layout).
Proof.
  intros h.
  apply (@heap_end_address sample_layout sample_externals h).
  simpl. lia.
Defined.

(** C9 as stated fails: in that heap, the address one chunk array element
    past the chunk of index [size_idx] = 10 is not what [heap_end] returns. *)
Lemma heap_end_not_past_size_idx :
  let h := sample_heap ten_zone sample_vol0 1 1 in
  @heap_end sample_layout sample_externals h <>
    wrap64 (@chunks_ptr sample_layout (@ZID_TO_ZONE_ptr sample_layout 4096 0) 10 +
            @CHUNKSIZE sample_layout).
Proof. vm_compute. discriminate. Qed.

(** ** Neighbours and coalescing *)

Section Coalesce.
Context `{HeapLayout} `{Externals}.

Lemma new_calls_app h h' evs : calls h' = calls h ++ evs -> new_calls h h' = evs.
Proof. intros E. unfold new_calls. rewrite E. apply drop_app_length. Qed.

Lemma after_call_mem op h : volatile_only op -> mem (after_call op h) = mem h.
Proof. intros V. unfold after_call. simpl. apply V. Qed.

Lemma wrap32_add_l a b : wrap32 (wrap32 a + b) = wrap32 (a + b).
Proof. unfold wrap32. apply Zplus_mod_idemp_l. Qed.

Lemma wrap32_idem a : wrap32 (wrap32 a) = wrap32 a.
Proof. unfold wrap32. apply Zmod_mod. Qed.

Lemma removals_app l1 l2 : removals (l1 ++ l2) = removals l1 ++ removals l2.
Proof. unfold removals. apply omap_app. Qed.

Lemma removed_app l1 l2 : removed (l1 ++ l2) = removed l1 ++ removed l2.
Proof. unfold removed. rewrite removals_app. apply omap_app. Qed.

Lemma memblock_rebuild_state_Some m h m' h' :
  memblock_rebuild_state m h = Some (m', h') ->
  m' = set_class (result_of (MemblockRebuildState m) h) m /\
  h' = after_call (MemblockRebuildState m) h.
Proof. unfold memblock_rebuild_state. intros E. minv. auto. Qed.

(** What [heap_get_adjacent_free_block] gives: it fails with ENOENT and
    leaves the heap as it is, or it finds the neighbour and rebuilds its
    state. *)
Lemma heap_get_adjacent_free_block_Some in_ out prev h r out' h' :
  heap_get_adjacent_free_block in_ out prev h = Some (r, out', h') ->
  zone_id out' = zone_id in_ /\
  ((r = ENOENT /\ h' = h /\ forall x, ~ free_neighbour (mem h) in_ prev x) \/
   (r = 0 /\ free_neighbour (mem h) in_ prev out' /\
    exists m0, h' = after_call (MemblockRebuildState m0) h)).
Proof.
  intros E. unfold heap_get_adjacent_free_block in E. minv. simpl in E.
  unfold free_neighbour.
  repeat (mcase; minv; simpl in * ); zb;
    repeat match goal with
    | E : memblock_rebuild_state _ _ = Some _ |- _ =>
        apply memblock_rebuild_state_Some in E; destruct E as [-> ->]
    end; simpl; (split; [reflexivity|]);
    try (left; repeat split; auto; intros x Hx; simpl in Hx; tauto);
    right; repeat split; eauto; try rewrite Z.eqb_refl; auto.
Qed.


Hypothesis rebuild_volatile : forall x, volatile_only (MemblockRebuildState x).
Hypothesis remove_volatile : forall b x, volatile_only (BucketRemoveBlock b x).

(** One neighbour. *)
Lemma removed_neighbour_Some b m prev h o h' :
  removed_neighbour b m prev h = Some (o, h') ->
  mem h' = mem h /\ rt h' = rt h /\
  exists evs,
    calls h' = calls h ++ evs /\ Forall coalescing_call evs /\
    neighbour_outcome (mem h) b m prev o (removals evs).
Proof.
  intros E. unfold removed_neighbour in E. minv.
  match goal with E : heap_get_adjacent_free_block _ _ _ _ = Some _ |- _ =>
    apply heap_get_adjacent_free_block_Some in E;
    destruct E as [Hz [(-> & -> & Hno)|(-> & Hfree & mm & ->)]] end.
  - change (ENOENT =? 0) with false in E. minv.
    split; [reflexivity|]. split; [reflexivity|].
    exists (@nil event). rewrite app_nil_r.
    split; [reflexivity|]. split; [constructor|]. left. auto.
  - change (0 =? 0) with true in E. unfold bucket_remove_block in E. minv.
    simpl. rewrite !remove_volatile, !rebuild_volatile.
    split; [reflexivity|]. split; [reflexivity|].
    eexists [_; _]. rewrite <- app_assoc. simpl.
    split; [reflexivity|]. split; [repeat constructor|].
    right. eexists _, _. split; [reflexivity|]. split; [assumption|].
    unfold result_of. reflexivity.
Qed.

Lemma heap_coalesce_Some o1 m o2 h nm h' :
  heap_coalesce [o1; Some m; o2] h = Some (nm, h') ->
  let merged := block_list o1 ++ [m] ++ block_list o2 in
  size_idx nm = wrap32 (sum_size_idx merged) /\
  chunk_id nm = chunk_id (hd m merged) /\
  zone_id nm = zone_id (hd m merged) /\
  block_off nm = block_off (hd m merged) /\
  exists m0, h' = after_call (MemblockRebuildState m0) h.
Proof.
  intros E merged. subst merged. unfold heap_coalesce in E.
  destruct o1 as [p|], o2 as [n|]; simpl in E;
    apply memblock_rebuild_state_Some in E; destruct E as [-> ->]; simpl;
    rewrite ?wrap32_add_l, ?Z.add_0_r, ?Z.add_0_l, ?Z.add_assoc;
    repeat split; eauto.
  rewrite <- (Z.add_assoc (wrap32 _)), wrap32_add_l, Z.add_assoc. reflexivity.
Qed.

(** [heap_coalesce_huge]: the blocks merged are the input block and the
    neighbours that were removed from the container of the bucket. *)
Lemma heap_coalesce_huge_Some b m h nm h' :
  heap_coalesce_huge b m h = Some (nm, h') ->
  mem h' = mem h /\ rt h' = rt h /\
  exists prev next rs1 rs2 evs,
    calls h' = calls h ++ evs /\ Forall coalescing_call evs /\
    removals evs = rs1 ++ rs2 /\
    neighbour_outcome (mem h) b m 1 prev rs1 /\
    neighbour_outcome (mem h) b m 0 next rs2 /\
    let merged := block_list prev ++ [m] ++ block_list next in
    size_idx nm = wrap32 (sum_size_idx merged) /\
    chunk_id nm = chunk_id (hd m merged) /\
    zone_id nm = zone_id (hd m merged) /\
    block_off nm = block_off (hd m merged).
Proof.
  intros E. unfold heap_coalesce_huge in E. minv.
  repeat match goal with E : removed_neighbour _ _ _ _ = Some _ |- _ =>
    apply removed_neighbour_Some in E;
    destruct E as (? & ? & ? & ? & ? & ?) end.
  apply heap_coalesce_Some in E.
  destruct E as (Hs & Hc & Hz & Ho & m0 & ->).
  rewrite after_call_mem by apply rebuild_volatile.
  split; [congruence|]. split; [simpl; congruence|].
  match goal with
  | H1 : neighbour_outcome _ _ _ 1 ?p (removals ?e1),
    H2 : neighbour_outcome _ _ _ 0 ?n (removals ?e2) |- _ =>
      exists p, n, (removals e1), (removals e2); eexists (e1 ++ e2 ++ [_])
  end.
  split.
  { simpl. repeat match goal with E : calls _ = _ |- _ => rewrite E; clear E end.
    rewrite <- !app_assoc. reflexivity. }
  split.
  { rewrite !Forall_app. repeat split; auto. repeat constructor. }
  split.
  { rewrite !removals_app. simpl. rewrite app_nil_r. reflexivity. }
  split; [assumption|].
  split; [congruence|].
  auto.
Qed.

Lemma free_neighbour_zone l m p x : free_neighbour l m p x -> zone_id x = zone_id m.
Proof. unfold free_neighbour. tauto. Qed.

Lemma neighbour_outcome_Some l b m p o rs x :
  neighbour_outcome l b m p o rs -> o = Some x ->
  free_neighbour l m p x /\ rs = [(b, x, 0)].
Proof.
  intros [(_ & -> & _)|(y & r & -> & Hf & ->)] E; [discriminate|].
  destruct (Z.eqb_spec r 0); [|discriminate].
  injection E as ->. subst. auto.
Qed.

Lemma neighbour_outcome_zone l b m p o rs :
  neighbour_outcome l b m p o rs ->
  forall a, In a rs -> zone_id a.1.2 = zone_id m.
Proof.
  intros [(-> & _ & _)|(y & r & -> & Hf & _)] a Ha; [destruct Ha|].
  destruct Ha as [<-|[]]. simpl. eapply free_neighbour_zone; eassumption.
Qed.


(** What a run of [heap_free_chunk_reuse] does. *)
Lemma heap_free_chunk_reuse_Some bucket m h r nm h' :
  heap_free_chunk_reuse bucket m h = Some (r, nm, h') ->
  coalesced_insert bucket m h r nm h'.
Proof.
  intros E. unfold heap_free_chunk_reuse in E. minv.
  match goal with
  | E1 : heap_coalesce_huge _ _ _ = Some _,
    E2 : (if _ then _ else _) _ = Some _,
    E3 : bucket_insert_block _ _ _ = Some _ |- _ =>
      apply heap_coalesce_huge_Some in E1;
      destruct E1 as (Hm & Hrt & prev & next & rs1 & rs2 & evs & Hc & Hf & Hr & Hp & Hn & Hg);
      rename E2 into Eprep; rename E3 into Eins
  end.
  destruct Hg as (Hs & Hcid & Hzid & _).
  exists prev, next, rs1, rs2, evs.
  match goal with |- context [zone_id ?nm = zone_id m] =>
    assert (Hzone : zone_id nm = zone_id m) end.
  { rewrite Hzid. destruct prev as [p|]; [|reflexivity]. simpl.
    destruct (neighbour_outcome_Some _ _ _ _ _ _ p Hp eq_refl) as [Hfree _].
    eapply free_neighbour_zone; eassumption. }
  repeat split; auto.
  unfold bucket_insert_block in Eins. apply new_calls_app.
  destruct (size_idx _ =? size_idx m); minv.
  - simpl. rewrite Hc, <- !app_assoc. reflexivity.
  - unfold prep_hdr in *. minv. simpl. rewrite Hc, <- !app_assoc.
    match goal with |- context [Call (PrepHdr ?a ?b ?c) ?u] => destruct u end.
    reflexivity.
Qed.

(** C4: [heap_free_chunk_reuse] inserts the block that covers [m] and each
    neighbour that is FREE and was removed from the container of the bucket;
    its size is the sum of the sizes of the merged blocks, its chunk is the
    one of the leftmost merged block, and [prep_hdr] is called on it with
    MEMBLOCK_FREE, before the insertion, exactly when its size is not the
    size of [m].  The calls made while looking for the neighbours are assumed
    to leave the persistent layout as it is. *)
Theorem heap_free_chunk_reuse_coalesces bucket m h r nm h' :
  heap_free_chunk_reuse bucket m h = Some (r, nm, h') ->
  coalesced_insert bucket m h r nm h'.
Proof. apply heap_free_chunk_reuse_Some. Qed.

Lemma top_level_range z i :
  zone_consistent z -> top_level z i -> 0 <= i < zh_size_idx (header z).
Proof.
  intros [_ Hz] T. induction T as [|i T IH Hlt]; [lia|].
  destruct (Hz i T) as (? & ? & ?). lia.
Qed.

(** C10: [heap_get_adjacent_free_block] returns ENOENT for the previous
    neighbour of a block of chunk 0, and for the next neighbour of a block
    whose chunk header ends at the size of the zone.  The blocks that
    [heap_coalesce_huge] removes and merges are in the zone of its input
    block, and so is its result; when the zone is consistent and the input
    block is one of its top-level chunks, the coalesced block lies between
    chunk 0 and the size of the zone. *)
Theorem coalescing_stays_within_zone (b : bucket) (m : memory_block) (h : palloc_heap) :
  let z := ZID_TO_ZONE (mem h) (zone_id m) in
  (forall out prev, prev <> 0 -> chunk_id m = 0 ->
     heap_get_adjacent_free_block m out prev h =
       Some (ENOENT, set_zone_id (zone_id m) out, h)) /\
  (forall out,
     0 <= zh_size_idx (header z) < 2 ^ 32 ->
     chunk_id m + hdr_size_idx (chunk_headers z (chunk_id m)) = zh_size_idx (header z) ->
     heap_get_adjacent_free_block m out 0 h =
       Some (ENOENT, set_zone_id (zone_id m) out, h)) /\
  (forall nm h', heap_coalesce_huge b m h = Some (nm, h') ->
     zone_id nm = zone_id m /\
     (forall a, In a (removals (new_calls h h')) -> zone_id a.1.2 = zone_id m) /\
     (zone_consistent z -> top_level z (chunk_id m) ->
      size_idx m = hdr_size_idx (chunk_headers z (chunk_id m)) ->
      0 <= chunk_id nm /\ chunk_id nm + size_idx nm <= zh_size_idx (header z))).
Proof.
  intros z. split; [|split].
  - intros out prev Hp Hc. unfold heap_get_adjacent_free_block.
    apply bind_Some. exists h, h. split; [reflexivity|].
    apply Z.eqb_neq in Hp. rewrite Hp. apply Z.eqb_eq in Hc. rewrite Hc.
    reflexivity.
  - intros out Hz Hc. unfold heap_get_adjacent_free_block.
    apply bind_Some. exists h, h. split; [reflexivity|].
    rewrite Z.eqb_refl. fold z. rewrite Hc, wrap32_small by lia.
    rewrite Z.eqb_refl. reflexivity.
  - intros nm h' E.
    apply heap_coalesce_huge_Some in E.
    destruct E as (Hm & Hrt & prev & next & rs1 & rs2 & evs & Hc & Hf & Hr & Hp & Hn & Hg).
    destruct Hg as (Hs & Hcid & Hzid & _).
    split; [|split].
    + rewrite Hzid. destruct prev as [p|]; [|reflexivity]. simpl.
      destruct (neighbour_outcome_Some _ _ _ _ _ _ p Hp eq_refl) as [Hfree _].
      eapply free_neighbour_zone; eassumption.
    + intros a Ha. rewrite (new_calls_app _ _ _ Hc), Hr in Ha.
      apply in_app_or in Ha. destruct Ha as [Ha|Ha].
      * exact (neighbour_outcome_zone _ _ _ _ _ _ Hp a Ha).
      * exact (neighbour_outcome_zone _ _ _ _ _ _ Hn a Ha).
    + intros Hz T Hsize. fold z in Hp, Hn.
      pose proof (top_level_range _ _ Hz T) as Hrange.
      destruct Hz as [Hzs Hz].
      destruct (Hz _ T) as (Hpos & Hend & Hfoot).
      assert (Hnext : forall x, next = Some x ->
                0 < size_idx x /\ chunk_id m + size_idx m + size_idx x <= zh_size_idx (header z)).
      { intros x ->.
        destruct (neighbour_outcome_Some _ _ _ _ _ _ x Hn eq_refl) as [Hfree _].
        unfold free_neighbour in Hfree. fold z in Hfree.
        change (0 =? 0) with true in Hfree. cbv iota in Hfree.
        rewrite <- Hsize in Hfree.
        rewrite wrap32_small in Hfree by lia.
        destruct Hfree as (Hne & _ & _ & _ & Hsx).
        assert (T' : top_level z (chunk_id m + size_idx m)).
        { rewrite Hsize. apply top_level_next; [assumption|]. lia. }
        destruct (Hz _ T') as (? & ? & _). rewrite Hsx. lia. }
      assert (Hprev : forall x, prev = Some x ->
                0 <= chunk_id x /\ 0 < size_idx x /\ chunk_id x + size_idx x = chunk_id m).
      { intros x ->.
        destruct (neighbour_outcome_Some _ _ _ _ _ _ x Hp eq_refl) as [Hfree _].
        unfold free_neighbour in Hfree. fold z in Hfree.
        change (1 =? 0) with false in Hfree. cbv iota in Hfree.
        destruct Hfree as (Hne & _ & _ & Hcx & Hsx).
        rewrite <- Hcx in Hsx.
        inversion T as [Hfirst Hzero|i Ti Hlt Hi]; [congruence|].
        pose proof (top_level_range _ _ (conj Hzs Hz) Ti) as Hri.
        destruct (Hz _ Ti) as (Hpi & Hei & Hfi).
        rewrite <- Hi in Hcx.
        rewrite Hfi in Hcx.
        replace (i + hdr_size_idx (chunk_headers z i) - hdr_size_idx (chunk_headers z i))
          with i in Hcx by lia.
        rewrite wrap32_small in Hcx by lia.
        rewrite Hcx in Hsx. rewrite Hcx, Hsx. lia. }
      destruct prev as [p|], next as [n|]; simpl in Hs, Hcid;
        try (destruct (Hprev p eq_refl) as (? & ? & ?));
        try (destruct (Hnext n eq_refl) as (? & ?));
        rewrite Hcid, Hs, wrap32_small; lia.
Qed.

End Coalesce.

(** The sample modules leave the layout as it is when the state of a block
    is rebuilt and when a block is removed from a container. *)
Lemma sample_rebuild_volatile x :
  @volatile_only sample_externals (MemblockRebuildState x).
Proof. intros l v. reflexivity. Qed.

Lemma sample_remove_volatile b x :
  @volatile_only sample_externals (BucketRemoveBlock b x).
Proof.
  intros l v. simpl.
  destruct (take_first (same_place (bucket_id b) x) (container v)) as [[? ?]|];
    reflexivity.
Qed.

(** In [ten_heap], the free chunk of index 5 is given back: the free chunk
    of index 2 before it is in the bucket and is merged, the chunk after it
    is used. *)
Lemma heap_free_chunk_reuse_coalesces_witness :
  exists r nm h',
    @heap_free_chunk_reuse sample_layout sample_externals
      sample_default_bucket (huge_block 0 5 1) ten_heap = Some (r, nm, h') /\
    chunk_id nm = 2 /\ size_idx nm = 4 /\
    @coalesced_insert sample_layout sample_externals
      sample_default_bucket (huge_block 0 5 1) ten_heap r nm h'.
Proof.
  eexists _, _, _. split; [vm_compute; reflexivity|].
  split; [reflexivity|]. split; [reflexivity|].
  apply (@heap_free_chunk_reuse_coalesces sample_layout sample_externals
           sample_rebuild_volatile sample_remove_volatile).
  vm_compute. reflexivity.
Defined.

Lemma ten_zone_top_level i :
  top_level ten_zone i -> i = 0 \/ i = 2 \/ i = 5 \/ i = 6.
Proof.
  intros T. induction T as [|i T IH Hlt]; [auto|].
  destruct IH as [-> | [-> | [-> | ->]]]; vm_compute in Hlt |- *; auto; discriminate.
Qed.

Lemma ten_zone_consistent : zone_consistent ten_zone.
Proof.
  split; [vm_compute; split; [discriminate|reflexivity]|].
  intros i T. apply ten_zone_top_level in T.
  destruct T as [-> | [-> | [-> | ->]]]; vm_compute; repeat split; discriminate.
Qed.

Lemma ten_zone_top_level_5 : top_level ten_zone 5.
Proof.
  change 5 with (2 + hdr_size_idx (chunk_headers ten_zone 2)).
  apply top_level_next; [|reflexivity].
  change 2 with (0 + hdr_size_idx (chunk_headers ten_zone 0)).
  apply top_level_next; [|reflexivity].
  apply top_level_first. reflexivity.
Qed.

(** In [ten_heap]: no previous neighbour for a block of chunk 0, no next
    neighbour for the block of the last four chunks, and the free chunk of
    index 5 coalesces with the one of index 2 into a block of the chunks 2 to
    5 of the same zone. *)
Lemma coalescing_stays_within_zone_witness :
  @heap_get_adjacent_free_block sample_layout sample_externals
    (huge_block 0 0 2) MEMORY_BLOCK_NONE 1 ten_heap =
    Some (ENOENT, set_zone_id 0 MEMORY_BLOCK_NONE, ten_heap) /\
  @heap_get_adjacent_free_block sample_layout sample_externals
    (huge_block 0 6 4) MEMORY_BLOCK_NONE 0 ten_heap =
    Some (ENOENT, set_zone_id 0 MEMORY_BLOCK_NONE, ten_heap) /\
  exists nm h',
    @heap_coalesce_huge sample_layout sample_externals
      sample_default_bucket (huge_block 0 5 1) ten_heap = Some (nm, h') /\
    zone_id nm = 0 /\
    0 <= chunk_id nm /\ chunk_id nm + size_idx nm <= 10.
Proof.
  split; [|split].
  - apply (@coalescing_stays_within_zone sample_layout sample_externals
             sample_rebuild_volatile sample_remove_volatile
             sample_default_bucket (huge_block 0 0 2) ten_heap).
    + discriminate.
    + reflexivity.
  - apply (@coalescing_stays_within_zone sample_layout sample_externals
             sample_rebuild_volatile sample_remove_volatile
             sample_default_bucket (huge_block 0 6 4) ten_heap).
    + vm_compute. split; [discriminate|reflexivity].
    + reflexivity.
  - eexists _, _. split; [vm_compute; reflexivity|].
    match goal with |- zone_id ?nm = _ /\ _ =>
      destruct (proj2 (proj2 (@coalescing_stays_within_zone sample_layout sample_externals
                 sample_rebuild_volatile sample_remove_volatile
                 sample_default_bucket (huge_block 0 5 1) ten_heap)) nm _ eq_refl)
        as (Hz & _ & Hin)
    end.
    split; [exact Hz|].
    apply (Hin ten_zone_consistent ten_zone_top_level_5 eq_refl).
Defined.

(** ** Bookkeeping at a free, and reclaiming a run *)

Section Recycler.
Context `{HeapLayout} `{Externals}.

(** [heap_get_recycler] gives the recycler of the slot; when the slot is
    empty it calls [recycler_new] once and fills the slot on success. *)
Lemma heap_get_recycler_Some id nallocs h o h' :
  heap_get_recycler id nallocs h = Some (o, h') ->
  recyclers (default_zset (rt h')) !! id = o /\
  match recyclers (default_zset (rt h)) !! id with
  | Some r => h' = h
  | None =>
      match o with
      | Some r =>
          h' = set_rt (set_recycler id r (rt h)) (after_call (RecyclerNew nallocs) h) /\
          result_of (RecyclerNew nallocs) h = Some r
      | None =>
          h' = after_call (RecyclerNew nallocs) h /\
          result_of (RecyclerNew nallocs) h = None
      end
  end.
Proof.
  intros E. unfold heap_get_recycler in E. minv.
  destruct (recyclers (default_zset (rt h)) !! id) as [r|] eqn:Hr; minv.
  - auto.
  - unfold recycler_new in *. minv.
    destruct (result_of (RecyclerNew nallocs) h) as [r|] eqn:Hn; minv; simpl.
    + rewrite lookup_insert_eq. auto.
    + auto.
Qed.

Lemma heap_get_recycler_total id nallocs : total (heap_get_recycler id nallocs).
Proof. unfold heap_get_recycler, recycler_new. total_tac. Qed.

Lemma heap_memblock_on_free_total m : total (heap_memblock_on_free m).
Proof.
  unfold heap_memblock_on_free, ERR, recycler_inc_unaccounted. total_tac;
    try apply heap_get_recycler_total; total_tac.
Qed.

Lemma heap_reclaim_run_total m startup : total (heap_reclaim_run m startup).
Proof.
  unfold heap_reclaim_run, ERR, recycler_element_new, get_bitmap, STATS_INC,
    recycler_put.
  total_tac; try apply heap_get_recycler_total; total_tac.
Qed.


(** C8: [heap_memblock_on_free] always returns; it calls
    [recycler_inc_unaccounted] on the recycler of the class exactly when the
    block is a run block whose class resolves and the recycler can be
    obtained; when it cannot, the loss is only logged; for a block that is
    not a run block, or of no class, the heap is left as it is. *)
Theorem heap_memblock_on_free_bookkeeping (m : memory_block) (h : palloc_heap) :
  recycler_new_failure_pure ->
  exists h', heap_memblock_on_free m h = Some (tt, h') /\
             on_free_bookkeeping m h h'.
Proof.
  intros Hpure.
  destruct (heap_memblock_on_free_total m h) as [[[] h'] E].
  exists h'. split; [exact E|].
  unfold heap_memblock_on_free in E.
  unfold on_free_bookkeeping, class_of_run.
  destruct (type m); minv; [reflexivity|].
  destruct (alloc_class_by_run _ _ _ _) as [c|]; minv; [|reflexivity].
  match goal with E : heap_get_recycler _ _ _ = Some _ |- _ =>
    apply heap_get_recycler_Some in E; destruct E as [Hslot Hget] end.
  destruct (recyclers (default_zset (rt h)) !! ac_id c) as [r0|] eqn:Hold.
  - subst. rewrite Hold in E. unfold recycler_inc_unaccounted in E. minv.
    simpl. rewrite Hold.
    erewrite new_calls_app by reflexivity. reflexivity.
  - match goal with o : option recycler |- _ => destruct o as [r|] end.
    + destruct Hget as [-> Hnew].
      unfold recycler_inc_unaccounted in E. minv. simpl.
      rewrite lookup_insert_eq.
      erewrite new_calls_app by (simpl; rewrite <- app_assoc; reflexivity).
      reflexivity.
    + destruct Hget as [-> Hnew]. unfold ERR in E. minv. simpl. rewrite Hold.
      erewrite new_calls_app by (simpl; rewrite <- app_assoc; reflexivity).
      pose proof (Hpure (rdsc_nallocs (rdsc c)) (mem h) (vol h) Hnew) as Hp.
      simpl.
      destruct (handle (RecyclerNew (rdsc_nallocs (rdsc c))) (mem h) (vol h))
        as [[l v] o].
      simpl in *. injection Hp as -> ->. auto 10.
Qed.


Lemma put_results_app l1 l2 :
  put_results (l1 ++ l2) = put_results l1 ++ put_results l2.
Proof. unfold put_results. apply omap_app. Qed.

(** The statistics of [heap_reclaim_run] at startup: two calls of
    [STATS_INC], and nothing else. *)
Lemma reclaim_run_stats startup (a b : Z) (f : palloc_heap -> Z) h x h' :
  (if startup =? 0 then mret ()
   else STATS_INC heap_run_active a;;
        h' ← get_heap; STATS_INC heap_run_allocated (f h')) h = Some (x, h') ->
  rt h' = rt h /\
  exists evs, calls h' = calls h ++ evs /\ put_results evs = [] /\
              ~ In (Logged (lost_runtime_tracking_info b)) evs.
Proof.
  intros E. unfold STATS_INC in E. destruct (startup =? 0); minv.
  - split; [reflexivity|]. exists []. rewrite app_nil_r. auto.
  - split; [reflexivity|]. eexists [_; _]. simpl. rewrite <- app_assoc.
    split; [reflexivity|]. split; [reflexivity|].
    intros [Hc|[Hc|[]]]; discriminate.
Qed.

(** What a run of [heap_reclaim_run] does. *)
Lemma heap_reclaim_run_Some m startup h r h' :
  heap_reclaim_run m startup h = Some (r, h') ->
  reclaim_run_outcome m h r h'.
Proof.
  intros E. unfold heap_reclaim_run in E.
  unfold reclaim_run_outcome, fully_empty, class_of_run.
  unfold recycler_element_new in E. minv.
  destruct (alloc_class_by_run _ _ _ _) as [c|].
  - destruct (Z.eqb_spec (free_space (result_of (RecyclerElementNew m) h))
                (rdsc_nallocs (rdsc c))) as [Heq|Hne]; minv.
    + split; [auto|]. split; [tauto|].
      erewrite new_calls_app by (simpl; reflexivity).
      split; [reflexivity|]. discriminate.
    + split; [auto|]. split; [split; [discriminate|contradiction]|].
      split; [discriminate|]. intros _.
      match goal with
      | E1 : (if startup =? 0 then _ else _) _ = Some (_, ?hs),
        E2 : heap_get_recycler _ _ ?hs = Some (?o, ?hr),
        E3 : match ?o with Some _ => _ | None => _ end ?hr = Some _ |- _ =>
          apply (reclaim_run_stats _ _ (ac_id c)) in E1;
          destruct E1 as (Hrt & evs & Hcalls & Hputs & Hnolog);
          apply heap_get_recycler_Some in E2; destruct E2 as [Hslot Hget];
          rename E3 into Eput; rename o into slot
      end.
      simpl in Hrt, Hcalls. rewrite Hrt in Hget.
      unfold recycler_put, ERR in Eput.
      destruct (recyclers (default_zset (rt h)) !! ac_id c) as [r0|] eqn:Hold.
      * subst. rewrite Hrt, Hold in Eput. minv.
        match goal with |- context [(default_zset (rt ?hx))] =>
          assert (Hslot' : recyclers (default_zset (rt hx)) !! ac_id c = Some r0)
        end.
        { destruct (_ <? 0); minv; simpl; rewrite Hrt; exact Hold. }
        rewrite Hslot'. eexists.
        destruct (Z.ltb_spec (result_of (RecyclerPut r0
                    (result_of (RecyclerElementNew m) h)) x0) 0) as [Hlt|Hge]; minv;
          (erewrite new_calls_app
             by (simpl; rewrite Hcalls, <- ?app_assoc; reflexivity));
          rewrite !put_results_app, Hputs; (split; [reflexivity|]).
        -- rewrite !in_app_iff. simpl. intuition discriminate.
        -- rewrite !in_app_iff. simpl.
           split; [intros Hl; exfalso; apply (Z.lt_irrefl 0);
                   eapply Z.le_lt_trans; eassumption|].
           intuition discriminate.
      * destruct slot as [r1|]; destruct Hget as [-> Hnew]; minv.
        -- match goal with |- context [(default_zset (rt ?hx))] =>
             assert (Hslot' : recyclers (default_zset (rt hx)) !! ac_id c = Some r1)
           end.
           { destruct (_ <? 0); minv; simpl; apply lookup_insert_eq. }
           rewrite Hslot'. eexists.
           match type of Eput with (if ?ret <? 0 then _ else _) _ = _ =>
             destruct (Z.ltb_spec ret 0) as [Hlt|Hge] end; minv;
             (erewrite new_calls_app
                by (simpl; rewrite Hcalls, <- ?app_assoc; reflexivity));
             rewrite !put_results_app, Hputs; (split; [reflexivity|]);
             rewrite !in_app_iff; simpl.
           ++ intuition discriminate.
           ++ split; [intros Hl; exfalso; apply (Z.lt_irrefl 0);
                      eapply Z.le_lt_trans; eassumption|].
              intuition discriminate.
        -- simpl. rewrite Hrt, Hold.
           erewrite new_calls_app
             by (simpl; rewrite Hcalls, <- ?app_assoc; reflexivity).
           rewrite !put_results_app, Hputs. split; [reflexivity|].
           rewrite !in_app_iff. simpl. auto.
  - unfold get_bitmap in *. minv.
    erewrite new_calls_app by (simpl; rewrite <- ?app_assoc; reflexivity).
    destruct (Z.eqb_spec (free_space (result_of (RecyclerElementNew m) h))
                (nbits (result_of (GetBitmap (m_ops m) m)
                          (after_call (RecyclerElementNew m) h)))).
    + split; [auto|]. split; [tauto|]. split; [reflexivity|]. discriminate.
    + split; [auto|]. split; [split; [discriminate|contradiction]|].
      split; [discriminate|]. reflexivity.
Qed.


End Recycler.

Section RecyclerSamples.
#[local] Existing Instance sample_layout.
#[local] Existing Instance sample_externals.

Lemma sample_recycler_new_failure_pure : recycler_new_failure_pure.
Proof. intros n l v _. reflexivity. Qed.

(** In [run_heap], a cell of the run of chunk 0 is freed: the recycler of
    the class is created and [recycler_inc_unaccounted] is called on it. *)
Lemma heap_memblock_on_free_bookkeeping_witness :
  exists h',
    heap_memblock_on_free (run_block 0 0 2 1) run_heap = Some (tt, h') /\
    on_free_bookkeeping (run_block 0 0 2 1) run_heap h' /\
    inc_unaccounted_calls (new_calls run_heap h') = [(1008, run_block 0 0 2 1)].
Proof.
  destruct (heap_memblock_on_free_bookkeeping (run_block 0 0 2 1) run_heap
              sample_recycler_new_failure_pure)
    as (h' & E & Hb).
  exists h'. split; [exact E|]. split; [exact Hb|].
  vm_compute in E. injection E as <-. vm_compute. reflexivity.
Defined.

(** C6 as stated fails: in [oom_run_heap] the run of chunk 0 matches the
    sample run class and has 3 free cells out of 8, so it is not empty;
    [heap_reclaim_run] returns 0, and no element is put into a recycler: the
    recycler of the class cannot be created. *)
Lemma heap_reclaim_run_without_recycler :
  exists h',
    heap_reclaim_run (run_block 0 0 0 1) 1 oom_run_heap = Some (0, h') /\
    class_of_run oom_run_heap (run_block 0 0 0 1) 1 = Some sample_run_class /\
    free_space (result_of (RecyclerElementNew (run_block 0 0 0 1)) oom_run_heap)
      <> rdsc_nallocs (rdsc sample_run_class) /\
    put_results (new_calls oom_run_heap h') = [].
Proof.
  eexists. split; [vm_compute; reflexivity|].
  split; [reflexivity|]. split; [vm_compute; discriminate|].
  vm_compute. reflexivity.
Qed.

End RecyclerSamples.

(** ** What the functions leave as it is *)

Section Frame.
Context `{HeapLayout} `{Externals}.

#[global] Instance log_extends_frame : Frame (fun _ => True) log_extends.
Proof.
  split.
  - intros h. exists []. rewrite app_nil_r. reflexivity.
  - intros h1 h2 h3 [e1 E1] [e2 E2]. exists (e1 ++ e2).
    rewrite E2, E1, app_assoc. reflexivity.
  - intros op h _. eexists. reflexivity.
  - intros msg h. eexists. reflexivity.
Qed.

#[global] Instance same_zones_frame : Frame (fun _ => True) same_zones.
Proof.
  split.
  - intros h. repeat split. apply (frame_refl (R:=log_extends)).
  - intros h1 h2 h3 (? & ? & ? & ?) (? & ? & ? & ?).
    repeat split; try congruence.
    eapply (frame_trans (R:=log_extends)); eassumption.
  - intros op h _. repeat split. apply (frame_call (R:=log_extends)). exact I.
  - intros msg h. repeat split. apply (frame_log (R:=log_extends)).
Qed.

Lemma log_only_frame (good : event -> Prop) :
  (forall msg, good (Logged msg)) ->
  Frame (fun op => forall r, good (Call op r)) (log_only good).
Proof.
  intros Hlog. split.
  - intros h. exists []. rewrite app_nil_r. auto.
  - intros h1 h2 h3 (e1 & E1 & F1) (e2 & E2 & F2). exists (e1 ++ e2).
    rewrite E2, E1, app_assoc. split; [reflexivity|].
    apply Forall_app. auto.
  - intros op h Hop. eexists. split; [reflexivity|]. repeat constructor. apply Hop.
  - intros msg h. eexists. split; [reflexivity|]. repeat constructor. apply Hlog.
Qed.

Section Rules.
Context (P : ext_op -> Prop) (R : palloc_heap -> palloc_heap -> Prop) `{!Frame P R}.

Lemma keeps_ret {A} (a : A) : keeps R (mret a : M A).
Proof. intros h b h' E. minv. apply frame_refl. Qed.

Lemma keeps_bind {A B} (f : M A) (k : A -> M B) :
  keeps R f -> (forall a, keeps R (k a)) -> keeps R (f ≫= k).
Proof.
  intros Hf Hk h b h' E. minv.
  eapply frame_trans; [eapply Hf|eapply Hk]; eassumption.
Qed.

Lemma keeps_get_heap : keeps R get_heap.
Proof. intros h b h' E. minv. apply frame_refl. Qed.

Lemma keeps_no_result {A} : keeps R (no_result : M A).
Proof. intros h b h' E. minv. Qed.

Lemma keeps_perform op : P op -> keeps R (perform op).
Proof. intros Hop h b h' E. minv. apply frame_call. exact Hop. Qed.

Lemma keeps_log_msg msg : keeps R (log_msg msg).
Proof. intros h b h' E. minv. apply frame_log. Qed.

Lemma keeps_modify_heap f : (forall h, R h (f h)) -> keeps R (modify_heap f).
Proof. intros Hf h b h' E. minv. apply Hf. Qed.

End Rules.

Lemma keeps_weaken (R R' : palloc_heap -> palloc_heap -> Prop) {A} (f : M A) :
  (forall h h', R h h' -> R' h h') -> keeps R f -> keeps R' f.
Proof. intros HR Hf h a h' E. apply HR. eapply Hf. eassumption. Qed.

Lemma same_zones_log h h' : same_zones h h' -> log_extends h h'.
Proof. intros (_ & _ & _ & ?). assumption. Qed.

End Frame.

Create HintDb keeps discriminated.

Ltac frame_goal :=
  try match goal with
      | |- Frame _ _ => first [assumption | typeclasses eauto]
      end.

Ltac keeps_step :=
  match goal with
  | |- keeps _ (mbind _ _) => eapply keeps_bind; frame_goal; intros
  | |- keeps _ (mret _) => eapply keeps_ret; frame_goal
  | |- keeps _ get_heap => eapply keeps_get_heap; frame_goal
  | |- keeps _ no_result => apply keeps_no_result
  | |- keeps ?R (perform ?op) =>
      refine (keeps_perform _ R op _); frame_goal; solve [auto with keeps]
  | |- keeps _ (log_msg _) => eapply keeps_log_msg; frame_goal
  | |- keeps _ (modify_heap _) =>
      eapply keeps_modify_heap; frame_goal; intros; solve [eauto with keeps]
  | |- keeps _ (if ?c then _ else _) => destruct c
  | |- keeps _ (match ?c with Some _ => _ | None => _ end) => destruct c
  | |- keeps _ (match ?c with CLASS_HUGE => _ | CLASS_RUN => _ end) => destruct c
  | |- keeps _ (match ?c with MEMORY_BLOCK_HUGE => _ | MEMORY_BLOCK_RUN => _ end) =>
      destruct c
  | |- keeps _ (let '(_, _) := ?c in _) => destruct c
  | |- keeps _ _ => solve [eauto with keeps]
  end.

Ltac keeps_tac := repeat keeps_step.

Ltac unfold_calls :=
  unfold bucket_alloc_block, bucket_insert_block, bucket_remove_block,
    bucket_attach_run, bucket_detach_run, recycler_new, recycler_put,
    recycler_get, recycler_recalc, recycler_inc_unaccounted,
    recycler_element_new, memblock_huge_init, memblock_run_init, prep_hdr,
    get_lock, get_bitmap, reinit_chunk, ensure_header_type, util_mutex_lock,
    util_mutex_unlock, mo_wal_persist_zone_header, STATS_INC, STATS_SUB,
    ERR, D_CRIT, memblock_rebuild_state in *.

Section Frames.
Context `{HeapLayout} `{Externals}.
Context (P : ext_op -> Prop) (R : palloc_heap -> palloc_heap -> Prop) `{!Frame P R}.

(** The operations that [P] has to allow. *)
Hypothesis P_BucketAllocBlock : forall b m, P (BucketAllocBlock b m).
Hypothesis P_BucketInsertBlock : forall b m, P (BucketInsertBlock b m).
Hypothesis P_BucketRemoveBlock : forall b m, P (BucketRemoveBlock b m).
Hypothesis P_BucketAttachRun : forall b m, P (BucketAttachRun b m).
Hypothesis P_BucketDetachRun : forall b, P (BucketDetachRun b).
Hypothesis P_RecyclerNew : forall n, P (RecyclerNew n).
Hypothesis P_RecyclerPut : forall r e, P (RecyclerPut r e).
Hypothesis P_RecyclerGet : forall r m, P (RecyclerGet r m).
Hypothesis P_RecyclerRecalc : forall r f, P (RecyclerRecalc r f).
Hypothesis P_RecyclerIncUnaccounted : forall r m, P (RecyclerIncUnaccounted r m).
Hypothesis P_RecyclerElementNew : forall m, P (RecyclerElementNew m).
Hypothesis P_MemblockRebuildState : forall m, P (MemblockRebuildState m).
Hypothesis P_MemblockHugeInit : forall c z s, P (MemblockHugeInit c z s).
Hypothesis P_MemblockRunInit : forall c z rd, P (MemblockRunInit c z rd).
Hypothesis P_PrepHdr : forall o m s, P (PrepHdr o m s).
Hypothesis P_GetLock : forall o m, P (GetLock o m).
Hypothesis P_GetBitmap : forall o m, P (GetBitmap o m).
Hypothesis P_ReinitChunk : forall o m, P (ReinitChunk o m).
Hypothesis P_EnsureHeaderType : forall o m t, P (EnsureHeaderType o m t).
Hypothesis P_MutexLock : forall l, P (MutexLock l).
Hypothesis P_MutexUnlock : forall l, P (MutexUnlock l).
Hypothesis P_WalPersistZoneHeader : forall z, P (WalPersistZoneHeader z).
Hypothesis P_StatsInc : forall n v, P (StatsInc n v).
Hypothesis P_StatsSub : forall n v, P (StatsSub n v).

#[local] Hint Resolve P_BucketAllocBlock P_BucketInsertBlock P_BucketRemoveBlock
  P_BucketAttachRun P_BucketDetachRun P_RecyclerNew P_RecyclerPut P_RecyclerGet
  P_RecyclerRecalc P_RecyclerIncUnaccounted P_RecyclerElementNew
  P_MemblockRebuildState P_MemblockHugeInit P_MemblockRunInit P_PrepHdr
  P_GetLock P_GetBitmap P_ReinitChunk P_EnsureHeaderType P_MutexLock
  P_MutexUnlock P_WalPersistZoneHeader P_StatsInc P_StatsSub : keeps.

(** The writes of [heap.c] itself that [R] has to accept: a recycler put
    into its slot, and a zone header. *)
Hypothesis keeps_set_recycler :
  forall id r h, R h (set_rt (set_recycler id r (rt h)) h).
Hypothesis keeps_set_zone_header :
  forall zid nhdr h, R h (set_mem (set_zone_header zid nhdr (mem h)) h).

Hypothesis keeps_set_zones_exhausted :
  forall v h, R h (set_rt (set_zones_exhausted v (rt h)) h).

#[local] Hint Resolve keeps_set_recycler keeps_set_zone_header
  keeps_set_zones_exhausted : keeps.

Lemma keeps_heap_get_recycler id nallocs : keeps R (heap_get_recycler id nallocs).
Proof. unfold heap_get_recycler. unfold_calls. keeps_tac. Qed.
#[local] Hint Resolve keeps_heap_get_recycler : keeps.

Lemma keeps_heap_zone_init zid first : keeps R (heap_zone_init zid first).
Proof. unfold heap_zone_init. unfold_calls. keeps_tac. Qed.
#[local] Hint Resolve keeps_heap_zone_init : keeps.

Lemma keeps_heap_get_adjacent_free_block in_ out prev :
  keeps R (heap_get_adjacent_free_block in_ out prev).
Proof. unfold heap_get_adjacent_free_block. unfold_calls. keeps_tac. Qed.
#[local] Hint Resolve keeps_heap_get_adjacent_free_block : keeps.

Lemma keeps_removed_neighbour b m prev : keeps R (removed_neighbour b m prev).
Proof. unfold removed_neighbour. unfold_calls. keeps_tac. Qed.
#[local] Hint Resolve keeps_removed_neighbour : keeps.

Lemma keeps_heap_coalesce blocks : keeps R (heap_coalesce blocks).
Proof. unfold heap_coalesce. unfold_calls. keeps_tac. Qed.
#[local] Hint Resolve keeps_heap_coalesce : keeps.

Lemma keeps_heap_coalesce_huge b m : keeps R (heap_coalesce_huge b m).
Proof. unfold heap_coalesce_huge. keeps_tac. Qed.
#[local] Hint Resolve keeps_heap_coalesce_huge : keeps.

Lemma keeps_heap_free_chunk_reuse b m : keeps R (heap_free_chunk_reuse b m).
Proof. unfold heap_free_chunk_reuse. unfold_calls. keeps_tac. Qed.
#[local] Hint Resolve keeps_heap_free_chunk_reuse : keeps.

Lemma keeps_heap_run_into_free_chunk b m : keeps R (heap_run_into_free_chunk b m).
Proof. unfold heap_run_into_free_chunk. unfold_calls. keeps_tac. Qed.
#[local] Hint Resolve keeps_heap_run_into_free_chunk : keeps.

Lemma keeps_heap_reclaim_run m startup : keeps R (heap_reclaim_run m startup).
Proof. unfold heap_reclaim_run. unfold_calls. keeps_tac. Qed.
#[local] Hint Resolve keeps_heap_reclaim_run : keeps.

Lemma keeps_heap_reclaim_zone_garbage_loop fuel b zid i :
  keeps R (heap_reclaim_zone_garbage_loop fuel b zid i).
Proof.
  revert i. induction fuel as [|fuel IH]; intros i; simpl; unfold_calls; keeps_tac.
Qed.
#[local] Hint Resolve keeps_heap_reclaim_zone_garbage_loop : keeps.

Lemma keeps_heap_populate_bucket fuel b : keeps R (heap_populate_bucket fuel b).
Proof.
  unfold heap_populate_bucket, heap_reclaim_zone_garbage. unfold_calls. keeps_tac.
Qed.
#[local] Hint Resolve keeps_heap_populate_bucket : keeps.

Lemma keeps_foreach_run_into_free_chunk b r :
  keeps R (foreach_run_into_free_chunk b r).
Proof. induction r as [|nm r IH]; simpl; keeps_tac. Qed.
#[local] Hint Resolve keeps_foreach_run_into_free_chunk : keeps.

Lemma keeps_heap_recycle_unused r defb force :
  keeps R (heap_recycle_unused r defb force).
Proof. unfold heap_recycle_unused. unfold_calls. keeps_tac. Qed.
#[local] Hint Resolve keeps_heap_recycle_unused : keeps.

Lemma keeps_heap_reclaim_garbage_loop ids b ret :
  keeps R (heap_reclaim_garbage_loop ids b ret).
Proof. revert ret. induction ids as [|i ids IH]; intros ret; simpl; keeps_tac. Qed.
#[local] Hint Resolve keeps_heap_reclaim_garbage_loop : keeps.

Lemma keeps_heap_reclaim_garbage b : keeps R (heap_reclaim_garbage b).
Proof. unfold heap_reclaim_garbage. keeps_tac. Qed.
#[local] Hint Resolve keeps_heap_reclaim_garbage : keeps.

Lemma keeps_heap_ensure_huge_bucket_filled fuel b :
  keeps R (heap_ensure_huge_bucket_filled fuel b).
Proof. unfold heap_ensure_huge_bucket_filled. keeps_tac. Qed.
#[local] Hint Resolve keeps_heap_ensure_huge_bucket_filled : keeps.

Lemma keeps_heap_discard_run m : keeps R (heap_discard_run m).
Proof. unfold heap_discard_run. keeps_tac. Qed.
#[local] Hint Resolve keeps_heap_discard_run : keeps.

Lemma keeps_heap_detach_and_try_discard_run b :
  keeps R (heap_detach_and_try_discard_run b).
Proof. unfold heap_detach_and_try_discard_run. unfold_calls. keeps_tac. Qed.
#[local] Hint Resolve keeps_heap_detach_and_try_discard_run : keeps.

Lemma keeps_heap_reuse_from_recycler b units force :
  keeps R (heap_reuse_from_recycler b units force).
Proof. unfold heap_reuse_from_recycler. unfold_calls. keeps_tac. Qed.
#[local] Hint Resolve keeps_heap_reuse_from_recycler : keeps.

Lemma keeps_heap_run_create b m : keeps R (heap_run_create b m).
Proof. unfold heap_run_create. unfold_calls. keeps_tac. Qed.
#[local] Hint Resolve keeps_heap_run_create : keeps.

Lemma keeps_heap_split_block b m units : keeps R (heap_split_block b m units).
Proof. unfold heap_split_block. unfold_calls. keeps_tac. Qed.
#[local] Hint Resolve keeps_heap_split_block : keeps.

Lemma keeps_heap_ensure_run_bucket_filled_with bestfit fuel b units :
  (forall defb m, keeps R (bestfit defb m)) ->
  keeps R (heap_ensure_run_bucket_filled_with bestfit fuel b units).
Proof. intros Hb. unfold heap_ensure_run_bucket_filled_with. keeps_tac. Qed.
#[local] Hint Resolve keeps_heap_ensure_run_bucket_filled_with : keeps.

Lemma keeps_heap_get_bestfit_block_loop fuel b units m :
  keeps R (heap_get_bestfit_block_loop fuel b units m).
Proof.
  revert b units m. induction fuel as [|fuel IH]; intros b units m; simpl;
    unfold_calls; keeps_tac.
Qed.

End Frames.

(** ** Populating a zone and refilling the default bucket *)

Section Refill.
Context `{HeapLayout} `{Externals}.

Lemma log_extends_set_rt r h : log_extends h (set_rt r h).
Proof. exists []. simpl. rewrite app_nil_r. reflexivity. Qed.

Lemma log_extends_set_mem l h : log_extends h (set_mem l h).
Proof. exists []. simpl. rewrite app_nil_r. reflexivity. Qed.

Lemma log_only_set_rt good r h : log_only good h (set_rt r h).
Proof. exists []. simpl. rewrite app_nil_r. auto. Qed.

Lemma log_only_set_mem good l h : log_only good h (set_mem l h).
Proof. exists []. simpl. rewrite app_nil_r. auto. Qed.

Lemma same_zones_set_recycler id r h :
  same_zones h (set_rt (set_recycler id r (rt h)) h).
Proof. repeat split. apply log_extends_set_rt. Qed.

Lemma same_zones_set_zone_header zid nhdr h :
  same_zones h (set_mem (set_zone_header zid nhdr (mem h)) h).
Proof. repeat split. apply log_extends_set_mem. Qed.

End Refill.

(** A frame lemma at one of the relations above. *)
Ltac frame_inst lemma :=
  eapply lemma;
  first [ typeclasses eauto
        | apply log_only_frame; intros; exact I
        | intros; cbv beta; intros; exact I
        | intros; apply same_zones_set_recycler
        | intros; apply same_zones_set_zone_header
        | intros; apply log_extends_set_rt
        | intros; apply log_extends_set_mem
        | intros; apply log_only_set_rt
        | intros; apply log_only_set_mem ].

Section Populate.
Context `{HeapLayout} `{Externals}.

Lemma heap_zone_init_same_zones zid first :
  keeps same_zones (heap_zone_init zid first).
Proof. frame_inst keeps_heap_zone_init. Qed.

Lemma heap_reclaim_zone_garbage_same_zones fuel b zid :
  keeps same_zones (heap_reclaim_zone_garbage fuel b zid).
Proof. frame_inst keeps_heap_reclaim_zone_garbage_loop. Qed.

Lemma heap_zone_init_total zid first : total (heap_zone_init zid first).
Proof. unfold heap_zone_init. unfold_calls. total_tac. Qed.

(** [heap_zone_init] leaves the zone header it writes, when persisting it
    does not change it. *)
Lemma heap_zone_init_header zid first h h1 :
  heap_zone_init zid first h = Some (tt, h1) ->
  volatile_only (WalPersistZoneHeader zid) ->
  header (ZID_TO_ZONE (mem h1) zid) =
    {| magic := ZONE_HEADER_MAGIC;
       zh_size_idx := zone_calc_size_idx zid (nzones (rt h)) (sizep h) |}.
Proof.
  intros E V. unfold heap_zone_init in E. unfold_calls. minv.
  rewrite after_call_mem by exact V. simpl. rewrite Z.eqb_refl. reflexivity.
Qed.

Lemma heap_populate_bucket_outcome fuel bucket h : populate_outcome fuel bucket h.
Proof.
  unfold populate_outcome.
  destruct (Z.eqb_spec (zones_exhausted (rt h)) (nzones (rt h))) as [Heq|Hne].
  - unfold heap_populate_bucket. apply bind_Some. exists h, h.
    split; [reflexivity|]. apply Z.eqb_eq in Heq. rewrite Heq. reflexivity.
  - set (zid := zones_exhausted (rt h)).
    set (h0 := set_rt (set_zones_exhausted (wrap32 (zid + 1)) (rt h)) h).
    assert (Hinit : exists h1,
               (if magic (header (ZID_TO_ZONE (mem h) zid)) =? ZONE_HEADER_MAGIC
                then mret tt else heap_zone_init zid 0) h0 = Some (tt, h1) /\
               same_zones h0 h1).
    { destruct (magic (header (ZID_TO_ZONE (mem h) zid)) =? ZONE_HEADER_MAGIC).
      - exists h0. split; [reflexivity|]. apply (frame_refl (R:=same_zones)).
      - destruct (heap_zone_init_total zid 0 h0) as [[[] h1] E].
        exists h1. split; [exact E|].
        eapply heap_zone_init_same_zones. exact E. }
    destruct Hinit as (h1 & Einit & Hz1).
    exists h1. split.
    { destruct (magic (header (ZID_TO_ZONE (mem h) zid)) =? ZONE_HEADER_MAGIC).
      - apply ret_Some in Einit. destruct Einit as [_ ->]. reflexivity.
      - exact Einit. }
    assert (Hrun : heap_populate_bucket fuel bucket h =
                   match heap_reclaim_zone_garbage fuel bucket zid h1 with
                   | Some (_, h') => Some (0, h')
                   | None => None
                   end).
    { unfold heap_populate_bucket.
      unfold mbind at 1, M_bind at 1. unfold get_heap at 1.
      apply Z.eqb_neq in Hne. rewrite Hne.
      unfold mbind at 1, M_bind at 1. unfold modify_heap at 1.
      fold zid. fold h0.
      unfold mbind at 1, M_bind at 1. rewrite Einit.
      unfold mbind at 1, M_bind at 1.
      destruct (heap_reclaim_zone_garbage fuel bucket zid h1) as [[[] h']|];
        reflexivity. }
    destruct (heap_reclaim_zone_garbage fuel bucket zid h1) as [[[] h']|] eqn:Escan.
    + split; [exact Hrun|].
      apply heap_reclaim_zone_garbage_same_zones in Escan.
      destruct Hz1 as (Hn1 & He1 & _). destruct Escan as (Hn2 & He2 & _).
      split; [rewrite Hn2, Hn1; reflexivity|].
      rewrite He2, He1. reflexivity.
    + exact Hrun.
Qed.


Lemma recalc_results_app l1 l2 :
  recalc_results (l1 ++ l2) = recalc_results l1 ++ recalc_results l2.
Proof. unfold recalc_results. apply omap_app. Qed.

Lemma recalc_results_none evs : Forall not_recalc evs -> recalc_results evs = [].
Proof.
  induction 1 as [|e evs He _ IH]; [reflexivity|].
  change (e :: evs) with ([e] ++ evs).
  rewrite recalc_results_app, IH, app_nil_r.
  destruct e as [[] ?|]; try reflexivity. destruct He.
Qed.

Lemma foreach_run_into_free_chunk_no_recalc b r :
  keeps (log_only not_recalc) (foreach_run_into_free_chunk b r).
Proof. frame_inst keeps_foreach_run_into_free_chunk. Qed.

(** [heap_recycle_unused] calls [recycler_recalc] once, and returns 0
    exactly when the vector it gets is not empty. *)
Lemma heap_recycle_unused_Some r defb force h x h' :
  heap_recycle_unused r defb force h = Some (x, h') ->
  (x = 0 \/ x = ENOMEM) /\
  exists l evs,
    calls h' = calls h ++ [Call (RecyclerRecalc r force) l] ++ evs /\
    Forall not_recalc evs /\
    (x = 0 <-> l <> []).
Proof.
  intros E. unfold heap_recycle_unused in E. unfold_calls. minv.
  match type of E with context [@bool_decide ?P ?d] =>
    destruct (@bool_decide P d) eqn:Hd end;
    [apply bool_decide_eq_true in Hd; rename Hd into Hnil
    |apply bool_decide_eq_false in Hd; rename Hd into Hne]; minv.
  - split; [auto|]. eexists _, (@nil event). rewrite app_nil_r. simpl.
    split; [reflexivity|]. split; [constructor|].
    split; [discriminate|]. intros Hl. exfalso. apply Hl. exact Hnil.
  - destruct (match defb with Some d => Some d | None => _ end); minv.
    match goal with E : foreach_run_into_free_chunk _ _ _ = Some _ |- _ =>
      apply foreach_run_into_free_chunk_no_recalc in E;
      destruct E as (evs & Hc & Hf) end.
    split; [auto|]. eexists _, evs. simpl in Hc. rewrite Hc, <- app_assoc.
    split; [reflexivity|]. split; [assumption|]. tauto.
Qed.

Lemma heap_reclaim_garbage_loop_Some ids b ret h g h' :
  heap_reclaim_garbage_loop ids b ret h = Some (g, h') ->
  ret = 0 \/ ret = ENOMEM ->
  (g = 0 \/ g = ENOMEM) /\
  exists evs,
    calls h' = calls h ++ evs /\
    (g = 0 <-> ret = 0 \/ exists l, In l (recalc_results evs) /\ l <> []).
Proof.
  revert ret h. induction ids as [|i ids IH]; intros ret h E Hret; simpl in E.
  - minv. split; [assumption|]. exists (@nil event). rewrite app_nil_r.
    split; [reflexivity|]. split; [auto|]. intros [?|(l & [] & _)]. assumption.
  - minv. destruct (recyclers (default_zset (rt h)) !! i) as [r|].
    + minv.
      match goal with E : heap_recycle_unused _ _ _ _ = Some _ |- _ =>
        apply heap_recycle_unused_Some in E;
        destruct E as (Hx & l & evs1 & Hc1 & Hf1 & Hl) end.
      apply IH in E; [|destruct Hx as [-> | ->]; simpl; auto].
      destruct E as (Hg & evs2 & Hc2 & Hiff).
      split; [assumption|].
      exists (([Call (RecyclerRecalc r 1) l] ++ evs1) ++ evs2).
      split; [rewrite Hc2, Hc1, <- !app_assoc; reflexivity|].
      rewrite !recalc_results_app, (recalc_results_none evs1) by assumption.
      simpl. rewrite Hiff. clear Hiff.
      destruct Hx as [-> | ->]; simpl.
      * split; [|auto]. intros _. right. exists l. split; [auto|tauto].
      * split.
        -- intros [?|(l' & Hin & Hne)]; [auto|].
           right. exists l'. auto.
        -- intros [?|(l' & [<-|Hin] & Hne)]; [auto| |].
           ++ exfalso. destruct Hl as [_ Hl]. specialize (Hl Hne). discriminate.
           ++ right. exists l'. auto.
    + apply IH; assumption.
Qed.

Lemma heap_ensure_huge_bucket_filled_outcome fuel b h r h' :
  heap_ensure_huge_bucket_filled fuel b h = Some (r, h') ->
  huge_refill_outcome fuel b h r h'.
Proof.
  intros E. unfold heap_ensure_huge_bucket_filled in E. minv.
  match goal with E : heap_reclaim_garbage _ _ = Some (?g, ?h1) |- _ =>
    exists g, h1; split; [exact E|];
    unfold heap_reclaim_garbage in E;
    apply heap_reclaim_garbage_loop_Some in E; [|auto];
    destruct E as (Hg & evs & Hc & Hiff)
  end.
  split.
  { rewrite (new_calls_app _ _ _ Hc), Hiff.
    split; [intros [?|?]; [discriminate|assumption]|auto]. }
  destruct (_ =? 0); minv; [auto|].
  match goal with E : heap_populate_bucket _ _ _ = Some (?p, ?h2) |- _ =>
    exists p, h2; split; [exact E|] end.
  destruct (_ =? 0); minv; [auto|].
  match goal with E : (if ?p2 =? 0 then _ else _) _ = Some _ |- _ =>
    exists p2; destruct (p2 =? 0); minv end; auto.
Qed.

End Populate.

Section PopulateSamples.
#[local] Existing Instance sample_layout.
#[local] Existing Instance sample_externals.

Lemma sample_persist_volatile zid : volatile_only (WalPersistZoneHeader zid).
Proof. intros l v. reflexivity. Qed.

End PopulateSamples.

(** ** Refilling the bucket of a run class *)

Section RunRefill.
Context `{HeapLayout} `{Externals}.

Lemma zoneset_bucket_acquire_default zset :
  zoneset_bucket_acquire zset DEFAULT_ALLOC_CLASS_ID = Some (default_bucket zset).
Proof. unfold zoneset_bucket_acquire. rewrite Z.eqb_refl. reflexivity. Qed.

(** [heap_run_create] returns 0, whatever [bucket_attach_run] returns. *)
Lemma heap_run_create_Some b m h r m' h' :
  heap_run_create b m h = Some (r, m', h') ->
  r = 0 /\
  exists x, In (Call (BucketAttachRun b m') x) (new_calls h h').
Proof.
  intros E. unfold heap_run_create in E. unfold_calls. minv.
  split; [reflexivity|]. eexists.
  erewrite new_calls_app by (simpl; rewrite <- ?app_assoc; reflexivity).
  simpl. right. left. reflexivity.
Qed.

Lemma heap_ensure_run_bucket_filled_outcome fuel b units h ret h' :
  heap_ensure_run_bucket_filled fuel b units h = Some (ret, h') ->
  run_refill_outcome fuel b units h ret h'.
Proof.
  intros E. unfold heap_ensure_run_bucket_filled, heap_ensure_run_bucket_filled_with in E.
  unfold run_refill_outcome. minv.
  match goal with E : heap_detach_and_try_discard_run _ _ = Some (?d, ?h1) |- _ =>
    exists d, h1; split; [exact E|]; destruct (d =? 0) end; minv; [|auto].
  match goal with E : heap_reuse_from_recycler _ _ _ _ = Some (?r, ?h2) |- _ =>
    exists r, h2; split; [exact E|]; destruct (r =? 0) end; minv; [auto|].
  rewrite zoneset_bucket_acquire_default in *. minv.
  match goal with
  | E1 : heap_populate_bucket _ _ _ = Some (?p, ?h3),
    E2 : heap_reuse_from_recycler _ _ _ ?h3 = Some (?r, ?h4) |- _ =>
      exists p, h3, r, h4; split; [exact E1|]; split; [exact E2|];
      destruct (r =? 0)
  end; minv; [auto|].
  rewrite zoneset_bucket_acquire_default in *. minv.
  match goal with
  | E1 : heap_get_bestfit_block _ _ _ _ = Some (?g, ?m, ?h5) |- _ =>
      exists g, m, h5; split; [exact E1|]; destruct (g =? 0)
  end; minv.
  - match goal with E : heap_run_create _ _ _ = Some (?r, ?m', _) |- _ =>
      destruct (heap_run_create_Some _ _ _ _ _ _ E) as [-> _]; exists m' end.
    change (0 =? 0) with true in *. minv. auto.
  - match goal with E : (if ?r3 =? 0 then _ else _) _ = Some _ |- _ =>
      exists r3; destruct (r3 =? 0); minv end; auto.
Qed.


Lemma attach_calls_app l1 l2 :
  attach_calls (l1 ++ l2) = attach_calls l1 ++ attach_calls l2.
Proof. unfold attach_calls. apply omap_app. Qed.

Lemma attach_calls_none evs : Forall not_attach evs -> attach_calls evs = [].
Proof.
  induction 1 as [|e evs He _ IH]; [reflexivity|].
  change (e :: evs) with ([e] ++ evs).
  rewrite attach_calls_app, IH, app_nil_r.
  destruct e as [[] ?|]; try reflexivity. destruct He.
Qed.

Lemma heap_get_recycler_no_attach id nallocs :
  keeps (log_only not_attach) (heap_get_recycler id nallocs).
Proof. frame_inst keeps_heap_get_recycler. Qed.

Lemma heap_recycle_unused_no_attach r defb force :
  keeps (log_only not_attach) (heap_recycle_unused r defb force).
Proof. frame_inst keeps_heap_recycle_unused. Qed.

Lemma heap_detach_and_try_discard_run_outcome b h d h1 :
  heap_detach_and_try_discard_run b h = Some (d, h1) ->
  detach_outcome b h d h1.
Proof.
  intros E. unfold heap_detach_and_try_discard_run in E. unfold_calls.
  unfold detach_outcome. minv.
  destruct (result_of (BucketDetachRun b) h) as [[r m] empty].
  destruct (r =? 0); minv; [|auto].
  split; [reflexivity|].
  destruct (empty =? 0); minv; [reflexivity|].
  eexists. eassumption.
Qed.

End RunRefill.
Section BestFit.
Context `{HeapLayout} `{Externals}.

Lemma refill_log_extends fuel b units : keeps log_extends (refill fuel b units).
Proof.
  unfold refill, heap_ensure_run_bucket_filled, heap_get_bestfit_block.
  destruct (ac_type _).
  - frame_inst keeps_heap_ensure_huge_bucket_filled.
  - eapply keeps_heap_ensure_run_bucket_filled_with;
      first [ typeclasses eauto
            | intros; cbv beta; intros; exact I
            | intros; apply log_extends_set_rt
            | intros; apply log_extends_set_mem
            | intros defb m; frame_inst keeps_heap_get_bestfit_block_loop ].
Qed.

Lemma heap_split_block_Some b m units h m2 h2 :
  heap_split_block b m units h = Some (m2, h2) ->
  split_outcome b m units h m2 h2.
Proof.
  intros E. unfold heap_split_block in E. unfold split_outcome, split_remainder.
  unfold_calls. minv. split; [reflexivity|].
  destruct (ac_type _); minv;
    match goal with
    | E : (if ?x =? 0 then _ else _) _ = Some _ |- _ =>
        eexists _, x; destruct (Z.eqb_spec x 0); unfold_calls; minv
    end;
    (erewrite new_calls_app by (simpl; rewrite <- ?app_assoc; reflexivity));
    simpl;
    (split; [repeat first [left; reflexivity | right]|]);
    (split; [first [reflexivity | repeat split; reflexivity]|]);
    intros Hx; first [contradiction | repeat first [left; reflexivity | right]].
Qed.

(** The loop of [heap_get_bestfit_block] from the requested size [units]. *)
Lemma heap_get_bestfit_block_loop_Some fuel b units :
  forall m h r m' h',
    heap_get_bestfit_block_loop fuel b units m h = Some (r, m', h') ->
    (r = 0 \/ r = ENOMEM) /\
    (r = 0 ->
     size_idx m' = units /\
     header_type m' = ac_header_type (bucket_alloc_class b) /\
     bestfit_success b units h m' h') /\
    (r = ENOMEM <-> refill_fails fuel b units m h).
Proof.
  induction fuel as [|fuel IH]; intros m h r m' h' E; simpl in E.
  { minv. }
  unfold_calls. minv.
  change (match ac_type (bucket_alloc_class b) with
          | CLASS_HUGE => heap_ensure_huge_bucket_filled fuel b
          | CLASS_RUN => _
          end) with (refill fuel b units) in E.
  cbn [refill_fails].
  destruct (result_of (BucketAllocBlock b m) h) as [a m1] eqn:Ea. simpl.
  destruct (Z.eqb_spec a 0) as [->|Ha].
  - minv.
    match goal with E : _ = Some (?m2, ?h2) |- _ =>
      assert (Hs : size_idx m2 = units /\
                   if units =? size_idx m1
                   then m2 = m1 /\ h2 = after_call (BucketAllocBlock b m) h
                   else heap_split_block b m1 units
                          (after_call (BucketAllocBlock b m) h) = Some (m2, h2) /\
                        split_outcome b m1 units
                          (after_call (BucketAllocBlock b m) h) m2 h2)
    end.
    { destruct (Z.eqb_spec units (size_idx m1)); minv; [auto|].
      match goal with E : heap_split_block _ _ _ _ = Some _ |- _ =>
        pose proof (heap_split_block_Some _ _ _ _ _ _ E) as O end.
      split; [apply O|]. split; assumption. }
    destruct Hs as [Hu Hs].
    split; [auto|]. split.
    + intros _. split; [exact Hu|]. split; [reflexivity|].
      eexists h, m, m1, _, _. split; [exists (@nil event); symmetry; apply app_nil_r|].
      split; [exact Ea|]. split; [exact Hs|]. split; reflexivity.
    + split; [discriminate|]. intros [Hn _]. contradiction.
  - minv.
    match goal with E : refill _ _ _ _ = Some (?x, ?h2) |- _ =>
      pose proof (refill_log_extends _ _ _ _ _ _ E) as Hl;
      destruct (Z.eqb_spec x 0) as [Hx|Hx]
    end.
    + destruct (IH _ _ _ _ _ E) as (Hr & Hs & Hf).
      split; [exact Hr|]. split.
      * intros Hr0. destruct (Hs Hr0) as (Hu & Ht & S).
        split; [exact Hu|]. split; [exact Ht|].
        destruct S as (h0 & m0 & m2 & m3 & h3 & [e2 E2] & S).
        exists h0, m0, m2, m3, h3. split; [|exact S].
        destruct Hl as [e1 E1].
        exists ([Call (BucketAllocBlock b m) (result_of (BucketAllocBlock b m) h)]
                  ++ e1 ++ e2).
        rewrite E2, E1. simpl. rewrite <- !app_assoc. reflexivity.
      * split.
        -- intros Hr1. split; [exact Ha|]. eexists _, _. split; [eassumption|].
           intros _. apply Hf, Hr1.
        -- intros [_ (x1 & h2 & E1 & F)].
           match goal with E0 : refill _ _ _ _ = Some (x, _) |- _ =>
             rewrite E0 in E1 end.
           injection E1 as <- <-. apply Hf, F, Hx.
    + minv. split; [auto|]. split; [intros Hc; discriminate Hc|].
      split; [|reflexivity]. intros _. split; [exact Ha|].
      eexists _, _. split; [eassumption|]. intros Hc. contradiction.
Qed.

(** C1: a call of [heap_get_bestfit_block] that returns gives 0 or ENOMEM.
    When it gives 0 the block has the size requested at entry and the header
    type of the class of the bucket; the block the bucket gave was split when
    its size was not the requested one, and then the caller keeps the
    requested units and the remainder, of the original size less the
    requested one, is inserted into the same bucket.  The call gives ENOMEM
    exactly when the refill of the kind of the class fails in its loop. *)
Theorem heap_get_bestfit_block_result
    (fuel : nat) (b : bucket) (m : memory_block) (h : palloc_heap)
    (r : Z) (m' : memory_block) (h' : palloc_heap) :
  heap_get_bestfit_block fuel b m h = Some (r, m', h') ->
  (r = 0 \/ r = ENOMEM) /\
  (r = 0 ->
   size_idx m' = size_idx m /\
   header_type m' = ac_header_type (bucket_alloc_class b) /\
   bestfit_success b (size_idx m) h m' h') /\
  (r = ENOMEM <-> refill_fails fuel b (size_idx m) m h) /\
  (forall m1 ha m2 hb,
     heap_split_block b m1 (size_idx m) ha = Some (m2, hb) ->
     split_outcome b m1 (size_idx m) ha m2 hb).
Proof.
  intros E. unfold heap_get_bestfit_block in E.
  destruct (heap_get_bestfit_block_loop_Some _ _ _ _ _ _ _ _ E) as (Hr & Hs & Hf).
  split; [exact Hr|]. split; [exact Hs|]. split; [exact Hf|].
  intros m1 ha m2 hb. apply heap_split_block_Some.
Qed.

End BestFit.

Section BestFitSamples.
#[local] Existing Instance sample_layout.
#[local] Existing Instance sample_externals.

(** In [ten_heap] the default bucket holds a free block of three chunks: a
    request of one chunk returns 0 with a block of one chunk, after a split.
    In [run_heap] the bucket is empty, no recycler is there and the only zone
    is consumed: the request returns ENOMEM, the refill having failed. *)
Lemma heap_get_bestfit_block_result_witness :
  (exists m' h',
     heap_get_bestfit_block 10 sample_default_bucket
       (set_size_idx 1 MEMORY_BLOCK_NONE) ten_heap = Some (0, m', h') /\
     size_idx m' = 1 /\
     header_type m' = ac_header_type (bucket_alloc_class sample_default_bucket) /\
     bestfit_success sample_default_bucket 1 ten_heap m' h') /\
  (exists m' h',
     heap_get_bestfit_block 10 sample_default_bucket
       (set_size_idx 1 MEMORY_BLOCK_NONE) run_heap = Some (ENOMEM, m', h') /\
     refill_fails 10 sample_default_bucket 1 (set_size_idx 1 MEMORY_BLOCK_NONE)
       run_heap).
Proof.
  split.
  - destruct (run_passes_Some
                (heap_get_bestfit_block 10 sample_default_bucket
                   (set_size_idx 1 MEMORY_BLOCK_NONE) ten_heap)
                (fun a _ => a.1 =? 0)) as ([r m'] & h' & E & Hr);
      [vm_compute; reflexivity|].
    apply Z.eqb_eq in Hr. simpl in Hr. subst r.
    exists m', h'. split; [exact E|].
    destruct (heap_get_bestfit_block_result 10 sample_default_bucket
                (set_size_idx 1 MEMORY_BLOCK_NONE) ten_heap 0 m' h' E)
      as (_ & Hs & _).
    exact (Hs eq_refl).
  - destruct (run_passes_Some
                (heap_get_bestfit_block 10 sample_default_bucket
                   (set_size_idx 1 MEMORY_BLOCK_NONE) run_heap)
                (fun a _ => a.1 =? ENOMEM)) as ([r m'] & h' & E & Hr);
      [vm_compute; reflexivity|].
    apply Z.eqb_eq in Hr. simpl in Hr. subst r.
    exists m', h'. split; [exact E|].
    destruct (heap_get_bestfit_block_result 10 sample_default_bucket
                (set_size_idx 1 MEMORY_BLOCK_NONE) run_heap ENOMEM m' h' E)
      as (_ & _ & Hf & _).
    exact (proj1 Hf eq_refl).
Defined.

End BestFitSamples.

(** ** The consistency checks *)

Section Verify.
Context `{HeapLayout} `{Externals}.

Lemma land_lnot_zero a b :
  Z.land a (Z.lnot b) = 0 <->
  forall n, 0 <= n -> Z.testbit a n = true -> Z.testbit b n = true.
Proof.
  split.
  - intros E n Hn Ha.
    assert (Hb : Z.testbit (Z.land a (Z.lnot b)) n = false)
      by (rewrite E; apply Z.bits_0).
    rewrite Z.land_spec, Z.lnot_spec, Ha in Hb by lia.
    destruct (Z.testbit b n); [reflexivity|discriminate].
  - intros Hab. apply Z.bits_inj'. intros n Hn.
    rewrite Z.land_spec, Z.lnot_spec, Z.bits_0 by lia.
    destruct (Z.testbit a n) eqn:Ha; [|reflexivity].
    rewrite (Hab n Hn Ha). reflexivity.
Qed.

Lemma heap_verify_chunk_header_0 hdr :
  heap_verify_chunk_header hdr = 0 <-> valid_chunk_header hdr.
Proof.
  unfold heap_verify_chunk_header, valid_chunk_header, valid_flags.
  rewrite <- land_lnot_zero.
  destruct (Z.eqb_spec (hdr_type hdr) CHUNK_TYPE_UNKNOWN);
    [split; [discriminate|tauto]|].
  destruct (Z.leb_spec MAX_CHUNK_TYPE (hdr_type hdr));
    [split; [discriminate|lia]|].
  destruct (Z.eqb_spec (Z.land (hdr_flags hdr) (Z.lnot CHUNK_FLAGS_ALL_VALID)) 0).
  - split; [tauto|reflexivity].
  - split; [discriminate|tauto].
Qed.

Lemma heap_verify_chunk_header_result hdr :
  heap_verify_chunk_header hdr = 0 \/ heap_verify_chunk_header hdr = -1.
Proof.
  unfold heap_verify_chunk_header.
  destruct (_ =? _); [auto|]. destruct (_ <=? _); [auto|].
  destruct (_ =? _); auto.
Qed.

(** X1: [heap_verify_chunk_header] returns 0 for a chunk header of a known type
    (not [CHUNK_TYPE_UNKNOWN], below [MAX_CHUNK_TYPE]) whose flags are all
    among the valid ones, and -1 for any other. *)
Theorem heap_verify_chunk_header_accepts (hdr : chunk_header) :
  (heap_verify_chunk_header hdr = 0 <-> valid_chunk_header hdr) /\
  (heap_verify_chunk_header hdr = -1 <-> ~ valid_chunk_header hdr).
Proof.
  split; [apply heap_verify_chunk_header_0|].
  rewrite <- heap_verify_chunk_header_0.
  destruct (heap_verify_chunk_header_result hdr) as [E|E]; rewrite E;
    split; intros; try discriminate; try reflexivity; congruence.
Qed.

Lemma top_level_lt z i : top_level z i -> i < zh_size_idx (header z).
Proof. intros T. destruct T; assumption. Qed.

Lemma top_level_nonneg z i :
  chunk_sizes_in_range z -> top_level z i -> 0 <= i.
Proof.
  intros R T. induction T as [|i T IH Hlt]; [lia|].
  pose proof (top_level_lt _ _ T).
  destruct (R i T); lia.
Qed.

(** A chunk header of size 0 keeps the loop at its index. *)
Lemma heap_verify_zone_loop_stuck z i fuel :
  0 <= i < 2 ^ 32 ->
  i < zh_size_idx (header z) ->
  hdr_size_idx (chunk_headers z i) = 0 ->
  heap_verify_zone_loop fuel z i <> Some 0.
Proof.
  intros Hi Hlt Hs. induction fuel as [|fuel IH]; [discriminate|].
  simpl. destruct (Z.ltb_spec i (zh_size_idx (header z))); [|lia].
  destruct (_ =? 0); [|discriminate].
  rewrite Hs, Z.add_0_r, wrap32_small by lia. exact IH.
Qed.

(** One iteration of the loop that ends with 0, at a chunk of the zone. *)
Lemma heap_verify_zone_loop_step z i fuel :
  chunk_sizes_in_range z ->
  top_level z i ->
  heap_verify_zone_loop fuel z i = Some 0 ->
  valid_chunk_header (chunk_headers z i) /\
  0 < hdr_size_idx (chunk_headers z i) /\
  i + hdr_size_idx (chunk_headers z i) <= zh_size_idx (header z) /\
  exists fuel',
    heap_verify_zone_loop fuel' z (i + hdr_size_idx (chunk_headers z i)) = Some 0.
Proof.
  intros R T E. destruct (R i T) as [Hs Hw].
  pose proof (top_level_lt _ _ T) as Hlt.
  pose proof (top_level_nonneg _ _ R T) as Hi.
  assert (Hi32 : 0 <= i < 2 ^ 32) by lia.
  pose proof (heap_verify_zone_loop_stuck z i fuel Hi32 Hlt) as Hstuck.
  destruct fuel as [|fuel]; [discriminate|]. simpl in E.
  destruct (Z.ltb_spec i (zh_size_idx (header z))); [|lia].
  destruct (Z.eqb_spec (heap_verify_chunk_header (chunk_headers z i)) 0) as [Hv|];
    [|discriminate].
  rewrite wrap32_small in E by lia.
  split; [apply heap_verify_chunk_header_0, Hv|].
  assert (Hpos : 0 < hdr_size_idx (chunk_headers z i)).
  { destruct (Z.eq_dec (hdr_size_idx (chunk_headers z i)) 0) as [Hz|]; [|lia].
    exfalso. apply Hstuck; [exact Hz|]. simpl.
    destruct (Z.ltb_spec i (zh_size_idx (header z))); [|lia].
    rewrite Hv. simpl. rewrite Hz, Z.add_0_r, wrap32_small by lia.
    rewrite Hz, Z.add_0_r in E. exact E. }
  split; [exact Hpos|]. split; [|eauto].
  destruct fuel as [|fuel']; [discriminate|]. simpl in E.
  destruct (Z.ltb_spec (i + hdr_size_idx (chunk_headers z i)) (zh_size_idx (header z)));
    [lia|].
  destruct (Z.eqb_spec (i + hdr_size_idx (chunk_headers z i)) (zh_size_idx (header z)));
    [lia|discriminate].
Qed.

Lemma heap_verify_zone_loop_top_level z fuel :
  chunk_sizes_in_range z ->
  heap_verify_zone_loop fuel z 0 = Some 0 ->
  forall i, top_level z i -> exists fuel', heap_verify_zone_loop fuel' z i = Some 0.
Proof.
  intros R E i T. induction T as [|i T [fuel' IH] Hlt]; [eauto|].
  destruct (heap_verify_zone_loop_step z i fuel' R) as (_ & _ & _ & F); auto.
Qed.

(** X2: A zone that [heap_verify_zone] accepts is not initialized, or it is
    initialized, has a size, and its top-level chunks have valid headers and
    tile it: the sizes of the chunk headers lead from chunk 0 to the end of
    the zone through chunks that each have a size. *)
Theorem heap_verify_zone_sound (fuel : nat) (z : zone) :
  chunk_sizes_in_range z ->
  heap_verify_zone fuel z = Some 0 ->
  magic (header z) = 0 \/
  (magic (header z) = ZONE_HEADER_MAGIC /\
   zh_size_idx (header z) <> 0 /\
   zone_tiled z).
Proof.
  intros R E. unfold heap_verify_zone, heap_verify_zone_header in E.
  destruct (Z.eqb_spec (magic (header z)) 0) as [|Hm]; [auto|right].
  destruct (Z.eqb_spec (magic (header z)) ZONE_HEADER_MAGIC) as [Hmagic|];
    [|discriminate].
  split; [exact Hmagic|].
  destruct (Z.eqb_spec (zh_size_idx (header z)) 0) as [|Hsz]; [discriminate|].
  split; [exact Hsz|]. simpl in E.
  intros i T.
  destruct (heap_verify_zone_loop_top_level z fuel R E i T) as [fuel' E'].
  destruct (heap_verify_zone_loop_step z i fuel' R) as (Hv & Hp & Hle & _); auto.
Qed.

Lemma heap_verify_zone_loop_complete z :
  zh_size_idx (header z) < 2 ^ 32 ->
  zone_tiled z ->
  forall (k : nat) i,
    0 <= i ->
    zh_size_idx (header z) - i <= Z.of_nat k ->
    i = zh_size_idx (header z) \/ top_level z i ->
    heap_verify_zone_loop (S k) z i = Some 0.
Proof.
  intros Hsz Ht k. induction k as [|k IH]; intros i Hi Hk Hor.
  - destruct Hor as [->|T]; [|pose proof (top_level_lt _ _ T); lia].
    simpl. rewrite Z.ltb_irrefl, Z.eqb_refl. reflexivity.
  - destruct Hor as [->|T].
    + simpl. rewrite Z.ltb_irrefl, Z.eqb_refl. reflexivity.
    + pose proof (top_level_lt _ _ T) as Hlt.
      destruct (Ht i T) as (Hv & Hp & Hle).
      apply heap_verify_chunk_header_0 in Hv.
      change (heap_verify_zone_loop (S (S k)) z i)
        with (if i <? zh_size_idx (header z) then
                if heap_verify_chunk_header (chunk_headers z i) =? 0
                then heap_verify_zone_loop (S k) z
                       (wrap32 (i + hdr_size_idx (chunk_headers z i)))
                else Some (-1)
              else if i =? zh_size_idx (header z) then Some 0 else Some (-1)).
      destruct (Z.ltb_spec i (zh_size_idx (header z))); [|lia].
      rewrite Hv. simpl (0 =? 0). cbv iota.
      rewrite wrap32_small by lia.
      apply IH; [lia|lia|].
      destruct (Z.eq_dec (i + hdr_size_idx (chunk_headers z i)) (zh_size_idx (header z)));
        [auto|right].
      apply top_level_next; [exact T|lia].
Qed.

Lemma heap_verify_zone_loop_more z r :
  forall (fuel fuel' : nat) i,
    (fuel <= fuel')%nat ->
    heap_verify_zone_loop fuel z i = Some r ->
    heap_verify_zone_loop fuel' z i = Some r.
Proof.
  induction fuel as [|fuel IH]; intros fuel' i Hle E; [discriminate|].
  destruct fuel' as [|fuel']; [lia|]. simpl in *.
  destruct (_ <? _); [|exact E].
  destruct (_ =? 0); [|exact E].
  apply IH; [lia|exact E].
Qed.

(** X3: [heap_verify_zone] returns 0 for a zone that is not initialized, whatever
    it holds, and for an initialized zone with a size whose top-level chunks
    have valid headers and tile it, once the number of iterations allowed is
    above the size of the zone. *)
Theorem heap_verify_zone_complete (fuel : nat) (z : zone) :
  magic (header z) = 0 \/
  (magic (header z) = ZONE_HEADER_MAGIC /\
   0 < zh_size_idx (header z) < 2 ^ 32 /\
   zone_tiled z /\
   (Z.to_nat (zh_size_idx (header z)) < fuel)%nat) ->
  heap_verify_zone fuel z = Some 0.
Proof.
  unfold heap_verify_zone, heap_verify_zone_header.
  intros [Hm|(Hm & Hsz & Ht & Hf)].
  - rewrite Hm. reflexivity.
  - destruct (Z.eqb_spec (magic (header z)) 0); [reflexivity|].
    rewrite Hm, Z.eqb_refl.
    destruct (Z.eqb_spec (zh_size_idx (header z)) 0); [lia|]. simpl.
    apply (heap_verify_zone_loop_more z 0 (S (Z.to_nat (zh_size_idx (header z)))));
      [lia|].
    apply heap_verify_zone_loop_complete; [lia|exact Ht|lia|lia|].
    right. apply top_level_first. lia.
Qed.

Lemma heap_verify_zone_loop_returns z :
  (forall i, top_level z i ->
     0 < hdr_size_idx (chunk_headers z i) /\
     i + hdr_size_idx (chunk_headers z i) < 2 ^ 32) ->
  forall (k : nat) i,
    0 <= i ->
    zh_size_idx (header z) - i <= Z.of_nat k ->
    zh_size_idx (header z) <= i \/ top_level z i ->
    exists r, heap_verify_zone_loop (S k) z i = Some r /\ (r = 0 \/ r = -1).
Proof.
  intros Hpos k. induction k as [|k IH]; intros i Hi Hk Hor.
  - simpl. destruct (Z.ltb_spec i (zh_size_idx (header z))); [lia|].
    destruct (_ =? _); eauto.
  - change (heap_verify_zone_loop (S (S k)) z i)
      with (if i <? zh_size_idx (header z) then
              if heap_verify_chunk_header (chunk_headers z i) =? 0
              then heap_verify_zone_loop (S k) z
                     (wrap32 (i + hdr_size_idx (chunk_headers z i)))
              else Some (-1)
            else if i =? zh_size_idx (header z) then Some 0 else Some (-1)).
    destruct (Z.ltb_spec i (zh_size_idx (header z))); [|destruct (_ =? _); eauto].
    destruct (_ =? 0); [|eauto].
    destruct Hor as [|T]; [lia|].
    destruct (Hpos i T) as [Hp Hw].
    rewrite wrap32_small by lia. apply IH; [lia|lia|].
    destruct (Z_le_gt_dec (zh_size_idx (header z))
                (i + hdr_size_idx (chunk_headers z i))); [auto|right].
    apply top_level_next; [exact T|lia].
Qed.

(** X4: [heap_verify_zone] returns, 0 or -1, within a number of iterations above
    the size of the zone when every top-level chunk of the zone has a size
    (that does not make the index wrap). *)
Theorem heap_verify_zone_returns (fuel : nat) (z : zone) :
  (forall i, top_level z i ->
     0 < hdr_size_idx (chunk_headers z i) /\
     i + hdr_size_idx (chunk_headers z i) < 2 ^ 32) ->
  (Z.to_nat (zh_size_idx (header z)) < fuel)%nat ->
  exists r, heap_verify_zone fuel z = Some r /\ (r = 0 \/ r = -1).
Proof.
  intros Hpos Hf. unfold heap_verify_zone.
  destruct (_ =? 0); [eauto|].
  destruct (_ =? ZONE_HEADER_MAGIC); [|eauto].
  destruct (_ =? 0); [|eauto].
  destruct (heap_verify_zone_loop_returns z Hpos (Z.to_nat (zh_size_idx (header z))) 0)
    as (r & E & Hr); [lia|lia| |].
  { destruct (Z_le_gt_dec (zh_size_idx (header z)) 0); [auto|right].
    apply top_level_first. lia. }
  exists r. split; [|exact Hr].
  apply (heap_verify_zone_loop_more z r (S (Z.to_nat (zh_size_idx (header z)))));
    [lia|exact E].
Qed.

(** ** [heap_check] *)

Lemma heap_check_loop_0 fuel l ids :
  heap_check_loop fuel l ids = Some 0 <->
  forall i, In i ids -> heap_verify_zone fuel (ZID_TO_ZONE l i) = Some 0.
Proof.
  induction ids as [|i ids IH]; simpl.
  - split; [intros _ ? []|reflexivity].
  - destruct (heap_verify_zone fuel (ZID_TO_ZONE l i)) as [r|] eqn:E.
    + destruct (Z.eqb_spec r 0) as [->|Hr].
      * rewrite IH. split; [intros Hall j [<-|Hj]; auto|auto].
      * split; [discriminate|]. intros Hall.
        specialize (Hall i (or_introl eq_refl)). congruence.
    + split; [discriminate|]. intros Hall.
      specialize (Hall i (or_introl eq_refl)). congruence.
Qed.

Lemma heap_check_loop_result fuel l ids r :
  heap_check_loop fuel l ids = Some r -> r = 0 \/ r = -1.
Proof.
  revert r. induction ids as [|i ids IH]; simpl; intros r E.
  - injection E as <-. auto.
  - destruct (heap_verify_zone fuel (ZID_TO_ZONE l i)) as [x|]; [|discriminate].
    destruct (x =? 0); [auto|]. injection E as <-. auto.
Qed.

Lemma elem_of_seqZ_In i n : In i (seqZ 0 n) <-> 0 <= i < n.
Proof. rewrite <- list_elem_of_In, elem_of_seqZ. lia. Qed.

(** X5: [heap_check] returns 0 exactly when the heap size is at least
    [HEAP_MIN_SIZE], the heap header passes [heap_verify_header] and every
    zone that [heap_max_zone] counts for the heap size passes
    [heap_verify_zone]; any other result it returns is -1. *)
Theorem heap_check_accepts (fuel : nat) (l : heap_layout) (heap_size : Z) :
  (heap_check fuel l heap_size = Some 0 <->
   HEAP_MIN_SIZE <= heap_size /\
   heap_verify_header (hl_header l) = 0 /\
   exists n, heap_max_zone heap_size = Some n /\
     forall i, 0 <= i < n -> heap_verify_zone fuel (ZID_TO_ZONE l i) = Some 0) /\
  (forall r, heap_check fuel l heap_size = Some r -> r = 0 \/ r = -1).
Proof.
  unfold heap_check.
  destruct (Z.ltb_spec heap_size HEAP_MIN_SIZE).
  { split; [split; [discriminate|lia]|]. intros r E. injection E as <-. auto. }
  destruct (Z.eqb_spec (heap_verify_header (hl_header l)) 0) as [Hh|Hh].
  2: { split; [split; [discriminate|tauto]|]. intros r E. injection E as <-. auto. }
  destruct (heap_max_zone heap_size) as [n|].
  2: { split; [split; [discriminate|]|discriminate].
       intros (_ & _ & n & E & _). discriminate. }
  split; [|apply heap_check_loop_result].
  rewrite heap_check_loop_0. split.
  - intros Hall. split; [lia|]. split; [exact Hh|]. exists n. split; [reflexivity|].
    intros i Hi. apply Hall, elem_of_seqZ_In, Hi.
  - intros (_ & _ & n' & E & Hall). injection E as <-.
    intros i Hi. apply Hall, elem_of_seqZ_In, Hi.
Qed.

(** X6: [heap_check] returns -1 at the first zone that [heap_verify_zone]
    rejects, whatever the zones after it hold. *)
Theorem heap_check_first_bad_zone (fuel : nat) (l : heap_layout) (heap_size n k r : Z) :
  HEAP_MIN_SIZE <= heap_size ->
  heap_verify_header (hl_header l) = 0 ->
  heap_max_zone heap_size = Some n ->
  0 <= k < n ->
  (forall i, 0 <= i < k -> heap_verify_zone fuel (ZID_TO_ZONE l i) = Some 0) ->
  heap_verify_zone fuel (ZID_TO_ZONE l k) = Some r ->
  r <> 0 ->
  heap_check fuel l heap_size = Some (-1).
Proof.
  intros Hsz Hh Hn Hk Hbefore Hbad Hr. unfold heap_check.
  destruct (Z.ltb_spec heap_size HEAP_MIN_SIZE); [lia|].
  rewrite Hh, Hn. simpl.
  replace n with (k + (n - k)) by lia.
  rewrite seqZ_app by lia.
  assert (Hpre : forall ids rest,
             (forall i, In i ids -> heap_verify_zone fuel (ZID_TO_ZONE l i) = Some 0) ->
             heap_check_loop fuel l (ids ++ rest) = heap_check_loop fuel l rest).
  { induction ids as [|i ids IH]; intros rest Hall; [reflexivity|]. simpl.
    rewrite (Hall i (or_introl eq_refl)). simpl. apply IH.
    intros j Hj. apply Hall. right. exact Hj. }
  rewrite Hpre by (intros i Hi; apply Hbefore, elem_of_seqZ_In, Hi).
  rewrite (seqZ_cons (0 + k)) by lia. rewrite Z.add_0_l.
  cbn [heap_check_loop]. rewrite Hbad.
  destruct (Z.eqb_spec r 0); [contradiction|reflexivity].
Qed.

Lemma heap_verify_zone_loop_same_headers z z' :
  same_headers z z' ->
  forall fuel i, heap_verify_zone_loop fuel z i = heap_verify_zone_loop fuel z' i.
Proof.
  intros [Hh Hc] fuel. induction fuel as [|fuel IH]; intros i; [reflexivity|].
  simpl. rewrite Hh, Hc, IH. reflexivity.
Qed.

(** X7: [heap_check] reads the heap header and, of the zones that
    [heap_max_zone] counts for the heap size, the zone header and the chunk
    headers: two regions that agree on these get the same result, whatever
    their chunks and their other zones hold. *)
Theorem heap_check_reads_headers (fuel : nat) (l l' : heap_layout) (heap_size n : Z) :
  heap_max_zone heap_size = Some n ->
  hl_header l = hl_header l' ->
  (forall i, 0 <= i < n -> same_headers (ZID_TO_ZONE l i) (ZID_TO_ZONE l' i)) ->
  heap_check fuel l heap_size = heap_check fuel l' heap_size.
Proof.
  intros Hn Hh Hz. unfold heap_check. rewrite Hn, Hh.
  destruct (_ <? _); [reflexivity|]. destruct (_ =? 0); [|reflexivity].
  assert (Hloop : forall ids, (forall i, In i ids -> 0 <= i < n) ->
             heap_check_loop fuel l ids = heap_check_loop fuel l' ids).
  { induction ids as [|i ids IH]; intros Hall; [reflexivity|]. simpl.
    assert (Hv : heap_verify_zone fuel (ZID_TO_ZONE l i) =
                 heap_verify_zone fuel (ZID_TO_ZONE l' i)).
    { destruct (Hz i (Hall i (or_introl eq_refl))) as [Hhd Hc].
      unfold heap_verify_zone. rewrite Hhd.
      rewrite (heap_verify_zone_loop_same_headers _ _ (conj Hhd Hc)). reflexivity. }
    rewrite Hv, IH by (intros j Hj; apply Hall; right; exact Hj). reflexivity. }
  apply Hloop. intros i Hi. apply elem_of_seqZ_In, Hi.
Qed.

End Verify.

Section VerifySamples.
#[local] Existing Instance sample_layout.
#[local] Existing Instance sample_externals.

Lemma ten_zone_sizes_in_range : chunk_sizes_in_range ten_zone.
Proof.
  intros i T. apply ten_zone_top_level in T.
  destruct T as [-> | [-> | [-> | ->]]]; vm_compute;
    (split; [discriminate|reflexivity]).
Qed.

Lemma ten_zone_tiled : zone_tiled ten_zone.
Proof.
  intros i T. apply ten_zone_top_level in T.
  split; [apply heap_verify_chunk_header_0|];
    destruct T as [-> | [-> | [-> | ->]]]; vm_compute;
    first [reflexivity | split; [reflexivity|discriminate]].
Qed.

Lemma over_zone_top_level i : top_level over_zone i -> i = 0 \/ i = 2.
Proof.
  intros T. induction T as [|i T IH Hlt]; [auto|].
  destruct IH as [-> | ->]; vm_compute in Hlt |- *; auto; discriminate.
Qed.

Lemma sample_max_zone_three : heap_max_zone three_zone_size = Some 3.
Proof.
  unfold heap_max_zone.
  change (wrap64 (three_zone_size - sizeof_heap_header))
    with (2 * 17178296320 + 786432).
  rewrite (@heap_max_zone_loop_count sample_layout); simpl; try lia; reflexivity.
Qed.

(** [ten_zone] is accepted within 11 iterations: its top-level chunks, at
    the indices 0, 2, 5 and 6, tile its ten chunks. *)
Lemma heap_verify_zone_sound_witness :
  heap_verify_zone 11 ten_zone = Some 0 /\
  (magic (header ten_zone) = 0 \/
   (magic (header ten_zone) = ZONE_HEADER_MAGIC /\
    zh_size_idx (header ten_zone) <> 0 /\
    zone_tiled ten_zone)).
Proof.
  split; [vm_compute; reflexivity|].
  apply (heap_verify_zone_sound 11 ten_zone);
    [exact ten_zone_sizes_in_range|vm_compute; reflexivity].
Defined.

(** [ten_zone], whose chunks tile it, and [empty_zone], which is not
    initialized, are accepted. *)
Lemma heap_verify_zone_complete_witness :
  heap_verify_zone 11 ten_zone = Some 0 /\
  heap_verify_zone 0 empty_zone = Some 0.
Proof.
  split.
  - apply (heap_verify_zone_complete 11 ten_zone). right.
    split; [reflexivity|]. split; [vm_compute; split; reflexivity|].
    split; [exact ten_zone_tiled|vm_compute; lia].
  - apply (heap_verify_zone_complete 0 empty_zone). left. reflexivity.
Defined.

(** [over_zone] is rejected within 5 iterations. *)
Lemma heap_verify_zone_returns_witness :
  heap_verify_zone 5 over_zone = Some (-1) /\
  exists r, heap_verify_zone 5 over_zone = Some r /\ (r = 0 \/ r = -1).
Proof.
  split; [vm_compute; reflexivity|].
  apply (heap_verify_zone_returns 5 over_zone); [|vm_compute; lia].
  intros i T. apply over_zone_top_level in T.
  destruct T as [-> | ->]; vm_compute; (split; reflexivity).
Defined.

(** In [three_zone_mem] the first zone is accepted, the second one is
    rejected and the third one keeps [heap_verify_zone] in its loop:
    [heap_check] returns -1. *)
Lemma heap_check_first_bad_zone_witness :
  heap_verify_zone 11 (ZID_TO_ZONE three_zone_mem 2) = None /\
  heap_check 11 three_zone_mem three_zone_size = Some (-1).
Proof.
  split; [vm_compute; reflexivity|].
  apply (heap_check_first_bad_zone 11 three_zone_mem three_zone_size 3 1 (-1)).
  - vm_compute. discriminate.
  - vm_compute. reflexivity.
  - exact sample_max_zone_three.
  - lia.
  - intros i Hi. assert (i = 0) as -> by lia. vm_compute. reflexivity.
  - vm_compute. reflexivity.
  - discriminate.
Defined.

(** [other_mem] has the headers of [sample_mem ten_zone] in the only zone
    that a heap of [HEAP_MIN_SIZE] has: both are accepted. *)
Lemma heap_check_reads_headers_witness :
  heap_check 11 other_mem HEAP_MIN_SIZE = Some 0 /\
  heap_check 11 (sample_mem ten_zone) HEAP_MIN_SIZE =
    heap_check 11 other_mem HEAP_MIN_SIZE.
Proof.
  assert (E : heap_check 11 (sample_mem ten_zone) HEAP_MIN_SIZE =
              heap_check 11 other_mem HEAP_MIN_SIZE).
  { apply (heap_check_reads_headers 11 (sample_mem ten_zone) other_mem
             HEAP_MIN_SIZE 1).
    - exact sample_max_zone_min.
    - reflexivity.
    - intros i Hi. assert (i = 0) as -> by lia. split; reflexivity. }
  split; [|exact E].
  rewrite <- E. unfold heap_check. rewrite sample_max_zone_min.
  vm_compute. reflexivity.
Defined.

End VerifySamples.

(** ** The number of zones and their sizes *)

Section ZoneSizes.
Context `{HeapLayout}.

Lemma zone_count_spec_value size :
  0 < ZONE_MIN_SIZE -> ZONE_MIN_SIZE <= ZONE_MAX_SIZE ->
  0 <= sizeof_heap_header <= size ->
  size < 2 ^ 64 ->
  (size - sizeof_heap_header) / ZONE_MAX_SIZE + 1 < 2 ^ 32 ->
  heap_max_zone size = Some (zone_count_spec size).
Proof.
  intros Hmin Hmax Hhdr Hsize Hfit. unfold heap_max_zone, zone_count_spec.
  rewrite wrap64_small by lia.
  rewrite heap_max_zone_loop_count by lia.
  f_equal.
Qed.

Lemma zone_count_spec_bounds size :
  0 < ZONE_MIN_SIZE -> ZONE_MIN_SIZE <= ZONE_MAX_SIZE ->
  sizeof_heap_header <= size ->
  let n := zone_count_spec size in
  0 <= n /\
  (n = 0 <-> size - sizeof_heap_header < ZONE_MIN_SIZE) /\
  (0 < n -> sizeof_heap_header + (n - 1) * ZONE_MAX_SIZE + ZONE_MIN_SIZE <= size) /\
  size < sizeof_heap_header + n * ZONE_MAX_SIZE + ZONE_MIN_SIZE.
Proof.
  intros Hmin Hmax Hhdr. unfold zone_count_spec.
  set (a := size - sizeof_heap_header).
  assert (Ha : 0 <= a) by (unfold a; lia).
  assert (Hne : ZONE_MAX_SIZE <> 0) by lia.
  assert (Hzp : 0 < ZONE_MAX_SIZE) by lia.
  pose proof (Z.div_mod a ZONE_MAX_SIZE Hne) as Hdm.
  pose proof (Z.mod_pos_bound a ZONE_MAX_SIZE Hzp) as Hr.
  pose proof (Z.div_pos a ZONE_MAX_SIZE Ha Hzp) as Hq.
  replace size with (sizeof_heap_header + a) by (unfold a; lia).
  generalize dependent (a / ZONE_MAX_SIZE). generalize dependent (a mod ZONE_MAX_SIZE).
  intros r Hr q Hdm Hq.
  destruct (Z.leb_spec ZONE_MIN_SIZE r); simpl; nia.
Qed.

(** X8: For a heap size of at least the size of the heap header (and below
    2^64, with a count that fits an [unsigned]), every zone that
    [heap_max_zone] counts has [ZONE_MIN_SIZE] bytes at least, fewer than
    [ZONE_MIN_SIZE] bytes are left after the last one, and the count is 0
    exactly when the bytes after the heap header are fewer than
    [ZONE_MIN_SIZE]. *)
Theorem heap_max_zone_bounds (size : Z) :
  0 < ZONE_MIN_SIZE -> ZONE_MIN_SIZE <= ZONE_MAX_SIZE ->
  0 <= sizeof_heap_header <= size ->
  size < 2 ^ 64 ->
  (size - sizeof_heap_header) / ZONE_MAX_SIZE + 1 < 2 ^ 32 ->
  exists n,
    heap_max_zone size = Some n /\
    0 <= n /\
    (n = 0 <-> size - sizeof_heap_header < ZONE_MIN_SIZE) /\
    (0 < n -> sizeof_heap_header + (n - 1) * ZONE_MAX_SIZE + ZONE_MIN_SIZE <= size) /\
    size < sizeof_heap_header + n * ZONE_MAX_SIZE + ZONE_MIN_SIZE.
Proof.
  intros Hmin Hmax Hhdr Hsize Hfit.
  exists (zone_count_spec size).
  split; [apply zone_count_spec_value; assumption|].
  apply zone_count_spec_bounds; lia.
Qed.

(** X9: A larger heap never has fewer zones. *)
Theorem heap_max_zone_monotone (size1 size2 : Z) :
  0 < ZONE_MIN_SIZE -> ZONE_MIN_SIZE <= ZONE_MAX_SIZE ->
  0 <= sizeof_heap_header <= size1 ->
  size1 <= size2 < 2 ^ 64 ->
  (size2 - sizeof_heap_header) / ZONE_MAX_SIZE + 1 < 2 ^ 32 ->
  exists n1 n2,
    heap_max_zone size1 = Some n1 /\
    heap_max_zone size2 = Some n2 /\
    n1 <= n2.
Proof.
  intros Hmin Hmax Hhdr Hsize Hfit.
  assert (Hq : (size1 - sizeof_heap_header) / ZONE_MAX_SIZE <=
               (size2 - sizeof_heap_header) / ZONE_MAX_SIZE)
    by (apply Z.div_le_mono; lia).
  exists (zone_count_spec size1), (zone_count_spec size2).
  split; [apply zone_count_spec_value; lia|].
  split; [apply zone_count_spec_value; lia|].
  assert (Hh1 : sizeof_heap_header <= size1) by lia.
  assert (Hh2 : sizeof_heap_header <= size2) by lia.
  destruct (zone_count_spec_bounds size1 Hmin Hmax Hh1) as (Hn1 & _ & Hlo1 & _).
  destruct (zone_count_spec_bounds size2 Hmin Hmax Hh2) as (Hn2 & _ & _ & Hhi2).
  cbv zeta in *.
  destruct (Z_le_gt_dec (zone_count_spec size1) (zone_count_spec size2)); [assumption|].
  exfalso. nia.
Qed.

(** X10: A heap size below the size of the heap header is not refused: the
    subtraction of the header wraps in the [size_t], and the zones counted
    are those of the wrapped size. *)
Theorem heap_max_zone_below_header (size : Z) :
  0 < ZONE_MIN_SIZE -> ZONE_MIN_SIZE <= ZONE_MAX_SIZE ->
  0 <= size < sizeof_heap_header ->
  sizeof_heap_header <= 2 ^ 64 ->
  (2 ^ 64 + size - sizeof_heap_header) / ZONE_MAX_SIZE + 1 < 2 ^ 32 ->
  heap_max_zone size =
    Some ((2 ^ 64 + size - sizeof_heap_header) / ZONE_MAX_SIZE +
          (if ZONE_MIN_SIZE <=? (2 ^ 64 + size - sizeof_heap_header) mod ZONE_MAX_SIZE
           then 1 else 0)).
Proof.
  intros Hmin Hmax Hsize Hhdr Hfit. unfold heap_max_zone.
  assert (Hw : wrap64 (size - sizeof_heap_header) = 2 ^ 64 + size - sizeof_heap_header).
  { unfold wrap64.
    replace (size - sizeof_heap_header)
      with ((2 ^ 64 + size - sizeof_heap_header) + (-1) * 2 ^ 64) by lia.
    rewrite Z.mod_add by lia. apply Z.mod_small. lia. }
  rewrite Hw, heap_max_zone_loop_count by lia.
  f_equal.
Qed.

Lemma zone_calc_size_idx_last zone_id max_zone heap_size :
  0 < CHUNKSIZE ->
  ~ zone_id < wrap32 (max_zone - 1) ->
  0 <= zone_id ->
  0 <= ZONE_MAX_SIZE ->
  zone_id * ZONE_MAX_SIZE <= heap_size < 2 ^ 64 ->
  0 <= zone_metadata_size + sizeof_heap_header <= heap_size - zone_id * ZONE_MAX_SIZE ->
  (heap_size - zone_id * ZONE_MAX_SIZE - (zone_metadata_size + sizeof_heap_header))
    / CHUNKSIZE < 2 ^ 32 ->
  zone_calc_size_idx zone_id max_zone heap_size =
    (heap_size - zone_id * ZONE_MAX_SIZE - (zone_metadata_size + sizeof_heap_header))
    / CHUNKSIZE.
Proof.
  intros Hc Hlast Hz Hmax Hsize Hov Hfit. unfold zone_calc_size_idx.
  destruct (Z.ltb_spec zone_id (wrap32 (max_zone - 1))); [contradiction|].
  unfold zone_metadata_size in *.
  assert (0 <= zone_id * ZONE_MAX_SIZE) by nia.
  rewrite (wrap64_small (zone_id * ZONE_MAX_SIZE)) by lia.
  rewrite (wrap64_small (heap_size - _)) by lia.
  rewrite (wrap64_small (_ + _ + _)) by lia.
  rewrite (wrap64_small (_ - _ - _)) by lia.
  apply wrap32_small. split; [|lia].
  apply Z.div_pos; lia.
Qed.

(** X11: For the last zone, under what the assertions of [zone_calc_size_idx]
    require, the chunks it counts fit in the heap size, and one more would
    not: the zone gets all the chunks of the bytes left. *)
Theorem zone_calc_size_idx_fits (zone_id max_zone heap_size : Z) :
  0 < CHUNKSIZE ->
  ~ zone_id < wrap32 (max_zone - 1) ->
  0 <= zone_id ->
  0 <= ZONE_MAX_SIZE ->
  zone_id * ZONE_MAX_SIZE <= heap_size < 2 ^ 64 ->
  0 <= zone_metadata_size + sizeof_heap_header <= heap_size - zone_id * ZONE_MAX_SIZE ->
  (heap_size - zone_id * ZONE_MAX_SIZE - (zone_metadata_size + sizeof_heap_header))
    / CHUNKSIZE < 2 ^ 32 ->
  let k := zone_calc_size_idx zone_id max_zone heap_size in
  0 <= k /\
  zone_end_offset zone_id k <= heap_size < zone_end_offset zone_id (k + 1).
Proof.
  intros Hc Hlast Hz Hmax Hsize Hov Hfit k. unfold k.
  rewrite zone_calc_size_idx_last by assumption.
  unfold zone_end_offset.
  set (a := heap_size - zone_id * ZONE_MAX_SIZE - (zone_metadata_size + sizeof_heap_header)).
  assert (Ha : 0 <= a) by (unfold a; lia).
  assert (Hne : CHUNKSIZE <> 0) by lia.
  pose proof (Z.div_mod a CHUNKSIZE Hne) as Hdm.
  pose proof (Z.mod_pos_bound a CHUNKSIZE Hc) as Hr.
  pose proof (Z.div_pos a CHUNKSIZE Ha Hc) as Hq.
  split; [exact Hq|]. unfold a in *. nia.
Qed.

(** X12: The size of the last of the zones that [heap_max_zone] counts: the bytes
    after the full zones are [r].  When [r] is at least [ZONE_MIN_SIZE] they
    make the last zone, and when [r] is below [CHUNKSIZE] the last zone is a
    full one: [zone_calc_size_idx] gives it between 1 and [MAX_CHUNK]
    chunks.  Otherwise the last zone is a full one to which
    [zone_calc_size_idx] gives the chunks that fit in [r] as well: more than
    [MAX_CHUNK]. *)
Theorem zone_calc_size_idx_last_zone (size n : Z) :
  zone_layout ->
  MAX_CHUNK + ZONE_MIN_SIZE / CHUNKSIZE < 2 ^ 32 ->
  sizeof_heap_header <= size < 2 ^ 64 ->
  (size - sizeof_heap_header) / ZONE_MAX_SIZE + 1 < 2 ^ 32 ->
  heap_max_zone size = Some n ->
  0 < n ->
  let r := (size - sizeof_heap_header) mod ZONE_MAX_SIZE in
  (r < CHUNKSIZE \/ ZONE_MIN_SIZE <= r ->
   1 <= zone_calc_size_idx (n - 1) n size <= MAX_CHUNK) /\
  (CHUNKSIZE <= r < ZONE_MIN_SIZE ->
   zone_calc_size_idx (n - 1) n size = MAX_CHUNK + r / CHUNKSIZE /\
   MAX_CHUNK < zone_calc_size_idx (n - 1) n size).
Proof.
  intros (Hhh & Hmeta & Hc & Hmc & Hzmax & Hzmin) Hidx Hsize Hfit Hn Hpos r.
  assert (Hmin : 0 < ZONE_MIN_SIZE) by lia.
  rewrite zone_count_spec_value in Hn by lia. injection Hn as <-.
  unfold zone_count_spec in *. fold r in Hpos |- *.
  set (a := size - sizeof_heap_header) in *.
  assert (Ha : 0 <= a) by (unfold a; lia).
  assert (Hne : ZONE_MAX_SIZE <> 0) by lia.
  assert (Hzp : 0 < ZONE_MAX_SIZE) by lia.
  pose proof (Z.div_mod a ZONE_MAX_SIZE Hne) as Hdm.
  pose proof (Z.mod_pos_bound a ZONE_MAX_SIZE Hzp) as Hr. fold r in Hdm, Hr.
  pose proof (Z.div_pos a ZONE_MAX_SIZE Ha Hzp) as Hq.
  set (q := a / ZONE_MAX_SIZE) in *.
  assert (Hcmc : 0 < CHUNKSIZE * MAX_CHUNK) by nia.
  assert (Hsz : size = sizeof_heap_header + ZONE_MAX_SIZE * q + r) by (unfold a in Hdm; lia).
  destruct (Z.leb_spec ZONE_MIN_SIZE r) as [Hge|Hlt].
  - assert (E : zone_calc_size_idx (q + 1 - 1) (q + 1) size =
                (r - zone_metadata_size) / CHUNKSIZE).
    { rewrite zone_calc_size_idx_last.
      - f_equal. lia.
      - exact Hc.
      - rewrite wrap32_small by lia. lia.
      - lia.
      - lia.
      - nia.
      - nia.
      - replace (size - (q + 1 - 1) * ZONE_MAX_SIZE -
                 (zone_metadata_size + sizeof_heap_header))
          with (r - zone_metadata_size) by lia.
        apply Z.div_lt_upper_bound; nia. }
    rewrite E. split; [|lia]. intros _. split.
    + apply Z.div_le_lower_bound; lia.
    + assert ((r - zone_metadata_size) / CHUNKSIZE < MAX_CHUNK); [|lia].
      apply Z.div_lt_upper_bound; lia.
  - rewrite Z.add_0_r in *.
    assert (Hrc : 0 <= r / CHUNKSIZE <= ZONE_MIN_SIZE / CHUNKSIZE).
    { split; [apply Z.div_pos; lia|apply Z.div_le_mono; lia]. }
    assert (E : zone_calc_size_idx (q - 1) q size = MAX_CHUNK + r / CHUNKSIZE).
    { rewrite zone_calc_size_idx_last.
      - replace (size - (q - 1) * ZONE_MAX_SIZE -
                 (zone_metadata_size + sizeof_heap_header))
          with (MAX_CHUNK * CHUNKSIZE + r) by lia.
        apply Z.div_add_l. lia.
      - exact Hc.
      - rewrite wrap32_small by lia. lia.
      - lia.
      - lia.
      - nia.
      - nia.
      - replace (size - (q - 1) * ZONE_MAX_SIZE -
                 (zone_metadata_size + sizeof_heap_header))
          with (MAX_CHUNK * CHUNKSIZE + r) by lia.
        rewrite Z.div_add_l by lia. lia. }
    rewrite E. split.
    + intros [Hsmall|?]; [|lia]. rewrite Z.div_small by lia. lia.
    + intros [Hbig _]. split; [reflexivity|].
      assert (1 <= r / CHUNKSIZE) by (apply Z.div_le_lower_bound; lia). lia.
Qed.

(** X27: Every zone that [heap_max_zone] counts gets from
    [zone_calc_size_idx] at least one chunk, and its chunks end within the
    heap size.  A zone before the last one has [MAX_CHUNK] chunks, and ends
    where the next zone starts. *)
Theorem zones_within_heap (size n i : Z) :
  zone_layout ->
  MAX_CHUNK + ZONE_MIN_SIZE / CHUNKSIZE < 2 ^ 32 ->
  sizeof_heap_header <= size < 2 ^ 64 ->
  (size - sizeof_heap_header) / ZONE_MAX_SIZE + 1 < 2 ^ 32 ->
  heap_max_zone size = Some n ->
  0 <= i < n ->
  let k := zone_calc_size_idx i n size in
  1 <= k /\
  zone_end_offset i k <= size /\
  (i < n - 1 ->
   k = MAX_CHUNK /\
   zone_end_offset i k = sizeof_heap_header + ZONE_MAX_SIZE * (i + 1)).
Proof.
  intros (Hhh & Hmeta & Hc & Hmc & Hzmax & Hzmin) Hidx Hsize Hfit Hn Hi k.
  assert (Hmin : 0 < ZONE_MIN_SIZE) by lia.
  assert (Hmax : ZONE_MIN_SIZE <= ZONE_MAX_SIZE) by lia.
  assert (Hh : sizeof_heap_header <= size) by lia.
  rewrite zone_count_spec_value in Hn by lia. injection Hn as <-.
  destruct (zone_count_spec_bounds size Hmin Hmax Hh) as (Hn0 & _ & Hlo & Hhi).
  cbv zeta in Hlo, Hhi.
  set (n := zone_count_spec size) in *.
  assert (Hn32 : n < 2 ^ 32).
  { unfold n, zone_count_spec.
    destruct (ZONE_MIN_SIZE <=? _); lia. }
  specialize (Hlo ltac:(lia)).
  assert (Hcmc : 0 < CHUNKSIZE * MAX_CHUNK) by nia.
  destruct (Z_lt_ge_dec i (n - 1)) as [Hint|Hlast].
  - assert (Ek : k = MAX_CHUNK).
    { unfold k, zone_calc_size_idx. rewrite wrap32_small by lia.
      destruct (Z.ltb_spec i (n - 1)); [reflexivity|lia]. }
    rewrite Ek. unfold zone_end_offset.
    split; [lia|]. split; [nia|]. intros _. split; [reflexivity|lia].
  - assert (Ei : i = n - 1) by lia.
    assert (Hne : CHUNKSIZE <> 0) by lia.
    set (a := size - i * ZONE_MAX_SIZE - (zone_metadata_size + sizeof_heap_header)).
    assert (Ha : CHUNKSIZE <= a < CHUNKSIZE * MAX_CHUNK + ZONE_MIN_SIZE)
      by (unfold a; nia).
    assert (Ek : k = a / CHUNKSIZE).
    { unfold k. apply zone_calc_size_idx_last.
      - exact Hc.
      - rewrite wrap32_small by lia. lia.
      - lia.
      - lia.
      - nia.
      - nia.
      - fold a.
        assert (a / CHUNKSIZE <= (CHUNKSIZE * MAX_CHUNK + ZONE_MIN_SIZE) / CHUNKSIZE)
          by (apply Z.div_le_mono; lia).
        replace (CHUNKSIZE * MAX_CHUNK + ZONE_MIN_SIZE)
          with (MAX_CHUNK * CHUNKSIZE + ZONE_MIN_SIZE) in * by lia.
        rewrite Z.div_add_l in * by lia. lia. }
    rewrite Ek.
    pose proof (Z.div_mod a CHUNKSIZE Hne) as Hdm.
    pose proof (Z.mod_pos_bound a CHUNKSIZE Hc) as Hr.
    assert (1 <= a / CHUNKSIZE) by (apply Z.div_le_lower_bound; lia).
    split; [lia|]. split; [|lia].
    unfold zone_end_offset. unfold a in *. nia.
Qed.

End ZoneSizes.

Section ZoneEnd.
Context `{HeapLayout} `{Externals}.

Lemma heap_zone_init_layout zid first h h1 :
  heap_zone_init zid first h = Some (tt, h1) ->
  layout h1 = layout h /\ nzones (rt h1) = nzones (rt h).
Proof.
  intros E. unfold heap_zone_init in E. unfold_calls. minv. split; reflexivity.
Qed.

(** X13: Once [heap_zone_init] has written the header of the last zone, whose
    size is what [zone_calc_size_idx] gives for the heap size [*sizep],
    [heap_end] is an address of the region of [*sizep] bytes at [layout], or
    the address next to its last byte.  Writing the header through the
    persistence operations is assumed to leave it as written. *)
Theorem heap_end_within_region (first : Z) (h h1 : palloc_heap) :
  let zid := nzones (rt h) - 1 in
  heap_zone_init zid first h = Some (tt, h1) ->
  volatile_only (WalPersistZoneHeader zid) ->
  0 < CHUNKSIZE ->
  0 <= ZONE_MAX_SIZE ->
  0 < nzones (rt h) < 2 ^ 32 ->
  zid * ZONE_MAX_SIZE <= sizep h ->
  0 <= sizeof_heap_header ->
  0 <= zone_metadata_size ->
  zone_metadata_size + sizeof_heap_header <= sizep h - zid * ZONE_MAX_SIZE ->
  (sizep h - zid * ZONE_MAX_SIZE - (zone_metadata_size + sizeof_heap_header))
    / CHUNKSIZE < 2 ^ 32 ->
  0 <= layout h ->
  layout h + sizep h < 2 ^ 64 ->
  heap_end h1 =
    layout h + zone_end_offset zid (zone_calc_size_idx zid (nzones (rt h)) (sizep h)) /\
  layout h <= heap_end h1 <= layout h + sizep h.
Proof.
  intros zid E V Hc Hmax Hnz Hsz Hhh Hmeta Hov Hfit Hl Hend.
  destruct (heap_zone_init_layout _ _ _ _ E) as [El En].
  pose proof (heap_zone_init_header _ _ _ _ E V) as Eh.
  destruct (zone_calc_size_idx_fits zid (nzones (rt h)) (sizep h)) as (Hk & Hlo & _);
    try assumption; try lia.
  { unfold zid. rewrite wrap32_small by lia. lia. }
  set (k := zone_calc_size_idx zid (nzones (rt h)) (sizep h)) in *.
  assert (Heq : heap_end h1 = layout h + zone_end_offset zid k).
  { unfold heap_end. rewrite En, El. fold zid.
    rewrite wrap32_small by (unfold zid; lia).
    rewrite Eh. simpl. fold k.
    unfold chunks_ptr, ZID_TO_ZONE_ptr, zone_end_offset, zone_metadata_size in *.
    assert (0 <= ZONE_MAX_SIZE * zid) by (unfold zid; nia).
    assert (0 <= CHUNKSIZE * k) by nia.
    rewrite (wrap64_small (layout h + _ + _)) by lia.
    rewrite wrap64_small by lia. lia. }
  split; [exact Heq|]. rewrite Heq.
  unfold zone_end_offset, zone_metadata_size in *.
  assert (0 <= ZONE_MAX_SIZE * zid) by (unfold zid; nia).
  assert (0 <= CHUNKSIZE * k) by nia.
  lia.
Qed.

End ZoneEnd.

Section ZoneSizesSamples.
#[local] Existing Instance sample_layout.
#[local] Existing Instance sample_externals.

Lemma sample_zone_layout : zone_layout.
Proof. unfold zone_layout, zone_metadata_size. simpl. lia. Qed.

(** The heap of [three_zone_size] bytes has three zones. *)
Lemma heap_max_zone_bounds_witness :
  exists n,
    heap_max_zone three_zone_size = Some n /\
    0 <= n /\
    (n = 0 <-> three_zone_size - sizeof_heap_header < ZONE_MIN_SIZE) /\
    (0 < n ->
     sizeof_heap_header + (n - 1) * ZONE_MAX_SIZE + ZONE_MIN_SIZE <= three_zone_size) /\
    three_zone_size < sizeof_heap_header + n * ZONE_MAX_SIZE + ZONE_MIN_SIZE.
Proof.
  apply (heap_max_zone_bounds three_zone_size); vm_compute; try reflexivity;
    try discriminate; split; discriminate || reflexivity.
Defined.

(** A heap of [HEAP_MIN_SIZE] bytes has no more zones than one of
    [three_zone_size] bytes. *)
Lemma heap_max_zone_monotone_witness :
  exists n1 n2,
    heap_max_zone HEAP_MIN_SIZE = Some n1 /\
    heap_max_zone three_zone_size = Some n2 /\
    n1 <= n2.
Proof.
  apply (heap_max_zone_monotone HEAP_MIN_SIZE three_zone_size); vm_compute;
    try reflexivity; try discriminate; split; discriminate || reflexivity.
Defined.

(** For a heap size of 0 the zones counted are more than a thousand
    million. *)
Lemma heap_max_zone_below_header_witness :
  heap_max_zone 0 = Some 1073840138.
Proof.
  rewrite (heap_max_zone_below_header 0); [vm_compute; reflexivity|..];
    vm_compute; try reflexivity; try discriminate; split; discriminate || reflexivity.
Defined.

(** The only zone of a heap of one zone, with 3408896 bytes, gets 11
    chunks. *)
Lemma zone_calc_size_idx_fits_witness :
  zone_calc_size_idx 0 1 3408896 = 11 /\
  0 <= zone_calc_size_idx 0 1 3408896 /\
  zone_end_offset 0 (zone_calc_size_idx 0 1 3408896) <= 3408896 <
    zone_end_offset 0 (zone_calc_size_idx 0 1 3408896 + 1).
Proof.
  split; [vm_compute; reflexivity|].
  apply (zone_calc_size_idx_fits 0 1 3408896); vm_compute;
    try reflexivity; try discriminate; try (split; discriminate || reflexivity).
Defined.

Lemma sample_max_zone_leftover :
  heap_max_zone (1024 + 17178296320 + 300000) = Some 1.
Proof.
  unfold heap_max_zone.
  change (wrap64 (1024 + 17178296320 + 300000 - sizeof_heap_header))
    with (17178296320 + 300000).
  rewrite (@heap_max_zone_loop_count sample_layout); simpl; try lia; reflexivity.
Qed.

(** A heap of [three_zone_size] bytes ends with a zone of the minimal size,
    of one chunk.  In a heap of one full zone followed by 300000 bytes, more
    than a chunk and less than a zone of the minimal size, the zone gets
    [MAX_CHUNK + 1] chunks. *)
Lemma zone_calc_size_idx_last_zone_witness :
  zone_calc_size_idx 2 3 three_zone_size = 1 /\
  1 <= zone_calc_size_idx 2 3 three_zone_size <= MAX_CHUNK /\
  zone_calc_size_idx 0 1 (1024 + 17178296320 + 300000) = MAX_CHUNK + 1 /\
  MAX_CHUNK < zone_calc_size_idx 0 1 (1024 + 17178296320 + 300000).
Proof.
  split; [vm_compute; reflexivity|]. split.
  - refine (proj1 (zone_calc_size_idx_last_zone three_zone_size 3
                     sample_zone_layout _ _ _ sample_max_zone_three _) _).
    + vm_compute. reflexivity.
    + vm_compute. split; [discriminate|reflexivity].
    + vm_compute. reflexivity.
    + reflexivity.
    + right. vm_compute. discriminate.
  - refine (proj2 (zone_calc_size_idx_last_zone (1024 + 17178296320 + 300000) 1
                     sample_zone_layout _ _ _ sample_max_zone_leftover _) _).
    + vm_compute. reflexivity.
    + vm_compute. split; [discriminate|reflexivity].
    + vm_compute. reflexivity.
    + reflexivity.
    + vm_compute. split; [discriminate|reflexivity].
Defined.

(** In [blank_heap], of one zone and 3408896 bytes at the address 4096,
    [heap_end] after [heap_zone_init] is the address next to the 11 chunks of
    the zone. *)
Lemma heap_end_within_region_witness :
  exists h1,
    heap_zone_init 0 0 blank_heap = Some (tt, h1) /\
    heap_end h1 = 4096 + zone_end_offset 0 11 /\
    4096 <= heap_end h1 <= 4096 + 3408896.
Proof.
  destruct (run_passes_Some (heap_zone_init 0 0 blank_heap) (fun _ _ => true))
    as ([] & h1 & E & _); [vm_compute; reflexivity|].
  exists h1. split; [exact E|].
  apply (heap_end_within_region 0 blank_heap h1 E).
  - exact (sample_persist_volatile 0).
  - reflexivity.
  - discriminate.
  - vm_compute. split; reflexivity.
  - vm_compute. discriminate.
  - discriminate.
  - discriminate.
  - vm_compute. discriminate.
  - vm_compute. reflexivity.
  - discriminate.
  - reflexivity.
Defined.

(** In a heap of [three_zone_size] bytes the zone 0 has [MAX_CHUNK] chunks
    and ends where the zone 1 starts, and the zone 2 has one chunk, which ends
    with the heap. *)
Lemma zones_within_heap_witness :
  (zone_calc_size_idx 0 3 three_zone_size = MAX_CHUNK /\
   zone_end_offset 0 MAX_CHUNK = sizeof_heap_header + ZONE_MAX_SIZE * 1) /\
  1 <= zone_calc_size_idx 2 3 three_zone_size /\
  zone_end_offset 2 (zone_calc_size_idx 2 3 three_zone_size) <= three_zone_size.
Proof.
  assert (Hidx : MAX_CHUNK + ZONE_MIN_SIZE / CHUNKSIZE < 2 ^ 32)
    by (vm_compute; reflexivity).
  assert (Hsize : sizeof_heap_header <= three_zone_size < 2 ^ 64)
    by (vm_compute; split; [discriminate|reflexivity]).
  assert (Hfit : (three_zone_size - sizeof_heap_header) / ZONE_MAX_SIZE + 1 < 2 ^ 32)
    by (vm_compute; reflexivity).
  split.
  - destruct (zones_within_heap three_zone_size 3 0 sample_zone_layout Hidx Hsize Hfit
                sample_max_zone_three ltac:(lia)) as (_ & _ & Hint).
    destruct (Hint ltac:(lia)) as [Ek Ee]. split; [exact Ek|].
    rewrite Ek in Ee. exact Ee.
  - destruct (zones_within_heap three_zone_size 3 2 sample_zone_layout Hidx Hsize Hfit
                sample_max_zone_three ltac:(lia)) as (H1 & Hend & _).
    split; [exact H1|exact Hend].
Defined.

End ZoneSizesSamples.

(** ** The runtime state *)

Lemma unit_tt (u : unit) : u = tt.
Proof. destruct u. reflexivity. Qed.

(** The reply of an operation that returns nothing is [tt]. *)
Ltac unit_replies :=
  repeat match goal with
  | |- context [Call ?op ?r] =>
      lazymatch r with
      | tt => fail
      | _ =>
          let T := eval hnf in (reply op) in
          lazymatch T with unit => rewrite (unit_tt r) end
      end
  end.

Section Runtime.
Context `{HeapLayout} `{Externals}.

(** X14: Once [heap_get_recycler] has given the recycler of a class, every later
    call for that class gives the same recycler, whatever [nallocs] it is
    called with, without calling [recycler_new] and leaving the heap as it
    is.  The first call has called [recycler_new] once at most, and has left
    the slots of the other classes as they were. *)
Theorem heap_get_recycler_cached (id n1 n2 : Z) (h h1 : palloc_heap) (r : recycler) :
  heap_get_recycler id n1 h = Some (Some r, h1) ->
  heap_get_recycler id n2 h1 = Some (Some r, h1) /\
  (length (new_calls h h1) <= 1)%nat /\
  forall id', id' <> id ->
    recyclers (default_zset (rt h1)) !! id' = recyclers (default_zset (rt h)) !! id'.
Proof.
  intros E. destruct (heap_get_recycler_Some _ _ _ _ _ E) as [Hslot Hcase].
  split.
  { unfold heap_get_recycler. apply bind_Some. exists h1, h1.
    split; [reflexivity|]. rewrite Hslot. reflexivity. }
  destruct (recyclers (default_zset (rt h)) !! id) as [r0|] eqn:Hr.
  - subst h1. split; [|reflexivity].
    unfold new_calls. rewrite drop_all. simpl. lia.
  - destruct Hcase as [-> _]. split.
    + erewrite new_calls_app by (simpl; reflexivity). simpl. lia.
    + intros id' Hne. simpl. apply lookup_insert_ne. congruence.
Qed.

(** *** The zones consumed *)

Lemma zones_advance_refl h : zones_advance h h.
Proof. split; [reflexivity|]. intros; lia. Qed.

Lemma zones_advance_trans h1 h2 h3 :
  zones_advance h1 h2 -> zones_advance h2 h3 -> zones_advance h1 h3.
Proof.
  intros [N1 A1] [N2 A2]. split; [congruence|].
  intros Hr Hn. specialize (A1 Hr Hn). rewrite N1 in A2.
  specialize (A2 ltac:(lia) Hn). lia.
Qed.

Lemma same_zones_advance h h' : same_zones h h' -> zones_advance h h'.
Proof. intros (N & Z & _). split; [exact N|]. intros; lia. Qed.

Lemma heap_populate_bucket_step fuel b h r h' :
  heap_populate_bucket fuel b h = Some (r, h') ->
  (r = ENOMEM /\ h' = h /\ zones_exhausted (rt h) = nzones (rt h)) \/
  (r = 0 /\ zones_exhausted (rt h) <> nzones (rt h) /\
   nzones (rt h') = nzones (rt h) /\
   zones_exhausted (rt h') = wrap32 (zones_exhausted (rt h) + 1)).
Proof.
  intros E. pose proof (heap_populate_bucket_outcome fuel b h) as O.
  unfold populate_outcome in O.
  destruct (Z.eqb_spec (zones_exhausted (rt h)) (nzones (rt h))) as [Heq|Hne].
  - rewrite E in O. injection O as -> ->. auto.
  - destruct O as (h1 & _ & O).
    destruct (heap_reclaim_zone_garbage fuel b _ h1) as [[[] h'']|].
    + destruct O as (O & Hn & He). rewrite E in O. injection O as -> ->. auto.
    + rewrite E in O. discriminate.
Qed.

Lemma heap_populate_bucket_advance fuel b :
  keeps zones_advance (heap_populate_bucket fuel b).
Proof.
  intros h r h' E.
  destruct (heap_populate_bucket_step _ _ _ _ _ E)
    as [(_ & -> & _)|(_ & Hne & Hn & He)].
  - apply zones_advance_refl.
  - split; [exact Hn|]. intros Hr Hlt. rewrite He, wrap32_small by lia. lia.
Qed.

Lemma heap_reclaim_garbage_same_zones b : keeps same_zones (heap_reclaim_garbage b).
Proof. frame_inst keeps_heap_reclaim_garbage. Qed.

Lemma heap_ensure_huge_bucket_filled_cases
    (fuel : nat) (b : bucket) (h : palloc_heap) (r : Z) (h' : palloc_heap) :
  heap_ensure_huge_bucket_filled fuel b h = Some (r, h') ->
  nzones (rt h') = nzones (rt h) /\
  ((r = ENOMEM /\
    zones_exhausted (rt h) = nzones (rt h) /\
    zones_exhausted (rt h') = nzones (rt h')) \/
   (r = 0 /\
    (zones_exhausted (rt h') = zones_exhausted (rt h) \/
     zones_exhausted (rt h') = wrap32 (zones_exhausted (rt h) + 1)))).
Proof.
  intros E.
  destruct (heap_ensure_huge_bucket_filled_outcome _ _ _ _ _ E)
    as (g & h1 & Eg & _ & O).
  destruct (heap_reclaim_garbage_same_zones b _ _ _ Eg) as (N1 & Z1 & _).
  destruct (Z.eqb_spec g 0) as [->|Hg].
  { destruct O as [-> ->]. split; [exact N1|]. right. auto. }
  destruct O as (p1 & h2 & E1 & O).
  destruct (heap_populate_bucket_step _ _ _ _ _ E1)
    as [(-> & -> & Hex)|(-> & Hne & Hn & He)]; simpl in O.
  - destruct O as (p2 & E2 & ->).
    destruct (heap_populate_bucket_step _ _ _ _ _ E2)
      as [(-> & -> & _)|(_ & Hne & _)]; [|contradiction].
    split; [exact N1|]. left. split; [reflexivity|]. split; congruence.
  - destruct O as [-> ->]. split; [congruence|]. right.
    split; [reflexivity|]. right. congruence.
Qed.

(** X15: [heap_ensure_huge_bucket_filled] consumes one zone at most.  It returns
    ENOMEM only from a heap whose zones are all consumed already, which it
    leaves so: when the first call of [heap_populate_bucket] fails, the
    second one fails as well. *)
Theorem heap_ensure_huge_bucket_filled_one_zone
    (fuel : nat) (b : bucket) (h : palloc_heap) (r : Z) (h' : palloc_heap) :
  heap_ensure_huge_bucket_filled fuel b h = Some (r, h') ->
  nzones (rt h') = nzones (rt h) /\
  ((r = ENOMEM /\
    zones_exhausted (rt h) = nzones (rt h) /\
    zones_exhausted (rt h') = nzones (rt h')) \/
   (r = 0 /\
    (zones_exhausted (rt h') = zones_exhausted (rt h) \/
     zones_exhausted (rt h') = wrap32 (zones_exhausted (rt h) + 1)))).
Proof. apply heap_ensure_huge_bucket_filled_cases. Qed.

Lemma heap_ensure_huge_bucket_filled_advance fuel b :
  keeps zones_advance (heap_ensure_huge_bucket_filled fuel b).
Proof.
  intros h r h' E.
  destruct (heap_ensure_huge_bucket_filled_outcome _ _ _ _ _ E)
    as (g & h1 & Eg & _ & O).
  pose proof (same_zones_advance _ _ (heap_reclaim_garbage_same_zones b _ _ _ Eg)) as A1.
  destruct (g =? 0).
  { destruct O as [_ ->]. exact A1. }
  destruct O as (p1 & h2 & E1 & O).
  pose proof (heap_populate_bucket_advance _ _ _ _ _ E1) as A2.
  destruct (p1 =? 0).
  { destruct O as [_ ->]. eapply zones_advance_trans; eassumption. }
  destruct O as (p2 & E2 & _).
  pose proof (heap_populate_bucket_advance _ _ _ _ _ E2) as A3.
  eapply zones_advance_trans; [|exact A3].
  eapply zones_advance_trans; eassumption.
Qed.

Lemma heap_detach_same_zones b :
  keeps same_zones (heap_detach_and_try_discard_run b).
Proof. frame_inst keeps_heap_detach_and_try_discard_run. Qed.

Lemma heap_reuse_same_zones b units force :
  keeps same_zones (heap_reuse_from_recycler b units force).
Proof. frame_inst keeps_heap_reuse_from_recycler. Qed.

Lemma heap_run_create_same_zones b m : keeps same_zones (heap_run_create b m).
Proof. frame_inst keeps_heap_run_create. Qed.

Lemma heap_split_block_same_zones b m units :
  keeps same_zones (heap_split_block b m units).
Proof. frame_inst keeps_heap_split_block. Qed.

Lemma heap_ensure_run_bucket_filled_advance fuel b units :
  (forall defb m, keeps zones_advance (heap_get_bestfit_block fuel defb m)) ->
  keeps zones_advance (heap_ensure_run_bucket_filled fuel b units).
Proof.
  intros IH h ret h' E.
  destruct (heap_ensure_run_bucket_filled_outcome _ _ _ _ _ _ E) as (d & h1 & Ed & O).
  pose proof (same_zones_advance _ _ (heap_detach_same_zones _ _ _ _ Ed)) as A1.
  destruct (d =? 0); [|destruct O as [_ ->]; exact A1].
  destruct O as (r1 & h2 & E1 & O).
  pose proof (same_zones_advance _ _ (heap_reuse_same_zones _ _ _ _ _ _ E1)) as A2.
  pose proof (zones_advance_trans _ _ _ A1 A2) as A12.
  destruct (r1 =? 0); [destruct O as [_ ->]; exact A12|].
  destruct O as (p & h3 & r2 & h4 & Ep & E2 & O).
  pose proof (heap_populate_bucket_advance _ _ _ _ _ Ep) as A3.
  pose proof (same_zones_advance _ _ (heap_reuse_same_zones _ _ _ _ _ _ E2)) as A4.
  pose proof (zones_advance_trans _ _ _ (zones_advance_trans _ _ _ A12 A3) A4) as A14.
  destruct (r2 =? 0); [destruct O as [_ ->]; exact A14|].
  destruct O as (g & m & h5 & Eb & O).
  pose proof (IH _ _ _ _ _ Eb) as A5.
  pose proof (zones_advance_trans _ _ _ A14 A5) as A15.
  destruct (g =? 0).
  - destruct O as (m' & Ec & _).
    eapply zones_advance_trans; [exact A15|].
    apply same_zones_advance. eapply heap_run_create_same_zones. exact Ec.
  - destruct O as (r3 & E3 & _).
    eapply zones_advance_trans; [exact A15|].
    apply same_zones_advance. eapply heap_reuse_same_zones. exact E3.
Qed.

Lemma heap_get_bestfit_block_loop_advance fuel :
  forall b units m, keeps zones_advance (heap_get_bestfit_block_loop fuel b units m).
Proof.
  induction fuel as [|fuel IH]; intros b units m h [r m'] h' E; simpl in E.
  { minv. }
  unfold_calls. minv.
  change (match ac_type (bucket_alloc_class b) with
          | CLASS_HUGE => heap_ensure_huge_bucket_filled fuel b
          | CLASS_RUN => _
          end) with (refill fuel b units) in E.
  assert (A0 : zones_advance h (after_call (BucketAllocBlock b m) h))
    by (apply same_zones_advance, (frame_call (R:=same_zones)); exact I).
  destruct (result_of (BucketAllocBlock b m) h) as [a m1]. simpl in E.
  destruct (a =? 0).
  - minv. eapply zones_advance_trans; [exact A0|].
    match goal with E : _ = Some (?m2, ?h2) |- _ =>
      assert (A1 : zones_advance (after_call (BucketAllocBlock b m) h) h2)
    end.
    { destruct (units =? size_idx m1); minv; [apply zones_advance_refl|].
      apply same_zones_advance. eapply heap_split_block_same_zones. eassumption. }
    eapply zones_advance_trans; [exact A1|].
    apply same_zones_advance, (frame_call (R:=same_zones)). exact I.
  - minv.
    match goal with E : refill _ _ _ _ = Some (?x, ?h2) |- _ =>
      assert (A1 : zones_advance (after_call (BucketAllocBlock b m) h) h2)
    end.
    { unfold refill in *. destruct (ac_type _).
      - eapply heap_ensure_huge_bucket_filled_advance. eassumption.
      - eapply heap_ensure_run_bucket_filled_advance; [|eassumption].
        intros defb dm. unfold heap_get_bestfit_block. apply IH. }
    pose proof (zones_advance_trans _ _ _ A0 A1) as A01.
    destruct (_ =? 0); minv; [|exact A01].
    eapply zones_advance_trans; [exact A01|]. eapply IH. eassumption.
Qed.

(** X16: No call of [heap_get_bestfit_block], whatever refills it goes through,
    changes the number of zones, lowers the count of the zones consumed or
    takes it above the number of zones. *)
Theorem heap_get_bestfit_block_zones
    (fuel : nat) (b : bucket) (m : memory_block) (h : palloc_heap)
    (r : Z) (m' : memory_block) (h' : palloc_heap) :
  heap_get_bestfit_block fuel b m h = Some (r, m', h') ->
  0 <= zones_exhausted (rt h) <= nzones (rt h) ->
  nzones (rt h) < 2 ^ 32 ->
  nzones (rt h') = nzones (rt h) /\
  zones_exhausted (rt h) <= zones_exhausted (rt h') <= nzones (rt h').
Proof.
  intros E Hr Hn. unfold heap_get_bestfit_block in E.
  destruct (heap_get_bestfit_block_loop_advance _ _ _ _ _ _ _ E) as [N A].
  split; [exact N|]. rewrite N. apply A; assumption.
Qed.

Lemma heap_get_bestfit_block_loop_enomem fuel b units :
  ac_type (bucket_alloc_class b) = CLASS_HUGE ->
  forall m h m' h',
    heap_get_bestfit_block_loop fuel b units m h = Some (ENOMEM, m', h') ->
    zones_exhausted (rt h') = nzones (rt h').
Proof.
  intros Hhuge. induction fuel as [|fuel IH]; intros m h m' h' E; simpl in E.
  { minv. }
  unfold_calls. minv. rewrite Hhuge in E.
  destruct (result_of (BucketAllocBlock b m) h) as [a m1]. simpl in E.
  destruct (a =? 0); minv; [discriminate|].
  match goal with E : heap_ensure_huge_bucket_filled _ _ _ = Some (?x, ?h2) |- _ =>
    destruct (heap_ensure_huge_bucket_filled_cases _ _ _ _ _ E)
      as (_ & [(-> & _ & Hex)|(-> & _)])
  end; simpl in E.
  - minv. exact Hex.
  - eapply IH. exact E.
Qed.

(** X17: A request to a bucket of the huge class fails with ENOMEM only once all
    the zones of the heap are consumed. *)
Theorem heap_get_bestfit_block_enomem_exhausted
    (fuel : nat) (b : bucket) (m : memory_block) (h : palloc_heap)
    (m' : memory_block) (h' : palloc_heap) :
  ac_type (bucket_alloc_class b) = CLASS_HUGE ->
  heap_get_bestfit_block fuel b m h = Some (ENOMEM, m', h') ->
  zones_exhausted (rt h') = nzones (rt h').
Proof.
  intros Hhuge E. unfold heap_get_bestfit_block in E.
  eapply heap_get_bestfit_block_loop_enomem; eassumption.
Qed.

(** *** The run lock *)

Lemma heap_coalesce_huge_not_mutex b m :
  keeps (log_only not_mutex) (heap_coalesce_huge b m).
Proof. frame_inst keeps_heap_coalesce_huge. Qed.

Lemma heap_free_chunk_reuse_last b m h r nm h' :
  heap_free_chunk_reuse b m h = Some (r, nm, h') ->
  exists evs,
    calls h' = calls h ++ evs ++ [Call (BucketInsertBlock b nm) r] /\
    Forall not_mutex evs.
Proof.
  intros E. unfold heap_free_chunk_reuse in E. minv.
  match goal with E : heap_coalesce_huge _ _ _ = Some _ |- _ =>
    assert (L : log_only not_mutex h x0)
      by (revert E; apply heap_coalesce_huge_not_mutex)
  end.
  destruct L as (e1 & E1 & F1).
  unfold_calls.
  destruct (_ =? _); minv; simpl; rewrite E1.
  - exists e1. rewrite <- app_assoc. auto.
  - exists (e1 ++ [Call (PrepHdr (m_ops m) x MEMBLOCK_FREE) tt]).
    rewrite <- !app_assoc. split; [unit_replies; reflexivity|].
    apply Forall_app. split; [exact F1|]. repeat constructor.
Qed.

Lemma heap_run_into_free_chunk_calls
    (b : bucket) (m : memory_block) (h : palloc_heap)
    (m' : memory_block) (h' : palloc_heap) :
  heap_run_into_free_chunk b m h = Some (m', h') ->
  let m0 := set_size_idx (hdr_size_idx (heap_get_chunk_hdr (mem h) m))
              (set_block_off 0 m) in
  exists l mid r,
    new_calls h h' =
      [Call (StatsSub heap_run_active (wrap64 (size_idx m0 * CHUNKSIZE))) tt;
       Call (GetLock (m_ops m0) m0) l;
       Call (MutexLock l) tt;
       Call (MemblockHugeInit (chunk_id m0) (zone_id m0) (size_idx m0))
         (result_of (MemblockHugeInit (chunk_id m0) (zone_id m0) (size_idx m0))
            (after_call (MutexLock l)
               (after_call (GetLock (m_ops m0) m0)
                  (after_call
                     (StatsSub heap_run_active (wrap64 (size_idx m0 * CHUNKSIZE)))
                     h))))] ++
      mid ++
      [Call (BucketInsertBlock b m') r; Call (MutexUnlock l) tt] /\
    Forall not_mutex mid.
Proof.
  intros E m0. unfold heap_run_into_free_chunk in E. unfold_calls. minv.
  match goal with E : heap_free_chunk_reuse _ _ _ = Some _ |- _ =>
    destruct (heap_free_chunk_reuse_last _ _ _ _ _ _ E) as (evs & Ec & F)
  end.
  eexists _, evs, _. split; [|exact F].
  apply new_calls_app. simpl. rewrite Ec. simpl.
  rewrite <- !app_assoc. simpl. unit_replies. reflexivity.
Qed.

(** X18: [heap_run_into_free_chunk] takes the lock that [get_lock] gives for the
    run, once, and releases that lock at its end.  In between it initializes
    the chunk as a huge block and inserts the resulting free chunk into the
    bucket, which is the last thing done under the lock. *)
Theorem heap_run_into_free_chunk_locks
    (b : bucket) (m : memory_block) (h : palloc_heap)
    (m' : memory_block) (h' : palloc_heap) :
  heap_run_into_free_chunk b m h = Some (m', h') ->
  let m0 := set_size_idx (hdr_size_idx (heap_get_chunk_hdr (mem h) m))
              (set_block_off 0 m) in
  exists l mid r,
    new_calls h h' =
      [Call (StatsSub heap_run_active (wrap64 (size_idx m0 * CHUNKSIZE))) tt;
       Call (GetLock (m_ops m0) m0) l;
       Call (MutexLock l) tt;
       Call (MemblockHugeInit (chunk_id m0) (zone_id m0) (size_idx m0))
         (result_of (MemblockHugeInit (chunk_id m0) (zone_id m0) (size_idx m0))
            (after_call (MutexLock l)
               (after_call (GetLock (m_ops m0) m0)
                  (after_call
                     (StatsSub heap_run_active (wrap64 (size_idx m0 * CHUNKSIZE)))
                     h))))] ++
      mid ++
      [Call (BucketInsertBlock b m') r; Call (MutexUnlock l) tt] /\
    Forall not_mutex mid.
Proof. apply heap_run_into_free_chunk_calls. Qed.

End Runtime.

Section RuntimeSamples.
#[local] Existing Instance sample_layout.
#[local] Existing Instance sample_externals.

(** In [run_heap] no recycler is there: the first call creates the one of
    class 1, and a second call, with another [nallocs], gives it again. *)
Lemma heap_get_recycler_cached_witness :
  exists r h1,
    heap_get_recycler 1 8 run_heap = Some (Some r, h1) /\
    heap_get_recycler 1 16 h1 = Some (Some r, h1) /\
    (length (new_calls run_heap h1) <= 1)%nat /\
    forall id', id' <> 1 ->
      recyclers (default_zset (rt h1)) !! id' =
      recyclers (default_zset (rt run_heap)) !! id'.
Proof.
  destruct (run_passes_Some (heap_get_recycler 1 8 run_heap)
              (fun o _ => match o with Some _ => true | None => false end))
    as ([r|] & h1 & E & Hr); [vm_compute; reflexivity| |discriminate].
  exists r, h1. split; [exact E|].
  exact (heap_get_recycler_cached 1 8 16 run_heap h1 r E).
Defined.

(** In [fresh_ten_heap] the refill consumes the only zone and returns 0; in
    [ten_heap], where that zone is consumed, it returns ENOMEM. *)
Lemma heap_ensure_huge_bucket_filled_one_zone_witness :
  (exists h',
     heap_ensure_huge_bucket_filled 10 sample_default_bucket fresh_ten_heap =
       Some (0, h') /\
     zones_exhausted (rt h') = 1) /\
  (exists h',
     heap_ensure_huge_bucket_filled 10 sample_default_bucket ten_heap =
       Some (ENOMEM, h') /\
     zones_exhausted (rt h') = nzones (rt h')).
Proof.
  split.
  - destruct (run_passes_Some
                (heap_ensure_huge_bucket_filled 10 sample_default_bucket fresh_ten_heap)
                (fun r h' => (r =? 0) && (zones_exhausted (rt h') =? 1)))
      as (r & h' & E & Hr); [vm_compute; reflexivity|].
    apply andb_prop in Hr. destruct Hr as [Hr Hz].
    apply Z.eqb_eq in Hr, Hz. subst r.
    exists h'. split; [exact E|].
    destruct (heap_ensure_huge_bucket_filled_one_zone 10 sample_default_bucket
                fresh_ten_heap 0 h' E) as (_ & [(Hc & _)|(_ & [Hs|Hs])]).
    + discriminate Hc.
    + exact Hz.
    + exact Hs.
  - destruct (run_passes_Some
                (heap_ensure_huge_bucket_filled 10 sample_default_bucket ten_heap)
                (fun r _ => r =? ENOMEM))
      as (r & h' & E & Hr); [vm_compute; reflexivity|].
    apply Z.eqb_eq in Hr. subst r.
    exists h'. split; [exact E|].
    destruct (heap_ensure_huge_bucket_filled_one_zone 10 sample_default_bucket
                ten_heap ENOMEM h' E) as (_ & [(_ & _ & Hx)|(Hc & _)]).
    + exact Hx.
    + discriminate Hc.
Defined.

(** In [fresh_ten_heap] a request of one chunk to the default bucket goes
    through a refill that consumes the only zone. *)
Lemma heap_get_bestfit_block_zones_witness :
  exists m' h',
    heap_get_bestfit_block 10 sample_default_bucket
      (set_size_idx 1 MEMORY_BLOCK_NONE) fresh_ten_heap = Some (0, m', h') /\
    nzones (rt h') = nzones (rt fresh_ten_heap) /\
    zones_exhausted (rt fresh_ten_heap) <= zones_exhausted (rt h') <= nzones (rt h').
Proof.
  destruct (run_passes_Some
              (heap_get_bestfit_block 10 sample_default_bucket
                 (set_size_idx 1 MEMORY_BLOCK_NONE) fresh_ten_heap)
              (fun a _ => a.1 =? 0)) as ([r m'] & h' & E & Hr);
    [vm_compute; reflexivity|].
  apply Z.eqb_eq in Hr. simpl in Hr. subst r.
  exists m', h'. split; [exact E|].
  apply (heap_get_bestfit_block_zones 10 sample_default_bucket
           (set_size_idx 1 MEMORY_BLOCK_NONE) fresh_ten_heap 0 m' h' E).
  - vm_compute. split; discriminate.
  - vm_compute. reflexivity.
Defined.

(** In [run_heap] the default bucket is empty and the only zone is
    consumed: the request fails. *)
Lemma heap_get_bestfit_block_enomem_exhausted_witness :
  exists m' h',
    heap_get_bestfit_block 10 sample_default_bucket
      (set_size_idx 1 MEMORY_BLOCK_NONE) run_heap = Some (ENOMEM, m', h') /\
    zones_exhausted (rt h') = nzones (rt h').
Proof.
  destruct (run_passes_Some
              (heap_get_bestfit_block 10 sample_default_bucket
                 (set_size_idx 1 MEMORY_BLOCK_NONE) run_heap)
              (fun a _ => a.1 =? ENOMEM)) as ([r m'] & h' & E & Hr);
    [vm_compute; reflexivity|].
  apply Z.eqb_eq in Hr. simpl in Hr. subst r.
  exists m', h'. split; [exact E|].
  apply (heap_get_bestfit_block_enomem_exhausted 10 sample_default_bucket
           (set_size_idx 1 MEMORY_BLOCK_NONE) run_heap m' h');
    [reflexivity|exact E].
Defined.

(** In [run_heap] the run of chunk 0 is turned into a free chunk. *)
Lemma heap_run_into_free_chunk_locks_witness :
  exists m' h' l mid r,
    heap_run_into_free_chunk sample_default_bucket (run_block 0 0 0 1) run_heap =
      Some (m', h') /\
    new_calls run_heap h' =
      [Call (StatsSub heap_run_active 262144) tt;
       Call (GetLock (Some MEMORY_BLOCK_RUN) (run_block 0 0 0 1)) l;
       Call (MutexLock l) tt;
       Call (MemblockHugeInit 0 0 1) (huge_block 0 0 1)] ++
      mid ++
      [Call (BucketInsertBlock sample_default_bucket m') r;
       Call (MutexUnlock l) tt] /\
    Forall not_mutex mid.
Proof.
  destruct (run_passes_Some
              (heap_run_into_free_chunk sample_default_bucket (run_block 0 0 0 1)
                 run_heap) (fun _ _ => true)) as (m' & h' & E & _);
    [vm_compute; reflexivity|].
  destruct (heap_run_into_free_chunk_locks sample_default_bucket (run_block 0 0 0 1)
              run_heap m' h' E) as (l & mid & r & Ec & F).
  exists m', h', l, mid, r. split; [exact E|]. split; [exact Ec|exact F].
Defined.

End RuntimeSamples.

(** ** [heap_zone_update_if_needed] *)

Section ZoneUpdate.
Context `{HeapLayout} `{Externals}.

Lemma huge_init_calls_app e1 e2 :
  huge_init_calls (e1 ++ e2) = huge_init_calls e1 ++ huge_init_calls e2.
Proof. unfold huge_init_calls. apply omap_app. Qed.

(** [heap_zone_init] writes the header of its zone, calls
    [memblock_huge_init] once, and leaves the runtime state and the size. *)
Lemma heap_zone_init_Some zid first h h' :
  heap_zone_init zid first h = Some (tt, h') ->
  rt h' = rt h /\ sizep h' = sizep h /\ log_extends h h' /\
  huge_init_calls (new_calls h h') =
    [(first, zid,
      wrap32 (zone_calc_size_idx zid (nzones (rt h)) (sizep h) - first))] /\
  (keeps_zone_headers (WalPersistZoneHeader zid) ->
   header (ZID_TO_ZONE (mem h') zid) =
     {| magic := ZONE_HEADER_MAGIC;
        zh_size_idx := zone_calc_size_idx zid (nzones (rt h)) (sizep h) |}) /\
  (keeps_zone_headers (WalPersistZoneHeader zid) ->
   (forall c z s, keeps_zone_headers (MemblockHugeInit c z s)) ->
   forall j, j <> zid ->
     header (ZID_TO_ZONE (mem h') j) = header (ZID_TO_ZONE (mem h) j)).
Proof.
  intros E. unfold heap_zone_init in E. unfold_calls. minv.
  split; [reflexivity|]. split; [reflexivity|].
  split; [eexists; simpl; rewrite <- app_assoc; reflexivity|].
  split.
  { erewrite new_calls_app by (simpl; rewrite <- app_assoc; reflexivity).
    reflexivity. }
  split.
  - intros Hp. simpl. rewrite Hp. simpl. rewrite Z.eqb_refl. reflexivity.
  - intros Hp Hi j Hj. simpl. rewrite Hp. simpl.
    destruct (Z.eqb_spec j zid); [contradiction|]. apply Hi.
Qed.

Lemma new_calls_trans h1 h2 h3 :
  log_extends h1 h2 -> log_extends h2 h3 ->
  new_calls h1 h3 = new_calls h1 h2 ++ new_calls h2 h3.
Proof.
  intros [e1 E1] [e2 E2].
  rewrite (new_calls_app h1 h2 e1 E1), (new_calls_app h2 h3 e2 E2).
  apply new_calls_app. rewrite E2, E1, app_assoc. reflexivity.
Qed.

Lemma omap_ext_in {A B} (f g : A -> option B) l :
  (forall x, In x l -> f x = g x) -> omap f l = omap g l.
Proof.
  induction l as [|x l IH]; intros Hfg; [reflexivity|].
  pose proof (IH (fun y Hy => Hfg y (or_intror Hy))) as IH'.
  change (omap f (x :: l))
    with (match f x with Some y => y :: omap f l | None => omap f l end).
  change (omap g (x :: l))
    with (match g x with Some y => y :: omap g l | None => omap g l end).
  rewrite IH', (Hfg x (or_introl eq_refl)). reflexivity.
Qed.

(** One iteration of the loop, on the zone [i]. *)
Lemma heap_zone_update_step i h h1 :
  (forall z, keeps_zone_headers (WalPersistZoneHeader z)) ->
  (forall c z s, keeps_zone_headers (MemblockHugeInit c z s)) ->
  (if magic (header (ZID_TO_ZONE (mem h) i)) =? ZONE_HEADER_MAGIC
   then
     if zone_calc_size_idx i (nzones (rt h)) (sizep h) =?
        zh_size_idx (header (ZID_TO_ZONE (mem h) i))
     then mret ()
     else heap_zone_init i (zh_size_idx (header (ZID_TO_ZONE (mem h) i)))
   else mret ()) h = Some (tt, h1) ->
  rt h1 = rt h /\ sizep h1 = sizep h /\ log_extends h h1 /\
  huge_init_calls (new_calls h h1) =
    match zone_growth h i with Some c => [c] | None => [] end /\
  header (ZID_TO_ZONE (mem h1) i) =
    (if magic (header (ZID_TO_ZONE (mem h) i)) =? ZONE_HEADER_MAGIC
     then {| magic := ZONE_HEADER_MAGIC;
             zh_size_idx := zone_calc_size_idx i (nzones (rt h)) (sizep h) |}
     else header (ZID_TO_ZONE (mem h) i)) /\
  forall j, j <> i ->
    header (ZID_TO_ZONE (mem h1) j) = header (ZID_TO_ZONE (mem h) j).
Proof.
  intros Hp Hi E. unfold zone_growth, stale_zone.
  assert (Hl : log_extends h h) by apply (frame_refl (R:=log_extends)).
  assert (Hc : huge_init_calls (new_calls h h) = [])
    by (unfold new_calls; rewrite drop_all; reflexivity).
  destruct (Z.eqb_spec (magic (header (ZID_TO_ZONE (mem h) i))) ZONE_HEADER_MAGIC)
    as [Hm|Hm]; simpl.
  - destruct (Z.eqb_spec (zone_calc_size_idx i (nzones (rt h)) (sizep h))
                (zh_size_idx (header (ZID_TO_ZONE (mem h) i)))) as [Hs|Hs]; simpl.
    + minv. repeat (split; [first [reflexivity|assumption]|]). split; [|auto].
      rewrite Hs. destruct (header (ZID_TO_ZONE (mem h) i)) as [mg sz].
      simpl in Hm. subst mg. reflexivity.
    + destruct (heap_zone_init_Some _ _ _ _ E) as (? & ? & ? & ? & Hz & Ho).
      repeat (split; [assumption|]). split; [apply Hz, Hp|].
      intros j Hj. apply Ho; auto.
  - minv. repeat (split; [first [reflexivity|assumption]|]). auto.
Qed.

Lemma heap_zone_update_loop_Some ids :
  NoDup ids ->
  (forall z, keeps_zone_headers (WalPersistZoneHeader z)) ->
  (forall c z s, keeps_zone_headers (MemblockHugeInit c z s)) ->
  forall h h',
    heap_zone_update_loop ids h = Some (tt, h') ->
    rt h' = rt h /\ sizep h' = sizep h /\ log_extends h h' /\
    huge_init_calls (new_calls h h') = omap (zone_growth h) ids /\
    forall j,
      header (ZID_TO_ZONE (mem h') j) =
        if bool_decide (j ∈ ids) &&
           (magic (header (ZID_TO_ZONE (mem h) j)) =? ZONE_HEADER_MAGIC)
        then {| magic := ZONE_HEADER_MAGIC;
                zh_size_idx := zone_calc_size_idx j (nzones (rt h)) (sizep h) |}
        else header (ZID_TO_ZONE (mem h) j).
Proof.
  intros Hnd Hp Hi. induction ids as [|i ids IH]; intros h h' E; simpl in E.
  { minv. split; [reflexivity|]. split; [reflexivity|].
    split; [apply (frame_refl (R:=log_extends))|].
    split; [unfold new_calls; rewrite drop_all; reflexivity|].
    intros j. reflexivity. }
  apply NoDup_cons in Hnd. destruct Hnd as [Hni Hnd].
  minv.
  match goal with E1 : _ h = Some (?u, ?h1) |- _ =>
    destruct u; rename h1 into hx; rename E1 into Ex
  end.
  destruct (heap_zone_update_step i h hx Hp Hi Ex) as (R1 & S1 & L1 & C1 & Z1 & O1).
  destruct (IH Hnd hx h' E) as (R2 & S2 & L2 & C2 & Z2).
  split; [congruence|]. split; [congruence|].
  split; [eapply (frame_trans (R:=log_extends)); eassumption|].
  split.
  { rewrite (new_calls_trans _ _ _ L1 L2), huge_init_calls_app, C1, C2. simpl.
    assert (Heq : omap (zone_growth hx) ids = omap (zone_growth h) ids).
    { apply omap_ext_in. intros k Hk. unfold zone_growth, stale_zone.
      rewrite R1, S1, O1; [reflexivity|].
      intros ->. apply Hni, list_elem_of_In, Hk. }
    rewrite Heq. destruct (zone_growth h i); reflexivity. }
  intros j. rewrite Z2, R1, S1.
  destruct (Z.eq_dec j i) as [->|Hj].
  - rewrite (bool_decide_eq_false_2 (i ∈ ids)) by exact Hni.
    rewrite (bool_decide_eq_true_2 (i ∈ i :: ids)) by apply list_elem_of_here.
    simpl. exact Z1.
  - rewrite O1 by exact Hj.
    assert (Hb : bool_decide (j ∈ i :: ids) = bool_decide (j ∈ ids)).
    { apply bool_decide_ext. rewrite elem_of_cons. tauto. }
    rewrite Hb. reflexivity.
Qed.

(** X19: [heap_zone_update_if_needed] gives every initialized zone of the heap
    the size that [zone_calc_size_idx] computes for it, and leaves the
    headers of the other zones, the runtime state and the heap size as they
    are.  For each zone whose size changes, in the order of the zones, it
    calls [memblock_huge_init] once, on the chunks from the old size of the
    zone to the new one; it makes no other call of [memblock_huge_init].
    The operations are assumed to leave the zone headers as they are. *)
Theorem heap_zone_update_if_needed_sizes (h h' : palloc_heap) :
  heap_zone_update_if_needed h = Some (tt, h') ->
  (forall z, keeps_zone_headers (WalPersistZoneHeader z)) ->
  (forall c z s, keeps_zone_headers (MemblockHugeInit c z s)) ->
  rt h' = rt h /\ sizep h' = sizep h /\
  huge_init_calls (new_calls h h') = omap (zone_growth h) (seqZ 0 (nzones (rt h))) /\
  forall j,
    header (ZID_TO_ZONE (mem h') j) =
      if bool_decide (0 <= j < nzones (rt h)) &&
         (magic (header (ZID_TO_ZONE (mem h) j)) =? ZONE_HEADER_MAGIC)
      then {| magic := ZONE_HEADER_MAGIC;
              zh_size_idx := zone_calc_size_idx j (nzones (rt h)) (sizep h) |}
      else header (ZID_TO_ZONE (mem h) j).
Proof.
  intros E Hp Hi. unfold heap_zone_update_if_needed in E. minv.
  destruct (heap_zone_update_loop_Some _ (NoDup_seqZ _ _) Hp Hi _ _ E)
    as (R & S & _ & C & Z).
  split; [exact R|]. split; [exact S|]. split; [exact C|].
  intros j. rewrite Z.
  assert (Hb : bool_decide (j ∈ seqZ 0 (nzones (rt h))) =
               bool_decide (0 <= j < nzones (rt h))).
  { apply bool_decide_ext. rewrite elem_of_seqZ. lia. }
  rewrite Hb. reflexivity.
Qed.

Lemma heap_zone_update_loop_nothing ids h :
  (forall i, In i ids -> stale_zone h i = false) ->
  heap_zone_update_loop ids h = Some (tt, h).
Proof.
  induction ids as [|i ids IH]; intros Hall; [reflexivity|].
  simpl. apply bind_Some. exists h, h. split; [reflexivity|].
  apply bind_Some. exists tt, h. split.
  - specialize (Hall i (or_introl eq_refl)). unfold stale_zone in Hall.
    destruct (_ =? ZONE_HEADER_MAGIC); [|reflexivity].
    simpl in Hall. destruct (_ =? _); [reflexivity|discriminate].
  - apply IH. intros j Hj. apply Hall. right. exact Hj.
Qed.

(** X20: On a heap whose initialized zones all have the size that
    [zone_calc_size_idx] computes, [heap_zone_update_if_needed] returns
    without a call and leaves the heap as it is; so it does when it is run
    a second time. *)
Theorem heap_zone_update_if_needed_idempotent (h h' : palloc_heap) :
  ((forall i, 0 <= i < nzones (rt h) -> stale_zone h i = false) ->
   heap_zone_update_if_needed h = Some (tt, h)) /\
  (heap_zone_update_if_needed h = Some (tt, h') ->
   (forall z, keeps_zone_headers (WalPersistZoneHeader z)) ->
   (forall c z s, keeps_zone_headers (MemblockHugeInit c z s)) ->
   heap_zone_update_if_needed h' = Some (tt, h')).
Proof.
  assert (Hnothing : forall h0,
            (forall i, 0 <= i < nzones (rt h0) -> stale_zone h0 i = false) ->
            heap_zone_update_if_needed h0 = Some (tt, h0)).
  { intros h0 Hall. unfold heap_zone_update_if_needed.
    apply bind_Some. exists h0, h0. split; [reflexivity|].
    apply heap_zone_update_loop_nothing.
    intros i Hi. apply Hall. apply elem_of_seqZ_In in Hi. exact Hi. }
  split; [apply Hnothing|].
  intros E Hp Hi. apply Hnothing. intros i Hr.
  unfold heap_zone_update_if_needed in E. minv.
  destruct (heap_zone_update_loop_Some _ (NoDup_seqZ _ _) Hp Hi _ _ E)
    as (R & S & _ & _ & Z).
  unfold stale_zone. rewrite Z, R, S. rewrite R in Hr.
  rewrite (bool_decide_eq_true_2 (i ∈ seqZ 0 (nzones (rt h))))
    by (apply elem_of_seqZ; lia).
  simpl.
  destruct (Z.eqb_spec (magic (header (ZID_TO_ZONE (mem h) i))) ZONE_HEADER_MAGIC)
    as [Hm|Hm]; simpl.
  - rewrite Z.eqb_refl, Z.eqb_refl. reflexivity.
  - destruct (Z.eqb_spec (magic (header (ZID_TO_ZONE (mem h) i))) ZONE_HEADER_MAGIC);
      [contradiction|reflexivity].
Qed.

End ZoneUpdate.

Section ZoneUpdateSamples.
#[local] Existing Instance sample_layout.
#[local] Existing Instance sample_externals.

Lemma sample_persist_keeps_headers z :
  keeps_zone_headers (WalPersistZoneHeader z).
Proof. intros l v zid. reflexivity. Qed.

Lemma sample_huge_init_keeps_headers c z s :
  keeps_zone_headers (MemblockHugeInit c z s).
Proof.
  intros l v zid. simpl. unfold ZID_TO_ZONE, set_block_headers. simpl.
  destruct (1 <? s); simpl; destruct (zid =? z); reflexivity.
Qed.

(** In [fresh_ten_heap] the only zone has ten chunks and the heap size gives
    it eleven: the update initializes the chunk of index 10 as a free chunk
    of one chunk and writes the new size; a second update does nothing. *)
Lemma heap_zone_update_if_needed_sizes_witness :
  exists h',
    heap_zone_update_if_needed fresh_ten_heap = Some (tt, h') /\
    huge_init_calls (new_calls fresh_ten_heap h') = [(10, 0, 1)] /\
    header (ZID_TO_ZONE (mem h') 0) =
      {| magic := ZONE_HEADER_MAGIC; zh_size_idx := 11 |} /\
    header (ZID_TO_ZONE (mem h') 1) = header (ZID_TO_ZONE (mem fresh_ten_heap) 1).
Proof.
  destruct (run_passes_Some (heap_zone_update_if_needed fresh_ten_heap)
              (fun _ _ => true)) as ([] & h' & E & _); [vm_compute; reflexivity|].
  exists h'. split; [exact E|].
  destruct (heap_zone_update_if_needed_sizes fresh_ten_heap h' E
              sample_persist_keeps_headers sample_huge_init_keeps_headers)
    as (_ & _ & C & Z).
  split; [rewrite C; vm_compute; reflexivity|].
  split; rewrite Z; vm_compute; reflexivity.
Defined.

(** [fresh_ten_heap] has nothing to update once updated, and [blank_heap],
    whose only zone is not initialized, has nothing to update. *)
Lemma heap_zone_update_if_needed_idempotent_witness :
  (exists h',
     heap_zone_update_if_needed fresh_ten_heap = Some (tt, h') /\
     heap_zone_update_if_needed h' = Some (tt, h')) /\
  heap_zone_update_if_needed blank_heap = Some (tt, blank_heap).
Proof.
  split.
  - destruct (run_passes_Some (heap_zone_update_if_needed fresh_ten_heap)
                (fun _ _ => true)) as ([] & h' & E & _); [vm_compute; reflexivity|].
    exists h'. split; [exact E|].
    exact (proj2 (heap_zone_update_if_needed_idempotent fresh_ten_heap h') E
             sample_persist_keeps_headers sample_huge_init_keeps_headers).
  - apply (proj1 (heap_zone_update_if_needed_idempotent blank_heap blank_heap)).
    intros i Hi. change (nzones (rt blank_heap)) with 1 in Hi.
    assert (i = 0) as -> by lia.
    vm_compute. reflexivity.
Defined.

End ZoneUpdateSamples.

(** ** [heap_check_remote] *)

Section CheckRemote.
Context `{HeapLayout} `{Externals}.

Lemma heap_check_remote_loop_0 fuel ops ids :
  heap_check_remote_loop fuel ops ids = Some 0 <->
  forall i, In i ids ->
    exists z, read_zone ops i = Some z /\ heap_verify_zone fuel z = Some 0.
Proof.
  induction ids as [|i ids IH]; simpl.
  - split; [intros _ ? []|reflexivity].
  - destruct (read_zone ops i) as [z|] eqn:Ez.
    + destruct (heap_verify_zone fuel z) as [r|] eqn:E.
      * destruct (Z.eqb_spec r 0) as [->|Hr].
        -- rewrite IH. split; [intros Hall j [<-|Hj]; eauto|auto].
        -- split; [discriminate|]. intros Hall.
           destruct (Hall i (or_introl eq_refl)) as (z' & Ez' & E'). congruence.
      * split; [discriminate|]. intros Hall.
        destruct (Hall i (or_introl eq_refl)) as (z' & Ez' & E'). congruence.
    + split; [discriminate|]. intros Hall.
      destruct (Hall i (or_introl eq_refl)) as (z' & Ez' & E'). congruence.
Qed.

(** X21: [heap_check_remote] returns 0 exactly when the heap size is at least
    [HEAP_MIN_SIZE], the heap header is read and passes [heap_verify_header],
    the buffer of a zone is allocated, and every zone that [heap_max_zone]
    counts is read and passes [heap_verify_zone].  Without the buffer it
    returns -1, whatever the region holds. *)
Theorem heap_check_remote_accepts (fuel : nat) (heap_size : Z) (ops : remote_ops)
    (zone_buff : bool) :
  (heap_check_remote fuel heap_size ops zone_buff = Some 0 <->
   HEAP_MIN_SIZE <= heap_size /\
   (exists header, read_header ops = Some header /\ heap_verify_header header = 0) /\
   zone_buff = true /\
   exists n, heap_max_zone heap_size = Some n /\
     forall i, 0 <= i < n ->
       exists z, read_zone ops i = Some z /\ heap_verify_zone fuel z = Some 0) /\
  heap_check_remote fuel heap_size ops false = Some (-1).
Proof.
  unfold heap_check_remote. split.
  2: { destruct (_ <? _); [reflexivity|]. destruct (read_header ops); [|reflexivity].
       destruct (_ =? 0); reflexivity. }
  destruct (Z.ltb_spec heap_size HEAP_MIN_SIZE); [split; [discriminate|lia]|].
  destruct (read_header ops) as [hdr|].
  2: { split; [discriminate|]. intros (_ & (? & ? & _) & _). discriminate. }
  destruct (Z.eqb_spec (heap_verify_header hdr) 0) as [Hh|Hh].
  2: { split; [discriminate|]. intros (_ & (? & E & ?) & _). congruence. }
  destruct zone_buff.
  2: { split; [discriminate|]. intros (_ & _ & ? & _). discriminate. }
  destruct (heap_max_zone heap_size) as [n|].
  2: { split; [discriminate|]. intros (_ & _ & _ & ? & ? & _). discriminate. }
  rewrite heap_check_remote_loop_0. split.
  - intros Hall. split; [lia|]. split; [eauto|]. split; [reflexivity|].
    exists n. split; [reflexivity|]. intros i Hi. apply Hall, elem_of_seqZ_In, Hi.
  - intros (_ & _ & _ & n' & E & Hall). injection E as <-.
    intros i Hi. apply Hall, elem_of_seqZ_In, Hi.
Qed.

(** X22: When the reads succeed and give what the region [l] holds, and the
    buffer of a zone is allocated, [heap_check_remote] returns what
    [heap_check] returns on [l]. *)
Theorem heap_check_remote_agrees (fuel : nat) (l : heap_layout) (heap_size : Z)
    (ops : remote_ops) :
  read_header ops = Some (hl_header l) ->
  (forall n i, heap_max_zone heap_size = Some n -> 0 <= i < n ->
     read_zone ops i = Some (ZID_TO_ZONE l i)) ->
  heap_check_remote fuel heap_size ops true = heap_check fuel l heap_size.
Proof.
  intros Eh Ez. unfold heap_check_remote, heap_check. rewrite Eh.
  destruct (_ <? _); [reflexivity|]. destruct (_ =? 0); [|reflexivity].
  destruct (heap_max_zone heap_size) as [n|]; [|reflexivity].
  assert (Hloop : forall ids, (forall i, In i ids -> 0 <= i < n) ->
             heap_check_remote_loop fuel ops ids = heap_check_loop fuel l ids).
  { induction ids as [|i ids IH]; intros Hall; [reflexivity|]. simpl.
    rewrite (Ez n i eq_refl (Hall i (or_introl eq_refl))).
    rewrite IH by (intros j Hj; apply Hall; right; exact Hj). reflexivity. }
  apply Hloop. intros i Hi. apply elem_of_seqZ_In, Hi.
Qed.

End CheckRemote.

Section CheckRemoteSamples.
#[local] Existing Instance sample_layout.
#[local] Existing Instance sample_externals.

(** Reading [three_zone_mem] remotely gives the result of [heap_check] on
    it, -1. *)
Lemma heap_check_remote_agrees_witness :
  heap_check 11 three_zone_mem three_zone_size = Some (-1) /\
  heap_check_remote 11 three_zone_size
    {| read_header := Some (hl_header three_zone_mem);
       read_zone := fun i => Some (ZID_TO_ZONE three_zone_mem i) |} true =
  heap_check 11 three_zone_mem three_zone_size.
Proof.
  split.
  - unfold heap_check. rewrite sample_max_zone_three. vm_compute. reflexivity.
  - apply (heap_check_remote_agrees 11 three_zone_mem three_zone_size).
    + reflexivity.
    + intros n i _ _. reflexivity.
Defined.

End CheckRemoteSamples.

(** ** [heap_init] *)

Section Init.
Context `{HeapLayout} `{Externals} `{HeaderFormat}.

Lemma heap_init_loop_headers p_ops ids :
  plain_ops p_ops ->
  forall l,
    hl_header (heap_init_loop p_ops ids l) = hl_header l /\
    forall z, header (ZID_TO_ZONE (heap_init_loop p_ops ids l) z) =
              if bool_decide (z ∈ ids) then {| magic := 0; zh_size_idx := 0 |}
              else header (ZID_TO_ZONE l z).
Proof.
  intros (_ & Hc & Hz & _). induction ids as [|i ids IH]; intros l; simpl.
  { split; [reflexivity|]. intros z. reflexivity. }
  destruct (IH (memset_chunk_header p_ops i (memset_zone_header p_ops i l)))
    as [Eh Ez].
  destruct (Hc i (memset_zone_header p_ops i l)) as [Ch Cz].
  destruct (Hz i l) as [Zh Zz].
  split; [congruence|].
  intros z. rewrite Ez, Cz, Zz.
  destruct (Z.eqb_spec z i) as [->|Hne].
  - rewrite (bool_decide_eq_true_2 (i ∈ i :: ids)) by apply list_elem_of_here.
    destruct (bool_decide _); reflexivity.
  - assert (Hb : bool_decide (z ∈ i :: ids) = bool_decide (z ∈ ids)).
    { apply bool_decide_ext. rewrite elem_of_cons. tauto. }
    rewrite Hb. reflexivity.
Qed.

(** X23: [heap_init] refuses a heap size below [HEAP_MIN_SIZE] with EINVAL and
    leaves the region and [*sizep] untouched.  For any other size it
    returns 0 with [*sizep] set to the heap size, the zones that
    [heap_max_zone] counts are left not initialized and the headers of the
    other zones as they were, and [heap_check] accepts the region.  The
    persistence operations are assumed to persist and set memory and nothing
    more, and [util_checksum] to accept the checksum it inserts. *)
Theorem heap_init_then_check (fuel : nat) (l : heap_layout) (heap_size sizep : Z)
    (p_ops : mo_ops) :
  plain_ops p_ops ->
  checksum_round_trip ->
  (heap_size < HEAP_MIN_SIZE ->
   heap_init l heap_size sizep p_ops = Some (EINVAL, l, sizep)) /\
  (HEAP_MIN_SIZE <= heap_size ->
   forall n, heap_max_zone heap_size = Some n ->
   exists l',
     heap_init l heap_size sizep p_ops = Some (0, l', heap_size) /\
     heap_check fuel l' heap_size = Some 0 /\
     forall z, header (ZID_TO_ZONE l' z) =
               if bool_decide (0 <= z < n) then {| magic := 0; zh_size_idx := 0 |}
               else header (ZID_TO_ZONE l z)).
Proof.
  intros Hops Hsum. unfold heap_init. split.
  { intros Hlt. destruct (Z.ltb_spec heap_size HEAP_MIN_SIZE); [reflexivity|lia]. }
  intros Hge n Hn. rewrite Hn.
  destruct (Z.ltb_spec heap_size HEAP_MIN_SIZE); [lia|].
  pose proof Hops as (Hp & _ & _ & Hs).
  set (l0 := persist_header p_ops (set_hl_header heap_write_header l)).
  destruct (Hp (set_hl_header heap_write_header l)) as [Ph Pz]. fold l0 in Ph, Pz.
  destruct (heap_init_loop_headers p_ops (seqZ 0 n) Hops l0) as [Eh Ez].
  eexists. split; [rewrite Hs; reflexivity|].
  assert (Hz : forall z,
            header (ZID_TO_ZONE (heap_init_loop p_ops (seqZ 0 n) l0) z) =
            if bool_decide (0 <= z < n) then {| magic := 0; zh_size_idx := 0 |}
            else header (ZID_TO_ZONE l z)).
  { intros z. rewrite Ez, Pz.
    assert (Hb : bool_decide (z ∈ seqZ 0 n) = bool_decide (0 <= z < n)).
    { apply bool_decide_ext. rewrite elem_of_seqZ. lia. }
    rewrite Hb. reflexivity. }
  split; [|exact Hz].
  unfold heap_check. rewrite Hn.
  destruct (Z.ltb_spec heap_size HEAP_MIN_SIZE); [lia|].
  assert (Hv : heap_verify_header
                 (hl_header (heap_init_loop p_ops (seqZ 0 n) l0)) = 0).
  { rewrite Eh, Ph. unfold heap_verify_header.
    change (hl_header (set_hl_header heap_write_header l)) with heap_write_header.
    assert (Hc : util_checksum heap_write_header = true) by apply Hsum.
    rewrite Hc. simpl. rewrite bool_decide_eq_true_2; reflexivity. }
  rewrite Hv. simpl. apply heap_check_loop_0.
  intros i Hi. apply elem_of_seqZ_In in Hi.
  unfold heap_verify_zone. rewrite Hz.
  rewrite (bool_decide_eq_true_2 (0 <= i < n)) by lia. reflexivity.
Qed.

End Init.

Section InitSamples.
#[local] Existing Instance sample_layout.
#[local] Existing Instance sample_externals.
#[local] Existing Instance sample_format.

Lemma sample_plain_ops : plain_ops sample_ops.
Proof.
  split; [|split; [|split]].
  - intros l. split; [reflexivity|]. intros z. reflexivity.
  - intros i l. split; [reflexivity|]. intros z. simpl. unfold ZID_TO_ZONE. simpl.
    destruct (z =? i); reflexivity.
  - intros i l. split; [reflexivity|]. intros z. simpl. unfold ZID_TO_ZONE. simpl.
    destruct (z =? i); reflexivity.
  - intros s. reflexivity.
Qed.

Lemma sample_checksum_round_trip : checksum_round_trip.
Proof. intros hdr. reflexivity. Qed.

(** A region of [three_zone_size] bytes that holds [three_zone_mem], which
    [heap_check] rejects, is accepted once initialized; with a size of 4096
    bytes [heap_init] returns EINVAL. *)
Lemma heap_init_then_check_witness :
  heap_init three_zone_mem 4096 0 sample_ops = Some (EINVAL, three_zone_mem, 0) /\
  exists l',
    heap_init three_zone_mem three_zone_size 0 sample_ops =
      Some (0, l', three_zone_size) /\
    heap_check 0 l' three_zone_size = Some 0 /\
    forall z, header (ZID_TO_ZONE l' z) =
              if bool_decide (0 <= z < 3) then {| magic := 0; zh_size_idx := 0 |}
              else header (ZID_TO_ZONE three_zone_mem z).
Proof.
  destruct (heap_init_then_check 0 three_zone_mem 4096 0 sample_ops
              sample_plain_ops sample_checksum_round_trip) as [Hsmall _].
  destruct (heap_init_then_check 0 three_zone_mem three_zone_size 0 sample_ops
              sample_plain_ops sample_checksum_round_trip) as [_ Hinit].
  split; [apply Hsmall; reflexivity|].
  apply (Hinit ltac:(vm_compute; discriminate) 3 sample_max_zone_three).
Defined.

End InitSamples.

(** ** The run locks over an allocation *)

Section LockFrames.
Context `{HeapLayout} `{Externals}.
Context (P : ext_op -> Prop) (R : palloc_heap -> palloc_heap -> Prop) `{!Frame P R}.

(** The operations that [P] has to allow: all but those on the mutexes. *)
Hypothesis P_BucketAllocBlock : forall b m, P (BucketAllocBlock b m).
Hypothesis P_BucketInsertBlock : forall b m, P (BucketInsertBlock b m).
Hypothesis P_BucketRemoveBlock : forall b m, P (BucketRemoveBlock b m).
Hypothesis P_BucketAttachRun : forall b m, P (BucketAttachRun b m).
Hypothesis P_BucketDetachRun : forall b, P (BucketDetachRun b).
Hypothesis P_RecyclerNew : forall n, P (RecyclerNew n).
Hypothesis P_RecyclerPut : forall r e, P (RecyclerPut r e).
Hypothesis P_RecyclerGet : forall r m, P (RecyclerGet r m).
Hypothesis P_RecyclerRecalc : forall r f, P (RecyclerRecalc r f).
Hypothesis P_RecyclerIncUnaccounted : forall r m, P (RecyclerIncUnaccounted r m).
Hypothesis P_RecyclerElementNew : forall m, P (RecyclerElementNew m).
Hypothesis P_MemblockRebuildState : forall m, P (MemblockRebuildState m).
Hypothesis P_MemblockHugeInit : forall c z s, P (MemblockHugeInit c z s).
Hypothesis P_MemblockRunInit : forall c z rd, P (MemblockRunInit c z rd).
Hypothesis P_PrepHdr : forall o m s, P (PrepHdr o m s).
Hypothesis P_GetLock : forall o m, P (GetLock o m).
Hypothesis P_GetBitmap : forall o m, P (GetBitmap o m).
Hypothesis P_ReinitChunk : forall o m, P (ReinitChunk o m).
Hypothesis P_EnsureHeaderType : forall o m t, P (EnsureHeaderType o m t).
Hypothesis P_WalPersistZoneHeader : forall z, P (WalPersistZoneHeader z).
Hypothesis P_StatsInc : forall n v, P (StatsInc n v).
Hypothesis P_StatsSub : forall n v, P (StatsSub n v).

#[local] Hint Resolve P_BucketAllocBlock P_BucketInsertBlock P_BucketRemoveBlock
  P_BucketAttachRun P_BucketDetachRun P_RecyclerNew P_RecyclerPut P_RecyclerGet
  P_RecyclerRecalc P_RecyclerIncUnaccounted P_RecyclerElementNew
  P_MemblockRebuildState P_MemblockHugeInit P_MemblockRunInit P_PrepHdr
  P_GetLock P_GetBitmap P_ReinitChunk P_EnsureHeaderType
  P_WalPersistZoneHeader P_StatsInc P_StatsSub : keeps.

Hypothesis keeps_set_recycler :
  forall id r h, R h (set_rt (set_recycler id r (rt h)) h).
Hypothesis keeps_set_zone_header :
  forall zid nhdr h, R h (set_mem (set_zone_header zid nhdr (mem h)) h).
Hypothesis keeps_set_zones_exhausted :
  forall v h, R h (set_rt (set_zones_exhausted v (rt h)) h).

(** The only function of [heap.c] that takes a lock. *)
Hypothesis keeps_run_into_free_chunk :
  forall b m, keeps R (heap_run_into_free_chunk b m).

#[local] Hint Resolve keeps_set_recycler keeps_set_zone_header
  keeps_set_zones_exhausted keeps_run_into_free_chunk : keeps.

Lemma unlocked_heap_get_recycler id nallocs : keeps R (heap_get_recycler id nallocs).
Proof. unfold heap_get_recycler. unfold_calls. keeps_tac. Qed.
#[local] Hint Resolve unlocked_heap_get_recycler : keeps.

Lemma unlocked_heap_zone_init zid first : keeps R (heap_zone_init zid first).
Proof. unfold heap_zone_init. unfold_calls. keeps_tac. Qed.
#[local] Hint Resolve unlocked_heap_zone_init : keeps.

Lemma unlocked_heap_free_chunk_reuse b m : keeps R (heap_free_chunk_reuse b m).
Proof. eapply keeps_heap_free_chunk_reuse; eauto with keeps. Qed.
#[local] Hint Resolve unlocked_heap_free_chunk_reuse : keeps.

Lemma unlocked_heap_reclaim_run m startup : keeps R (heap_reclaim_run m startup).
Proof. unfold heap_reclaim_run. unfold_calls. keeps_tac. Qed.
#[local] Hint Resolve unlocked_heap_reclaim_run : keeps.

Lemma paired_heap_reclaim_zone_garbage_loop fuel b zid i :
  keeps R (heap_reclaim_zone_garbage_loop fuel b zid i).
Proof.
  revert i. induction fuel as [|fuel IH]; intros i; simpl; unfold_calls; keeps_tac.
Qed.
#[local] Hint Resolve paired_heap_reclaim_zone_garbage_loop : keeps.

Lemma paired_heap_populate_bucket fuel b : keeps R (heap_populate_bucket fuel b).
Proof.
  unfold heap_populate_bucket, heap_reclaim_zone_garbage. unfold_calls. keeps_tac.
Qed.
#[local] Hint Resolve paired_heap_populate_bucket : keeps.

Lemma paired_foreach_run_into_free_chunk b r :
  keeps R (foreach_run_into_free_chunk b r).
Proof. induction r as [|nm r IH]; simpl; keeps_tac. Qed.
#[local] Hint Resolve paired_foreach_run_into_free_chunk : keeps.

Lemma paired_heap_recycle_unused r defb force :
  keeps R (heap_recycle_unused r defb force).
Proof. unfold heap_recycle_unused. unfold_calls. keeps_tac. Qed.
#[local] Hint Resolve paired_heap_recycle_unused : keeps.

Lemma paired_heap_reclaim_garbage_loop ids b ret :
  keeps R (heap_reclaim_garbage_loop ids b ret).
Proof. revert ret. induction ids as [|i ids IH]; intros ret; simpl; keeps_tac. Qed.
#[local] Hint Resolve paired_heap_reclaim_garbage_loop : keeps.

Lemma paired_heap_ensure_huge_bucket_filled fuel b :
  keeps R (heap_ensure_huge_bucket_filled fuel b).
Proof. unfold heap_ensure_huge_bucket_filled, heap_reclaim_garbage. keeps_tac. Qed.
#[local] Hint Resolve paired_heap_ensure_huge_bucket_filled : keeps.

Lemma paired_heap_discard_run m : keeps R (heap_discard_run m).
Proof. unfold heap_discard_run. keeps_tac. Qed.
#[local] Hint Resolve paired_heap_discard_run : keeps.

Lemma paired_heap_detach_and_try_discard_run b :
  keeps R (heap_detach_and_try_discard_run b).
Proof. unfold heap_detach_and_try_discard_run. unfold_calls. keeps_tac. Qed.
#[local] Hint Resolve paired_heap_detach_and_try_discard_run : keeps.

Lemma paired_heap_reuse_from_recycler b units force :
  keeps R (heap_reuse_from_recycler b units force).
Proof. unfold heap_reuse_from_recycler. unfold_calls. keeps_tac. Qed.
#[local] Hint Resolve paired_heap_reuse_from_recycler : keeps.

Lemma paired_heap_run_create b m : keeps R (heap_run_create b m).
Proof. unfold heap_run_create. unfold_calls. keeps_tac. Qed.
#[local] Hint Resolve paired_heap_run_create : keeps.

Lemma paired_heap_split_block b m units : keeps R (heap_split_block b m units).
Proof. unfold heap_split_block. unfold_calls. keeps_tac. Qed.
#[local] Hint Resolve paired_heap_split_block : keeps.

Lemma paired_heap_ensure_run_bucket_filled_with bestfit fuel b units :
  (forall defb m, keeps R (bestfit defb m)) ->
  keeps R (heap_ensure_run_bucket_filled_with bestfit fuel b units).
Proof. intros Hb. unfold heap_ensure_run_bucket_filled_with. keeps_tac. Qed.
#[local] Hint Resolve paired_heap_ensure_run_bucket_filled_with : keeps.

Lemma paired_heap_get_bestfit_block_loop fuel b units m :
  keeps R (heap_get_bestfit_block_loop fuel b units m).
Proof.
  revert b units m. induction fuel as [|fuel IH]; intros b units m; simpl;
    unfold_calls; keeps_tac.
Qed.

End LockFrames.

Section Locks.
Context `{HeapLayout} `{Externals}.

Lemma mutex_events_app e1 e2 :
  mutex_events (e1 ++ e2) = mutex_events e1 ++ mutex_events e2.
Proof. unfold mutex_events. apply omap_app. Qed.

Lemma lock_pairs_app l1 l2 : lock_pairs (l1 ++ l2) = lock_pairs l1 ++ lock_pairs l2.
Proof. unfold lock_pairs. apply flat_map_app. Qed.

Lemma mutex_events_not_mutex evs : Forall not_mutex evs -> mutex_events evs = [].
Proof.
  induction 1 as [|e evs He _ IH]; [reflexivity|].
  change (e :: evs) with ([e] ++ evs). rewrite mutex_events_app, IH, app_nil_r.
  destruct e as [[] ?|]; try reflexivity; destruct He.
Qed.

Lemma mutex_events_none e : mutex_event e = None -> mutex_events [e] = [].
Proof. intros E. unfold mutex_events. simpl. rewrite E. reflexivity. Qed.

Lemma locks_paired_frame :
  Frame (fun op => forall r, mutex_event (Call op r) = None) locks_paired.
Proof.
  split.
  - intros h. exists [], []. rewrite app_nil_r. auto.
  - intros h1 h2 h3 (e1 & l1 & E1 & M1) (e2 & l2 & E2 & M2).
    exists (e1 ++ e2), (l1 ++ l2). rewrite E2, E1, app_assoc.
    split; [reflexivity|]. rewrite mutex_events_app, lock_pairs_app. congruence.
  - intros op h Hop. eexists _, []. split; [reflexivity|].
    apply mutex_events_none, Hop.
  - intros msg h. eexists _, []. split; [reflexivity|]. reflexivity.
Qed.

Lemma frame_inst_log_extends_run_into b m :
  keeps log_extends (heap_run_into_free_chunk b m).
Proof. frame_inst keeps_heap_run_into_free_chunk. Qed.

Lemma heap_run_into_free_chunk_paired b m :
  keeps locks_paired (heap_run_into_free_chunk b m).
Proof.
  intros h m' h' E.
  pose proof (frame_inst_log_extends_run_into b m h m' h' E) as [evs Ec].
  destruct (heap_run_into_free_chunk_calls _ _ _ _ _ E) as (l & mid & r & En & F).
  rewrite (new_calls_app _ _ _ Ec) in En. subst evs.
  eexists _, [l]. split; [exact Ec|].
  rewrite !mutex_events_app, (mutex_events_not_mutex mid F). reflexivity.
Qed.

Lemma heap_get_bestfit_block_loop_paired fuel b units m :
  keeps locks_paired (heap_get_bestfit_block_loop fuel b units m).
Proof.
  eapply paired_heap_get_bestfit_block_loop;
    first [ exact locks_paired_frame
          | exact heap_run_into_free_chunk_paired
          | intros; cbv beta; intros; reflexivity
          | intros; eexists [], []; rewrite app_nil_r; split; reflexivity ].
Qed.

(** X24: Over a call of [heap_get_bestfit_block], whatever refills it goes
    through, every run lock that is taken is released before another one is
    taken, and none is left taken when the call returns. *)
Theorem heap_get_bestfit_block_locks_paired
    (fuel : nat) (b : bucket) (m : memory_block) (h : palloc_heap)
    (r : Z) (m' : memory_block) (h' : palloc_heap) :
  heap_get_bestfit_block fuel b m h = Some (r, m', h') ->
  exists ls, mutex_events (new_calls h h') = lock_pairs ls.
Proof.
  intros E. unfold heap_get_bestfit_block in E.
  destruct (heap_get_bestfit_block_loop_paired _ _ _ _ _ _ _ E) as (evs & ls & Ec & M).
  exists ls. rewrite (new_calls_app _ _ _ Ec). exact M.
Qed.

End Locks.

Section LocksSamples.
#[local] Existing Instance sample_layout.
#[local] Existing Instance sample_externals.

(** In [empty_run_heap] a request of one chunk populates the zone, whose
    empty run is turned into a free chunk under its lock, and then succeeds:
    the lock is taken once and released. *)
Lemma heap_get_bestfit_block_locks_paired_witness :
  exists m' h' ls,
    heap_get_bestfit_block 10 sample_default_bucket
      (set_size_idx 1 MEMORY_BLOCK_NONE) empty_run_heap = Some (0, m', h') /\
    length (mutex_events (new_calls empty_run_heap h')) = 2%nat /\
    mutex_events (new_calls empty_run_heap h') = lock_pairs ls.
Proof.
  destruct (run_passes_Some
              (heap_get_bestfit_block 10 sample_default_bucket
                 (set_size_idx 1 MEMORY_BLOCK_NONE) empty_run_heap)
              (fun a h' =>
                 (a.1 =? 0) &&
                 (length (mutex_events (new_calls empty_run_heap h')) =? 2)%nat))
    as ([r m'] & h' & E & Hr); [vm_compute; reflexivity|].
  apply andb_prop in Hr. destruct Hr as [Hr Hn].
  apply Z.eqb_eq in Hr. simpl in Hr. subst r. apply Nat.eqb_eq in Hn.
  destruct (heap_get_bestfit_block_locks_paired 10 sample_default_bucket
              (set_size_idx 1 MEMORY_BLOCK_NONE) empty_run_heap 0 m' h' E) as [ls M].
  exists m', h', ls. split; [exact E|]. split; [exact Hn|exact M].
Defined.

End LocksSamples.

(** ** [heap_create_alloc_class_buckets] *)

Section AllocClassBuckets.
Context `{HeapLayout} `{Externals}.
Variable bucket_locked_new : alloc_class -> M (option bucket).

(** Creating a bucket does not reach the runtime state of the heap. *)
Hypothesis bucket_locked_new_rt :
  forall c h o h1, bucket_locked_new c h = Some (o, h1) -> rt h1 = rt h.

(** X25: [heap_create_alloc_class_buckets] returns 0 or -1.  When the class has
    a bucket already it returns 0 without creating one and leaves the heap
    as it is.  When it returns 0 the class has a bucket, the one that
    [zoneset_bucket_acquire] gives for the id of the class when that id is
    not the default one, and a second call returns 0 and changes nothing.
    When it returns -1 the class is left without a bucket.  The buckets of
    the other classes stay as they are. *)
Theorem heap_create_alloc_class_buckets_cached
    (c : alloc_class) (h : palloc_heap) (r : Z) (h' : palloc_heap) :
  heap_create_alloc_class_buckets bucket_locked_new c h = Some (r, h') ->
  (r = 0 \/ r = -1) /\
  (forall b0, buckets (default_zset (rt h)) !! ac_id c = Some b0 -> r = 0 /\ h' = h) /\
  (r = 0 ->
   exists b,
     buckets (default_zset (rt h')) !! ac_id c = Some b /\
     (ac_id c <> DEFAULT_ALLOC_CLASS_ID ->
      zoneset_bucket_acquire (default_zset (rt h')) (ac_id c) = Some b) /\
     heap_create_alloc_class_buckets bucket_locked_new c h' = Some (0, h')) /\
  (r = -1 -> buckets (default_zset (rt h')) !! ac_id c = None) /\
  (forall id, id <> ac_id c ->
     buckets (default_zset (rt h')) !! id = buckets (default_zset (rt h)) !! id).
Proof.
  intros E. unfold heap_create_alloc_class_buckets in E. minv.
  assert (Hkept : forall hx bx,
            buckets (default_zset (rt hx)) !! ac_id c = Some bx ->
            heap_create_alloc_class_buckets bucket_locked_new c hx = Some (0, hx)).
  { intros hx bx Hx. unfold heap_create_alloc_class_buckets.
    apply bind_Some. exists hx, hx. split; [reflexivity|]. rewrite Hx. reflexivity. }
  destruct (buckets (default_zset (rt h)) !! ac_id c) as [b0|] eqn:Hb; minv.
  - split; [auto|]. split; [auto|]. split; [|split; [discriminate|reflexivity]].
    intros _. exists b0. split; [exact Hb|]. split; [|eapply Hkept; exact Hb].
    intros Hne. unfold zoneset_bucket_acquire.
    destruct (Z.eqb_spec (ac_id c) DEFAULT_ALLOC_CLASS_ID); [contradiction|exact Hb].
  - match goal with E1 : bucket_locked_new _ _ = Some (?o, ?h1) |- _ =>
      pose proof (bucket_locked_new_rt _ _ _ _ E1) as Hrt; destruct o as [b|]
    end; minv; simpl; rewrite ?Hrt.
    + split; [auto|]. split; [discriminate|]. split; [|split; [discriminate|]].
      * intros _. exists b. simpl. rewrite lookup_insert_eq.
        split; [reflexivity|]. split.
        -- intros Hne. unfold zoneset_bucket_acquire. simpl.
           destruct (Z.eqb_spec (ac_id c) DEFAULT_ALLOC_CLASS_ID); [contradiction|].
           apply lookup_insert_eq.
        -- eapply Hkept. simpl. apply lookup_insert_eq.
      * intros id Hne. apply lookup_insert_ne. congruence.
    + split; [auto|]. split; [discriminate|]. split; [discriminate|].
      split; [intros _; exact Hb|reflexivity].
Qed.

End AllocClassBuckets.

Section AllocClassBucketsSamples.
#[local] Existing Instance sample_layout.
#[local] Existing Instance sample_externals.

Lemma sample_bucket_locked_new_rt c h o h1 :
  sample_bucket_locked_new c h = Some (o, h1) -> rt h1 = rt h.
Proof. intros E. injection E as _ <-. reflexivity. Qed.

(** In [run_heap] the class of id 2 gets its bucket, and the bucket of
    the class of id 1 stays; the class of id 1 has one already. *)
Lemma heap_create_alloc_class_buckets_cached_witness :
  (exists h' b,
     heap_create_alloc_class_buckets sample_bucket_locked_new sample_run_class_2
       run_heap = Some (0, h') /\
     zoneset_bucket_acquire (default_zset (rt h')) (ac_id sample_run_class_2) =
       Some b /\
     buckets (default_zset (rt h')) !! 1 = Some sample_run_bucket) /\
  heap_create_alloc_class_buckets sample_bucket_locked_new sample_run_class
    run_heap = Some (0, run_heap).
Proof.
  split.
  - destruct (run_passes_Some
                (heap_create_alloc_class_buckets sample_bucket_locked_new
                   sample_run_class_2 run_heap)
                (fun r _ => r =? 0)) as (r & h' & E & Hr); [vm_compute; reflexivity|].
    apply Z.eqb_eq in Hr. subst r.
    destruct (heap_create_alloc_class_buckets_cached sample_bucket_locked_new
                sample_bucket_locked_new_rt sample_run_class_2 run_heap 0 h' E)
      as (_ & _ & Hok & _ & Hother).
    destruct (Hok eq_refl) as (b & Hb & Hacq & _).
    exists h', b. split; [exact E|]. split.
    + apply Hacq. vm_compute. discriminate.
    + rewrite (Hother 1); [reflexivity|]. vm_compute. discriminate.
  - destruct (run_passes_Some
                (heap_create_alloc_class_buckets sample_bucket_locked_new
                   sample_run_class run_heap)
                (fun r _ => r =? 0)) as (r & h' & E & Hr); [vm_compute; reflexivity|].
    apply Z.eqb_eq in Hr. subst r.
    destruct (heap_create_alloc_class_buckets_cached sample_bucket_locked_new
                sample_bucket_locked_new_rt sample_run_class run_heap 0 h' E)
      as (_ & Hhas & _).
    destruct (Hhas sample_run_bucket) as [_ ->]; [reflexivity|exact E].
Defined.

End AllocClassBucketsSamples.

(** ** [heap_reclaim_garbage] *)

Section Garbage.
Context `{HeapLayout} `{Externals}.

#[local] Instance same_rt_frame : Frame (fun _ => True) same_rt.
Proof.
  split.
  - intros h. split; [reflexivity|]. apply (frame_refl (R:=log_extends)).
  - intros h1 h2 h3 [R1 L1] [R2 L2]. split; [congruence|].
    eapply (frame_trans (R:=log_extends)); eassumption.
  - intros op h _. split; [reflexivity|]. apply (frame_call (R:=log_extends)). exact I.
  - intros msg h. split; [reflexivity|]. apply (frame_log (R:=log_extends)).
Qed.

Lemma heap_recycle_unused_same_rt r defb force :
  keeps same_rt (heap_recycle_unused r defb force).
Proof. frame_inst keeps_heap_recycle_unused. Qed.

Lemma recalc_calls_app e1 e2 :
  recalc_calls (e1 ++ e2) = recalc_calls e1 ++ recalc_calls e2.
Proof. unfold recalc_calls. apply omap_app. Qed.

Lemma recalc_calls_none evs : Forall not_recalc evs -> recalc_calls evs = [].
Proof.
  induction 1 as [|e evs He _ IH]; [reflexivity|].
  change (e :: evs) with ([e] ++ evs). rewrite recalc_calls_app, IH, app_nil_r.
  destruct e as [[] ?|]; try reflexivity. destruct He.
Qed.

Lemma heap_reclaim_garbage_loop_visits ids b :
  forall ret h g h',
    heap_reclaim_garbage_loop ids b ret h = Some (g, h') ->
    rt h' = rt h /\ log_extends h h' /\
    recalc_calls (new_calls h h') =
      omap (fun i => (fun r => (r, 1)) <$> recyclers (default_zset (rt h)) !! i) ids.
Proof.
  induction ids as [|i ids IH]; intros ret h g h' E; simpl in E.
  { minv. split; [reflexivity|]. split; [apply (frame_refl (R:=log_extends))|].
    unfold new_calls. rewrite drop_all. reflexivity. }
  minv.
  change (omap (fun i => (fun r => (r, 1)) <$> recyclers (default_zset (rt h)) !! i)
            (i :: ids))
    with (match (fun r => (r, 1)) <$> recyclers (default_zset (rt h)) !! i with
          | Some y =>
              y :: omap (fun i => (fun r => (r, 1)) <$>
                                  recyclers (default_zset (rt h)) !! i) ids
          | None =>
              omap (fun i => (fun r => (r, 1)) <$>
                             recyclers (default_zset (rt h)) !! i) ids
          end).
  destruct (recyclers (default_zset (rt h)) !! i) as [r|]; simpl.
  - minv.
    match goal with E1 : heap_recycle_unused _ _ _ _ = Some (_, ?h1) |- _ =>
      destruct (heap_recycle_unused_same_rt _ _ _ _ _ _ E1) as [R1 L1];
      destruct (heap_recycle_unused_Some _ _ _ _ _ _ E1) as (_ & l & evs & Hc & Hf & _);
      destruct (IH _ _ _ _ E) as (R2 & L2 & C2)
    end.
    split; [congruence|].
    split; [eapply (frame_trans (R:=log_extends)); eassumption|].
    rewrite (new_calls_trans _ _ _ L1 L2), recalc_calls_app, C2, R1.
    rewrite (new_calls_app _ _ _ Hc), recalc_calls_app, (recalc_calls_none evs Hf).
    reflexivity.
  - apply IH in E. exact E.
Qed.

(** X26: [heap_reclaim_garbage] calls [recycler_recalc] once, with [force] set,
    on each recycler of the zone set, in the order of the class ids: a
    recycler that gives empty runs does not end the loop.  It leaves the
    runtime state as it is. *)
Theorem heap_reclaim_garbage_visits (b : bucket) (h : palloc_heap) (g : Z)
    (h' : palloc_heap) :
  heap_reclaim_garbage b h = Some (g, h') ->
  rt h' = rt h /\
  recalc_calls (new_calls h h') =
    omap (fun i => (fun r => (r, 1)) <$> recyclers (default_zset (rt h)) !! i)
      (seqZ 0 MAX_ALLOCATION_CLASSES).
Proof.
  intros E. unfold heap_reclaim_garbage in E.
  destruct (heap_reclaim_garbage_loop_visits _ _ _ _ _ _ E) as (R & _ & C).
  split; assumption.
Qed.

End Garbage.

Section GarbageSamples.
#[local] Existing Instance sample_layout.
#[local] Existing Instance sample_externals.

(** In [two_recycler_heap] the two recyclers are recalculated, the one of
    the class 1 first. *)
Lemma heap_reclaim_garbage_visits_witness :
  exists g h',
    heap_reclaim_garbage sample_default_bucket two_recycler_heap = Some (g, h') /\
    rt h' = rt two_recycler_heap /\
    recalc_calls (new_calls two_recycler_heap h') = [(1008, 1); (1004, 1)].
Proof.
  destruct (run_passes_Some
              (heap_reclaim_garbage sample_default_bucket two_recycler_heap)
              (fun _ _ => true)) as (g & h' & E & _); [vm_compute; reflexivity|].
  exists g, h'. split; [exact E|].
  destruct (heap_reclaim_garbage_visits sample_default_bucket two_recycler_heap g h' E)
    as [R C].
  split; [exact R|]. rewrite C. vm_compute. reflexivity.
Defined.

End GarbageSamples.

Section RunEnomem.
Context `{HeapLayout} `{Externals}.

#[local] Instance same_default_bucket_frame : Frame (fun _ => True) same_default_bucket.
Proof.
  split.
  - intros h. split; [reflexivity|]. apply (frame_refl (R:=log_extends)).
  - intros h1 h2 h3 [R1 L1] [R2 L2]. split; [congruence|].
    eapply (frame_trans (R:=log_extends)); eassumption.
  - intros op h _. split; [reflexivity|]. apply (frame_call (R:=log_extends)). exact I.
  - intros msg h. split; [reflexivity|]. apply (frame_log (R:=log_extends)).
Qed.

Ltac default_bucket_inst lemma :=
  eapply lemma;
  first [ typeclasses eauto
        | intros; cbv beta; intros; exact I
        | intros; split; [reflexivity|];
          first [apply log_extends_set_rt | apply log_extends_set_mem] ].

Lemma heap_get_bestfit_block_loop_default fuel b units m :
  keeps same_default_bucket (heap_get_bestfit_block_loop fuel b units m).
Proof. default_bucket_inst keeps_heap_get_bestfit_block_loop. Qed.

Lemma heap_populate_bucket_default fuel b :
  keeps same_default_bucket (heap_populate_bucket fuel b).
Proof. default_bucket_inst keeps_heap_populate_bucket. Qed.

Lemma refill_default fuel b units : keeps same_default_bucket (refill fuel b units).
Proof.
  unfold refill, heap_ensure_run_bucket_filled, heap_get_bestfit_block.
  destruct (ac_type _).
  - default_bucket_inst keeps_heap_ensure_huge_bucket_filled.
  - eapply keeps_heap_ensure_run_bucket_filled_with;
      first [ typeclasses eauto
            | intros; cbv beta; intros; exact I
            | intros; split; [reflexivity|];
              first [apply log_extends_set_rt | apply log_extends_set_mem]
            | intros defb dm; apply heap_get_bestfit_block_loop_default ].
Qed.

Lemma detach_failed_later b h h1 h2 :
  log_extends h h1 -> log_extends h1 h2 ->
  detach_failed b (new_calls h1 h2) -> detach_failed b (new_calls h h2).
Proof.
  intros L1 L2 (x & Hin & Hx). exists x. split; [|exact Hx].
  rewrite (new_calls_trans _ _ _ L1 L2). apply in_or_app. right. exact Hin.
Qed.

(** A failed refill of a bucket of a run class. *)
Lemma heap_ensure_run_bucket_filled_enomem fuel b units h x h' :
  ac_type (bucket_alloc_class (default_bucket (default_zset (rt h)))) = CLASS_HUGE ->
  heap_ensure_run_bucket_filled fuel b units h = Some (x, h') ->
  x <> 0 ->
  zones_exhausted (rt h') = nzones (rt h') \/ detach_failed b (new_calls h h').
Proof.
  intros Hhuge E Hx.
  destruct (heap_ensure_run_bucket_filled_outcome _ _ _ _ _ _ E) as (d & h1 & Ed & O).
  pose proof (heap_detach_and_try_discard_run_outcome _ _ _ _ Ed) as Od.
  destruct (heap_detach_same_zones _ _ _ _ Ed) as (_ & _ & D1 & L1).
  destruct (Z.eqb_spec d 0) as [->|Hd].
  2: { right. destruct O as [_ ->]. unfold detach_outcome in Od.
       destruct (result_of (BucketDetachRun b) h) as [[r m] empty] eqn:Er.
       destruct (Z.eqb_spec r 0) as [->|Hr]; [destruct Od as [-> _]; contradiction|].
       destruct Od as [_ ->]. exists (r, m, empty). split; [|exact Hr].
       erewrite new_calls_app by (simpl; reflexivity).
       left. f_equal. exact Er. }
  left.
  destruct O as (r1 & h2 & E1 & O).
  destruct (heap_reuse_same_zones _ _ _ _ _ _ E1) as (_ & _ & D2 & _).
  destruct (r1 =? 0); [destruct O as [-> _]; contradiction|].
  destruct O as (p & h3 & r2 & h4 & Ep & E2 & O).
  destruct (heap_populate_bucket_default _ _ _ _ _ Ep) as [D3 _].
  destruct (heap_reuse_same_zones _ _ _ _ _ _ E2) as (_ & _ & D4 & _).
  destruct (r2 =? 0); [destruct O as [-> _]; contradiction|].
  destruct O as (g & m & h5 & Eb & O).
  destruct (Z.eqb_spec g 0) as [->|Hg].
  { destruct O as (m' & _ & ->). contradiction. }
  destruct O as (r3 & E3 & _).
  destruct (heap_reuse_same_zones _ _ _ _ _ _ E3) as (N5 & Z5 & _).
  rewrite N5, Z5.
  unfold heap_get_bestfit_block in Eb.
  destruct (heap_get_bestfit_block_loop_Some _ _ _ _ _ _ _ _ Eb) as ([?| ->] & _);
    [contradiction|].
  eapply heap_get_bestfit_block_loop_enomem; [|exact Eb].
  rewrite D4, D3, D2, D1. exact Hhuge.
Qed.

Lemma heap_get_bestfit_block_loop_run_enomem fuel b units :
  ac_type (bucket_alloc_class b) = CLASS_RUN ->
  forall m h m' h',
    ac_type (bucket_alloc_class (default_bucket (default_zset (rt h)))) = CLASS_HUGE ->
    heap_get_bestfit_block_loop fuel b units m h = Some (ENOMEM, m', h') ->
    zones_exhausted (rt h') = nzones (rt h') \/ detach_failed b (new_calls h h').
Proof.
  intros Hrun. induction fuel as [|fuel IH]; intros m h m' h' Hhuge E; simpl in E.
  { minv. }
  unfold_calls. minv.
  change (match ac_type (bucket_alloc_class b) with
          | CLASS_HUGE => heap_ensure_huge_bucket_filled fuel b
          | CLASS_RUN => _
          end) with (refill fuel b units) in E.
  assert (L0 : log_extends h (after_call (BucketAllocBlock b m) h))
    by (apply (frame_call (R:=log_extends)); exact I).
  destruct (result_of (BucketAllocBlock b m) h) as [a m1]. simpl in E.
  destruct (a =? 0); minv; [discriminate|].
  match goal with E1 : refill _ _ _ _ = Some (?x, ?h2) |- _ =>
    destruct (refill_default _ _ _ _ _ _ E1) as [D1 L1];
    rename E1 into Er; rename h2 into hr; rename x into xr
  end.
  destruct (Z.eqb_spec xr 0) as [->|Hx].
  - assert (L2 : log_extends hr h')
      by (eapply heap_get_bestfit_block_loop_default; exact E).
    destruct (IH _ _ _ _ ltac:(rewrite D1; exact Hhuge) E) as [Hz|Hd]; [auto|right].
    eapply detach_failed_later; [|exact L2|exact Hd].
    eapply (frame_trans (R:=log_extends)); eassumption.
  - minv. unfold refill in Er. rewrite Hrun in Er.
    destruct (heap_ensure_run_bucket_filled_enomem fuel b units
                (after_call (BucketAllocBlock b m) h) xr hr Hhuge Er Hx)
      as [Hz|Hd]; [auto|right].
    eapply detach_failed_later; [exact L0|exact L1|exact Hd].
Qed.

(** X28: A request to a bucket of a run class, in a heap whose default
    bucket is of the huge class, fails with ENOMEM only once all the zones
    of the heap are consumed, or after a call of [bucket_detach_run] on the
    bucket has failed. *)
Theorem heap_get_bestfit_block_run_enomem
    (fuel : nat) (b : bucket) (m : memory_block) (h : palloc_heap)
    (m' : memory_block) (h' : palloc_heap) :
  ac_type (bucket_alloc_class b) = CLASS_RUN ->
  ac_type (bucket_alloc_class (default_bucket (default_zset (rt h)))) = CLASS_HUGE ->
  heap_get_bestfit_block fuel b m h = Some (ENOMEM, m', h') ->
  zones_exhausted (rt h') = nzones (rt h') \/ detach_failed b (new_calls h h').
Proof.
  intros Hrun Hhuge E. unfold heap_get_bestfit_block in E.
  eapply heap_get_bestfit_block_loop_run_enomem; eassumption.
Qed.

End RunEnomem.

Section RunEnomemSamples.
#[local] Existing Instance sample_layout.
#[local] Existing Instance sample_externals.

(** In [run_heap] the only zone is consumed, and neither the recycler nor
    the default bucket has anything for the bucket of the run class: the
    request fails. *)
Lemma heap_get_bestfit_block_run_enomem_witness :
  exists m' h',
    heap_get_bestfit_block 10 sample_run_bucket
      (set_size_idx 1 MEMORY_BLOCK_NONE) run_heap = Some (ENOMEM, m', h') /\
    (zones_exhausted (rt h') = nzones (rt h') \/
     detach_failed sample_run_bucket (new_calls run_heap h')).
Proof.
  destruct (run_passes_Some
              (heap_get_bestfit_block 10 sample_run_bucket
                 (set_size_idx 1 MEMORY_BLOCK_NONE) run_heap)
              (fun a _ => a.1 =? ENOMEM)) as ([r m'] & h' & E & Hr);
    [vm_compute; reflexivity|].
  apply Z.eqb_eq in Hr. simpl in Hr. subst r.
  exists m', h'. split; [exact E|].
  apply (heap_get_bestfit_block_run_enomem 10 sample_run_bucket
           (set_size_idx 1 MEMORY_BLOCK_NONE) run_heap m' h');
    [reflexivity|reflexivity|exact E].
Defined.

End RunEnomemSamples.

(** * The scan of a zone *)

(** ** The top-level chunks of a consistent zone *)

Section Tiling.

Lemma top_level_inv z i :
  top_level z i ->
  i = 0 \/
  exists q, top_level z q /\ i = q + hdr_size_idx (chunk_headers z q).
Proof. intros T. destruct T as [|q T Hlt]; [auto|]. right. eauto. Qed.

(** Two top-level chunks do not overlap. *)
Lemma top_level_no_overlap z :
  zone_consistent z ->
  forall v, 0 <= v ->
  forall w, top_level z v -> top_level z w -> w < v ->
            w + hdr_size_idx (chunk_headers z w) <= v.
Proof.
  intros Hz v Hv. pattern v. apply Z_lt_induction; [|exact Hv].
  clear v Hv. intros v IH w Tv Tw Hlt.
  pose proof (top_level_range _ _ Hz Tw) as Hw.
  destruct (top_level_inv _ _ Tv) as [->|(x & Tx & ->)]; [lia|].
  pose proof (top_level_range _ _ Hz Tx) as Hx.
  destruct Hz as [Hzs Hc]. destruct (Hc _ Tx) as (Hpx & _ & _).
  destruct (Z.lt_trichotomy w x) as [Hwx|[->|Hxw]].
  - pose proof (IH x ltac:(lia) w Tx Tw Hwx). lia.
  - lia.
  - pose proof (IH w ltac:(lia) x Tw Tx Hxw). lia.
Qed.

Lemma same_chunk_sizes_sym z z' : same_chunk_sizes z z' -> same_chunk_sizes z' z.
Proof. intros [Hh Hs]. split; [congruence|]. intros k. rewrite Hs. reflexivity. Qed.

Lemma same_chunk_sizes_trans z1 z2 z3 :
  same_chunk_sizes z1 z2 -> same_chunk_sizes z2 z3 -> same_chunk_sizes z1 z3.
Proof.
  intros [Hh1 Hs1] [Hh2 Hs2]. split; [congruence|].
  intros k. rewrite Hs2. apply Hs1.
Qed.

Lemma same_chunk_sizes_top_level z z' i :
  same_chunk_sizes z z' -> top_level z i -> top_level z' i.
Proof.
  intros [Hh Hs] T. induction T as [Hpos|i T IH Hlt].
  - apply top_level_first. rewrite Hh. exact Hpos.
  - rewrite <- Hs. apply top_level_next; [exact IH|]. rewrite Hs, Hh. exact Hlt.
Qed.

Lemma same_chunk_sizes_consistent z z' :
  same_chunk_sizes z z' -> zone_consistent z -> zone_consistent z'.
Proof.
  intros S [Hzs Hc]. pose proof S as [Hh Hs]. split; [rewrite Hh; exact Hzs|].
  intros i T.
  apply (same_chunk_sizes_top_level _ _ _ (same_chunk_sizes_sym _ _ S)) in T.
  rewrite !Hs, Hh. apply Hc. exact T.
Qed.

(** Writing the footer of a top-level chunk of a consistent zone again
    changes no size. *)
Lemma zone_footer_written_sizes z z' c :
  zone_consistent z -> top_level z c -> zone_footer_written z z' c ->
  same_chunk_sizes z z'.
Proof.
  intros [_ Hc] T [Hh Hf]. split; [exact Hh|].
  intros k. destruct (Hf k) as [E|[-> E]]; [exact E|].
  rewrite E. destruct (Hc _ T) as (_ & _ & Hfoot). symmetry. exact Hfoot.
Qed.

Section BlockWritten.
Variables (z z' : zone) (c s : Z).
Hypothesis Hz : zone_consistent z.
Hypothesis Tc : top_level z c.
Hypothesis Hs : 0 < s.
Hypothesis Hend : c + s = zh_size_idx (header z) \/ top_level z (c + s).
Hypothesis Hw : zone_block_written z z' c s.

Lemma block_written_before t : top_level z t -> t <= c -> top_level z' t.
Proof.
  destruct Hw as (Hh & Hout & _).
  intros T. induction T as [Hpos|t T IH Hlt]; intros Hle.
  - apply top_level_first. rewrite Hh. exact Hpos.
  - destruct Hz as [_ Hc]. destruct (Hc _ T) as (Hp & _ & _).
    rewrite <- (Hout t) by lia.
    apply top_level_next; [apply IH; lia|].
    rewrite Hout, Hh by lia. exact Hlt.
Qed.

Lemma block_written_end :
  c + s < zh_size_idx (header z) -> top_level z' (c + s).
Proof.
  intros Hlt. destruct Hw as (Hh & _ & Hcs & _).
  replace (c + s) with (c + hdr_size_idx (chunk_headers z' c))
    by (rewrite Hcs; reflexivity).
  apply top_level_next.
  - apply block_written_before; [exact Tc|lia].
  - rewrite Hcs, Hh. exact Hlt.
Qed.

Lemma block_written_after t :
  top_level z t -> c + s <= t -> top_level z' t.
Proof.
  pose proof (top_level_range _ _ Hz Tc) as Hrc.
  destruct Hw as (Hh & Hout & _).
  intros T. induction T as [Hpos|t T IH Hlt]; intros Hle; [lia|].
  pose proof (top_level_range _ _ Hz T) as Hrt.
  pose proof Hz as [_ Hc]. destruct (Hc _ T) as (Hp & _ & _).
  assert (Hcs : c + s < zh_size_idx (header z)) by lia.
  assert (Tcs : top_level z (c + s)) by (destruct Hend; [lia|assumption]).
  destruct (Z_lt_le_dec t (c + s)) as [Hin|Hout'].
  - assert (t + hdr_size_idx (chunk_headers z t) <= c + s)
      by (apply (top_level_no_overlap z Hz); [lia|assumption|assumption|lia]).
    replace (t + hdr_size_idx (chunk_headers z t)) with (c + s) by lia.
    apply block_written_end. exact Hcs.
  - rewrite <- (Hout t) by lia.
    apply top_level_next; [apply IH; lia|].
    rewrite Hout, Hh by lia. exact Hlt.
Qed.

Lemma block_written_top_level t :
  top_level z' t -> top_level z t /\ (t <= c \/ c + s <= t).
Proof.
  pose proof (top_level_range _ _ Hz Tc) as Hrc.
  destruct Hw as (Hh & Hout & Hcs & _).
  intros T. induction T as [Hpos|t T IH Hlt].
  - split; [apply top_level_first; rewrite <- Hh; exact Hpos|lia].
  - destruct IH as [Tt Hpl].
    pose proof (top_level_range _ _ Hz Tt) as Hrt.
    pose proof Hz as [_ Hc]. destruct (Hc _ Tt) as (Hp & _ & _).
    rewrite Hh in Hlt.
    destruct (Z.eq_dec t c) as [->|Hne].
    + rewrite Hcs in *. split; [|lia].
      destruct Hend; [lia|assumption].
    + rewrite (Hout t) in * by lia.
      split; [apply top_level_next; assumption|].
      destruct Hpl as [Hl|Hr]; [left|right; lia].
      apply (top_level_no_overlap z Hz); [lia|assumption|assumption|lia].
Qed.

(** The zone stays consistent when the headers of a block that covers
    top-level chunks are written. *)
Lemma block_written_consistent : zone_consistent z'.
Proof.
  pose proof (top_level_range _ _ Hz Tc) as Hrc.
  pose proof Hw as (Hh & Hout & Hcs & Hfoot).
  pose proof Hz as [Hzs Hc].
  split; [rewrite Hh; exact Hzs|].
  intros t T. destruct (block_written_top_level _ T) as [Tt Hpl].
  pose proof (top_level_range _ _ Hz Tt) as Hrt.
  destruct (Hc _ Tt) as (Hp & He & Hf).
  rewrite Hh.
  destruct (Z.eq_dec t c) as [->|Hne].
  - rewrite Hcs. split; [exact Hs|]. split; [|exact Hfoot].
    destruct Hend as [->|Tcs]; [lia|].
    pose proof (top_level_range _ _ Hz Tcs). lia.
  - assert (Hle : t < c -> t + hdr_size_idx (chunk_headers z t) <= c)
      by (intros ?; apply (top_level_no_overlap z Hz); [lia|assumption|assumption|lia]).
    rewrite (Hout t) by lia.
    split; [exact Hp|]. split; [exact He|].
    rewrite Hout by lia. exact Hf.
Qed.

End BlockWritten.

End Tiling.

(** ** One chunk of the scan *)

Section ScanStep.
Context `{HeapLayout} `{Externals}.

Lemma bind_run {A B} (f : M A) (k : A -> M B) h a h1 :
  f h = Some (a, h1) -> (f ≫= k) h = k a h1.
Proof. intros E. unfold mbind, M_bind. rewrite E. reflexivity. Qed.

Lemma perform_run op h : perform op h = Some (result_of op h, after_call op h).
Proof.
  unfold perform, result_of, after_call.
  destruct (handle op (mem h) (vol h)) as [[l v] r]. reflexivity.
Qed.

Lemma heap_coalesce_total o1 m o2 : total (heap_coalesce [o1; Some m; o2]).
Proof.
  unfold heap_coalesce. destruct o1, o2; simpl; unfold_calls; total_tac.
Qed.

Lemma heap_free_chunk_reuse_total b m : total (heap_free_chunk_reuse b m).
Proof.
  unfold heap_free_chunk_reuse, heap_coalesce_huge, removed_neighbour,
    heap_get_adjacent_free_block.
  unfold_calls. total_tac; apply heap_coalesce_total.
Qed.

Lemma heap_run_into_free_chunk_total b m : total (heap_run_into_free_chunk b m).
Proof.
  unfold heap_run_into_free_chunk. unfold_calls.
  total_tac; try apply heap_free_chunk_reuse_total; total_tac.
Qed.

(** The steps of [heap_run_into_free_chunk]. *)
Lemma heap_run_into_free_chunk_Some b m h m' h' :
  heap_run_into_free_chunk b m h = Some (m', h') ->
  forall m0 h1 (lock : Z) h2,
    m0 = run_as_chunk m h ->
    h1 = after_call (StatsSub heap_run_active (wrap64 (size_idx m0 * CHUNKSIZE))) h ->
    lock = result_of (GetLock (m_ops m0) m0) h1 ->
    h2 = after_call (MutexLock lock) (after_call (GetLock (m_ops m0) m0) h1) ->
    exists r h3,
      heap_free_chunk_reuse b
        (result_of (MemblockHugeInit (chunk_id m0) (zone_id m0) (size_idx m0)) h2)
        (after_call (MemblockHugeInit (chunk_id m0) (zone_id m0) (size_idx m0)) h2) =
        Some (r, m', h3) /\
      h' = after_call (MutexUnlock lock) h3.
Proof.
  intros E m0 h1 lock h2 -> -> -> ->.
  unfold heap_run_into_free_chunk in E. unfold_calls. minv.
  eexists _, _. split; [eassumption|reflexivity].
Qed.

Hypothesis rebuild_volatile : forall x, volatile_only (MemblockRebuildState x).
Hypothesis remove_volatile : forall b x, volatile_only (BucketRemoveBlock b x).

(** What a run of [heap_run_into_free_chunk] does. *)
Lemma heap_run_into_free_chunk_demoted b m h m' h' :
  heap_run_into_free_chunk b m h = Some (m', h') ->
  run_demoted b m h m' h'.
Proof.
  intros E.
  destruct (heap_run_into_free_chunk_Some _ _ _ _ _ E _ _ _ _
              eq_refl eq_refl eq_refl eq_refl) as (r & h3 & Ef & ->).
  exists r, h3. split; [|reflexivity].
  apply (heap_free_chunk_reuse_Some rebuild_volatile remove_volatile). exact Ef.
Qed.

(** One iteration of the loop of [heap_reclaim_zone_garbage]. *)
Lemma heap_reclaim_zone_garbage_loop_step bucket zid i h :
  i < zh_size_idx (header (ZID_TO_ZONE (mem h) zid)) ->
  let m := scan_block zid i h in
  let h1 := scan_visit zid i h in
  let ty := hdr_type (chunk_headers (ZID_TO_ZONE (mem h1) zid) i) in
  exists m' h2,
    (if ty =? CHUNK_TYPE_RUN then
       exists r hr,
         heap_reclaim_run m 1 h1 = Some (r, hr) /\
         if r =? 0 then m' = m /\ h2 = hr
         else heap_run_into_free_chunk bucket m hr = Some (m', h2)
     else if ty =? CHUNK_TYPE_FREE then
       exists r, heap_free_chunk_reuse bucket m h1 = Some (r, m', h2)
     else m' = m /\ h2 = h1) /\
    forall fuel,
      heap_reclaim_zone_garbage_loop (S fuel) bucket zid i h =
      heap_reclaim_zone_garbage_loop fuel bucket zid
        (wrap32 (chunk_id m' + size_idx m')) h2.
Proof.
  intros Hlt m h1 ty.
  assert (Hrun : forall (k : memory_block -> M unit),
             (h0 ← get_heap;
              if i <? zh_size_idx (header (ZID_TO_ZONE (mem h0) zid)) then
                let hdr := chunk_headers (ZID_TO_ZONE (mem h0) zid) i in
                let m := set_zone_id zid MEMORY_BLOCK_NONE in
                let m := set_chunk_id i m in
                let m := set_size_idx (hdr_size_idx hdr) m in
                m ← memblock_rebuild_state m;
                reinit_chunk (m_ops m) m;;
                h' ← get_heap;
                let ty := hdr_type (chunk_headers (ZID_TO_ZONE (mem h') zid) i) in
                m ← (if ty =? CHUNK_TYPE_RUN then
                       r ← heap_reclaim_run m 1;
                       if r =? 0 then mret m else heap_run_into_free_chunk bucket m
                     else if ty =? CHUNK_TYPE_FREE then
                       '(_, m') ← heap_free_chunk_reuse bucket m; mret m'
                     else mret m);
                k m
              else mret tt) h =
             (m ← (if ty =? CHUNK_TYPE_RUN then
                     r ← heap_reclaim_run m 1;
                     if r =? 0 then mret m else heap_run_into_free_chunk bucket m
                   else if ty =? CHUNK_TYPE_FREE then
                     '(_, m') ← heap_free_chunk_reuse bucket m; mret m'
                   else mret m);
              k m) h1).
  { intros k. unfold mbind at 1, M_bind at 1, get_heap at 1.
    apply Z.ltb_lt in Hlt. rewrite Hlt. cbv zeta.
    unfold memblock_rebuild_state, reinit_chunk.
    unfold mbind at 1, M_bind at 1. unfold mbind at 1, M_bind at 1.
    rewrite perform_run. cbv beta iota.
    unfold mret at 1, M_ret at 1. cbv beta iota.
    unfold mbind at 1, M_bind at 1. rewrite perform_run. cbv beta iota.
    unfold mbind at 1, M_bind at 1, get_heap at 1. cbv beta iota.
    reflexivity. }
  assert (Hstep : forall m' h2,
             (if ty =? CHUNK_TYPE_RUN then
                r ← heap_reclaim_run m 1;
                if r =? 0 then mret m else heap_run_into_free_chunk bucket m
              else if ty =? CHUNK_TYPE_FREE then
                '(_, m') ← heap_free_chunk_reuse bucket m; mret m'
              else mret m) h1 = Some (m', h2) ->
             forall fuel,
               heap_reclaim_zone_garbage_loop (S fuel) bucket zid i h =
               heap_reclaim_zone_garbage_loop fuel bucket zid
                 (wrap32 (chunk_id m' + size_idx m')) h2).
  { intros m' h2 E fuel.
    refine (eq_trans
              (Hrun (fun m => heap_reclaim_zone_garbage_loop fuel bucket zid
                                (wrap32 (chunk_id m + size_idx m)))) _).
    apply (bind_run _ (fun m => heap_reclaim_zone_garbage_loop fuel bucket zid
                                  (wrap32 (chunk_id m + size_idx m)))).
    exact E. }
  clear Hrun.
  destruct (ty =? CHUNK_TYPE_RUN) eqn:Hrun.
  - destruct (heap_reclaim_run_total m 1 h1) as [[r hr] Er].
    destruct (r =? 0) eqn:Hr.
    + exists m, hr. split; [exists r, hr; rewrite Hr; auto|].
      apply Hstep. rewrite (bind_run _ _ _ _ _ Er), Hr. reflexivity.
    + destruct (heap_run_into_free_chunk_total bucket m hr) as [[m' h2] Ef].
      exists m', h2. split; [exists r, hr; rewrite Hr; auto|].
      apply Hstep. rewrite (bind_run _ _ _ _ _ Er), Hr. exact Ef.
  - destruct (ty =? CHUNK_TYPE_FREE) eqn:Hfree.
    + destruct (heap_free_chunk_reuse_total bucket m h1) as [[[r m'] h2] Ef].
      exists m', h2. split; [exists r; exact Ef|].
      apply Hstep. rewrite (bind_run _ _ _ _ _ Ef). reflexivity.
    + exists m, h1. split; [auto|]. apply Hstep. reflexivity.
Qed.

(** C6, amended: [heap_reclaim_run] always returns, 1 or 0, and returns 1
    exactly for a run that is fully empty: its free space is the [nallocs]
    of the class that matches the run or, when no class matches, the number
    of bits of its bitmap.  For a run of a class that is not fully empty it
    returns 0, and [recycler_put] is called once, with the element of the
    run on the recycler of the class, when that recycler is there or can be
    created; the loss is logged when that call fails, and when the recycler
    cannot be obtained, in which case nothing is put.  During the scan of a
    zone a chunk of type RUN is reclaimed with [startup] 1: when the result
    is 0 the scan goes on after the run, otherwise the run is demoted to a
    free chunk of the bucket and the scan goes on after that chunk.  The
    calls made while looking for the neighbours of the chunk are assumed to
    leave the persistent layout as it is. *)
Theorem heap_reclaim_run_outcome :
  (forall m startup h,
     exists r h',
       heap_reclaim_run m startup h = Some (r, h') /\
       reclaim_run_outcome m h r h') /\
  (forall bucket zid i h,
     i < zh_size_idx (header (ZID_TO_ZONE (mem h) zid)) ->
     hdr_type (chunk_headers (ZID_TO_ZONE (mem (scan_visit zid i h)) zid) i) =
       CHUNK_TYPE_RUN ->
     exists r hr m' h2,
       heap_reclaim_run (scan_block zid i h) 1 (scan_visit zid i h) = Some (r, hr) /\
       reclaim_run_outcome (scan_block zid i h) (scan_visit zid i h) r hr /\
       (if r =? 0 then m' = scan_block zid i h /\ h2 = hr
        else run_demoted bucket (scan_block zid i h) hr m' h2) /\
       forall fuel,
         heap_reclaim_zone_garbage_loop (S fuel) bucket zid i h =
         heap_reclaim_zone_garbage_loop fuel bucket zid
           (wrap32 (chunk_id m' + size_idx m')) h2).
Proof.
  split.
  - intros m startup h.
    destruct (heap_reclaim_run_total m startup h) as [[r h'] E].
    exists r, h'. split; [exact E|]. apply (heap_reclaim_run_Some _ _ _ _ _ E).
  - intros bucket zid i h Hlt Hty.
    destruct (heap_reclaim_zone_garbage_loop_step bucket zid i h Hlt)
      as (m' & h2 & Hc & Hloop).
    cbv zeta in Hc. rewrite Hty, Z.eqb_refl in Hc.
    destruct Hc as (r & hr & Er & Hc).
    exists r, hr, m', h2. split; [exact Er|].
    split; [apply (heap_reclaim_run_Some _ _ _ _ _ Er)|].
    split; [|exact Hloop].
    destruct (r =? 0); [exact Hc|].
    apply heap_run_into_free_chunk_demoted. exact Hc.
Qed.

End ScanStep.

Section ScanStepSamples.
#[local] Existing Instance sample_layout.
#[local] Existing Instance sample_externals.

(** In [run_heap] the run of chunk 0 has 3 free cells out of 8:
    [heap_reclaim_run] returns 0 and its element is put into the recycler of
    the class.  In [empty_run_heap] the 8 cells of the run are free: the
    scan of the zone reclaims the run with the result 1 and demotes it to a
    free chunk. *)
Lemma heap_reclaim_run_outcome_witness :
  (exists h',
     heap_reclaim_run (run_block 0 0 0 1) 1 run_heap = Some (0, h') /\
     reclaim_run_outcome (run_block 0 0 0 1) run_heap 0 h' /\
     length (put_results (new_calls run_heap h')) = 1%nat) /\
  (exists hr m' h2,
     heap_reclaim_run (scan_block 0 0 empty_run_heap) 1
       (scan_visit 0 0 empty_run_heap) = Some (1, hr) /\
     run_demoted sample_default_bucket (scan_block 0 0 empty_run_heap) hr m' h2).
Proof.
  destruct (heap_reclaim_run_outcome sample_rebuild_volatile sample_remove_volatile)
    as [T1 T2].
  split.
  - destruct (T1 (run_block 0 0 0 1) 1 run_heap) as (r & h' & E & O).
    destruct (run_passes_Some (heap_reclaim_run (run_block 0 0 0 1) 1 run_heap)
                (fun r h' => (r =? 0) &&
                   (length (put_results (new_calls run_heap h')) =? 1)%nat))
      as (r0 & h0 & E0 & Hr); [vm_compute; reflexivity|].
    rewrite E in E0. injection E0 as <- <-.
    apply andb_prop in Hr. destruct Hr as [Hr Hn].
    apply Z.eqb_eq in Hr. subst r. apply Nat.eqb_eq in Hn.
    exists h'. auto.
  - destruct (T2 sample_default_bucket 0 0 empty_run_heap)
      as (r & hr & m' & h2 & E & _ & Hd & Hloop);
      [vm_compute; reflexivity|vm_compute; reflexivity|].
    destruct (run_passes_Some
                (heap_reclaim_run (scan_block 0 0 empty_run_heap) 1
                   (scan_visit 0 0 empty_run_heap))
                (fun r _ => r =? 1)) as (r0 & h0 & E0 & Hr);
      [vm_compute; reflexivity|].
    rewrite E in E0. injection E0 as <- <-.
    apply Z.eqb_eq in Hr. subst r.
    change (1 =? 0) with false in Hd.
    exists hr, m', h2. split; [exact E|]. exact Hd.
Defined.

End ScanStepSamples.

(** ** The scan of a consistent zone *)

Section ScanTiles.
Context `{HeapLayout} `{Externals}.
Hypothesis contract : memblock_contract.

Lemma contract_volatile op : writes_chunk_headers op = false -> volatile_only op.
Proof. destruct contract as [V _]. apply V. Qed.

Lemma contract_rebuild x : volatile_only (MemblockRebuildState x).
Proof. apply contract_volatile. reflexivity. Qed.

Lemma contract_remove b x : volatile_only (BucketRemoveBlock b x).
Proof. apply contract_volatile. reflexivity. Qed.

#[local] Instance same_layout_frame : Frame volatile_only same_layout.
Proof.
  split.
  - intros h. split; [reflexivity|]. split; [reflexivity|].
    apply (frame_refl (R:=same_zones)).
  - intros h1 h2 h3 (M1 & S1 & Z1) (M2 & S2 & Z2).
    split; [congruence|]. split; [congruence|].
    eapply (frame_trans (R:=same_zones)); eassumption.
  - intros op h V. split; [apply after_call_mem; exact V|].
    split; [reflexivity|]. apply (frame_call (R:=same_zones)). exact I.
  - intros msg h. split; [reflexivity|]. split; [reflexivity|].
    apply (frame_log (R:=same_zones)).
Qed.

Ltac layout_inst lemma :=
  eapply lemma;
  first [ typeclasses eauto
        | intros; apply contract_volatile; reflexivity
        | intros; split; [reflexivity|]; split; [reflexivity|];
          apply same_zones_set_recycler ].

Lemma heap_reclaim_run_same_layout m startup :
  keeps same_layout (heap_reclaim_run m startup).
Proof. layout_inst keeps_heap_reclaim_run. Qed.

Lemma heap_coalesce_huge_same_layout b m :
  keeps same_layout (heap_coalesce_huge b m).
Proof. layout_inst keeps_heap_coalesce_huge. Qed.

(** The neighbours that [heap_coalesce_huge] finds for a top-level chunk of
    a consistent zone are the top-level chunks next to it. *)
Lemma free_neighbour_prev l m x :
  let z := ZID_TO_ZONE l (zone_id m) in
  zone_consistent z -> top_level z (chunk_id m) ->
  free_neighbour l m 1 x ->
  top_level z (chunk_id x) /\
  size_idx x = hdr_size_idx (chunk_headers z (chunk_id x)) /\
  chunk_id x + size_idx x = chunk_id m.
Proof.
  intros z Hz T Hfree. unfold free_neighbour in Hfree. fold z in Hfree.
  change (1 =? 0) with false in Hfree. cbv iota in Hfree.
  destruct Hfree as (Hne & _ & _ & Hcx & Hsx).
  rewrite <- Hcx in Hsx.
  destruct (top_level_inv _ _ T) as [?|(q & Tq & Hq)]; [contradiction|].
  pose proof (top_level_range _ _ Hz Tq) as Hrq.
  pose proof Hz as [Hzs Hc]. destruct (Hc _ Tq) as (Hpq & Heq & Hfq).
  rewrite Hq, Hfq in Hcx.
  replace (q + hdr_size_idx (chunk_headers z q) - hdr_size_idx (chunk_headers z q))
    with q in Hcx by lia.
  rewrite wrap32_small in Hcx by lia.
  rewrite Hsx, Hcx.
  split; [exact Tq|]. split; [reflexivity|]. lia.
Qed.

Lemma free_neighbour_next l m x :
  let z := ZID_TO_ZONE l (zone_id m) in
  zone_consistent z -> top_level z (chunk_id m) ->
  size_idx m = hdr_size_idx (chunk_headers z (chunk_id m)) ->
  free_neighbour l m 0 x ->
  top_level z (chunk_id x) /\
  size_idx x = hdr_size_idx (chunk_headers z (chunk_id x)) /\
  chunk_id x = chunk_id m + size_idx m.
Proof.
  intros z Hz T Hsize Hfree. unfold free_neighbour in Hfree. fold z in Hfree.
  change (0 =? 0) with true in Hfree. cbv iota in Hfree.
  pose proof (top_level_range _ _ Hz T) as Hr.
  pose proof Hz as [Hzs Hc]. destruct (Hc _ T) as (Hp & He & _).
  rewrite <- Hsize in Hfree.
  rewrite wrap32_small in Hfree by lia.
  destruct Hfree as (Hne & _ & _ & Hcx & Hsx).
  rewrite <- Hcx in Hsx. rewrite Hsx, Hcx. split; [|auto].
  rewrite Hsize. apply top_level_next; [exact T|]. lia.
Qed.

(** [heap_free_chunk_reuse] on a top-level chunk of a consistent zone: the
    zone stays consistent, and the block that is inserted ends at a
    top-level chunk, or at the end of the zone. *)
Lemma heap_free_chunk_reuse_tiles bucket m h r nm h' :
  heap_free_chunk_reuse bucket m h = Some (r, nm, h') ->
  let z := ZID_TO_ZONE (mem h) (zone_id m) in
  zone_consistent z -> top_level z (chunk_id m) ->
  size_idx m = hdr_size_idx (chunk_headers z (chunk_id m)) ->
  let z' := ZID_TO_ZONE (mem h') (zone_id m) in
  header z' = header z /\ zone_consistent z' /\
  chunk_id m < chunk_id nm + size_idx nm <= zh_size_idx (header z) /\
  scan_position z' (chunk_id nm + size_idx nm).
Proof.
  intros E z Hz T Hsize z'.
  unfold heap_free_chunk_reuse in E. minv.
  match goal with
  | E1 : heap_coalesce_huge _ _ _ = Some _,
    E2 : (if _ then _ else _) _ = Some _,
    E3 : bucket_insert_block _ _ _ = Some _ |- _ =>
      pose proof (heap_coalesce_huge_Some contract_rebuild contract_remove
                    _ _ _ _ _ E1)
        as (Hm & Hrt & prev & next & rs1 & rs2 & evs & Hc & Hf & Hr & Hp & Hn & Hg);
      rename E2 into Eprep; rename E3 into Eins
  end.
  rename x into nm, x0 into hc, x2 into hp, x4 into hf.
  destruct Hg as (Hs & Hcid & Hzid & _).
  pose proof (top_level_range _ _ Hz T) as Hr0.
  pose proof Hz as [Hzs Hcons]. destruct (Hcons _ T) as (Hpos & Hend & _).
  assert (Hprev : forall p, prev = Some p ->
            top_level z (chunk_id p) /\ 0 < size_idx p /\
            chunk_id p + size_idx p = chunk_id m /\ zone_id p = zone_id m).
  { intros p ->.
    destruct (neighbour_outcome_Some _ _ _ _ _ _ p Hp eq_refl) as [Hfree _].
    pose proof (free_neighbour_zone _ _ _ _ Hfree) as Hzp.
    destruct (free_neighbour_prev _ _ _ Hz T Hfree) as (Tp & Hsp & Hep).
    destruct (Hcons _ Tp) as (Hpp & _ & _). fold z in Hsp.
    split; [exact Tp|]. split; [rewrite Hsp; exact Hpp|]. auto. }
  assert (Hnext : forall n, next = Some n ->
            top_level z (chunk_id n) /\ 0 < size_idx n /\
            chunk_id n = chunk_id m + size_idx m /\
            chunk_id n + size_idx n <= zh_size_idx (header z) /\
            scan_position z (chunk_id n + size_idx n)).
  { intros n ->.
    destruct (neighbour_outcome_Some _ _ _ _ _ _ n Hn eq_refl) as [Hfree _].
    destruct (free_neighbour_next _ _ _ Hz T Hsize Hfree) as (Tn & Hsn & Hcn).
    destruct (Hcons _ Tn) as (Hpn & Hen & _). fold z in Hsn.
    split; [exact Tn|]. split; [rewrite Hsn; exact Hpn|]. split; [exact Hcn|].
    rewrite Hsn. split; [exact Hen|].
    destruct (Z.eq_dec (chunk_id n + hdr_size_idx (chunk_headers z (chunk_id n)))
                (zh_size_idx (header z))) as [He|He]; [left; exact He|].
    right. apply top_level_next; [exact Tn|]. lia. }
  assert (Hpos_m : scan_position z (chunk_id m + size_idx m)).
  { rewrite Hsize.
    destruct (Z.eq_dec (chunk_id m + hdr_size_idx (chunk_headers z (chunk_id m)))
                (zh_size_idx (header z))) as [He|He]; [left; exact He|].
    right. apply top_level_next; [exact T|]. lia. }
  assert (Hblock : top_level z (chunk_id nm) /\ 0 < size_idx nm /\
                   chunk_id m < chunk_id nm + size_idx nm <= zh_size_idx (header z) /\
                   scan_position z (chunk_id nm + size_idx nm) /\
                   zone_id nm = zone_id m).
  { destruct prev as [p|], next as [n|]; simpl in Hs, Hcid, Hzid;
      try (destruct (Hprev p eq_refl) as (Tp & Hpp & Hep & Hzp);
           pose proof (top_level_range _ _ Hz Tp));
      try (destruct (Hnext n eq_refl) as (Tn & Hpn & Hcn & Hen & Hsn));
      rewrite Hcid, Hs, wrap32_small by lia;
      rewrite ?Hzid; repeat split; try assumption; try lia.
    - replace (chunk_id p + (size_idx p + (size_idx m + (size_idx n + 0))))
        with (chunk_id n + size_idx n) by lia. exact Hsn.
    - replace (chunk_id p + (size_idx p + (size_idx m + 0)))
        with (chunk_id m + size_idx m) by lia. exact Hpos_m.
    - replace (chunk_id m + (size_idx m + (size_idx n + 0)))
        with (chunk_id n + size_idx n) by lia. exact Hsn.
    - replace (chunk_id m + (size_idx m + 0))
        with (chunk_id m + size_idx m) by lia. exact Hpos_m. }
  destruct Hblock as (Tc & Hsz & Hrange & Hpos_e & Hzone).
  unfold bucket_insert_block in Eins. minv.
  subst z'. rewrite after_call_mem by (apply contract_volatile; reflexivity).
  destruct (size_idx nm =? size_idx m); minv.
  - rewrite Hm. fold z. auto.
  - unfold prep_hdr in *. minv.
    destruct contract as (_ & _ & Hprep & _).
    pose proof (Hprep (m_ops m) nm MEMBLOCK_FREE (mem hc) (vol hc) Hsz) as Hw.
    unfold block_written in Hw. rewrite Hzone, Hm in Hw. fold z in Hw.
    change (mem (after_call (PrepHdr (m_ops m) nm MEMBLOCK_FREE) hc))
      with (handle (PrepHdr (m_ops m) nm MEMBLOCK_FREE) (mem hc) (vol hc)).1.1.
    rewrite Hm.
    set (z' := ZID_TO_ZONE
                 (handle (PrepHdr (m_ops m) nm MEMBLOCK_FREE) (mem h) (vol hc)).1.1
                 (zone_id m)) in *.
    split; [exact (proj1 Hw)|].
    split; [eapply block_written_consistent; eassumption|].
    split; [exact Hrange|].
    destruct Hpos_e as [He|Te];
      [left; rewrite He; symmetry; f_equal; exact (proj1 Hw)|].
    right. eapply block_written_end; try eassumption.
    apply (top_level_lt _ _ Te).
Qed.

(** [heap_run_into_free_chunk] on a run that is a top-level chunk of a
    consistent zone. *)
Lemma heap_run_into_free_chunk_tiles bucket m h m' h' :
  heap_run_into_free_chunk bucket m h = Some (m', h') ->
  let z := ZID_TO_ZONE (mem h) (zone_id m) in
  zone_consistent z -> top_level z (chunk_id m) ->
  let z' := ZID_TO_ZONE (mem h') (zone_id m) in
  header z' = header z /\ zone_consistent z' /\
  chunk_id m < chunk_id m' + size_idx m' <= zh_size_idx (header z) /\
  scan_position z' (chunk_id m' + size_idx m').
Proof.
  intros E z Hz T z'.
  set (m0 := run_as_chunk m h).
  set (h1 := after_call (StatsSub heap_run_active (wrap64 (size_idx m0 * CHUNKSIZE))) h).
  set (lock := result_of (GetLock (m_ops m0) m0) h1).
  set (h2 := after_call (MutexLock lock) (after_call (GetLock (m_ops m0) m0) h1)).
  destruct (heap_run_into_free_chunk_Some _ _ _ _ _ E m0 h1 lock h2
              eq_refl eq_refl eq_refl eq_refl) as (r & h3 & Ef & ->).
  assert (Hm2 : mem h2 = mem h).
  { subst h2 h1.
    rewrite !after_call_mem by (apply contract_volatile; reflexivity).
    reflexivity. }
  pose proof (top_level_range _ _ Hz T) as Hr0.
  pose proof Hz as [Hzs Hcons]. destruct (Hcons _ T) as (Hpos & Hend & _).
  assert (Hpos_m : scan_position z
                     (chunk_id m + hdr_size_idx (chunk_headers z (chunk_id m)))).
  { destruct (Z.eq_dec (chunk_id m + hdr_size_idx (chunk_headers z (chunk_id m)))
                (zh_size_idx (header z))) as [He|He]; [left; exact He|].
    right. apply top_level_next; [exact T|]. lia. }
  assert (Hz2 : ZID_TO_ZONE (mem h2) (zone_id m) = z) by (rewrite Hm2; reflexivity).
  destruct contract as (_ & _ & _ & Hinit).
  destruct (Hinit (chunk_id m) (zone_id m)
              (hdr_size_idx (chunk_headers z (chunk_id m))) (mem h2) (vol h2) Hpos)
    as (Hw & Hc1 & Hz1 & Hs1).
  unfold block_written in Hw. rewrite Hz2 in Hw.
  set (hi := after_call (MemblockHugeInit (chunk_id m0) (zone_id m0) (size_idx m0)) h2)
    in *.
  set (m1 := result_of (MemblockHugeInit (chunk_id m0) (zone_id m0) (size_idx m0)) h2)
    in *.
  change (chunk_id m1 = chunk_id m) in Hc1.
  change (zone_id m1 = zone_id m) in Hz1.
  change (size_idx m1 = hdr_size_idx (chunk_headers z (chunk_id m))) in Hs1.
  change (zone_block_written z (ZID_TO_ZONE (mem hi) (zone_id m)) (chunk_id m)
            (hdr_size_idx (chunk_headers z (chunk_id m)))) in Hw.
  set (zi := ZID_TO_ZONE (mem hi) (zone_id m)) in *.
  assert (Hzi : zone_consistent zi)
    by (eapply block_written_consistent; eassumption).
  assert (Ti : top_level zi (chunk_id m))
    by (eapply (block_written_before z zi (chunk_id m)); [exact Hz|exact Hw|exact T|lia]).
  destruct Hw as (Hh & _ & Hsi & _).
  pose proof (heap_free_chunk_reuse_tiles _ _ _ _ _ _ Ef) as Ht.
  cbv zeta in Ht. rewrite Hz1, Hc1, Hs1 in Ht. fold zi in Ht.
  destruct (Ht Hzi Ti (eq_sym Hsi)) as (Hh' & Hc' & Hr' & Hp').
  subst z'. rewrite after_call_mem by (apply contract_volatile; reflexivity).
  rewrite Hh in Hr'.
  split; [congruence|]. split; [exact Hc'|]. split; [exact Hr'|exact Hp'].
Qed.

(** One chunk of the scan of a consistent zone: the zone stays consistent,
    and the scan goes on from a later top-level chunk, or from the end of
    the zone. *)
Lemma scan_step_tiles bucket zid i h :
  let z := ZID_TO_ZONE (mem h) zid in
  zone_consistent z -> top_level z i ->
  exists m' h2,
    chunk_reclaimed bucket zid i h m' h2 /\
    (forall fuel,
       heap_reclaim_zone_garbage_loop (S fuel) bucket zid i h =
       heap_reclaim_zone_garbage_loop fuel bucket zid
         (wrap32 (chunk_id m' + size_idx m')) h2) /\
    let z2 := ZID_TO_ZONE (mem h2) zid in
    header z2 = header z /\ zone_consistent z2 /\
    i < chunk_id m' + size_idx m' <= zh_size_idx (header z) /\
    scan_position z2 (chunk_id m' + size_idx m').
Proof.
  intros z Hz T.
  pose proof (top_level_lt _ _ T) as Hlt.
  destruct (heap_reclaim_zone_garbage_loop_step bucket zid i h Hlt)
    as (m' & h2 & Hc & Hloop).
  cbv zeta in Hc. unfold chunk_reclaimed.
  set (m := scan_block zid i h) in *. set (h1 := scan_visit zid i h) in *.
  assert (Hmz : zone_id m = zid) by reflexivity.
  assert (Hmc : chunk_id m = i) by reflexivity.
  assert (Hms : size_idx m = hdr_size_idx (chunk_headers z i)) by reflexivity.
  assert (S1 : same_chunk_sizes z (ZID_TO_ZONE (mem h1) zid)).
  { destruct contract as (_ & Hre & _).
    set (hreb := after_call (MemblockRebuildState (scan_block0 zid i h)) h).
    pose proof (Hre (m_ops m) m (mem hreb) (vol hreb)) as Hf.
    unfold footer_written in Hf. rewrite Hmz, Hmc in Hf.
    assert (Hzr : ZID_TO_ZONE (mem hreb) zid = z)
      by (subst hreb; rewrite after_call_mem by apply contract_rebuild;
          reflexivity).
    rewrite Hzr in Hf.
    eapply zone_footer_written_sizes; [exact Hz|exact T|exact Hf]. }
  set (z1 := ZID_TO_ZONE (mem h1) zid) in *.
  pose proof (same_chunk_sizes_consistent _ _ S1 Hz) as Hz1.
  pose proof (same_chunk_sizes_top_level _ _ _ S1 T) as T1.
  destruct S1 as [Hh1 Hs1].
  pose proof Hz as [Hzs Hcons]. destruct (Hcons _ T) as (Hpos & Hend & _).
  assert (Hstay : forall hx, mem hx = mem h1 ->
            let zx := ZID_TO_ZONE (mem hx) zid in
            header zx = header z /\ zone_consistent zx /\
            i < chunk_id m + size_idx m <= zh_size_idx (header z) /\
            scan_position zx (chunk_id m + size_idx m)).
  { intros hx Hx zx. subst zx. rewrite Hx. fold z1.
    split; [exact Hh1|]. split; [exact Hz1|]. rewrite Hmc, Hms.
    split; [lia|].
    destruct (Z.eq_dec (i + hdr_size_idx (chunk_headers z i))
                (zh_size_idx (header z))) as [He|He];
      [left; rewrite Hh1; exact He|].
    right. rewrite <- Hs1. apply top_level_next; [exact T1|].
    rewrite Hs1, Hh1. lia. }
  exists m', h2. split; [|split; [exact Hloop|]].
  - destruct (_ =? CHUNK_TYPE_RUN).
    + destruct Hc as (r & hr & Er & Hc). exists r, hr.
      split; [apply (heap_reclaim_run_Some _ _ _ _ _ Er)|].
      destruct (r =? 0); [exact Hc|].
      apply (heap_run_into_free_chunk_demoted contract_rebuild contract_remove).
      exact Hc.
    + destruct (_ =? CHUNK_TYPE_FREE); [|exact Hc].
      destruct Hc as (r & Ef). exists r.
      apply (heap_free_chunk_reuse_Some contract_rebuild contract_remove).
      exact Ef.
  - destruct (_ =? CHUNK_TYPE_RUN).
    + destruct Hc as (r & hr & Er & Hc).
      destruct (heap_reclaim_run_same_layout _ _ _ _ _ Er) as (Hmr & _).
      destruct (r =? 0).
      * destruct Hc as [-> ->]. apply Hstay. exact Hmr.
      * pose proof (heap_run_into_free_chunk_tiles _ _ _ _ _ Hc) as Ht.
        cbv zeta in Ht. rewrite Hmz, Hmc, Hmr in Ht. fold z1 in Ht.
        destruct (Ht Hz1 T1) as (Hh' & Hc' & Hr' & Hp').
        rewrite Hh1 in Hr'.
        split; [congruence|]. split; [exact Hc'|]. split; [exact Hr'|exact Hp'].
    + destruct (_ =? CHUNK_TYPE_FREE).
      * destruct Hc as (r & Ef).
        pose proof (heap_free_chunk_reuse_tiles _ _ _ _ _ _ Ef) as Ht.
        cbv zeta in Ht. rewrite Hmz, Hmc in Ht. fold z1 in Ht.
        rewrite Hs1 in Ht.
        destruct (Ht Hz1 T1 Hms) as (Hh' & Hc' & Hr' & Hp').
        rewrite Hh1 in Hr'.
        split; [congruence|]. split; [exact Hc'|]. split; [exact Hr'|exact Hp'].
      * destruct Hc as [-> ->]. apply Hstay. reflexivity.
Qed.

(** The scan of a consistent zone returns. *)
Lemma heap_reclaim_zone_garbage_loop_returns bucket zid (k : nat) :
  forall i h,
    let z := ZID_TO_ZONE (mem h) zid in
    zone_consistent z -> scan_position z i ->
    zh_size_idx (header z) - i <= Z.of_nat k ->
    forall fuel, (k < fuel)%nat ->
    exists n h',
      heap_reclaim_zone_garbage_loop fuel bucket zid i h = Some (tt, h') /\
      zone_scan bucket zid n i h h' /\
      header (ZID_TO_ZONE (mem h') zid) = header z.
Proof.
  induction k as [|k IH]; intros i h z Hz Hp Hk fuel Hfuel;
    (destruct fuel as [|fuel]; [lia|]).
  - destruct Hp as [He|Tp]; [|pose proof (top_level_lt _ _ Tp); lia].
    exists 0%nat, h. split.
    + simpl. unfold mbind, M_bind, get_heap. fold z.
      rewrite (proj2 (Z.ltb_ge _ _)) by lia. reflexivity.
    + split; [apply zone_scan_end; fold z; lia|reflexivity].
  - destruct Hp as [He|Tp].
    + exists 0%nat, h. split.
      * simpl. unfold mbind, M_bind, get_heap. fold z.
        rewrite (proj2 (Z.ltb_ge _ _)) by lia. reflexivity.
      * split; [apply zone_scan_end; fold z; lia|reflexivity].
    + destruct (scan_step_tiles bucket zid i h Hz Tp)
        as (m' & h2 & Hc & Hloop & Hh & Hz2 & Hr & Hp2).
      pose proof (top_level_range _ _ Hz Tp) as Hri.
      destruct Hz as [Hzs _].
      destruct (IH (chunk_id m' + size_idx m') h2 Hz2 Hp2) with (fuel := fuel)
        as (n & h' & El & Hs & Hh').
      { rewrite Hh. fold z. lia. }
      { lia. }
      exists (S n), h'. split; [|split].
      * rewrite Hloop, wrap32_small by (fold z in Hr; lia). exact El.
      * eapply zone_scan_chunk; [exact (top_level_lt _ _ Tp)|exact Hc|].
        rewrite wrap32_small by (fold z in Hr; lia). exact Hs.
      * rewrite Hh'. exact Hh.
Qed.

(** ** Populating a zone *)

Lemma heap_zone_init_run zid h :
  let n := zone_calc_size_idx zid (nzones (rt h)) (sizep h) in
  let hi := after_call (MemblockHugeInit 0 zid (wrap32 (n - 0))) h in
  heap_zone_init zid 0 h =
    Some (tt, after_call (WalPersistZoneHeader zid)
                (set_mem (set_zone_header zid
                            {| magic := ZONE_HEADER_MAGIC; zh_size_idx := n |}
                            (mem hi)) hi)).
Proof.
  intros n hi. destruct (heap_zone_init_total zid 0 h) as [[[] h'] E].
  rewrite E. unfold heap_zone_init in E. unfold_calls. minv. reflexivity.
Qed.

(** A zone that is one chunk is consistent. *)
Lemma single_chunk_consistent z n :
  zh_size_idx (header z) = n -> 0 < n < 2 ^ 32 ->
  hdr_size_idx (chunk_headers z 0) = n ->
  hdr_size_idx (chunk_headers z (n - 1)) = n ->
  zone_consistent z.
Proof.
  intros Hn Hr H0n Hfn.
  assert (Htop : forall i, top_level z i -> i = 0).
  { intros i T. induction T as [|i T IH Hlt]; [reflexivity|].
    subst i. rewrite H0n, Hn in Hlt. lia. }
  split; [lia|]. intros i T. rewrite (Htop i T), H0n, Hn.
  split; [lia|]. split; [lia|]. rewrite Z.add_0_l. exact Hfn.
Qed.

(** The zone at the start of the scan. *)
Lemma zone_initialized_consistent h :
  zone_ready h ->
  let zid := zones_exhausted (rt h) in
  let z1 := ZID_TO_ZONE (mem (zone_initialized h)) zid in
  zone_consistent z1 /\
  header z1 = {| magic := ZONE_HEADER_MAGIC; zh_size_idx := zone_chunks h |}.
Proof.
  intros Hready zid z1. subst z1.
  unfold zone_ready, zone_chunks, zone_initialized in *. fold zid in Hready |- *.
  destruct (Z.eqb_spec (magic (header (ZID_TO_ZONE (mem h) zid))) ZONE_HEADER_MAGIC)
    as [Hmag|Hmag].
  - split; [exact Hready|].
    change (mem (set_rt (set_zones_exhausted (wrap32 (zid + 1)) (rt h)) h))
      with (mem h).
    rewrite <- Hmag. destruct (header (ZID_TO_ZONE (mem h) zid)). reflexivity.
  - cbv zeta.
    set (n := zone_calc_size_idx zid (nzones (rt h)) (sizep h)) in *.
    set (h0 := set_rt (set_zones_exhausted (wrap32 (zid + 1)) (rt h)) h).
    set (hi := after_call (MemblockHugeInit 0 zid (wrap32 (n - 0))) h0).
    rewrite after_call_mem by (apply contract_volatile; reflexivity).
    change (ZID_TO_ZONE
              (mem (set_mem (set_zone_header zid
                               {| magic := ZONE_HEADER_MAGIC; zh_size_idx := n |}
                               (mem hi)) hi)) zid)
      with (zone0 (set_zone_header zid
                     {| magic := ZONE_HEADER_MAGIC; zh_size_idx := n |}
                     (mem hi)) zid).
    unfold set_zone_header. cbn [zone0]. rewrite Z.eqb_refl. cbn [header].
    split; [|reflexivity].
    destruct contract as (_ & _ & _ & Hinit).
    assert (Hw : wrap32 (n - 0) = n) by (rewrite Z.sub_0_r; apply wrap32_small; lia).
    destruct (Hinit 0 zid (wrap32 (n - 0)) (mem h0) (vol h0)) as (Hb & _);
      [rewrite Hw; lia|].
    destruct Hb as (_ & _ & Hfirst & Hlast).
    apply (single_chunk_consistent _ n); [reflexivity|lia|exact (eq_trans Hfirst Hw)|].
    replace (n - 1) with (0 + wrap32 (n - 0) - 1) by (rewrite Hw; lia).
    exact (eq_trans Hlast Hw).
Qed.

(** [heap_populate_bucket] on a zone that can be scanned. *)
Lemma heap_populate_bucket_populated fuel bucket h :
  0 <= zones_exhausted (rt h) <= nzones (rt h) ->
  nzones (rt h) < 2 ^ 32 ->
  (zones_exhausted (rt h) <> nzones (rt h) ->
   zone_ready h /\ zone_chunks h < Z.of_nat fuel) ->
  exists r h',
    heap_populate_bucket fuel bucket h = Some (r, h') /\
    populated bucket h r h'.
Proof.
  intros Hr Hn Hready.
  pose proof (heap_populate_bucket_outcome fuel bucket h) as O.
  unfold populate_outcome in O. unfold populated.
  destruct (Z.eqb_spec (zones_exhausted (rt h)) (nzones (rt h))) as [He|Hne].
  { exists ENOMEM, h. auto. }
  destruct (Hready Hne) as [Hzr Hfuel]. destruct O as (h1 & Hinit & O).
  set (zid := zones_exhausted (rt h)) in *.
  assert (Hh1 : h1 = zone_initialized h).
  { unfold zone_initialized. fold zid.
    destruct (magic (header (ZID_TO_ZONE (mem h) zid)) =? ZONE_HEADER_MAGIC);
      [exact Hinit|].
    rewrite heap_zone_init_run in Hinit. injection Hinit as <-. reflexivity. }
  subst h1.
  destruct (zone_initialized_consistent h Hzr) as [Hz1 Hhdr]. fold zid in Hz1, Hhdr.
  pose proof Hz1 as [Hzs _]. rewrite Hhdr in Hzs. cbn [zh_size_idx] in Hzs.
  destruct (heap_reclaim_zone_garbage_loop_returns bucket zid
              (Z.to_nat (zone_chunks h)) 0 (zone_initialized h) Hz1)
    with (fuel := fuel) as (n & h' & El & Hs & Hh').
  { destruct (Z.eq_dec (zone_chunks h) 0) as [Hz0|Hz0].
    - left. rewrite Hhdr. symmetry. exact Hz0.
    - right. apply top_level_first. rewrite Hhdr. cbn [zh_size_idx]. lia. }
  { rewrite Hhdr. cbn [zh_size_idx]. lia. }
  { lia. }
  unfold heap_reclaim_zone_garbage in O. rewrite El in O.
  destruct O as (E & Hnz & Hze).
  exists 0, h'. split; [exact E|]. split; [reflexivity|]. split; [exact Hnz|].
  split; [rewrite Hze, wrap32_small by lia; reflexivity|].
  split; [rewrite Hh'; exact Hhdr|]. exists n. exact Hs.
Qed.

(** ** Refilling the default bucket *)

Lemma foreach_run_into_free_chunk_total b r :
  total (foreach_run_into_free_chunk b r).
Proof.
  induction r as [|nm r IH]; simpl; [apply total_ret|].
  apply total_bind; [apply heap_run_into_free_chunk_total|intros; exact IH].
Qed.

Lemma heap_recycle_unused_total r defb force :
  total (heap_recycle_unused r defb force).
Proof.
  unfold heap_recycle_unused. unfold_calls.
  apply total_bind; [total_tac|]. intros l.
  destruct (bool_decide (l = [])); [apply total_ret|].
  apply total_bind; [apply total_get_heap|]. intros h'.
  destruct defb as [d|]; [|rewrite zoneset_bucket_acquire_default];
    (apply total_bind; [apply foreach_run_into_free_chunk_total|]);
    intros; apply total_ret.
Qed.

Lemma heap_reclaim_garbage_loop_total ids b ret :
  total (heap_reclaim_garbage_loop ids b ret).
Proof.
  revert ret. induction ids as [|i ids IH]; intros ret; simpl; [apply total_ret|].
  apply total_bind; [apply total_get_heap|]. intros h.
  destruct (recyclers (default_zset (rt h)) !! i); [|apply IH].
  apply total_bind; [apply heap_recycle_unused_total|]. intros x. apply IH.
Qed.

(** When no recycler gives empty runs, reclaiming the garbage leaves the
    layout and the runtime state as they are. *)
Lemma heap_reclaim_garbage_loop_failed ids b :
  forall ret h g h1,
    heap_reclaim_garbage_loop ids b ret h = Some (g, h1) -> g <> 0 ->
    ret <> 0 /\ mem h1 = mem h /\ sizep h1 = sizep h /\ rt h1 = rt h.
Proof.
  induction ids as [|i ids IH]; intros ret h g h1 E Hg; simpl in E.
  { minv. auto. }
  minv. destruct (recyclers (default_zset (rt h)) !! i) as [r|]; [|eauto].
  minv.
  match goal with E1 : heap_recycle_unused _ _ _ _ = Some (?x, ?hx) |- _ =>
    destruct (IH _ _ _ _ E Hg) as (Hx & Hm & Hs & Hr);
    destruct (Z.eqb_spec x 0) as [->|Hx0]; [contradiction|];
    unfold heap_recycle_unused in E1; unfold_calls; minv
  end.
  match goal with E1 : (if ?c then _ else _) _ = Some _ |- _ => destruct c end.
  - minv. rewrite Hm, Hs, Hr.
    rewrite after_call_mem by (apply contract_volatile; reflexivity). auto.
  - minv. contradiction.
Qed.

Lemma heap_reclaim_garbage_reclaimed b h g h1 :
  heap_reclaim_garbage b h = Some (g, h1) -> garbage_reclaimed h g h1.
Proof.
  intros E. pose proof (heap_reclaim_garbage_same_zones _ _ _ _ E) as Hz.
  unfold heap_reclaim_garbage in E.
  apply heap_reclaim_garbage_loop_Some in E; [|auto].
  destruct E as (Hg & evs & Hc & Hiff).
  split; [exact Hg|]. split; [|exact Hz].
  rewrite (new_calls_app _ _ _ Hc), Hiff.
  split; [intros [?|?]; [discriminate|assumption]|auto].
Qed.

(** [heap_ensure_huge_bucket_filled] when the zone to consume next can be
    scanned. *)
Lemma heap_ensure_huge_bucket_filled_refilled fuel bucket h :
  0 <= zones_exhausted (rt h) <= nzones (rt h) ->
  nzones (rt h) < 2 ^ 32 ->
  (zones_exhausted (rt h) <> nzones (rt h) ->
   zone_ready h /\ zone_chunks h < Z.of_nat fuel) ->
  exists r h',
    heap_ensure_huge_bucket_filled fuel bucket h = Some (r, h') /\
    huge_refilled bucket h r h'.
Proof.
  intros Hr Hn Hready.
  destruct (heap_reclaim_garbage_loop_total (seqZ 0 MAX_ALLOCATION_CLASSES)
              bucket ENOMEM h) as [[g h1] Eg].
  change (heap_reclaim_garbage bucket h = Some (g, h1)) in Eg.
  pose proof (heap_reclaim_garbage_reclaimed _ _ _ _ Eg) as Hg.
  unfold heap_ensure_huge_bucket_filled, huge_refilled.
  rewrite (bind_run _ _ _ _ _ Eg).
  destruct (Z.eqb_spec g 0) as [Hg0|Hg0].
  { exists 0, h1. split; [reflexivity|]. exists g, h1. split; [exact Hg|].
    apply Z.eqb_eq in Hg0. rewrite Hg0. auto. }
  destruct (heap_reclaim_garbage_loop_failed _ _ _ _ _ _ Eg Hg0)
    as (_ & Hm & Hs & Hrt).
  assert (Hready1 : zones_exhausted (rt h1) <> nzones (rt h1) ->
                    zone_ready h1 /\ zone_chunks h1 < Z.of_nat fuel).
  { unfold zone_ready, zone_chunks. rewrite Hm, Hs, Hrt. exact Hready. }
  destruct (heap_populate_bucket_populated fuel bucket h1) as (p1 & h2 & E1 & P1);
    [rewrite Hrt; exact Hr|rewrite Hrt; exact Hn|exact Hready1|].
  rewrite (bind_run _ _ _ _ _ E1).
  destruct (Z.eqb_spec p1 0) as [Hp1|Hp1].
  { exists 0, h2. split; [reflexivity|]. exists g, h1. split; [exact Hg|].
    apply Z.eqb_neq in Hg0. rewrite Hg0. exists p1, h2. split; [exact P1|].
    apply Z.eqb_eq in Hp1. rewrite Hp1. auto. }
  assert (Hh2 : h2 = h1).
  { unfold populated in P1.
    destruct (zones_exhausted (rt h1) =? nzones (rt h1)); [apply P1|].
    destruct P1 as [? _]. contradiction. }
  subst h2.
  destruct (heap_populate_bucket_populated fuel bucket h1) as (p2 & h3 & E2 & P2);
    [rewrite Hrt; exact Hr|rewrite Hrt; exact Hn|exact Hready1|].
  rewrite (bind_run _ _ _ _ _ E2).
  exists (if p2 =? 0 then 0 else ENOMEM), h3.
  split; [destruct (p2 =? 0); reflexivity|].
  exists g, h1. split; [exact Hg|].
  apply Z.eqb_neq in Hg0. rewrite Hg0. exists p1, h1. split; [exact P1|].
  apply Z.eqb_neq in Hp1. rewrite Hp1. exists p2. split; [exact P2|reflexivity].
Qed.

Lemma populated_bounds bucket h r h' :
  populated bucket h r h' ->
  0 <= zones_exhausted (rt h) <= nzones (rt h) ->
  (r = ENOMEM <-> zones_exhausted (rt h) = nzones (rt h)) /\
  0 <= zones_exhausted (rt h') <= nzones (rt h') /\
  nzones (rt h') = nzones (rt h).
Proof.
  unfold populated. intros P Hr.
  destruct (Z.eqb_spec (zones_exhausted (rt h)) (nzones (rt h))) as [He|Hne].
  - destruct P as [-> ->]. tauto.
  - destruct P as (-> & Hn & Hz & _). rewrite Hn, Hz.
    split; [split; [discriminate|contradiction]|]. split; [lia|reflexivity].
Qed.

Lemma huge_refilled_bounds bucket h r h' :
  huge_refilled bucket h r h' ->
  0 <= zones_exhausted (rt h) <= nzones (rt h) ->
  0 <= zones_exhausted (rt h') <= nzones (rt h').
Proof.
  intros (g & h1 & (_ & _ & Hn & Hz & _) & O) Hr.
  assert (Hr1 : 0 <= zones_exhausted (rt h1) <= nzones (rt h1))
    by (rewrite Hn, Hz; exact Hr).
  destruct (g =? 0); [destruct O as [_ ->]; exact Hr1|].
  destruct O as (p1 & h2 & P1 & O).
  pose proof (populated_bounds _ _ _ _ P1 Hr1) as (_ & Hr2 & _).
  destruct (p1 =? 0); [destruct O as [_ ->]; exact Hr2|].
  destruct O as (p2 & P2 & _).
  apply (populated_bounds _ _ _ _ P2 Hr2).
Qed.


End ScanTiles.

Section PopulateSamples2.
#[local] Existing Instance sample_layout.
#[local] Existing Instance sample_externals.

Lemma set_block_headers_written zid c s hdr l :
  0 < s -> hdr_size_idx hdr = s ->
  block_written l (set_block_headers zid c s hdr l) zid c s.
Proof.
  intros Hs Hh. unfold block_written, zone_block_written, ZID_TO_ZONE, set_block_headers.
  destruct (Z.ltb_spec 1 s) as [H1|H1]; simpl; rewrite (Z.eqb_refl zid); simpl.
  - split; [reflexivity|]. split; [|split].
    + intros k Hk.
      destruct (Z.eqb_spec k c); [lia|].
      destruct (Z.eqb_spec k (c + s - 1)); [lia|reflexivity].
    + rewrite (Z.eqb_refl c). exact Hh.
    + destruct (Z.eqb_spec (c + s - 1) c); [exact Hh|].
      rewrite (Z.eqb_refl (c + s - 1)). reflexivity.
  - split; [reflexivity|]. split; [|split].
    + intros k Hk. destruct (Z.eqb_spec k c); [lia|reflexivity].
    + rewrite (Z.eqb_refl c). exact Hh.
    + replace (c + s - 1) with c by lia. rewrite (Z.eqb_refl c). exact Hh.
Qed.

(** The sample modules write headers and footers as [heap.c] expects. *)
Lemma sample_memblock_contract : memblock_contract.
Proof.
  split; [|split; [|split]].
  - intros op Hop l v.
    destruct op; try discriminate Hop; simpl;
      repeat match goal with
             | |- context [match ?x with _ => _ end] => destruct x
             end; reflexivity.
  - intros o m l v. split; [reflexivity|]. intros k. left. reflexivity.
  - intros o m st l v Hs. simpl.
    apply set_block_headers_written; [exact Hs|reflexivity].
  - intros c z s l v Hs. simpl. split; [|repeat split].
    apply set_block_headers_written; [exact Hs|reflexivity].
Qed.

(** The scan of a zone whose only chunk is USED with no size never ends. *)
Lemma zero_used_zone_scan (fuel : nat) (h : palloc_heap) :
  mem h = mem zero_used_heap ->
  heap_reclaim_zone_garbage_loop fuel sample_default_bucket 0 0 h = None.
Proof.
  revert h. induction fuel as [|fuel IH]; intros h Hm; [reflexivity|].
  destruct (heap_reclaim_zone_garbage_loop_step sample_default_bucket 0 0 h)
    as (m' & h2 & Hc & Hloop).
  { rewrite Hm. vm_compute. reflexivity. }
  assert (Hm1 : mem (scan_visit 0 0 h) = mem zero_used_heap)
    by (rewrite <- Hm; reflexivity).
  rewrite Hm1 in Hc.
  change (hdr_type (chunk_headers (ZID_TO_ZONE (mem zero_used_heap) 0) 0)) with 3 in Hc.
  change (3 =? CHUNK_TYPE_RUN) with false in Hc.
  change (3 =? CHUNK_TYPE_FREE) with false in Hc.
  cbv iota in Hc. destruct Hc as [-> ->].
  rewrite Hloop.
  replace (wrap32 (chunk_id (scan_block 0 0 h) + size_idx (scan_block 0 0 h))) with 0.
  - apply IH. exact Hm1.
  - unfold scan_block, scan_block0. simpl. rewrite Hm. reflexivity.
Qed.



End PopulateSamples2.

(** ** The refill of the bucket of a run class, step by step *)

Section RunRefilled.
Context `{HeapLayout} `{Externals}.

Lemma bind_none {A B} (f : M A) (k : A -> M B) h :
  f h = None -> (f ≫= k) h = None.
Proof. intros E. unfold mbind, M_bind. rewrite E. reflexivity. Qed.

Lemma get_calls_app l1 l2 : get_calls (l1 ++ l2) = get_calls l1 ++ get_calls l2.
Proof. unfold get_calls. apply omap_app. Qed.

Lemma get_calls_none evs : Forall not_get evs -> get_calls evs = [].
Proof.
  induction 1 as [|e evs He _ IH]; [reflexivity|].
  change (e :: evs) with ([e] ++ evs).
  rewrite get_calls_app, IH, app_nil_r.
  destruct e as [[] ?|]; try reflexivity. destruct He.
Qed.

Lemma log_same (h h' : palloc_heap) e1 e2 :
  calls h' = calls h ++ e1 -> calls h' = calls h ++ e2 -> e1 = e2.
Proof. intros E1 E2. rewrite E1 in E2. exact (app_inv_head _ _ _ E2). Qed.

(** [heap_get_recycler] calls none of [recycler_get], [recycler_recalc] and
    [bucket_attach_run]. *)
Lemma heap_get_recycler_quiet id n h o h' :
  heap_get_recycler id n h = Some (o, h') ->
  exists evs,
    calls h' = calls h ++ evs /\
    get_calls evs = [] /\ attach_calls evs = [] /\ recalc_calls evs = [].
Proof.
  intros E.
  assert (Ha : keeps (log_only not_attach) (heap_get_recycler id n))
    by (frame_inst keeps_heap_get_recycler).
  assert (Hg : keeps (log_only not_get) (heap_get_recycler id n))
    by (frame_inst keeps_heap_get_recycler).
  assert (Hr : keeps (log_only not_recalc) (heap_get_recycler id n))
    by (frame_inst keeps_heap_get_recycler).
  destruct (Ha _ _ _ E) as (e1 & C1 & F1).
  destruct (Hg _ _ _ E) as (e2 & C2 & F2).
  destruct (Hr _ _ _ E) as (e3 & C3 & F3).
  rewrite (log_same _ _ _ _ C2 C1) in F2. rewrite (log_same _ _ _ _ C3 C1) in F3.
  exists e1. split; [exact C1|].
  split; [apply get_calls_none, F2|].
  split; [apply attach_calls_none, F1|apply recalc_calls_none, F3].
Qed.

(** [heap_recycle_unused] calls [recycler_recalc] once, and neither
    [recycler_get] nor [bucket_attach_run]; the runtime state stays. *)
Lemma heap_recycle_unused_quiet r defb force h x h' :
  heap_recycle_unused r defb force h = Some (x, h') ->
  rt h' = rt h /\
  exists evs,
    calls h' = calls h ++ evs /\
    get_calls evs = [] /\ attach_calls evs = [] /\ recalc_calls evs = [(r, force)].
Proof.
  intros E.
  assert (Ha : keeps (log_only not_attach) (heap_recycle_unused r defb force))
    by (frame_inst keeps_heap_recycle_unused).
  assert (Hg : keeps (log_only not_get) (heap_recycle_unused r defb force))
    by (frame_inst keeps_heap_recycle_unused).
  destruct (Ha _ _ _ E) as (e1 & C1 & F1).
  destruct (Hg _ _ _ E) as (e2 & C2 & F2).
  rewrite (log_same _ _ _ _ C2 C1) in F2.
  destruct (heap_recycle_unused_Some _ _ _ _ _ _ E) as (_ & l & e3 & C3 & F3 & _).
  destruct (heap_recycle_unused_same_rt _ _ _ _ _ _ E) as [Hrt _].
  split; [exact Hrt|].
  exists e1. split; [exact C1|].
  split; [apply get_calls_none, F2|].
  split; [apply attach_calls_none, F1|].
  rewrite (log_same _ _ _ _ C1 C3), recalc_calls_app, (recalc_calls_none _ F3).
  reflexivity.
Qed.

Lemma heap_reuse_from_recycler_total b units force :
  total (heap_reuse_from_recycler b units force).
Proof.
  unfold heap_reuse_from_recycler. unfold_calls.
  apply total_bind; [apply heap_get_recycler_total|]. intros [rc|]; [|total_tac].
  apply total_bind; [total_tac|]. intros [[] m]; [total_tac|].
  apply total_bind; [apply heap_recycle_unused_total|]. intros _. total_tac.
Qed.

Lemma heap_reuse_from_recycler_Some b units h r h' :
  heap_reuse_from_recycler b units 0 h = Some (r, h') ->
  run_reused b units h r h'.
Proof.
  intros E. unfold heap_reuse_from_recycler in E. unfold run_reused.
  minv.
  match goal with E0 : heap_get_recycler _ _ _ = Some (?o, ?ha) |- _ =>
    destruct (heap_get_recycler_Some _ _ _ _ _ E0) as [Hrc _];
    destruct (heap_get_recycler_quiet _ _ _ _ _ E0) as (e0 & C0 & G0 & A0 & R0);
    destruct o as [rc|]
  end.
  - change (0 =? 0) with true in E. cbv iota in E. unfold_calls. minv.
    match goal with H2 : _ = Some (_, _, _) |- _ =>
      destruct (result_of (RecyclerGet rc (set_size_idx units MEMORY_BLOCK_NONE)) _)
        as [g1 m1] eqn:Hget in H2; minv
    end.
    change (bucket_alloc_class b) with (aclass b) in Hrc.
        destruct (g1 =? 0) eqn:Hg1; minv.
    + simpl. rewrite Hrc. exists g1, m1. rewrite Hg1.
      erewrite new_calls_app by (simpl; rewrite C0, <- ?app_assoc; reflexivity).
      rewrite !get_calls_app, !recalc_calls_app, !attach_calls_app, G0, A0, R0.
      simpl. repeat split. rewrite <- Hget. reflexivity.
    + match goal with E1 : heap_recycle_unused _ _ _ _ = Some (_, ?hb) |- _ =>
        destruct (heap_recycle_unused_quiet _ _ _ _ _ _ E1)
          as (Hrt & e1 & C1 & G1 & A1 & R1) end.
      simpl in Hrt, C1.
      match type of E with context [result_of (RecyclerGet rc m1) ?hb] =>
        destruct (result_of (RecyclerGet rc m1) hb) as [g2 m2] eqn:Hget2 end.
      simpl in E.
      assert (Hrc' : recyclers (default_zset (rt h')) !! ac_id (aclass b) = Some rc).
      { destruct (g2 =? 0); minv; simpl; rewrite Hrt; exact Hrc. }
      rewrite Hrc'. exists g1, m1. rewrite Hg1. exists g2, m2.
      destruct (g2 =? 0) eqn:Hg2; minv;
        (erewrite new_calls_app
           by (simpl; rewrite C1; simpl; rewrite C0, <- ?app_assoc; reflexivity));
        rewrite !get_calls_app, !recalc_calls_app, !attach_calls_app,
          G0, A0, R0, G1, A1, R1;
        simpl; repeat split; rewrite <- Hget, <- Hget2; reflexivity.
  - unfold_calls. minv.
    change (bucket_alloc_class b) with (aclass b) in Hrc. simpl. rewrite Hrc.
    erewrite new_calls_app by (simpl; rewrite C0, <- ?app_assoc; reflexivity).
    split; [reflexivity|]. split; [apply in_or_app; right; left; reflexivity|].
    rewrite get_calls_app, attach_calls_app, G0, A0. split; reflexivity.
Qed.

Lemma heap_run_create_created b m h :
  let m' := result_of (MemblockRunInit (chunk_id m) (zone_id m) (rdsc (aclass b))) h in
  exists h', heap_run_create b m h = Some (0, m', h') /\ run_created b m h m' h'.
Proof.
  intros m'. eexists. split; [|split; reflexivity].
  unfold heap_run_create. unfold_calls.
  unfold mbind at 1, M_bind at 1. rewrite perform_run. cbv beta iota.
  unfold mbind at 1, M_bind at 1. rewrite perform_run. cbv beta iota.
  unfold mbind at 1, M_bind at 1. rewrite perform_run. cbv beta iota.
  reflexivity.
Qed.

Hypothesis rebuild_volatile : forall x, volatile_only (MemblockRebuildState x).
Hypothesis remove_volatile : forall b x, volatile_only (BucketRemoveBlock b x).

Lemma heap_discard_run_total m : total (heap_discard_run m).
Proof.
  unfold heap_discard_run.
  apply total_bind; [apply total_get_heap|]. intros h0.
  apply total_bind; [apply heap_reclaim_run_total|]. intros r.
  destruct (r =? 0); [apply total_ret|].
  rewrite zoneset_bucket_acquire_default. apply heap_run_into_free_chunk_total.
Qed.

Lemma heap_discard_run_Some m h m' h' :
  heap_discard_run m h = Some (m', h') -> run_discarded m h h'.
Proof.
  intros E. unfold heap_discard_run in E. minv.
  match goal with E0 : heap_reclaim_run _ _ _ = Some (?r, ?hr) |- _ =>
    exists r, hr; split; [exact (heap_reclaim_run_Some _ _ _ _ _ E0)|];
    destruct (r =? 0); minv; [reflexivity|]
  end.
  rewrite zoneset_bucket_acquire_default in E. minv.
  exists m'.
  apply (heap_run_into_free_chunk_demoted rebuild_volatile remove_volatile).
  exact E.
Qed.

Lemma heap_detach_and_try_discard_run_detached b h :
  exists d h',
    heap_detach_and_try_discard_run b h = Some (d, h') /\ run_detached b h d h'.
Proof.
  unfold heap_detach_and_try_discard_run, run_detached. unfold_calls.
  unfold mbind at 1, M_bind at 1. rewrite perform_run. cbv beta iota.
  destruct (result_of (BucketDetachRun b) h) as [[r m] empty].
  destruct (r =? 0); [|eexists _, _; split; [reflexivity|auto]].
  destruct (empty =? 0); [eexists _, _; split; [reflexivity|auto]|].
  destruct (heap_discard_run_total m (after_call (BucketDetachRun b) h))
    as [[m' h'] E].
  exists 0, h'. split.
  - unfold mbind, M_bind. rewrite E. reflexivity.
  - split; [reflexivity|]. exact (heap_discard_run_Some _ _ _ _ E).
Qed.

Lemma heap_reuse_from_recycler_reused b units h :
  exists r h',
    heap_reuse_from_recycler b units 0 h = Some (r, h') /\ run_reused b units h r h'.
Proof.
  destruct (heap_reuse_from_recycler_total b units 0 h) as [[r h'] E].
  exists r, h'. split; [exact E|]. exact (heap_reuse_from_recycler_Some _ _ _ _ _ E).
Qed.

(** The scan of a zone that returns has reclaimed each chunk it visited. *)
Lemma heap_reclaim_zone_garbage_loop_scanned bucket zid fuel :
  forall i h h',
    heap_reclaim_zone_garbage_loop fuel bucket zid i h = Some (tt, h') ->
    exists n, zone_scan bucket zid n i h h'.
Proof.
  induction fuel as [|fuel IH]; intros i h h' E; [discriminate E|].
  destruct (Z.ltb_spec i (zh_size_idx (header (ZID_TO_ZONE (mem h) zid))))
    as [Hlt|Hge].
  - destruct (heap_reclaim_zone_garbage_loop_step bucket zid i h Hlt)
      as (m' & h2 & Hc & Hloop).
    rewrite Hloop in E. destruct (IH _ _ _ E) as [n Hs].
    exists (S n). eapply zone_scan_chunk; [exact Hlt| |exact Hs].
    cbv zeta in Hc. unfold chunk_reclaimed.
    destruct (_ =? CHUNK_TYPE_RUN).
    + destruct Hc as (r & hr & Er & Hc). exists r, hr.
      split; [exact (heap_reclaim_run_Some _ _ _ _ _ Er)|].
      destruct (r =? 0); [exact Hc|].
      apply (heap_run_into_free_chunk_demoted rebuild_volatile remove_volatile).
      exact Hc.
    + destruct (_ =? CHUNK_TYPE_FREE); [|exact Hc].
      destruct Hc as (r & Ef). exists r.
      apply (heap_free_chunk_reuse_Some rebuild_volatile remove_volatile).
      exact Ef.
  - exists 0%nat. simpl in E. unfold mbind, M_bind, get_heap in E.
    rewrite (proj2 (Z.ltb_ge _ _) Hge) in E. injection E as <-.
    apply zone_scan_end. exact Hge.
Qed.

Lemma heap_populate_bucket_zone_populated fuel bucket h p h' :
  heap_populate_bucket fuel bucket h = Some (p, h') ->
  zone_populated bucket h p h'.
Proof.
  intros E.
  pose proof (heap_populate_bucket_outcome fuel bucket h) as O.
  unfold populate_outcome in O. unfold zone_populated.
  destruct (zones_exhausted (rt h) =? nzones (rt h)).
  { rewrite O in E. injection E as <- <-. auto. }
  destruct O as (h1 & Hinit & O).
  assert (Hh1 : h1 = zone_initialized h).
  { unfold zone_initialized.
    destruct (magic (header (ZID_TO_ZONE (mem h) (zones_exhausted (rt h)))) =?
              ZONE_HEADER_MAGIC); [exact Hinit|].
    rewrite heap_zone_init_run in Hinit. injection Hinit as <-. reflexivity. }
  subst h1. unfold heap_reclaim_zone_garbage in O.
  destruct (heap_reclaim_zone_garbage_loop _ _ _ _ _) as [[[] h2]|] eqn:El;
    [|rewrite O in E; discriminate E].
  destruct O as (E2 & Hn & Hz). rewrite E2 in E. injection E as <- <-.
  split; [exact Hn|]. split; [reflexivity|]. split; [exact Hz|].
  eapply heap_reclaim_zone_garbage_loop_scanned. exact El.
Qed.

(** [heap_ensure_run_bucket_filled], attempt by attempt. *)
Lemma heap_ensure_run_bucket_filled_refilled fuel b units h :
  run_refilled fuel b units h (heap_ensure_run_bucket_filled fuel b units h).
Proof.
  remember (heap_ensure_run_bucket_filled fuel b units h) as res eqn:Hres.
  unfold heap_ensure_run_bucket_filled, heap_ensure_run_bucket_filled_with in Hres.
  cbv zeta in Hres. unfold run_refilled. cbv zeta.
  destruct (heap_detach_and_try_discard_run_detached b h) as (d & h1 & E1 & D1).
  exists d, h1. split; [exact D1|].
  rewrite (bind_run _ _ _ _ _ E1) in Hres.
  destruct (d =? 0); [|exact Hres].
  destruct (heap_reuse_from_recycler_reused b units h1) as (r1 & h2 & E2 & U2).
  exists r1, h2. split; [exact U2|].
  rewrite (bind_run _ _ _ _ _ E2) in Hres.
  destruct (r1 =? 0); [exact Hres|].
  unfold mbind at 1, M_bind at 1, get_heap at 1 in Hres. cbv beta iota in Hres.
  rewrite zoneset_bucket_acquire_default in Hres.
  destruct (heap_populate_bucket fuel (default_bucket (default_zset (rt h2))) h2)
    as [[p h3]|] eqn:E3; [|rewrite (bind_none _ _ _ E3) in Hres; exact Hres].
  split; [exact (heap_populate_bucket_zone_populated _ _ _ _ _ E3)|].
  rewrite (bind_run _ _ _ _ _ E3) in Hres.
  destruct (heap_reuse_from_recycler_reused b units h3) as (r2 & h4 & E4 & U4).
  exists r2, h4. split; [exact U4|].
  rewrite (bind_run _ _ _ _ _ E4) in Hres.
  destruct (r2 =? 0); [exact Hres|].
  unfold mbind at 1, M_bind at 1, get_heap at 1 in Hres. cbv beta iota in Hres.
  rewrite zoneset_bucket_acquire_default in Hres.
  change (bucket_alloc_class b) with (aclass b) in Hres.
  destruct (heap_get_bestfit_block fuel (default_bucket (default_zset (rt h4)))
              (set_size_idx (rdsc_size_idx (rdsc (aclass b))) MEMORY_BLOCK_NONE) h4)
    as [[[g m] h5]|] eqn:E5; [|rewrite (bind_none _ _ _ E5) in Hres; exact Hres].
  rewrite (bind_run _ _ _ _ _ E5) in Hres. cbv beta iota in Hres.
  unfold heap_get_bestfit_block in E5.
  destruct (heap_get_bestfit_block_loop_Some _ _ _ _ _ _ _ _ E5) as (Hg & Hs & Hf).
  destruct (Z.eqb_spec g 0) as [->|Hg0].
  - destruct (Hs eq_refl) as (Hsz & _ & Hb).
    split; [exact Hsz|]. split; [exact Hb|].
    destruct (heap_run_create_created b m h5) as (h6 & E6 & C6).
    eexists _, h6. split; [exact C6|].
    rewrite (bind_run _ _ _ _ _ E6) in Hres. exact Hres.
  - split; [apply Hf; destruct Hg; [contradiction|assumption]|].
    destruct (heap_reuse_from_recycler_reused b units h5) as (r3 & h6 & E6 & U6).
    exists r3, h6. split; [exact U6|].
    rewrite (bind_run _ _ _ _ _ E6) in Hres.
    destruct (r3 =? 0); exact Hres.
Qed.

(** C3: [heap_ensure_run_bucket_filled] first detaches the active run of
    the bucket, and discards it when the bucket reports it empty: the run is
    reclaimed, and demoted to a free chunk of the default bucket when no
    allocation is left in it.  When the detach fails it returns ENOMEM.  It
    then tries, in this order and until one gives 0: a run of the recycler of
    the class; after one more zone is populated into the default bucket, a
    run of the recycler again; a new run, made by [memblock_run_init] and
    attached to the bucket, on a block of [rdsc.size_idx] chunks that the
    best fit of the default bucket gives; a run of the recycler once more.
    It returns 0 with the first attempt that gives 0, which an attempt that
    attaches a run does unless [bucket_attach_run] fails, and ENOMEM when the
    detach or all the attempts have failed; it has a result whenever the
    population of the zone and the best fit have one.  The calls made while
    looking for the neighbours of a chunk are assumed to leave the
    persistent layout as it is. *)
Theorem heap_ensure_run_bucket_filled_attempts
    (fuel : nat) (b : bucket) (units : Z) (h : palloc_heap) :
  run_refilled fuel b units h (heap_ensure_run_bucket_filled fuel b units h) /\
  forall ret h',
    heap_ensure_run_bucket_filled fuel b units h = Some (ret, h') ->
    ret = 0 \/ ret = ENOMEM.
Proof.
  pose proof (heap_ensure_run_bucket_filled_refilled fuel b units h) as R.
  split; [exact R|]. intros ret h' E. rewrite E in R.
  destruct R as (d & h1 & _ & R).
  destruct (d =? 0); [|injection R as -> _; auto].
  destruct R as (r1 & h2 & _ & R).
  destruct (r1 =? 0); [injection R as -> _; auto|].
  destruct (heap_populate_bucket _ _ _) as [[p h3]|]; [|discriminate R].
  destruct R as (_ & r2 & h4 & _ & R).
  destruct (r2 =? 0); [injection R as -> _; auto|].
  cbv zeta in R.
  destruct (heap_get_bestfit_block _ _ _ _) as [[[g m] h5]|]; [|discriminate R].
  destruct (g =? 0).
  - destruct R as (_ & _ & m' & h6 & _ & R). injection R as -> _. auto.
  - destruct R as (_ & r3 & h6 & _ & R). injection R as -> _.
    destruct (r3 =? 0); auto.
Qed.

End RunRefilled.

Section RunRefilledSamples.
#[local] Existing Instance sample_layout.
#[local] Existing Instance sample_externals.

(** In [fresh_ten_heap] the bucket of the sample run class is refilled: no
    run is in the recycler, before or after the zone is populated, and a run
    is created on a block of the default bucket.  In [run_heap] the only
    zone is consumed and the default bucket is empty: every attempt fails
    and the result is ENOMEM. *)
Lemma heap_ensure_run_bucket_filled_attempts_witness :
  (exists h',
     heap_ensure_run_bucket_filled 10 sample_run_bucket 1 fresh_ten_heap =
       Some (0, h') /\
     run_refilled 10 sample_run_bucket 1 fresh_ten_heap (Some (0, h'))) /\
  (exists h',
     heap_ensure_run_bucket_filled 10 sample_run_bucket 1 run_heap =
       Some (ENOMEM, h') /\
     run_refilled 10 sample_run_bucket 1 run_heap (Some (ENOMEM, h'))).
Proof.
  split.
  - destruct (run_passes_Some
                (heap_ensure_run_bucket_filled 10 sample_run_bucket 1 fresh_ten_heap)
                (fun r _ => r =? 0)) as (r & h' & E & Hr); [vm_compute; reflexivity|].
    apply Z.eqb_eq in Hr. subst r. exists h'. split; [exact E|].
    rewrite <- E.
    apply (heap_ensure_run_bucket_filled_attempts
             sample_rebuild_volatile sample_remove_volatile
             10 sample_run_bucket 1 fresh_ten_heap).
  - destruct (run_passes_Some
                (heap_ensure_run_bucket_filled 10 sample_run_bucket 1 run_heap)
                (fun r _ => r =? ENOMEM)) as (r & h' & E & Hr);
      [vm_compute; reflexivity|].
    apply Z.eqb_eq in Hr. subst r. exists h'. split; [exact E|].
    rewrite <- E.
    apply (heap_ensure_run_bucket_filled_attempts
             sample_rebuild_volatile sample_remove_volatile
             10 sample_run_bucket 1 run_heap).
Defined.

End RunRefilledSamples.
